(* ===== verification/_CoqProject ===== *)
-Q . S2P
Prelude.v
GoStrings.v
Util.v
ContainerHeap.v
Cache.v
CacheControl.v
Timeouts.v
Message.v
Commands.v
Events.v
Deadlines.v
Service.v
Connection.v
SubscriptionManager.v
Publisher.v
Reconnect.v
StopGroup.v
MessageLoop.v
Subscriber.v
Regexp.v
LogHandler.v
EventLoop.v
Base64.v
Logger.v
Settings.v
Provisioning.v
TpmTls.v
Strconv.v
HubConnection.v
Forwarding.v
Launcher.v
LauncherLife.v
Bridge.v
Flags.v
Main.v
