(* ===== verification/Prelude.v ===== *)
(** * Eclipse Kanto suite connector: a verification library

    The suite connector links a local MQTT broker (Mosquitto) to a cloud hub
    (Eclipse Hono, Bosch IoT Hub or AWS).  Devices publish events, telemetry and
    answers to the local broker; the connector completes their topics and
    publishes them to the Hub.  Commands of the Hub travel the other way.  What the
    local clients subscribe to is read from the log of the broker and subscribed
    at the Hub on their behalf.  The connector is told its identity by a
    provisioning file and is put together anew whenever that file changes.

    This library models the Go code under src/ as definitions of Rocq, function by
    function, and proves what the functions promise.  It assumes nothing: what is
    not the repository's own code (the paho client, watermill, gabs, mergo,
    fsnotify, go-tpm, the files, url.Parse, encoding/json) is an argument of the
    definitions that use it.

    ** The parts and their files

    - Prelude: outcomes (a Go function returns or panics), errors and errors.Is,
      64-bit integers, transition systems with reachability and invariants, the
      tactics [go_simpl], [go_cases], [bools].
    - GoStrings: package strings and slicing on byte strings.  Strconv:
      strconv.ParseInt with base 0.  Base64: the standard encoding.  Regexp: the
      regular expressions of the log handler, as matchers.
    - Util: util/utils.go, util/certificate.go (timeouts, command topics, filters).
    - ContainerHeap, Cache, CacheControl: cache/cache.go.  ContainerHeap is the
      transcription of container/heap; Cache holds the critical sections over a
      store of elements; CacheControl is the cleaner goroutine with its control
      channel, as a step relation.
    - Message, Timeouts: connector/context.go, marshaller.go, utils.go, errors.go;
      Timeouts has the floating point product of calcTimeout.
    - Commands, Events, Service: routing/commands.go, utils.go, events.go,
      timestamp.go, service.go.  Commands talks to the cache through the class
      [RequestCache], which Cache implements; Deadlines runs it on that cache, with
      the clock of the cleaner.
    - Connection, SubscriptionManager: connector/config.go, connection.go,
      nop_store.go, subscription_manager.go, over the session of a broker.
    - Publisher, MessageLoop, Subscriber: connector/publisher.go, ratelimiter.go,
      publisher_mock.go, subscriber.go, wrapper.go.
    - LogHandler: routing/subscription.go, over the class [SubscriptionManager]
      that the manager implements; container/list is transcribed.  Forwarding puts
      the log handler, the manager, the connection of each launch and its request
      bus together.
    - Reconnect: externalReconnect of connection.go, HonoConnect and LocalConnect
      of config/connections.go.  StopGroup: how the goroutines of a connection
      interleave (Connect, Disconnect, onConnected, onConnectionLost with
      externalReconnect), over sync.WaitGroup.
    - EventLoop: cmd/connector/app/eventloop.go, util/file_watcher.go.
    - Logger: logger/.  Settings, Provisioning: config/settings.go,
      parse_provisioning.go and the settings of connections.go.
    - TpmTls: tpmtls/.  HubConnection: config/tls_config.go and the constructors of
      connections.go.
    - Launcher: Run of cmd/connector/launcher.go, over the operations of the files
      above.  LauncherLife: the goroutine it starts, with HonoConnect, the
      goroutines of the Hub client (connected, lost, reconnecting, calling the
      listeners) and Stop, as a step relation.  Bridge composes the buses of the
      routes of a launch.
    - Flags: flags/.  Main: cmd/connector/main.go, connector/trace.go.

    State is a record per component (Cache, MQTTConnection, subscriptionManager,
    LogHandler, loop, life ...), an operation a function from the state and its
    arguments to the new state and the results; a loop over the environment takes
    the list of what the environment answers; goroutines that interleave are a
    relation between states, one constructor per step a goroutine can be
    preempted after.

    ** What is proved

    - Data: ParseTimeout, ParseCmdTopic, NormalizeTopic and the regular
      expressions on every input (Util, LogHandler); base64 and the log levels
      round trip.
    - Cache: it refines a finite map with expiry, its heap and map stay
      consistent; the cleaner converges; the control channel is safe but for one
      race, which is shown.
    - Routing: a command reaches the device and its answer the cloud, once, as long
      as the command waits for it and no longer (Deadlines); events
      are completed, and the one status per connection event is the right one.
      The routes together (Bridge): none hears what another one publishes, every
      published topic is well formed, every delivered message is handled once, a
      command is delivered to its device and to no other, and it is stated exactly
      which messages make a handler panic.
    - Subscriptions: the manager refines a multiset of topics over the broker's
      session, clean or persistent; the log handler keeps it in step with the list
      it prints; nothing is lost while ForwardTo runs.  From the log of the local
      broker to the session at the Hub, over launches and lost connections:
      Forwarding.
    - Connecting: what HonoConnect reports and returns, and whom externalReconnect
      notifies and when it gives up, is fixed attempt by attempt (Reconnect).
    - Goroutines: the message loop sends nothing on a closed channel and ends; a
      launcher stops its router, gives back its cache and its cleaner's resources
      and disconnects what it had connected, with the exceptions that are shown, and
      Stop returns (LauncherLife); at most one launcher runs.
      The stop group of a connection counts its handlers, Disconnect returns and
      leaves a closed connection (StopGroup).
    - Configuration: the provisioning file replaces the settings field by field;
      a launch publishes exactly the statuses of its failures; the command line
      arrives in the fields of the settings.
    - Resources: the constructors of the Hub connection give back the descriptors
      and keys they hold, with the exceptions that are stated.

    Some theorems show a defect rather than a promise: their names say what
    happens ([clearExpired_incomplete], [Close_races_with_Put],
    [Add_overtaken_by_Remove], [offline_removal_is_lost],
    [cancellation_alone_blocks], [removeAllSubscriptions_removes_one],
    [readPassword_ambiguous], [readAddress_empties], [tpm_ownership_not_kept],
    [cancelled_connect_leaks], [late_notification_leaks], [stop_group_reused],
    [connected_after_disconnect], [Connect_overtaken_by_Disconnect]).

    ** Fuel and bounds

    Only the sift loops of container/heap and the loops over container/list recurse
    on fuel: the length of the heap, respectively of the list, plus one.  The
    invariants of ContainerHeap, Cache and LogHandler show that this is enough, so
    [NoFuel] never appears in a result a theorem speaks of.  Integers are
    mathematical with the wrap-around of int64 written out where the code
    multiplies durations (ParseTimeout, the settings of the environment);
    elsewhere they are lengths and counters far below it.

    ** Not modelled

    The contents of log messages but for the logger itself and ConfigCheck, the
    paho options that keep their defaults, the start of watermill routers and the
    helpers of the tests (testutil, the mock launcher of the event loop); nor a
    generic Hub in Forwarding, to which a launch does not forward subscriptions.
    What a goroutine does between two accesses to shared state is one step; the
    client of paho is a connection that is opened, lost and closed.  In
    LauncherLife the cloud client is connected and disconnected in one step, and a
    wait of HonoConnect is longer than nothing: HUB_CONNECT_MUL, the factor of its
    intervals, is taken to be positive.  Where the provisioning file has an object
    in place of an array, gabs visits it in no fixed order; Provisioning takes one.
    url.Parse and strconv.ParseFloat are arguments rather than transcriptions. *)

From Stdlib Require Export Ascii ZArith Lia.
From stdpp Require Export base gmap strings relations gmultiset list.

#[export] Set Default Goal Selector "!".
#[export] Set Warnings "-clear-no-such-hyp".

Declare Scope go_scope.
Open Scope go_scope.

(** ** Outcomes of Go code

    A Go function returns or panics.  [NoFuel] is the third answer of the
    definitions that recurse on fuel; every theorem about such a definition
    shows that the fuel it is given suffices, so that [NoFuel] is excluded. *)

Inductive panic :=
  | IndexOutOfRange
  | SliceOutOfRange
  | NilDereference
  | TypeAssertion
  | DivideByZero
  | SendOnClosed
  | CloseOfClosed
  | PanicValue (what : string).

Inductive outcome (A : Type) :=
  | Done (a : A)
  | Panicked (p : panic)
  | NoFuel.
Arguments Done {A} _.
Arguments Panicked {A} _.
Arguments NoFuel {A}.

#[export] Instance panic_eq_dec : EqDecision panic.
Proof. solve_decision. Defined.

#[export] Instance outcome_eq_dec `{EqDecision A} : EqDecision (outcome A).
Proof. solve_decision. Defined.

#[export] Instance outcome_ret : MRet outcome := @Done.

#[export] Instance outcome_bind : MBind outcome := λ A B f m,
  match m with
  | Done a => f a
  | Panicked p => Panicked p
  | NoFuel => NoFuel
  end.

#[export] Instance outcome_fmap : FMap outcome := λ A B f m,
  match m with
  | Done a => Done (f a)
  | Panicked p => Panicked p
  | NoFuel => NoFuel
  end.

Definition is_done {A} (m : outcome A) : bool :=
  match m with Done _ => true | _ => false end.

Lemma bind_done {A B} (a : A) (m : outcome A) (f : A → outcome B) :
  m = Done a → (m ≫= f) = f a.
Proof. by intros ->. Qed.

Lemma is_done_bind {A B} (m : outcome A) (f : A → outcome B) :
  is_done (m ≫= f) = true ↔ ∃ a, m = Done a ∧ is_done (f a) = true.
Proof. destruct m; simpl; naive_solver. Qed.

Lemma is_done_bind_intro {A B} (m : outcome A) (f : A → outcome B) :
  is_done m = true → (∀ a, is_done (f a) = true) → is_done (m ≫= f) = true.
Proof. destruct m; simpl; naive_solver. Qed.

Lemma is_done_Done {A} (m : outcome A) : is_done m = true ↔ ∃ a, m = Done a.
Proof. destruct m; naive_solver. Qed.

(** Reading through a pointer or an index that may be invalid. *)
Definition or_panic {A} (p : panic) (o : option A) : outcome A :=
  match o with Some a => Done a | None => Panicked p end.

(** ** Go errors

    [errors.New], [errors.Errorf] and [errors.Wrap]; [errors.Is] follows the
    chain of wrapped errors.  Sentinel errors are compared by identity, which
    their (distinct) messages stand for. *)

Inductive error :=
  | Sentinel (name : string)
  | Errorf (msg : string)
  | Wrap (cause : error) (msg : string).

#[export] Instance error_eq_dec : EqDecision error.
Proof. solve_decision. Defined.

Fixpoint errors_is (err target : error) : bool :=
  bool_decide (err = target) ||
  match err with
  | Wrap cause _ => errors_is cause target
  | _ => false
  end.

Lemma errors_is_refl e : errors_is e e = true.
Proof. destruct e; simpl; rewrite bool_decide_eq_true_2; done. Qed.

Lemma errors_is_wrap e m t :
  errors_is e t = true → errors_is (Wrap e m) t = true.
Proof. simpl. intros ->. apply orb_true_r. Qed.

(** A Go function with an [error] result. *)
Inductive result (A : Type) :=
  | Ok (a : A)
  | Err (e : error).
Arguments Ok {A} _.
Arguments Err {A} _.

#[export] Instance result_ret : MRet result := @Ok.
#[export] Instance result_bind : MBind result := λ A B f m,
  match m with Ok a => f a | Err e => Err e end.

(** ** Machine integers

    Go's [int], [int64] and [time.Duration] are 64-bit two's complement. *)

Local Open Scope Z_scope.

Definition two63 : Z := 2 ^ 63.
Definition two64 : Z := 2 ^ 64.

Definition wrap64 (z : Z) : Z := (z + two63) `mod` two64 - two63.

Definition in_int64 (z : Z) : Prop := - two63 ≤ z < two63.

#[export] Instance in_int64_dec z : Decision (in_int64 z).
Proof. unfold in_int64. apply _. Defined.

Lemma wrap64_range z : in_int64 (wrap64 z).
Proof.
  unfold in_int64, wrap64.
  pose proof (Z.mod_pos_bound (z + two63) two64 ltac:(done)) as Hb.
  assert (two64 = 2 * two63)%Z as He by done. lia.
Qed.

Lemma wrap64_id z : in_int64 z → wrap64 z = z.
Proof.
  unfold in_int64, wrap64. intros Hz.
  assert (two64 = 2 * two63)%Z as He by done.
  rewrite Z.mod_small; lia.
Qed.

(** ** Durations, in nanoseconds *)

Definition Nanosecond : Z := 1.
Definition Millisecond : Z := 1000000.
Definition Second : Z := 1000000000.
Definition Minute : Z := 60 * Second.
Definition Hour : Z := 60 * Minute.

(** [time.Until] and [Time.Sub] saturate at the bounds of [Duration]. *)
Definition saturate64 (z : Z) : Z := Z.max (- two63) (Z.min (two63 - 1) z).

Local Close Scope Z_scope.

(** ** Transition systems: reachability and invariants *)

Lemma rtc_preserved {St} (R : St → St → Prop) (I : St → Prop) s s' :
  (∀ s s', I s → R s s' → I s') → I s → rtc R s s' → I s'.
Proof. intros Hstep Hs Hrtc. induction Hrtc; eauto. Qed.

Class TransitionSystem (St : Type) := {
  ts_init : St → Prop;
  ts_step : St → St → Prop;
}.

Section transition_systems.
Context `{TransitionSystem St}.

Definition reachable (s : St) : Prop := ∃ s0, ts_init s0 ∧ rtc ts_step s0 s.

Definition inductive_invariant (I : St → Prop) : Prop :=
  (∀ s, ts_init s → I s) ∧ (∀ s s', I s → ts_step s s' → I s').

Lemma invariant_reachable (I : St → Prop) :
  inductive_invariant I → ∀ s, reachable s → I s.
Proof.
  intros [Hinit Hstep] s (s0 & H0 & Hrtc). eapply rtc_preserved; eauto.
Qed.

(** A reachable state keeps being reachable along a step. *)
Lemma reachable_step s s' : reachable s → ts_step s s' → reachable s'.
Proof. intros (s0 & H0 & Hr) Hs. exists s0. eauto using rtc_r. Qed.
End transition_systems.

(** Runs with the labels of their steps, what their steps preserve, and the bound
    that a measure gives: a step gains at least [gain] on the measure and costs at
    most [cost]. *)
Inductive labelled_run {K St} (step : K → St → St → Prop) : list K → St → St → Prop :=
  | run_nil s : labelled_run step [] s s
  | run_cons k ks s1 s2 s3 :
      step k s1 s2 → labelled_run step ks s2 s3 → labelled_run step (k :: ks) s1 s3.

Lemma labelled_run_preserved {K St} (step : K → St → St → Prop) (P : K → Prop) (I : St → Prop)
    ks s s' :
  (∀ k s s', P k → I s → step k s s' → I s') → Forall P ks →
  labelled_run step ks s s' → I s → I s'.
Proof.
  intros Hstep HP Hrun. induction Hrun as [|k ks s1 s2 s3 Hs Hr IH]; [done|].
  apply Forall_cons in HP as [Hk HP]. eauto.
Qed.

Lemma labelled_run_measure {K St} (step : K → St → St → Prop) (P : K → Prop) (I : St → Prop)
    (m : St → nat) (gain cost : K → nat) ks s s' :
  (∀ k s s', P k → I s → step k s s' → I s') →
  (∀ k s s', P k → I s → step k s s' → m s' + gain k <= m s + cost k)%nat →
  Forall P ks → labelled_run step ks s s' → I s →
  (sum_list_with gain ks + m s' <= m s + sum_list_with cost ks)%nat.
Proof.
  intros HI Hm HP Hrun. induction Hrun as [|k ks s1 s2 s3 Hs Hr IH]; intros Hs1; cbn; [lia|].
  apply Forall_cons in HP as [Hk HP].
  specialize (Hm _ _ _ Hk Hs1 Hs). specialize (IH HP (HI _ _ _ Hk Hs1 Hs)). lia.
Qed.

Lemma labelled_run_rtc `{TransitionSystem St} {K} (step : K → St → St → Prop) ks s s' :
  (∀ k s s', step k s s' → ts_step s s') → labelled_run step ks s s' → rtc ts_step s s'.
Proof. intros Hstep Hrun. induction Hrun; [done|]. eapply rtc_l; eauto. Qed.

(** ** Automation *)

Create HintDb go.

(** Case analysis on the innermost scrutinee of the goal or of a hypothesis,
    closing the absurd cases. *)
Ltac go_cases :=
  repeat (case_match || case_bool_decide || case_decide); simplify_eq/=.

(** Unfold the binds of the monads of this file. *)
Ltac go_simpl :=
  unfold mbind, mret, fmap, outcome_bind, outcome_ret, outcome_fmap,
    result_bind, result_ret in *; simpl in *.

(** Split the boolean connectives of the context into propositions. *)
Ltac bools :=
  repeat match goal with
    | H : _ && _ = true |- _ => apply andb_true_iff in H; destruct H
    | H : _ || _ = false |- _ => apply orb_false_iff in H; destruct H
    | H : negb _ = true |- _ => apply negb_true_iff in H
    | H : negb _ = false |- _ => apply negb_false_iff in H
    | H : Z.leb _ _ = true |- _ => apply Z.leb_le in H
    | H : Z.leb _ _ = false |- _ => apply Z.leb_gt in H
    | H : Z.ltb _ _ = true |- _ => apply Z.ltb_lt in H
    | H : Z.ltb _ _ = false |- _ => apply Z.ltb_ge in H
    | H : Z.eqb _ _ = true |- _ => apply Z.eqb_eq in H
    | H : Z.eqb _ _ = false |- _ => apply Z.eqb_neq in H
    | H : Nat.leb _ _ = true |- _ => apply Nat.leb_le in H
    | H : Nat.leb _ _ = false |- _ => apply Nat.leb_gt in H
    | H : Nat.ltb _ _ = true |- _ => apply Nat.ltb_lt in H
    | H : Nat.ltb _ _ = false |- _ => apply Nat.ltb_ge in H
    | H : bool_decide _ = true |- _ => apply bool_decide_eq_true in H
    | H : bool_decide _ = false |- _ => apply bool_decide_eq_false in H
    end.
