(* ===== verification/GoStrings.v ===== *)
(** * Go strings

    Byte strings and the functions of Go's [strings] package the connector
    uses, with the slicing expressions [s\[lo:hi\]] (which panic out of
    range).  A Go string is a sequence of bytes: [string] of the Standard
    Library is exactly that. *)

From S2P Require Import Prelude.

#[global] Arguments String.append !_ _ / : simpl nomatch.

Local Open Scope Z_scope.

Definition slen (s : string) : Z := Z.of_nat (String.length s).

(** [strip_prefix p s] is what follows the prefix [p] of [s]. *)
Fixpoint strip_prefix (p s : string) : option string :=
  match p, s with
  | EmptyString, _ => Some s
  | String a p', String b s' =>
      if Ascii.eqb a b then strip_prefix p' s' else None
  | String _ _, EmptyString => None
  end.

Definition HasPrefix (s p : string) : bool :=
  match strip_prefix p s with Some _ => true | None => false end.

Fixpoint drop_bytes (n : nat) (s : string) : string :=
  match n, s with
  | O, _ => s
  | S n', String _ s' => drop_bytes n' s'
  | S _, EmptyString => EmptyString
  end.

Fixpoint take_bytes (n : nat) (s : string) : string :=
  match n, s with
  | O, _ => EmptyString
  | S n', String c s' => String c (take_bytes n' s')
  | S _, EmptyString => EmptyString
  end.

Definition HasSuffix (s p : string) : bool :=
  (String.length p <=? String.length s)%nat &&
  bool_decide (drop_bytes (String.length s - String.length p) s = p).

(** [s\[lo:hi\]] *)
Definition slice (s : string) (lo hi : Z) : outcome string :=
  if (0 <=? lo) && (lo <=? hi) && (hi <=? slen s)
  then Done (take_bytes (Z.to_nat (hi - lo)) (drop_bytes (Z.to_nat lo) s))
  else Panicked SliceOutOfRange.

(** [s\[lo:\]] *)
Definition slice_from (s : string) (lo : Z) : outcome string :=
  slice s lo (slen s).

(** [s\[i\]] *)
Definition byte_at (s : string) (i : Z) : outcome ascii :=
  if 0 <=? i
  then or_panic IndexOutOfRange (String.get (Z.to_nat i) s)
  else Panicked IndexOutOfRange.

(** [strings.Index], -1 when absent *)
Fixpoint Index (s sub : string) : Z :=
  if HasPrefix s sub then 0 else
  match s with
  | EmptyString => -1
  | String _ s' => let r := Index s' sub in if r <? 0 then -1 else r + 1
  end.

(** [strings.IndexRune] for a one-byte rune *)
Fixpoint IndexByte (s : string) (c : ascii) : Z :=
  match s with
  | EmptyString => -1
  | String b s' =>
      if Ascii.eqb b c then 0 else
      let r := IndexByte s' c in if r <? 0 then -1 else r + 1
  end.

Definition Contains (s sub : string) : bool := 0 <=? Index s sub.

(** The order of [sort.Strings]: by bytes. *)
Definition str_le (a b : string) : Prop := String.leb a b = true.

#[export] Instance str_le_dec : RelDecision str_le.
Proof. intros a b. unfold str_le. apply _. Defined.

(** [strings.Replace(s, old, new, 1)] *)
Fixpoint ReplaceFirst (s old new : string) : string :=
  match strip_prefix old s with
  | Some rest => new +:+ rest
  | None =>
      match s with
      | EmptyString => EmptyString
      | String c s' => String c (ReplaceFirst s' old new)
      end
  end.

(** [strings.ReplaceAll] for a non-empty [old]: [skip] counts the bytes of the
    current occurrence that are still to be passed over. *)
Fixpoint replace_all_from (skip : nat) (s old new : string) : string :=
  match s with
  | EmptyString => EmptyString
  | String c s' =>
      match skip with
      | S skip' => replace_all_from skip' s' old new
      | O =>
          if HasPrefix s old
          then new +:+ replace_all_from (String.length old - 1) s' old new
          else String c (replace_all_from 0 s' old new)
      end
  end.

Definition ReplaceAll (s old new : string) : string :=
  replace_all_from 0 s old new.

(** [strings.Split] for a one-byte separator: never the empty list *)
Fixpoint Split (s : string) (sep : ascii) : list string :=
  match s with
  | EmptyString => [""]
  | String c s' =>
      if Ascii.eqb c sep then "" :: Split s' sep
      else match Split s' sep with
           | seg :: segs => String c seg :: segs
           | [] => [String c ""]
           end
  end.

Fixpoint Join (l : list string) (sep : string) : string :=
  match l with
  | [] => ""
  | [s] => s
  | s :: l' => s +:+ sep +:+ Join l' sep
  end.

(** The byte [c] does not occur in [s]. *)
Fixpoint byte_free (c : ascii) (s : string) : bool :=
  match s with
  | EmptyString => true
  | String b s' => negb (Ascii.eqb b c) && byte_free c s'
  end.

Definition slash : ascii := "/"%char.

(** ** Lengths and concatenation *)

Lemma sapp_assoc a b c : (a +:+ b) +:+ c = a +:+ (b +:+ c).
Proof. induction a; simpl; congruence. Qed.

Lemma sapp_nil_r a : a +:+ "" = a.
Proof. induction a; simpl; congruence. Qed.

Lemma slength_app a b :
  String.length (a +:+ b) = (String.length a + String.length b)%nat.
Proof. induction a; simpl; congruence. Qed.

Lemma slen_app a b : slen (a +:+ b) = slen a + slen b.
Proof. unfold slen. rewrite slength_app. lia. Qed.

Lemma slen_nonneg s : 0 <= slen s.
Proof. unfold slen. lia. Qed.

Lemma slen_cons c s : slen (String c s) = 1 + slen s.
Proof. unfold slen. simpl. lia. Qed.

Lemma slen_zero s : slen s = 0 ↔ s = "".
Proof. unfold slen. destruct s; simpl; split; intros; done || lia. Qed.

Lemma slen_pos s : s ≠ "" → (0 <? slen s) = true.
Proof.
  intros Hs. apply Z.ltb_lt. pose proof (slen_nonneg s).
  assert (slen s ≠ 0) by by rewrite slen_zero. lia.
Qed.

(** Linear arithmetic on lengths of concatenations. *)
Ltac slen_lia :=
  rewrite ?slen_app, ?slen_cons in *; change (slen "") with 0 in *;
  repeat match goal with
    | |- context [slen ?s] =>
        lazymatch goal with
        | H : 0 <= slen s |- _ => fail
        | _ => pose proof (slen_nonneg s)
        end
    | _ : context [slen ?s] |- _ =>
        lazymatch goal with
        | H : 0 <= slen s |- _ => fail
        | _ => pose proof (slen_nonneg s)
        end
    end; lia.

Create HintDb gostr.
#[export] Hint Resolve slen_nonneg : gostr.

Lemma drop_bytes_app a b : drop_bytes (String.length a) (a +:+ b) = b.
Proof. induction a; simpl; done. Qed.

Lemma take_bytes_app a b : take_bytes (String.length a) (a +:+ b) = a.
Proof. induction a; simpl; congruence. Qed.

Lemma take_drop_bytes n s : take_bytes n s +:+ drop_bytes n s = s.
Proof. revert s. induction n; intros [|c s]; simpl; congruence. Qed.

Lemma take_bytes_length s : take_bytes (String.length s) s = s.
Proof. induction s; simpl; congruence. Qed.

Lemma slength_take_bytes n s :
  String.length (take_bytes n s) = Nat.min n (String.length s).
Proof.
  revert s. induction n; intros [|c s]; simpl; rewrite ?IHn; done.
Qed.

(** ** Prefixes, suffixes and slices *)

Lemma strip_prefix_spec p s r : strip_prefix p s = Some r ↔ s = p +:+ r.
Proof.
  revert s. induction p as [|a p IH]; intros s; simpl.
  - split; congruence.
  - destruct s as [|b s]; [split; congruence|].
    destruct (Ascii.eqb_spec a b) as [->|Hne].
    + rewrite IH. split; congruence.
    + split; congruence.
Qed.

Lemma strip_prefix_app p r : strip_prefix p (p +:+ r) = Some r.
Proof. by apply strip_prefix_spec. Qed.

Lemma HasPrefix_spec s p : HasPrefix s p = true ↔ ∃ r, s = p +:+ r.
Proof.
  unfold HasPrefix. destruct (strip_prefix p s) eqn:E.
  - apply strip_prefix_spec in E. naive_solver.
  - split; [done|]. intros [r ->]. by rewrite strip_prefix_app in E.
Qed.

Lemma HasPrefix_app p r : HasPrefix (p +:+ r) p = true.
Proof. apply HasPrefix_spec. eauto. Qed.

Lemma HasSuffix_spec s p : HasSuffix s p = true ↔ ∃ r, s = r +:+ p.
Proof.
  unfold HasSuffix. split.
  - intros H. bools. exists (take_bytes (String.length s - String.length p) s).
    rewrite <-(take_drop_bytes (String.length s - String.length p) s) at 1.
    congruence.
  - intros [r ->]. rewrite slength_app. apply andb_true_iff. split.
    + apply Nat.leb_le. lia.
    + apply bool_decide_eq_true.
      replace (_ + _ - _)%nat with (String.length r) by lia.
      apply drop_bytes_app.
Qed.

Lemma slice_mid a b c :
  slice (a +:+ b +:+ c) (slen a) (slen a + slen b) = Done b.
Proof.
  unfold slice. rewrite !slen_app.
  pose proof (slen_nonneg a). pose proof (slen_nonneg b).
  pose proof (slen_nonneg c).
  repeat (rewrite (proj2 (Z.leb_le _ _)) by lia). simpl.
  replace (slen a + slen b - slen a) with (slen b) by lia.
  unfold slen. rewrite !Nat2Z.id, drop_bytes_app. by rewrite take_bytes_app.
Qed.

Lemma slice_from_app a b : slice_from (a +:+ b) (slen a) = Done b.
Proof.
  unfold slice_from. rewrite slen_app. rewrite <-(sapp_nil_r b) at 1.
  apply slice_mid.
Qed.

Lemma slice_panics s lo hi :
  lo < 0 ∨ hi < lo ∨ slen s < hi → slice s lo hi = Panicked SliceOutOfRange.
Proof.
  intros H. unfold slice.
  destruct (_ && _ && _) eqn:E; [|done]. bools. lia.
Qed.

Lemma byte_at_app a c b : byte_at (a +:+ String c b) (slen a) = Done c.
Proof.
  unfold byte_at. rewrite (proj2 (Z.leb_le _ _)) by apply slen_nonneg.
  unfold slen. rewrite Nat2Z.id. induction a; done.
Qed.

(** ** Searching *)

Lemma byte_free_app c a b :
  byte_free c (a +:+ b) = byte_free c a && byte_free c b.
Proof.
  induction a; simpl; [done|]. by rewrite IHa, andb_assoc.
Qed.

Lemma IndexByte_first c a b :
  byte_free c a = true → IndexByte (a +:+ String c b) c = slen a.
Proof.
  induction a as [|x a IH]; simpl.
  - by rewrite Ascii.eqb_refl.
  - intros H. bools. rewrite H. rewrite IH by done.
    rewrite (proj2 (Z.ltb_ge _ _)) by auto with gostr.
    rewrite slen_cons. lia.
Qed.

Lemma IndexByte_absent c s : IndexByte s c = -1 ↔ byte_free c s = true.
Proof.
  induction s as [|x s IH]; simpl; [done|].
  destruct (Ascii.eqb x c); simpl; [done|]. rewrite <-IH.
  destruct (IndexByte s c <? 0) eqn:E; bools; [|lia].
  split; [|done]. intros _.
  assert (∀ t, -1 <= IndexByte t c) as Hlow.
  { clear. induction t; simpl; [lia|]. destruct (Ascii.eqb _ _); [lia|].
    destruct (_ <? 0) eqn:E; bools; lia. }
  specialize (Hlow s). lia.
Qed.

(** A string with [c] in it splits at its first [c]. *)
Lemma byte_first_split c s :
  byte_free c s = false →
  ∃ a b, s = a +:+ String c b ∧ byte_free c a = true.
Proof.
  induction s as [|x s IH]; simpl; [done|].
  destruct (Ascii.eqb_spec x c) as [->|Hne]; simpl.
  - intros _. by exists "", s.
  - intros H. destruct (IH H) as (a & b & -> & Ha).
    exists (String x a), b. simpl.
    apply Ascii.eqb_neq in Hne. by rewrite Hne, Ha.
Qed.

(** ** Splitting and joining *)

Lemma Split_nonempty s sep : Split s sep ≠ [].
Proof. destruct s; simpl; [done|]. repeat case_match; done. Qed.

Lemma Split_free s sep : byte_free sep s = true → Split s sep = [s].
Proof.
  induction s as [|c s IH]; simpl; [done|]. intros H. bools.
  rewrite H, IH by done. done.
Qed.

Lemma Split_app seg s sep :
  byte_free sep seg = true →
  Split (seg +:+ String sep s) sep = seg :: Split s sep.
Proof.
  induction seg as [|c seg IH]; simpl.
  - by rewrite Ascii.eqb_refl.
  - intros H. bools. rewrite H, IH by done. done.
Qed.

Lemma Split_segment seg s :
  byte_free slash seg = true →
  Split (seg +:+ "/" +:+ s) slash = seg :: Split s slash.
Proof. apply Split_app. Qed.

Lemma Join_cons s l sep :
  l ≠ [] → Join (s :: l) sep = s +:+ sep +:+ Join l sep.
Proof. destruct l; done. Qed.

(** [strings.Join] undoes [strings.Split]. *)
Lemma Join_Split s sep : Join (Split s sep) (String sep "") = s.
Proof.
  induction s as [|c s IH]; [done|]. simpl Split.
  destruct (Ascii.eqb_spec c sep) as [->|Hne].
  - rewrite Join_cons by apply Split_nonempty. simpl. by rewrite IH.
  - destruct (Split s sep) as [|seg segs] eqn:E.
    + by apply Split_nonempty in E.
    + destruct segs; simpl in *; congruence.
Qed.

(** [strings.Split] undoes [strings.Join] on segments without the separator. *)
Lemma Split_Join l sep :
  l ≠ [] → Forall (λ seg, byte_free sep seg = true) l →
  Split (Join l (String sep "")) sep = l.
Proof.
  intros Hne HF. induction HF as [|seg l Hseg HF IH]; [done|].
  destruct l as [|seg' l]; [by apply Split_free|].
  rewrite Join_cons by done. simpl "+:+" at 2.
  change (Split (seg +:+ String sep (Join (seg' :: l) (String sep ""))) sep
    = seg :: seg' :: l).
  rewrite Split_app by done. by rewrite IH.
Qed.

Lemma Split_segments_free s sep :
  Forall (λ seg, byte_free sep seg = true) (Split s sep).
Proof.
  induction s as [|c s IH]; simpl; [by repeat constructor|].
  destruct (Ascii.eqb c sep) eqn:E; [by constructor|].
  destruct (Split s sep); [by repeat constructor; simpl; rewrite E|].
  inversion_clear IH. constructor; [|done]. simpl. by rewrite E.
Qed.

(** Replacing the first occurrence of a pattern whose last byte occurs nowhere
    before it. *)
Lemma strip_prefix_marked c p a r :
  byte_free c p = true → byte_free c a = true → a ≠ "" →
  strip_prefix (p +:+ String c "") (a +:+ p +:+ String c r) = None.
Proof.
  intros Hp Ha Hne. destruct (strip_prefix _ _) as [t|] eqn:E; [exfalso|done].
  apply strip_prefix_spec in E. apply (f_equal (λ s, IndexByte s c)) in E.
  rewrite <-sapp_assoc, IndexByte_first in E
    by (rewrite byte_free_app, Ha, Hp; done).
  rewrite sapp_assoc in E. simpl in E. rewrite IndexByte_first in E by done.
  rewrite slen_app in E. apply Hne, slen_zero. lia.
Qed.

Lemma ReplaceFirst_head old new r :
  ReplaceFirst (old +:+ r) old new = new +:+ r.
Proof.
  destruct (old +:+ r) eqn:E; cbn [ReplaceFirst];
    rewrite <-E, strip_prefix_app; done.
Qed.

Lemma ReplaceFirst_marked c p a r new :
  byte_free c p = true → byte_free c a = true →
  ReplaceFirst (a +:+ p +:+ String c r) (p +:+ String c "") new
  = a +:+ new +:+ r.
Proof.
  intros Hp. induction a as [|x a IH]; intros Ha.
  - simpl. replace (p +:+ String c r) with ((p +:+ String c "") +:+ r)
      by (rewrite sapp_assoc; done). apply ReplaceFirst_head.
  - pose proof (strip_prefix_marked c p (String x a) r Hp Ha ltac:(done)) as Hs.
    simpl in Hs |- *. simpl in Ha. bools. rewrite Hs, IH by done. done.
Qed.
