(* ===== verification/Util.v ===== *)
(** * Topics, timeouts and paths: util/utils.go and util/certificate.go *)

From S2P Require Import Prelude GoStrings.
From stdpp Require Import pretty.

Local Open Scope Z_scope.

(** ** strconv *)

Definition digit_of (c : ascii) : option Z :=
  let n := Z.of_N (N_of_ascii c) in
  if (48 <=? n) && (n <=? 57) then Some (n - 48) else None.

Fixpoint parse_digits (acc : Z) (s : string) : option Z :=
  match s with
  | EmptyString => Some acc
  | String c s' =>
      match digit_of c with
      | Some d => parse_digits (acc * 10 + d) s'
      | None => None
      end
  end.

(** An unsigned decimal: at least one digit. *)
Definition parse_uint (s : string) : option Z :=
  match s with EmptyString => None | _ => parse_digits 0 s end.

(** [strconv.Atoi] (and [ParseInt(s, 10, 64)]): an optional sign, decimal
    digits, the 64-bit range; [None] stands for its error. *)
Definition Atoi (s : string) : option Z :=
  let signed :=
    match s with
    | String "-" s' => Z.opp <$> parse_uint s'
    | String "+" s' => parse_uint s'
    | _ => parse_uint s
    end in
  match signed with
  | Some n => if decide (in_int64 n) then Some n else None
  | None => None
  end.

(** ** util/utils.go *)

(** NormalizeTopic converts command topics to their long form. *)
Definition NormalizeTopic (topic : string) : string :=
  let topic :=
    if HasPrefix topic "c//" then ReplaceFirst topic "c" "command" else topic in
  if HasSuffix topic "/q/#" then ReplaceFirst topic "/q/#" "/req/#" else topic.

Definition ParseCmdTopic (topic : string) : outcome (string * string * string) :=
  if HasPrefix topic "c//" then
    rest ← slice_from topic 3;
    let stop := 3 + IndexByte rest slash in
    cmdType ← slice topic (stop + 1) (stop + 2);
    prefix ← slice topic 3 stop;
    suffix ← slice_from topic (stop + 3);
    Done (cmdType, prefix, suffix)
  else if HasPrefix topic "command//" then
    rest ← slice_from topic 9;
    let stop := 9 + IndexByte rest slash in
    cmdType ← slice topic (stop + 1) (stop + 4);
    prefix ← slice topic 9 stop;
    suffix ← slice_from topic (stop + 5);
    Done (cmdType, prefix, suffix)
  else Done ("", "", "").

Definition ResponseStatusTopic (inboxTopic : string) (status : Z)
    : outcome string :=
  '(_, prefix, suffix) ← ParseCmdTopic inboxTopic;
  req ← slice suffix 0 (IndexByte suffix slash);
  Done ("command//" +:+ prefix +:+ "/res/" +:+ req +:+ "/" +:+ pretty status).

Definition NewHonoUserName (deviceAuthID hubTenantID : string) : string :=
  deviceAuthID +:+ "@" +:+ hubTenantID.

(** The answers of [os.Stat] the code distinguishes. *)
Inductive stat_answer :=
  | StatInfo (is_dir : bool)
  | StatNotExist
  | StatFailed (e : error).

Definition ValidPath (stat : string → stat_answer) (filename : string)
    : result unit :=
  if slen filename =? 0 then Err (Sentinel "empty path") else
  match stat filename with
  | StatInfo _ => Ok tt
  | StatNotExist => Ok tt
  | StatFailed e => Err e
  end.

Definition FileExists (stat : string → stat_answer) (filename : string) : bool :=
  if slen filename =? 0 then false else
  match stat filename with
  | StatInfo is_dir => negb is_dir
  | StatNotExist => false
  | StatFailed _ => false
  end.

Definition inTimeoutRange (timeout : Z) : bool :=
  (0 <=? timeout) && (timeout <? Hour).

(** The product of a parsed number and a unit wraps around like [int64]. *)
Definition scaled (unit : Z) (n : option Z) : Z :=
  match n with Some i => wrap64 (i * unit) | None => -1 end.

Definition ParseTimeout (timeout : string) : outcome Z :=
  let l := slen timeout in
  if 0 <? l then
    c ← byte_at timeout (l - 1);
    t ← (if Ascii.eqb c "m" then
           digits ← slice timeout 0 (l - 1);
           Done (scaled Minute (Atoi digits))
         else if Ascii.eqb c "s" then
           c' ← byte_at timeout (l - 2);
           if Ascii.eqb c' "m" then
             digits ← slice timeout 0 (l - 2);
             Done (scaled Millisecond (Atoi digits))
           else
             digits ← slice timeout 0 (l - 1);
             Done (scaled Second (Atoi digits))
         else Done (scaled Second (Atoi timeout)));
    Done (if inTimeoutRange t then t else 60 * Second)
  else Done (60 * Second).

(** ** util/certificate.go *)

Definition cn : string := "{{subject-cn}}".
Definition dn : string := "{{subject-dn}}".

(** [chain] are the DER certificates of the [tls.Certificate]; [parse] is
    [x509.ParseCertificate], giving the subject's distinguished and common
    names. *)
Definition ReplacePattern (parse : string → result (string * string))
    (pattern : string) (chain : list string) : result string :=
  match chain with
  | [] => Err (Sentinel
      "failed to load Subject and Common Name from certificates file")
  | leaf :: _ =>
      match parse leaf with
      | Err e => Err e
      | Ok (subject, commonName) =>
          let pattern :=
            if 0 <=? Index pattern dn then ReplaceAll pattern dn subject
            else pattern in
          let pattern :=
            if 0 <=? Index pattern cn then ReplaceAll pattern cn commonName
            else pattern in
          Ok pattern
      end
  end.

(** ** Strings seen from their end *)

Lemma string_snoc s : s = "" ∨ ∃ s' c, s = s' +:+ String c "".
Proof.
  induction s as [|c s IH]; [by left|right].
  destruct IH as [-> | (s' & d & ->)]; [by exists "", c|by exists (String c s'), d].
Qed.

Lemma byte_at_last s c : byte_at (s +:+ String c "") (slen (s +:+ String c "") - 1) = Done c.
Proof.
  rewrite slen_app. replace (slen s + _ - 1) with (slen s) by slen_lia.
  apply byte_at_app.
Qed.

Lemma slice_init s t : slice (s +:+ t) 0 (slen (s +:+ t) - slen t) = Done s.
Proof.
  rewrite slen_app. replace (slen s + slen t - slen t) with (0 + slen s) by slen_lia.
  apply (slice_mid "" s t).
Qed.

(** ** Decimal numbers *)

Lemma parse_digits_last acc s c n :
  parse_digits acc (s +:+ String c "") = Some n → is_Some (digit_of c).
Proof.
  revert acc. induction s as [|d s IH]; intros acc; simpl.
  - destruct (digit_of c); [eauto|done].
  - destruct (digit_of d); [eauto|done].
Qed.

Lemma parse_uint_last s c n :
  parse_uint (s +:+ String c "") = Some n → is_Some (digit_of c).
Proof.
  intros H. apply (parse_digits_last 0 s c n). destruct s; exact H.
Qed.

(** A number ends with a digit. *)
Lemma Atoi_last s c n : Atoi (s +:+ String c "") = Some n → is_Some (digit_of c).
Proof.
  assert (∀ t m, parse_uint (t +:+ String c "") = Some m → is_Some (digit_of c))
    as Hl by (intros t m; exact (parse_uint_last t c m)).
  unfold Atoi. destruct s as [|d s]; simpl.
  - destruct c as [[] [] [] [] [] [] [] []]; vm_compute; eauto.
  - intros H.
    destruct d as [[] [] [] [] [] [] [] []]; simpl in H;
      try (destruct (parse_uint (s +:+ String c "")) eqn:E; [by eauto|done]);
      (destruct (parse_digits _ _) eqn:E; [by eapply parse_digits_last|done]).
Qed.

Lemma Atoi_nonempty n : Atoi "" = Some n → False.
Proof. done. Qed.

Lemma digit_not c d : digit_of d = None → is_Some (digit_of c) → Ascii.eqb c d = false.
Proof. intros Hd [n Hn]. apply Ascii.eqb_neq. congruence. Qed.

(** ** Timeouts *)

(** The suffixes ParseTimeout understands, and the unit each one stands for. *)
Inductive timeout_unit := NoUnit | Seconds | Milliseconds | Minutes.

Definition unit_suffix (u : timeout_unit) : string :=
  match u with
  | NoUnit => "" | Seconds => "s" | Milliseconds => "ms" | Minutes => "m"
  end.

Definition unit_duration (u : timeout_unit) : Z :=
  match u with
  | NoUnit => Second | Seconds => Second
  | Milliseconds => Millisecond | Minutes => Minute
  end.

(** The value a timeout is read as when the product is [t]. *)
Definition accepted_timeout (t : Z) : Z :=
  if inTimeoutRange t then t else 60 * Second.

Lemma accepted_timeout_range t : 0 <= accepted_timeout t < Hour.
Proof.
  unfold accepted_timeout, inTimeoutRange. destruct (_ && _) eqn:E; bools; [lia|].
  unfold Hour, Minute, Second. lia.
Qed.

Lemma ParseTimeout_default s c :
  Ascii.eqb c "m" = false → Ascii.eqb c "s" = false →
  ParseTimeout (s +:+ String c "") =
  Done (accepted_timeout (scaled Second (Atoi (s +:+ String c "")))).
Proof.
  intros Hm Hs. unfold ParseTimeout.
  rewrite (proj2 (Z.ltb_lt _ _))
    by slen_lia.
  rewrite byte_at_last. go_simpl. by rewrite Hm, Hs.
Qed.

Lemma ParseTimeout_minutes s :
  ParseTimeout (s +:+ "m") = Done (accepted_timeout (scaled Minute (Atoi s))).
Proof.
  unfold ParseTimeout.
  rewrite (proj2 (Z.ltb_lt _ _))
    by slen_lia.
  rewrite byte_at_last. go_simpl.
  change 1 with (slen "m") at 1. by rewrite slice_init.
Qed.

Lemma ParseTimeout_seconds s c :
  Ascii.eqb c "m" = false →
  ParseTimeout ((s +:+ String c "") +:+ "s") =
  Done (accepted_timeout (scaled Second (Atoi (s +:+ String c "")))).
Proof.
  intros Hm. unfold ParseTimeout.
  rewrite (proj2 (Z.ltb_lt _ _))
    by slen_lia.
  rewrite byte_at_last. go_simpl.
  replace (slen ((s +:+ String c "") +:+ "s") - 2) with (slen s)
    by slen_lia.
  rewrite sapp_assoc at 1. simpl. rewrite byte_at_app, Hm.
  change 1 with (slen "s") at 1. by rewrite slice_init.
Qed.

Lemma ParseTimeout_milliseconds s :
  ParseTimeout (s +:+ "ms") = Done (accepted_timeout (scaled Millisecond (Atoi s))).
Proof.
  replace (s +:+ "ms") with ((s +:+ "m") +:+ "s") by (rewrite sapp_assoc; done).
  unfold ParseTimeout.
  rewrite (proj2 (Z.ltb_lt _ _))
    by slen_lia.
  rewrite byte_at_last. go_simpl.
  replace (slen ((s +:+ "m") +:+ "s") - 2) with (slen s)
    by slen_lia.
  rewrite sapp_assoc at 1. simpl. rewrite byte_at_app. simpl.
  rewrite sapp_assoc.
  replace (slen s) with (slen (s +:+ "ms") - slen "ms")
    by slen_lia.
  simpl. by rewrite slice_init.
Qed.

(** C33.  ParseTimeout on a number followed by one of its units (none, s, ms,
    m) is the 64-bit product of the two when that lies in [0, 1h), and the
    default of 60 seconds otherwise. *)
Theorem ParseTimeout_functional digits n u :
  Atoi digits = Some n →
  ParseTimeout (digits +:+ unit_suffix u) =
  Done (accepted_timeout (wrap64 (n * unit_duration u))).
Proof.
  intros Hn. destruct (string_snoc digits) as [-> | (s & c & ->)]; [done|].
  pose proof (Atoi_last _ _ _ Hn) as Hc.
  pose proof (digit_not c "m" eq_refl Hc). pose proof (digit_not c "s" eq_refl Hc).
  destruct u; simpl.
  - rewrite sapp_nil_r, ParseTimeout_default by done. by rewrite Hn.
  - rewrite ParseTimeout_seconds by done. by rewrite Hn.
  - rewrite ParseTimeout_milliseconds. by rewrite Hn.
  - rewrite ParseTimeout_minutes. by rewrite Hn.
Qed.

Lemma ParseTimeout_range s :
  s ≠ "s" → ∃ t, ParseTimeout s = Done t ∧ 0 <= t < Hour.
Proof.
  intros Hs.
  assert (∀ t, 0 <= accepted_timeout t < Hour) by apply accepted_timeout_range.
  destruct (string_snoc s) as [-> | (s' & c & ->)].
  { exists (60 * Second). split; [done|]. unfold Hour, Minute, Second. lia. }
  destruct (Ascii.eqb_spec c "m") as [->|Hm].
  { rewrite ParseTimeout_minutes. eauto. }
  destruct (Ascii.eqb_spec c "s") as [->|Hs'].
  - destruct (string_snoc s') as [-> | (s'' & d & ->)]; [done|].
    destruct (Ascii.eqb_spec d "m") as [->|Hd].
    + rewrite sapp_assoc. simpl. rewrite ParseTimeout_milliseconds. eauto.
    + rewrite ParseTimeout_seconds by by apply Ascii.eqb_neq. eauto.
  - rewrite ParseTimeout_default by by apply Ascii.eqb_neq. eauto.
Qed.

(** ParseTimeout returns a duration in [0, 1h) on every string but "s",
    on which it indexes before the start of the string and panics. *)
Theorem ParseTimeout_total s :
  if decide (s = "s") then ParseTimeout s = Panicked IndexOutOfRange
  else ∃ t, ParseTimeout s = Done t ∧ 0 <= t < Hour.
Proof. case_decide as Hs; [by subst|by apply ParseTimeout_range]. Qed.

(** The multiplication by the unit overflows: 307445735 minutes (585
    years, far outside the accepted range) are read as 26.29 seconds. *)
Theorem ParseTimeout_overflow :
  ∃ digits n, Atoi digits = Some n ∧ Hour <= n * Minute ∧
    ParseTimeout (digits +:+ "m") = Done 26290448384.
Proof. exists "307445735", 307445735. vm_compute. done. Qed.

(** ** Command topics *)

(** The two spellings of a command topic: "c//" with one-letter types and
    "command//" with three-letter ones. *)
Inductive topic_form := Short | Long.

Definition form_prefix (f : topic_form) : string :=
  match f with Short => "c//" | Long => "command//" end.

(** Bytes of the command type in each form. *)
Definition form_type_len (f : topic_form) : Z :=
  match f with Short => 1 | Long => 3 end.

Definition cmd_topic (f : topic_form) (device rest : string) : string :=
  form_prefix f +:+ device +:+ String slash rest.

Lemma slice_pieces a b c s lo hi :
  s = a +:+ b +:+ c → lo = slen a → hi = slen a + slen b → slice s lo hi = Done b.
Proof. intros -> -> ->. apply slice_mid. Qed.

Lemma slice_from_pieces a b s lo :
  s = a +:+ b → lo = slen a → slice_from s lo = Done b.
Proof. intros -> ->. apply slice_from_app. Qed.

Lemma ParseCmdTopic_rest f rest :
  ParseCmdTopic (form_prefix f +:+ rest) =
  let topic := form_prefix f +:+ rest in
  let stop := slen (form_prefix f) + IndexByte rest slash in
  cmdType ← slice topic (stop + 1) (stop + 1 + form_type_len f);
  prefix ← slice topic (slen (form_prefix f)) stop;
  suffix ← slice_from topic (stop + 2 + form_type_len f);
  Done (cmdType, prefix, suffix).
Proof.
  unfold ParseCmdTopic.
  destruct f; cbn [form_prefix form_type_len].
  - rewrite HasPrefix_app. rewrite (slice_from_pieces "c//" rest ("c//" +:+ rest) 3) by reflexivity.
    cbn [mbind outcome_bind]. change (slen "c//") with 3. cbv zeta.
    set (i := IndexByte rest slash).
    replace (3 + i + 1 + 1) with (3 + i + 2) by lia.
    by replace (3 + i + 2 + 1) with (3 + i + 3) by lia.
  - rewrite HasPrefix_app. change (HasPrefix ("command//" +:+ rest) "c//") with false.
    rewrite (slice_from_pieces "command//" rest ("command//" +:+ rest) 9)
      by reflexivity.
    cbn [mbind outcome_bind]. change (slen "command//") with 9. cbv zeta.
    set (i := IndexByte rest slash).
    replace (9 + i + 1 + 3) with (9 + i + 4) by lia.
    by replace (9 + i + 2 + 3) with (9 + i + 5) by lia.
Qed.

(** The parts of a well-formed command topic are recovered. *)
Lemma ParseCmdTopic_parts f device cmdType suffix :
  byte_free slash device = true → slen cmdType = form_type_len f →
  ParseCmdTopic (cmd_topic f device (cmdType +:+ String slash suffix))
  = Done (cmdType, device, suffix).
Proof.
  intros Hd Ht. unfold cmd_topic. rewrite ParseCmdTopic_rest. cbv zeta.
  rewrite IndexByte_first, <-Ht by done.
  set (p := form_prefix f).
  rewrite (bind_done cmdType).
  2:{ apply (slice_pieces (p +:+ device +:+ "/") cmdType (String slash suffix));
      [by rewrite !sapp_assoc|slen_lia|slen_lia]. }
  rewrite (bind_done device).
  2:{ apply (slice_pieces p device (String slash (cmdType +:+ String slash suffix)));
      [done|slen_lia|slen_lia]. }
  rewrite (bind_done suffix); [done|].
  apply (slice_from_pieces (p +:+ device +:+ "/" +:+ cmdType +:+ "/") suffix).
  - rewrite !sapp_assoc. simpl. by rewrite ?sapp_assoc.
  - slen_lia.
Qed.

(** A command topic that ends with its type is cut off: the suffix is sliced
    from beyond the end. *)
Lemma ParseCmdTopic_cut f device cmdType :
  byte_free slash device = true → slen cmdType = form_type_len f →
  ParseCmdTopic (cmd_topic f device cmdType) = Panicked SliceOutOfRange.
Proof.
  intros Hd Ht. unfold cmd_topic. rewrite ParseCmdTopic_rest. cbv zeta.
  rewrite IndexByte_first, <-Ht by done.
  set (p := form_prefix f).
  rewrite (bind_done cmdType).
  2:{ apply (slice_pieces (p +:+ device +:+ "/") cmdType "");
      [rewrite !sapp_assoc; simpl; by rewrite ?sapp_nil_r|slen_lia|slen_lia]. }
  rewrite (bind_done device).
  2:{ apply (slice_pieces p device (String slash cmdType)); [done|slen_lia|slen_lia]. }
  unfold slice_from. rewrite slice_panics; [done|]. slen_lia.
Qed.

Lemma slice_done_iff s lo hi :
  is_done (slice s lo hi) = true ↔ 0 <= lo ∧ lo <= hi ∧ hi <= slen s.
Proof.
  unfold slice. destruct (_ && _ && _) eqn:E.
  - bools. naive_solver.
  - split; [done|]. intros (?&?&?).
    repeat (apply andb_false_iff in E as [E|E]); bools; lia.
Qed.

(** C34.  ParseCmdTopic returns on exactly the topics outside both command
    prefixes and the command topics with a device, a "/", and enough bytes for
    a command type and the separator after it; on any other topic (for example
    "command//dev/req", which the subscription filters also match) it slices
    out of range and panics. *)
Theorem ParseCmdTopic_defined topic :
  is_done (ParseCmdTopic topic) = true ↔
  (HasPrefix topic "c//" = false ∧ HasPrefix topic "command//" = false) ∨
  ∃ f device rest, topic = cmd_topic f device rest ∧
    byte_free slash device = true ∧ form_type_len f + 1 <= slen rest.
Proof.
  split.
  - intros H.
    assert ((HasPrefix topic "c//" = false ∧ HasPrefix topic "command//" = false)
      ∨ ∃ f rest, topic = form_prefix f +:+ rest) as [?|(f & rest & ->)].
    { destruct (HasPrefix topic "c//") eqn:E1.
      { apply HasPrefix_spec in E1 as [r ->]. right. by exists Short, r. }
      destruct (HasPrefix topic "command//") eqn:E2; [|by left].
      apply HasPrefix_spec in E2 as [r ->]. right. by exists Long, r. }
    { by left. }
    right. rewrite ParseCmdTopic_rest in H. cbv zeta in H.
    destruct (byte_free slash rest) eqn:Hfree.
    + apply IndexByte_absent in Hfree. rewrite Hfree in H.
      apply is_done_bind in H as (? & _ & H). apply is_done_bind in H as (? & H & _).
      assert (is_done (slice (form_prefix f +:+ rest) (slen (form_prefix f))
        (slen (form_prefix f) + -1)) = true) as Hd by by rewrite H.
      apply slice_done_iff in Hd. lia.
    + apply byte_first_split in Hfree as (dev & r & -> & Hdev).
      exists f, dev, r. split_and!; [done|done|].
      rewrite IndexByte_first in H by done.
      do 2 apply is_done_bind in H as (? & _ & H).
      apply is_done_bind in H as (? & H & _). unfold slice_from in H.
      assert (is_done (slice (form_prefix f +:+ dev +:+ String slash r)
        (slen (form_prefix f) + slen dev + 2 + form_type_len f)
        (slen (form_prefix f +:+ dev +:+ String slash r))) = true)
        as Hd by by rewrite H.
      apply slice_done_iff in Hd. slen_lia.
  - intros [[E1 E2]|(f & dev & rest & -> & Hdev & Hlen)].
    { unfold ParseCmdTopic. by rewrite E1, E2. }
    unfold cmd_topic. rewrite ParseCmdTopic_rest. cbv zeta.
    rewrite IndexByte_first by done.
    assert (0 <= form_type_len f) by by destruct f.
    repeat (apply is_done_bind_intro; [apply slice_done_iff; slen_lia|intros ?]).
    done.
Qed.

(** ** Normalisation of subscription filters *)

(** The filter a device subscribes with to receive its commands; Mosquitto logs
    any mixture of the two spellings. *)
Definition form_request (f : topic_form) : string :=
  match f with Short => "/q/#" | Long => "/req/#" end.

Definition cmd_filter (prefix request : topic_form) (device : string) : string :=
  form_prefix prefix +:+ device +:+ form_request request.

Lemma byte_free_prefix f : byte_free "#" (form_prefix f) = true.
Proof. by destruct f. Qed.

Lemma last_byte_app a b c d :
  a +:+ String c "" = b +:+ String d "" → a = b ∧ c = d.
Proof.
  revert b. induction a as [|x a IH]; intros [|y b] H; simpl in H; injection H; try done.
  - by destruct b.
  - by destruct a.
  - intros H' ->. by destruct (IH _ H') as [-> ->].
Qed.

Lemma cmd_filter_long_suffix a : HasSuffix (a +:+ "/req/#") "/q/#" = false.
Proof.
  destruct (HasSuffix _ _) eqn:E; [exfalso|done]. apply HasSuffix_spec in E as [r Hr].
  replace (a +:+ "/req/#") with ((((a +:+ "/re") +:+ "q") +:+ "/") +:+ "#") in Hr
    by (rewrite !sapp_assoc; done).
  replace (r +:+ "/q/#") with ((((r +:+ "/") +:+ "q") +:+ "/") +:+ "#") in Hr
    by (rewrite !sapp_assoc; done).
  do 3 apply last_byte_app in Hr as [Hr _].
  replace (a +:+ "/re") with ((a +:+ "/r") +:+ "e") in Hr by (rewrite !sapp_assoc; done).
  by apply last_byte_app in Hr as [_ ?].
Qed.

Lemma HasPrefix_long_short s : HasPrefix ("command//" +:+ s) "c//" = false.
Proof. done. Qed.

Lemma NormalizeTopic_request request a :
  byte_free "#" a = true →
  (if HasSuffix (a +:+ form_request request) "/q/#"
   then ReplaceFirst (a +:+ form_request request) "/q/#" "/req/#"
   else a +:+ form_request request) = a +:+ "/req/#".
Proof.
  intros Ha. destruct request; simpl.
  - rewrite (proj2 (HasSuffix_spec _ _)) by eauto.
    exact (ReplaceFirst_marked "#" "/q/" a "" "/req/#" eq_refl Ha).
  - by rewrite cmd_filter_long_suffix.
Qed.

Lemma NormalizeTopic_filter prefix request device :
  byte_free "#" device = true →
  NormalizeTopic (cmd_filter prefix request device) = cmd_filter Long Long device.
Proof.
  intros Hd. unfold NormalizeTopic, cmd_filter.
  destruct prefix; cbn [form_prefix].
  - rewrite HasPrefix_app.
    change (ReplaceFirst ("c//" +:+ device +:+ form_request request) "c" "command")
      with ("command//" +:+ device +:+ form_request request).
    rewrite <-sapp_assoc, NormalizeTopic_request; [by rewrite sapp_assoc|done].
  - rewrite HasPrefix_long_short.
    rewrite <-sapp_assoc, NormalizeTopic_request; [by rewrite sapp_assoc|done].
Qed.

(** C35.  NormalizeTopic sends all four spellings of the command filter of a
    device to the one long spelling, distinct devices to distinct filters, and
    is idempotent on them. *)
Theorem NormalizeTopic_canonical p r p' r' device device' :
  byte_free "#" device = true → byte_free "#" device' = true →
  NormalizeTopic (cmd_filter p r device) = cmd_filter Long Long device ∧
  NormalizeTopic (NormalizeTopic (cmd_filter p r device))
    = NormalizeTopic (cmd_filter p r device) ∧
  (NormalizeTopic (cmd_filter p r device) = NormalizeTopic (cmd_filter p' r' device')
   ↔ device = device').
Proof.
  intros Hd Hd'. rewrite !NormalizeTopic_filter by done. split_and!; [done..|].
  split; [|by intros ->]. unfold cmd_filter; intros H.
  apply (inj (String.append _)) in H.
  apply (f_equal (λ s, take_bytes (String.length s - 6) s)) in H.
  cbn [form_request] in H.
  rewrite !slength_app in H. simpl in H. rewrite !Nat.add_sub in H.
  by rewrite !take_bytes_app in H.
Qed.

Lemma NormalizeTopic_canonical_witness :
  NormalizeTopic "c//ns:dev/q/#" = "command//ns:dev/req/#".
Proof.
  exact (proj1 (NormalizeTopic_canonical Short Short Long Long "ns:dev" "ns:dev"
    eq_refl eq_refl)).
Defined.

Lemma ParseTimeout_functional_witness :
  Atoi "500" = Some 500 ∧ ParseTimeout "500ms" = Done (500 * Millisecond).
Proof.
  split; [vm_compute; reflexivity|].
  exact (ParseTimeout_functional "500" 500 Milliseconds eq_refl).
Defined.

(** ** Certificate patterns *)

Lemma Index_nonneg s sub : 0 <= Index s sub ↔ ∃ a b, s = a +:+ sub +:+ b.
Proof.
  induction s as [|c s IH]; cbn [Index].
  - destruct (HasPrefix "" sub) eqn:E.
    + apply HasPrefix_spec in E as [r ->]. split; [|lia]. by exists "", r.
    + split; [lia|]. intros (a & b & H). destruct a; [|done].
      simpl in H. by rewrite H, HasPrefix_app in E.
  - destruct (HasPrefix (String c s) sub) eqn:E.
    + apply HasPrefix_spec in E as [r Hr]. rewrite Hr. split; [|lia].
      by exists "", r.
    + destruct (Index s sub <? 0) eqn:Es; bools.
      * split; [lia|]. intros (a & b & H). destruct a as [|d a]; simpl in H.
        { by rewrite H, HasPrefix_app in E. }
        simplify_eq. assert (0 <= Index (a +:+ sub +:+ b) sub); [|lia].
        apply IH. eauto.
      * split; [|lia]. intros _. destruct (proj1 IH Es) as (a & b & ->).
        by exists (String c a), b.
Qed.

Lemma replace_all_absent s old new :
  Index s old < 0 → replace_all_from 0 s old new = s.
Proof.
  induction s as [|c s IH]; cbn [Index replace_all_from]; [done|].
  destruct (HasPrefix _ _); [lia|]. destruct (Index s old <? 0) eqn:E; bools; [|lia].
  intros _. by rewrite IH.
Qed.

Lemma guarded_replace s old new :
  (if 0 <=? Index s old then ReplaceAll s old new else s) = ReplaceAll s old new.
Proof.
  destruct (0 <=? Index s old) eqn:E; bools; [done|].
  unfold ReplaceAll. by rewrite replace_all_absent by lia.
Qed.

(** The two guards of ReplacePattern skip replacements that would change
    nothing. *)
Lemma ReplacePattern_eq parse pattern leaf chain subject commonName :
  parse leaf = Ok (subject, commonName) →
  ReplacePattern parse pattern (leaf :: chain) =
  Ok (ReplaceAll (ReplaceAll pattern dn subject) cn commonName).
Proof.
  intros Hp. unfold ReplacePattern. rewrite Hp. by rewrite !guarded_replace.
Qed.
