(* ===== verification/ContainerHeap.v ===== *)
(** * container/heap

    The algorithms of Go's [container/heap] over its [heap.Interface], and
    their correctness against that interface: a client (the cache's
    [priorityqueue]) gives the operations and discharges [HeapLaws], and gets
    back that [Push], [Remove] and [Fix] succeed, keep the heap order and keep
    the elements. *)

From Stdlib Require Import ZifyNat.
From S2P Require Import Prelude.

(** Division by the constant 2 for [lia]. *)
Ltac Zify.zify_post_hook ::= Z.div_mod_to_equations.

(** ** The interface and the algorithms *)

Class HeapInterface (H A : Type) := {
  hLen : H → nat;
  hLess : H → nat → nat → outcome bool;
  hSwap : H → nat → nat → outcome H;
  hPush : A → H → outcome H;
  hPop : H → outcome (A * H);
}.

Definition parent (j : nat) : nat := (j - 1) / 2.

Section algorithms.
Context `{HeapInterface H A}.

Fixpoint heap_up (fuel : nat) (h : H) (j : nat) : outcome H :=
  match fuel with
  | O => NoFuel
  | S fuel =>
      let i := parent j in
      if i =? j then Done h else
      less ← hLess h j i;
      if less : bool then h ← hSwap h i j; heap_up fuel h i else Done h
  end.

(** Returns the final position: [down] answers [i > i0]. *)
Fixpoint heap_down (fuel : nat) (h : H) (i n : nat) : outcome (H * nat) :=
  match fuel with
  | O => NoFuel
  | S fuel =>
      let j1 := 2 * i + 1 in
      if n <=? j1 then Done (h, i) else
      let j2 := j1 + 1 in
      right ← (if j2 <? n then hLess h j2 j1 else Done false);
      let j := if right : bool then j2 else j1 in
      less ← hLess h j i;
      if less : bool then h ← hSwap h i j; heap_down fuel h j n
      else Done (h, i)
  end.

(** The part shared by [heap.Fix] and [heap.Remove]: move the element at [i]
    down, or up when it does not go down. *)
Definition heap_sift (h : H) (i n : nat) : outcome H :=
  '(h', i') ← heap_down (S n) h i n;
  if i <? i' then Done h' else heap_up (S i) h' i.

Definition heap_Push (h : H) (x : A) : outcome H :=
  h ← hPush x h;
  heap_up (hLen h) h (hLen h - 1).

Definition heap_Fix (h : H) (i : nat) : outcome H := heap_sift h i (hLen h).

Definition heap_Remove (h : H) (i : nat) : outcome (A * H) :=
  let n := hLen h - 1 in
  h ← (if n =? i then Done h else h ← hSwap h i n; heap_sift h i n);
  hPop h.
End algorithms.

(** ** The laws of the interface *)

Class HeapLaws (H A : Type) `{HeapInterface H A} := {
  items : H → list A;
  prio : H → A → Z;
  heap_ok : H → Prop;
  (* what no operation may change *)
  frame : H → H → Prop;
  pushable : H → A → Prop;

  frame_preorder :: PreOrder frame;
  frame_prio h h' a : frame h h' → prio h' a = prio h a;
  len_law h : hLen h = length (items h);
  less_law h i j a b :
    heap_ok h → items h !! i = Some a → items h !! j = Some b →
    hLess h i j = Done (prio h a <? prio h b)%Z;
  swap_law h i j a b :
    heap_ok h → items h !! i = Some a → items h !! j = Some b →
    ∃ h', hSwap h i j = Done h' ∧ heap_ok h' ∧ frame h h' ∧
      items h' = <[i:=b]> (<[j:=a]> (items h));
  push_law h a :
    heap_ok h → pushable h a →
    ∃ h', hPush a h = Done h' ∧ heap_ok h' ∧ frame h h' ∧
      items h' = items h ++ [a];
  pop_law h l a :
    heap_ok h → items h = l ++ [a] →
    ∃ h', hPop h = Done (a, h') ∧ heap_ok h' ∧ frame h h' ∧ items h' = l;
}.

(** ** Heap order on arrays of keys *)

Section order.
Local Open Scope Z_scope.
Implicit Types (k : nat → Z) (i j n e : nat).

Definition swapf k i j : nat → Z :=
  λ m, if decide (m = i) then k j else if decide (m = j) then k i else k m.

Definition heap_order k n : Prop :=
  ∀ i, (0 < i < n)%nat → k (parent i) <= k i.

(** The order holds at every edge that does not touch position [e], and
    around [e]: the element at [e] may be anything. *)
Definition heap_except k n e : Prop :=
  (∀ i, (0 < i < n)%nat → i ≠ e → parent i ≠ e → k (parent i) <= k i) ∧
  (∀ i, (0 < i < n)%nat → parent i = e → (0 < e)%nat → k (parent e) <= k i).

(** The element at [e] may only be too small. *)
Definition heap_but_up k n e : Prop :=
  heap_except k n e ∧ (∀ i, (0 < i < n)%nat → parent i = e → k e <= k i).

(** The element at [e] is not too small, unless [e] is the start [s]. *)
Definition heap_but_down k n s e : Prop :=
  heap_except k n e ∧ (s ≤ e)%nat ∧
  (s ≠ e → (0 < e)%nat ∧ k (parent e) <= k e).

Lemma parent_lt i : (0 < i)%nat → (parent i < i)%nat.
Proof. unfold parent. lia. Qed.

Lemma parent_child i c :
  (0 < c)%nat → parent c = i → c = (2 * i + 1)%nat ∨ c = (2 * i + 2)%nat.
Proof. unfold parent. lia. Qed.

Lemma parent_left i : parent (2 * i + 1) = i.
Proof. unfold parent. lia. Qed.

Lemma parent_right i : parent (2 * i + 1 + 1) = i.
Proof. unfold parent. lia. Qed.

Lemma heap_order_except k n e : heap_order k n → heap_except k n e.
Proof.
  intros Hk. split; [auto|]. intros i Hi He Hpos.
  pose proof (parent_lt i ltac:(lia)).
  pose proof (Hk i Hi). pose proof (Hk e ltac:(lia)). subst. lia.
Qed.

Lemma heap_except_ext k k' n e :
  (∀ i, (i < n)%nat → i ≠ e → k i = k' i) → heap_except k n e → heap_except k' n e.
Proof.
  intros Hext [H1 H2]. split.
  - intros i Hi Hne Hp. pose proof (parent_lt i ltac:(lia)).
    rewrite <-!Hext by (done || lia). auto.
  - intros i Hi Hp He. pose proof (parent_lt e He). pose proof (parent_lt i ltac:(lia)).
    rewrite <-!Hext by lia. auto.
Qed.

Lemma heap_but_up_done k n e :
  heap_but_up k n e → (e = 0%nat ∨ k (parent e) <= k e) → heap_order k n.
Proof.
  intros [[H1 H2] H3] He i Hi.
  destruct (decide (i = e)) as [->|Hne]; [destruct He; [lia|done]|].
  destruct (decide (parent i = e)) as [<-|Hp]; auto.
Qed.

Lemma heap_but_up_step k n e :
  heap_but_up k n e → (0 < e < n)%nat → k e < k (parent e) →
  heap_but_up (swapf k (parent e) e) n (parent e).
Proof.
  intros [[H1 H2] H3] He Hlt. pose proof (parent_lt e ltac:(lia)) as Hpe.
  split; [split|]; unfold swapf.
  - intros i Hi Hne Hp. pose proof (parent_lt i ltac:(lia)).
    destruct (decide (i = e)) as [->|Hie]; [done|].
    destruct (decide (parent i = e)) as [Hpi|Hpi].
    { rewrite decide_False, decide_False by done.
      pose proof (H2 i Hi Hpi ltac:(lia)). repeat case_decide; lia. }
    repeat case_decide; subst; try lia; auto.
  - intros i Hi Hp Hpos. pose proof (parent_lt (parent e) Hpos).
    pose proof (H1 (parent e) ltac:(lia) ltac:(lia) ltac:(lia)).
    pose proof (parent_lt i ltac:(lia)).
    repeat case_decide; subst; try lia.
    pose proof (H1 i Hi ltac:(lia) ltac:(lia)) as Hi1. rewrite Hp in Hi1. lia.
  - intros i Hi Hp. pose proof (parent_lt i ltac:(lia)).
    repeat case_decide; subst; try lia.
    pose proof (H1 i Hi ltac:(lia) ltac:(lia)) as Hi1. rewrite Hp in Hi1. lia.
Qed.

Lemma heap_but_down_step k n s e c :
  heap_but_down k n s e → (c < n)%nat → (0 < c)%nat → parent c = e → k c < k e →
  (∀ i, (0 < i < n)%nat → parent i = e → k c <= k i) →
  heap_but_down (swapf k e c) n s c.
Proof.
  intros ((H1 & H2) & Hs & H3) Hcn Hc0 Hc Hlt Hmin.
  pose proof (parent_lt c Hc0) as Hpc.
  split_and!; [split| |]; unfold swapf.
  - intros i Hi Hne Hp. pose proof (parent_lt i ltac:(lia)).
    destruct (decide (i = e)) as [->|Hie].
    { repeat case_decide; subst; try lia. apply H2; done || lia. }
    repeat case_decide; subst; try lia; auto.
  - intros i Hi Hp _. pose proof (parent_lt i ltac:(lia)).
    pose proof (H1 i Hi ltac:(lia) ltac:(lia)) as Hi1. rewrite Hp in Hi1.
    repeat case_decide; subst; lia.
  - lia.
  - intros _. split; [done|]. repeat case_decide; subst; lia.
Qed.

Lemma heap_but_down_done k n s e :
  heap_but_down k n s e → (∀ i, (0 < i < n)%nat → parent i = e → k e <= k i) →
  if decide (s = e) then heap_but_up k n e else heap_order k n.
Proof.
  intros ((H1 & H2) & Hs & H3) Hch. case_decide as Hse; [done|].
  apply (heap_but_up_done _ _ e); [done|]. right. apply H3. done.
Qed.

(** The root of a heap has the least key. *)
Lemma heap_order_root k n i : heap_order k n → (i < n)%nat → k 0%nat <= k i.
Proof.
  intros Hk. induction i as [i IH] using lt_wf_ind. intros Hi.
  destruct (decide (i = 0%nat)) as [->|Hne]; [lia|].
  pose proof (parent_lt i ltac:(lia)) as Hp.
  pose proof (Hk i ltac:(lia)). pose proof (IH _ Hp ltac:(lia)). lia.
Qed.
End order.

#[export] Instance heap_but_up_proper :
  Proper (pointwise_relation nat eq ==> eq ==> eq ==> iff) heap_but_up.
Proof.
  intros k k' Hk n ? <- e ? <-. unfold heap_but_up, heap_except.
  unfold pointwise_relation in Hk. by setoid_rewrite Hk.
Qed.

#[export] Instance heap_but_down_proper :
  Proper (pointwise_relation nat eq ==> eq ==> eq ==> eq ==> iff) heap_but_down.
Proof.
  intros k k' Hk n ? <- s ? <- e ? <-. unfold heap_but_down, heap_except.
  unfold pointwise_relation in Hk. by setoid_rewrite Hk.
Qed.

(** ** Correctness of the algorithms *)

Section correctness.
Context {H A : Type} {HI : HeapInterface H A} {HL : HeapLaws H A}.
Implicit Types (h : H) (i j n : nat) (a b : A).

Definition keys h : nat → Z := λ i,
  match items h !! i with Some a => prio h a | None => 0%Z end.

Definition heap_ordered h : Prop := heap_order (keys h) (length (items h)).

(** What an operation on the first [n] positions may do. *)
Definition rearranged n h h' : Prop :=
  heap_ok h' ∧ frame h h' ∧ take n (items h') ≡ₚ take n (items h) ∧
  drop n (items h') = drop n (items h).

Lemma rearranged_refl n h : heap_ok h → rearranged n h h.
Proof. intros Hok. split_and!; done || reflexivity. Qed.

Lemma rearranged_trans n h1 h2 h3 :
  rearranged n h1 h2 → rearranged n h2 h3 → rearranged n h1 h3.
Proof.
  intros (_ & Hf1 & Hp1 & Hd1) (Hok & Hf2 & Hp2 & Hd2).
  split_and!; [done|by etrans|by etrans|congruence].
Qed.

Lemma rearranged_permutation n h h' : rearranged n h h' → items h' ≡ₚ items h.
Proof.
  intros (_ & _ & Hp & Hd). rewrite <-(take_drop n (items h')), Hp, Hd.
  by rewrite take_drop.
Qed.

Lemma rearranged_length n h h' :
  rearranged n h h' → length (items h') = length (items h).
Proof. intros Hr. by rewrite (rearranged_permutation _ _ _ Hr). Qed.

Lemma keys_lookup h i a : items h !! i = Some a → keys h i = prio h a.
Proof. unfold keys. by intros ->. Qed.

Lemma less_keys h i j :
  heap_ok h → i < length (items h) → j < length (items h) →
  hLess h i j = Done (keys h i <? keys h j)%Z.
Proof.
  intros Hok [a Ha]%lookup_lt_is_Some [b Hb]%lookup_lt_is_Some.
  by rewrite (less_law _ _ _ a b), (keys_lookup _ i a), (keys_lookup _ j b).
Qed.

Lemma swap_keys h i j n :
  heap_ok h → n ≤ length (items h) → i < n → j < n →
  ∃ h', hSwap h i j = Done h' ∧ rearranged n h h' ∧
    items h' !! j = items h !! i ∧
    pointwise_relation nat eq (swapf (keys h) i j) (keys h').
Proof.
  intros Hok Hn Hi Hj.
  destruct (lookup_lt_is_Some_2 (items h) i ltac:(lia)) as [a Ha].
  destruct (lookup_lt_is_Some_2 (items h) j ltac:(lia)) as [b Hb].
  destruct (swap_law h i j a b Hok Ha Hb) as (h' & Hs & Hok' & Hf & Hit).
  exists h'. split_and!; [done|split_and!; [done|done|..]| |].
  - rewrite Hit, !take_insert_lt by lia.
    apply Permutation_insert_swap; by rewrite lookup_take_lt by lia.
  - by rewrite Hit, !drop_insert_lt by lia.
  - rewrite Hit, Ha. destruct (decide (i = j)) as [->|Hne].
    + rewrite list_lookup_insert_eq; [congruence|rewrite length_insert; lia].
    + rewrite list_lookup_insert_ne by done. apply list_lookup_insert_eq. lia.
  - intros m. unfold swapf, keys. rewrite Hit, !list_lookup_insert, length_insert.
    rewrite Ha, Hb. repeat case_decide; subst; simpl; try lia;
      rewrite ?(frame_prio _ _ _ Hf); try done.
    by destruct (items h !! m); rewrite ?(frame_prio _ _ _ Hf).
Qed.

Lemma heap_up_spec fuel h j n :
  heap_ok h → n ≤ length (items h) → j < n → j < fuel →
  heap_but_up (keys h) n j →
  ∃ h', heap_up fuel h j = Done h' ∧ rearranged n h h' ∧ heap_order (keys h') n.
Proof.
  revert h j. induction fuel as [|fuel IH]; intros h j Hok Hn Hj Hfuel Hup; [lia|].
  cbn [heap_up]. cbv zeta. destruct (Nat.eqb_spec (parent j) j) as [He|Hne].
  { exists h. split_and!; [done|by apply rearranged_refl|].
    apply (heap_but_up_done _ _ j); [done|left]. unfold parent in He. lia. }
  pose proof (parent_lt j ltac:(unfold parent in *; lia)) as Hlt.
  rewrite less_keys by (done || lia). rewrite (bind_done _ _ _ eq_refl).
  destruct (_ <? _)%Z eqn:Hless; bools.
  - destruct (swap_keys h (parent j) j n) as (h1 & Hs & Hr & _ & Hk); [done|lia..|].
    rewrite (bind_done _ _ _ Hs). pose proof (rearranged_length _ _ _ Hr).
    destruct (IH h1 (parent j)) as (h' & Hup' & Hr' & Ho);
      [apply Hr|lia..| |eauto using rearranged_trans].
    rewrite <-Hk. apply heap_but_up_step; lia || done.
  - exists h. split_and!; [done|by apply rearranged_refl|].
    apply (heap_but_up_done _ _ j); [done|right; lia].
Qed.

(** The child [heap_down] compares with: the smaller one. *)
Lemma smaller_child h e n :
  heap_ok h → n ≤ length (items h) → 2 * e + 1 < n →
  ∃ right : bool,
    (if 2 * e + 1 + 1 <? n then hLess h (2 * e + 1 + 1) (2 * e + 1) else Done false)
      = Done right ∧
    let c := if right then 2 * e + 1 + 1 else 2 * e + 1 in
    c < n ∧ parent c = e ∧
    ∀ i, 0 < i < n → parent i = e → (keys h c <= keys h i)%Z.
Proof.
  intros Hok Hn He.
  assert (∀ i, 0 < i → parent i = e → i = 2 * e + 1 ∨ i = 2 * e + 1 + 1) as Hch.
  { intros i Hi0 Hi. destruct (parent_child e i Hi0 Hi); lia. }
  destruct (2 * e + 1 + 1 <? n) eqn:Hlt; bools.
  - rewrite less_keys by (done || lia). eexists; split; [done|]. cbv zeta.
    destruct (_ <? _)%Z eqn:E; bools; cbv iota; (split_and!; [lia|apply parent_left ||
      apply parent_right|intros i Hi Hp; destruct (Hch i ltac:(lia) Hp) as [-> | ->]; lia]).
  - exists false. cbv zeta iota. split_and!; [done|lia|apply parent_left|].
    intros i Hi Hp. destruct (Hch i ltac:(lia) Hp) as [-> | ->]; lia.
Qed.

Lemma heap_down_spec fuel h s e n :
  heap_ok h → n ≤ length (items h) → e < n → n - e < fuel →
  heap_but_down (keys h) n s e →
  ∃ h' e', heap_down fuel h e n = Done (h', e') ∧ rearranged n h h' ∧ s ≤ e' ∧
    if decide (s = e') then heap_but_up (keys h') n s else heap_order (keys h') n.
Proof.
  revert h e. induction fuel as [|fuel IH]; intros h e Hok Hn He Hfuel Hd; [lia|].
  cbn [heap_down]. cbv zeta. pose proof Hd as (_ & Hse & _).
  destruct (n <=? 2 * e + 1) eqn:Hleaf; bools.
  { exists h, e. split_and!; [done|by apply rearranged_refl|done|].
    pose proof (heap_but_down_done _ _ _ _ Hd) as Hend.
    case_decide; subst; apply Hend; intros i Hi Hp;
      apply parent_child in Hp; lia. }
  destruct (smaller_child h e n Hok Hn Hleaf) as (right & -> & Hc & Hp & Hmin).
  rewrite (bind_done _ _ _ eq_refl).
  set (c := if right then 2 * e + 1 + 1 else 2 * e + 1) in *.
  assert (0 < c ∧ e < c) as [Hc0 Hec] by (unfold c; destruct right; lia).
  clearbody c.
  rewrite less_keys, (bind_done _ _ _ eq_refl) by (done || lia).
  destruct (_ <? _)%Z eqn:Hless; bools.
  - destruct (swap_keys h e c n) as (h1 & Hs & Hr & _ & Hk); [done|lia..|].
    rewrite (bind_done _ _ _ Hs). pose proof (rearranged_length _ _ _ Hr).
    destruct (IH h1 c) as (h' & e' & Hdn & Hr' & Hse' & Ho); [apply Hr|lia..| |].
    { rewrite <-Hk. by apply heap_but_down_step. }
    exists h', e'. split_and!; eauto using rearranged_trans.
  - exists h, e. split_and!; [done|by apply rearranged_refl|done|].
    pose proof (heap_but_down_done _ _ _ _ Hd) as Hend.
    case_decide; subst; apply Hend; intros i Hi Hpi;
      pose proof (Hmin i Hi Hpi); lia.
Qed.

Lemma heap_sift_spec h i n :
  heap_ok h → n ≤ length (items h) → i < n → heap_except (keys h) n i →
  ∃ h', heap_sift h i n = Done h' ∧ rearranged n h h' ∧ heap_order (keys h') n.
Proof.
  intros Hok Hn Hi Hex. unfold heap_sift.
  destruct (heap_down_spec (S n) h i i n) as (h1 & i' & Hd & Hr & Hi' & Ho);
    [done|done|done|lia|by split_and!|].
  rewrite (bind_done _ _ _ Hd). cbv beta iota. case_decide as Heq.
  - subst. rewrite Nat.ltb_irrefl.
    pose proof (rearranged_length _ _ _ Hr).
    destruct (heap_up_spec (S i') h1 i' n) as (h' & Hup & Hr' & Ho');
      [apply Hr|lia..|done|]. eauto using rearranged_trans.
  - rewrite (proj2 (Nat.ltb_lt _ _)) by lia. eauto.
Qed.

Lemma heap_ordered_ext h n :
  n = length (items h) → heap_order (keys h) n → heap_ordered h.
Proof. by intros ->. Qed.

(** [heap.Fix(h, i)] after the element at [i] changed. *)
Lemma heap_Fix_spec h i :
  heap_ok h → i < length (items h) → heap_except (keys h) (length (items h)) i →
  ∃ h', heap_Fix h i = Done h' ∧ heap_ok h' ∧ frame h h' ∧
    items h' ≡ₚ items h ∧ heap_ordered h'.
Proof.
  intros Hok Hi Hex. unfold heap_Fix. rewrite len_law.
  destruct (heap_sift_spec h i (length (items h)) Hok ltac:(lia) Hi Hex)
    as (h' & Hs & Hr & Ho).
  exists h'. pose proof (rearranged_length _ _ _ Hr).
  split_and!; [done|apply Hr|apply Hr|by eapply rearranged_permutation|].
  by eapply heap_ordered_ext.
Qed.

Lemma heap_Push_spec h x :
  heap_ok h → pushable h x → heap_ordered h →
  ∃ h', heap_Push h x = Done h' ∧ heap_ok h' ∧ frame h h' ∧
    items h' ≡ₚ x :: items h ∧ heap_ordered h'.
Proof.
  intros Hok Hx Ho. unfold heap_Push.
  destruct (push_law h x Hok Hx) as (h1 & Hp & Hok1 & Hf & Hit).
  rewrite (bind_done _ _ _ Hp), len_law.
  assert (length (items h1) = S (length (items h))) as Hlen
    by (rewrite Hit, length_app; simpl; lia).
  assert (∀ i, i < length (items h) → keys h1 i = keys h i) as Hkeys.
  { intros i Hi. unfold keys. rewrite Hit, lookup_app_l by done.
    by destruct (_ !! i); rewrite ?(frame_prio _ _ _ Hf). }
  destruct (heap_up_spec (length (items h1)) h1 (length (items h1) - 1)
    (length (items h1))) as (h' & Hup & Hr & Ho'); [done|lia..| |].
  { rewrite Hlen. split; [split|].
    - intros i Hi Hne Hne'. pose proof (parent_lt i ltac:(lia)).
      rewrite !Hkeys by lia. apply Ho. lia.
    - intros i Hi Hpar. pose proof (parent_lt i ltac:(lia)). lia.
    - intros i Hi Hpar. pose proof (parent_lt i ltac:(lia)). lia. }
  exists h'. pose proof (rearranged_length _ _ _ Hr).
  split_and!; [done|apply Hr|etrans; [done|apply Hr]| |by eapply heap_ordered_ext].
  rewrite (rearranged_permutation _ _ _ Hr), Hit. by rewrite Permutation_app_comm.
Qed.

Lemma pop_spec h n x :
  heap_ok h → length (items h) = S n → items h !! n = Some x →
  heap_order (keys h) n →
  ∃ h', hPop h = Done (x, h') ∧ heap_ok h' ∧ frame h h' ∧
    items h' ++ [x] = items h ∧ heap_ordered h'.
Proof.
  intros Hok Hlen Hx Ho.
  assert (items h = take n (items h) ++ [x]) as Hit.
  { rewrite <-(take_drop n (items h)) at 1. f_equal.
    rewrite (drop_S _ x) by done. by rewrite drop_ge by lia. }
  destruct (pop_law h _ x Hok Hit) as (h' & Hp & Hok' & Hf & Hit').
  exists h'. split_and!; [done|done|done|by rewrite Hit'|].
  apply (heap_ordered_ext _ n); [rewrite Hit', length_take; lia|].
  assert (∀ i, i < n → keys h' i = keys h i) as Hkeys.
  { intros i Hi. unfold keys. rewrite Hit', lookup_take_lt by done.
    by destruct (_ !! i); rewrite ?(frame_prio _ _ _ Hf). }
  intros i Hi. pose proof (parent_lt i ltac:(lia)).
  rewrite !Hkeys by lia. by apply Ho.
Qed.

Lemma heap_Remove_spec h i x :
  heap_ok h → items h !! i = Some x → heap_ordered h →
  ∃ h', heap_Remove h i = Done (x, h') ∧ heap_ok h' ∧ frame h h' ∧
    x :: items h' ≡ₚ items h ∧ heap_ordered h'.
Proof.
  intros Hok Hx Ho. pose proof (lookup_lt_Some _ _ _ Hx) as Hlt.
  unfold heap_Remove. rewrite len_law. set (n := length (items h) - 1).
  assert (length (items h) = S n) as Hn by lia. cbv zeta.
  assert (∃ h1, (if n =? i then Done h else h0 ← hSwap h i n; heap_sift h0 i n)
    = Done h1 ∧ heap_ok h1 ∧ frame h h1 ∧ items h1 ≡ₚ items h ∧
    items h1 !! n = Some x ∧ heap_order (keys h1) n)
    as (h1 & Hs & Hok1 & Hf1 & Hp1 & Hx1 & Ho1).
  { destruct (Nat.eqb_spec n i) as [->|Hne].
    { exists h. split_and!; [done..|]. intros j Hj. apply Ho. lia. }
    destruct (swap_keys h i n (S n)) as (h0 & Hsw & Hr0 & Hxn & Hk); [done|lia..|].
    destruct (heap_sift_spec h0 i n) as (h1 & Hs1 & Hr1 & Ho1);
      [apply Hr0|rewrite (rearranged_length _ _ _ Hr0); lia|lia| |].
    { eapply (heap_except_ext (keys h)).
      - intros j Hj Hji. rewrite <-(Hk j). unfold swapf.
        by rewrite !decide_False by lia.
      - apply heap_order_except. intros j Hj. apply Ho. lia. }
    exists h1. rewrite (bind_done _ _ _ Hsw). split_and!; [done|apply Hr1| | | |done].
    - etrans; [apply Hr0|apply Hr1].
    - by rewrite (rearranged_permutation _ _ _ Hr1), (rearranged_permutation _ _ _ Hr0).
    - destruct Hr1 as (_ & _ & _ & Hdrop). apply (f_equal (.!! 0)) in Hdrop.
      rewrite !lookup_drop, Nat.add_0_r in Hdrop. congruence. }
  rewrite (bind_done _ _ _ Hs).
  pose proof (Permutation_length Hp1) as Hl1.
  destruct (pop_spec h1 n x) as (h' & Hpop & Hok' & Hf' & Hit & Ho'); [done|lia|done..|].
  exists h'. split_and!; [done|done|by etrans| |done].
  by rewrite <-Hp1, <-Hit, Permutation_app_comm.
Qed.
End correctness.
