(* ===== verification/Cache.v ===== *)
(** * The TTL cache: cache/cache.go

    The queue and the map of a [Cache] hold pointers to the same [element]
    objects: the model keeps them in a store ([objects]) that both refer to by
    location, so that [update0] changes through the map what the queue orders,
    and the [index] that [Swap] writes is the one [remove0] reads. *)

From S2P Require Import Prelude ContainerHeap.

Local Open Scope Z_scope.

(** ** Data *)

Record element (V : Type) := Element {
  index : Z;
  key : string;
  value : V;
  ttl : Z;
  expTime : Z;
}.
Arguments Element {V} _ _ _ _ _.
Arguments index {V} _. Arguments key {V} _. Arguments value {V} _.
Arguments ttl {V} _. Arguments expTime {V} _.

(** The store of elements, by location, and the slice of pointers that is ordered. *)
Record priorityqueue (V : Type) := PQ {
  objects : gmap nat (element V);
  queue : list nat;
}.
Arguments PQ {V} _ _. Arguments objects {V} _. Arguments queue {V} _.

Record Cache (V : Type) := MkCache {
  closed : bool;
  pq : priorityqueue V;
  elements : gmap string nat;
  next_loc : nat;   (* the allocator: every location in use is below it *)
}.
Arguments MkCache {V} _ _ _ _. Arguments closed {V} _. Arguments pq {V} _.
Arguments elements {V} _. Arguments next_loc {V} _.

Section cache.
Context {V : Type}.
Implicit Types (q : priorityqueue V) (c : Cache V) (e : element V) (l : nat).

Definition load q l : outcome (element V) :=
  or_panic NilDereference (objects q !! l).

Definition with_index (i : Z) e : element V :=
  Element i (key e) (value e) (ttl e) (expTime e).

Definition set_index q l (i : Z) : priorityqueue V :=
  PQ (alter (with_index i) l (objects q)) (queue q).

Definition queue_at q (i : nat) : outcome nat :=
  or_panic IndexOutOfRange (queue q !! i).

(** ** heap.Interface for priorityqueue *)

Definition pq_Len q : nat := length (queue q).

Definition pq_Less q (i j : nat) : outcome bool :=
  li ← queue_at q i; ei ← load q li;
  lj ← queue_at q j; ej ← load q lj;
  Done (expTime ei <? expTime ej).

Definition pq_Swap q (i j : nat) : outcome (priorityqueue V) :=
  li ← queue_at q i;
  lj ← queue_at q j;
  let q := PQ (objects q) (<[i:=lj]> (<[j:=li]> (queue q))) in
  let q := set_index q lj (Z.of_nat i) in
  Done (set_index q li (Z.of_nat j)).

Definition pq_Push l q : outcome (priorityqueue V) :=
  let n := length (queue q) in
  let q := set_index q l (Z.of_nat n) in
  Done (PQ (objects q) (queue q ++ [l])).

Definition pq_Pop q : outcome (nat * priorityqueue V) :=
  item ← (if decide (queue q = []) then Panicked IndexOutOfRange
          else queue_at q (length (queue q) - 1));
  let q := set_index q item (-1) in
  Done (item, PQ (objects q) (take (length (queue q) - 1) (queue q))).

#[global] Instance pq_interface : HeapInterface (priorityqueue V) nat := {
  hLen := pq_Len; hLess := pq_Less; hSwap := pq_Swap;
  hPush := pq_Push; hPop := pq_Pop;
}.

(** priorityqueue.first *)
Definition pq_first q : outcome (option V) :=
  match queue q with
  | [] => Done None
  | l :: _ => e ← load q l; Done (Some (value e))
  end.

Definition heappush q l : outcome (priorityqueue V) := heap_Push q l.

(** [heap.Remove] and [heap.Fix] at the element's own index; on the index -1
    of an element outside the queue, [Remove] indexes out of range and [Fix]
    does nothing. *)
Definition heapremove q l : outcome (priorityqueue V) :=
  e ← load q l;
  if index e <? 0 then Panicked IndexOutOfRange
  else '(_, q) ← heap_Remove q (Z.to_nat (index e)); Done q.

Definition heapify q l : outcome (priorityqueue V) :=
  e ← load q l;
  if index e <? 0 then Done q else heap_Fix q (Z.to_nat (index e)).

(** ** Operations of Cache, each the body of its critical section *)

Definition NewTTLCache : Cache V := MkCache false (PQ ∅ []) ∅ 0.

Definition with_pq c q : Cache V := MkCache (closed c) q (elements c) (next_loc c).

Definition hasExpired e (now : Z) : bool :=
  if ttl e =? 0 then true else expTime e <? now.

Definition update0 c l (v : V) (t expAt : Z) : outcome (Cache V) :=
  let upd e := Element (index e) (key e) v t expAt in
  _ ← load (pq c) l;
  let q := PQ (alter upd l (objects (pq c))) (queue (pq c)) in
  q ← heapify q l;
  Done (with_pq c q).

Definition add0 c l : outcome (Cache V) :=
  q ← heappush (pq c) l;
  e ← load q l;
  Done (MkCache (closed c) q (<[key e := l]> (elements c)) (next_loc c)).

Definition remove0 c l : outcome (Cache V) :=
  e ← load (pq c) l;
  let c := MkCache (closed c) (pq c) (delete (key e) (elements c)) (next_loc c) in
  q ← heapremove (pq c) l;
  Done (with_pq c q).

(** [&element{...}] *)
Definition alloc c e : Cache V * nat :=
  let l := next_loc c in
  (MkCache (closed c) (PQ (<[l:=e]> (objects (pq c))) (queue (pq c)))
     (elements c) (S l), l).

Definition Size c : Z :=
  if closed c then -1 else Z.of_nat (size (elements c)).

Definition First c : outcome (option V) :=
  if closed c then Done None else pq_first (pq c).

Definition Get c (k : string) : outcome (option V) :=
  if closed c then Done None else
  match elements c !! k with
  | Some l => e ← load (pq c) l; Done (Some (value e))
  | None => Done None
  end.

(** Put and Remove return the new cache, the boolean result, and whether the
    deferred [setchanges] sends on the control channel. *)
Definition Put c (k : string) (v : V) (t now : Z)
    : outcome (Cache V * bool * bool) :=
  if t <? 0 then Panicked (PanicValue "ttl < 0") else
  if closed c then Done (c, false, false) else
  let expireAt := now + t in
  match elements c !! k with
  | Some l => c ← update0 c l v t expireAt; Done (c, true, true)
  | None =>
      let '(c, l) := alloc c (Element (-1) k v t expireAt) in
      c ← add0 c l; Done (c, true, true)
  end.

Definition Remove c (k : string) : outcome (Cache V * bool * bool) :=
  if closed c then Done (c, false, false) else
  match elements c !! k with
  | Some l => c ← remove0 c l; Done (c, true, true)
  | None => Done (c, false, false)
  end.

(** doClose returns whether the cache had been closed before. *)
Definition doClose c : Cache V * bool :=
  (MkCache true (pq c) (elements c) (next_loc c), closed c).

Definition pauseTime c (now : Z) : outcome Z :=
  match queue (pq c) with
  | l :: _ =>
      e ← load (pq c) l;
      let r := saturate64 (expTime e - now) in
      Done (if r <? 0 then Millisecond else r)
  | [] => Done (10 * Minute)
  end.

(** The loop of clearExpired: [now i] is what [time.Now] answers at the
    iteration that looks at position [i]. *)
Fixpoint clear_loop (fuel : nat) (now : nat → Z) c (i : nat) : outcome (Cache V) :=
  match fuel with
  | O => NoFuel
  | S fuel =>
      if (i <? length (queue (pq c)))%nat then
        l ← queue_at (pq c) i;
        e ← load (pq c) l;
        if negb (hasExpired e (now i)) then Done c
        else c ← remove0 c l; clear_loop fuel now c (S i)
      else Done c
  end.

Definition clearExpired c (now : nat → Z) : outcome (Cache V) :=
  clear_loop (S (length (queue (pq c)))) now c 0.
End cache.

(** ** The queue implements the heap interface *)

Section queue_laws.
Context {V : Type}.
Implicit Types (q : priorityqueue V) (e : element V) (l i j n : nat).

(** What the heap algorithms leave alone in an element: all but its index. *)
Definition strip e : string * V * Z * Z := (key e, value e, ttl e, expTime e).

Definition pq_ok q : Prop :=
  NoDup (queue q) ∧
  ∀ i l, queue q !! i = Some l →
    ∃ e, objects q !! l = Some e ∧ index e = Z.of_nat i.

Definition pq_frame q q' : Prop :=
  ∀ l, strip <$> (objects q' !! l) = strip <$> (objects q !! l).

Definition pq_prio q l : Z :=
  match objects q !! l with Some e => expTime e | None => 0 end.

Definition pq_pushable q l : Prop := (l ∉ queue q) ∧ is_Some (objects q !! l).

Lemma set_index_frame q l (z : Z) : pq_frame q (set_index q l z).
Proof.
  intros l'. simpl. rewrite lookup_alter. case_decide; [|done].
  subst. destruct (objects q !! l'); done.
Qed.

#[global] Instance pq_frame_preorder : PreOrder pq_frame.
Proof. split; [done|]. intros q1 q2 q3 H1 H2 l. by rewrite H2, H1. Qed.

Lemma pq_frame_prio q q' l : pq_frame q q' → pq_prio q' l = pq_prio q l.
Proof.
  intros Hf. specialize (Hf l). unfold pq_prio, strip in *.
  destruct (objects q !! l), (objects q' !! l); simplify_eq/=; congruence.
Qed.

Lemma pq_frame_lookup q q' l e :
  pq_frame q q' → objects q !! l = Some e →
  ∃ e', objects q' !! l = Some e' ∧ strip e' = strip e.
Proof.
  intros Hf Hl. specialize (Hf l). rewrite Hl in Hf. simpl in Hf.
  apply fmap_Some in Hf as (e' & He' & Hs). eauto.
Qed.

Lemma queue_at_done q i l : queue q !! i = Some l → queue_at q i = Done l.
Proof. unfold queue_at. by intros ->. Qed.

Lemma load_done q l e : objects q !! l = Some e → load q l = Done e.
Proof. unfold load. by intros ->. Qed.

Lemma set_index_same q l (z : Z) e :
  objects q !! l = Some e → objects (set_index q l z) !! l = Some (with_index z e).
Proof. intros He. simpl. by rewrite lookup_alter_eq, He. Qed.

Lemma set_index_other q l l' (z : Z) :
  l ≠ l' → objects (set_index q l z) !! l' = objects q !! l'.
Proof. intros Hne. simpl. by rewrite lookup_alter_ne. Qed.

Lemma pq_ok_inj q i j l :
  pq_ok q → queue q !! i = Some l → queue q !! j = Some l → i = j.
Proof. intros [Hnd _]. by apply NoDup_lookup. Qed.

Lemma pq_swap_law q i j a b :
  pq_ok q → queue q !! i = Some a → queue q !! j = Some b →
  ∃ q', pq_Swap q i j = Done q' ∧ pq_ok q' ∧ pq_frame q q' ∧
    queue q' = <[i:=b]> (<[j:=a]> (queue q)).
Proof.
  intros Hok Ha Hb. pose proof Hok as [Hnd Hix]. unfold pq_Swap.
  rewrite (queue_at_done _ _ _ Ha), (queue_at_done _ _ _ Hb). cbn [mbind outcome_bind].
  set (q1 := PQ (objects q) _). eexists. split; [reflexivity|].
  split_and!; [|by etrans; [exact (set_index_frame q1 b (Z.of_nat i))|apply set_index_frame]|done].
  destruct (Hix _ _ Ha) as (ea & Hea & _), (Hix _ _ Hb) as (eb & Heb & _).
  pose proof (lookup_lt_Some _ _ _ Ha). pose proof (lookup_lt_Some _ _ _ Hb).
  split; [cbn [queue set_index q1]; by rewrite Permutation_insert_swap|].
  cbn [queue set_index q1]. intros m l. rewrite !list_lookup_insert, length_insert.
  intros Hm. destruct (decide (m = j)) as [->|Hmj].
  - (* position j holds the element that was at i *)
    assert (l = a) as ->.
    { repeat case_decide; destruct_and?; simplify_eq/=; done || lia. }
    destruct (decide (a = b)) as [<-|Hab].
    + eexists. split; [apply set_index_same, set_index_same, Hea|done].
    + eexists. split; [apply set_index_same|done].
      rewrite set_index_other by congruence. apply Hea.
  - assert (l ≠ a) as Hla.
    { repeat case_decide; destruct_and?; simplify_eq/=; intros ->.
      - apply Hmj. by eapply pq_ok_inj.
      - apply Hmj. pose proof (pq_ok_inj q m i a Hok Hm Ha). lia. }
    rewrite set_index_other by congruence.
    destruct (decide (m = i)) as [->|Hmi].
    + rewrite decide_True in Hm by lia. simplify_eq.
      eexists. split; [by apply set_index_same|done].
    + rewrite !decide_False in Hm by lia.
      rewrite set_index_other; [by apply Hix|]. intros ->.
      apply Hmj. by eapply pq_ok_inj.
Qed.

Lemma pq_less_law q i j a b :
  pq_ok q → queue q !! i = Some a → queue q !! j = Some b →
  pq_Less q i j = Done (pq_prio q a <? pq_prio q b).
Proof.
  intros [_ Hix] Ha Hb. unfold pq_Less, pq_prio.
  destruct (Hix _ _ Ha) as (ea & Hea & _), (Hix _ _ Hb) as (eb & Heb & _).
  rewrite (queue_at_done _ _ _ Ha), (queue_at_done _ _ _ Hb). simpl.
  rewrite (load_done _ _ _ Hea), (load_done _ _ _ Heb), Hea, Heb. done.
Qed.

Lemma pq_push_law q l :
  pq_ok q → pq_pushable q l →
  ∃ q', pq_Push l q = Done q' ∧ pq_ok q' ∧ pq_frame q q' ∧
    queue q' = queue q ++ [l].
Proof.
  intros [Hnd Hix] [Hl [e He]]. eexists. split; [reflexivity|].
  split_and!; [split|apply set_index_frame|done]; cbn [queue objects].
  - apply NoDup_app. split_and!; [done| |apply NoDup_singleton]. set_solver.
  - intros i l' Hi. apply lookup_app_Some in Hi as [Hi|[Hge Hi]].
    + rewrite set_index_other; [by apply Hix|]. intros ->. apply Hl.
      by eapply list_elem_of_lookup_2.
    + apply list_lookup_singleton_Some in Hi as [Hi <-].
      eexists. split; [by apply set_index_same|].
      cbn [queue set_index index with_index] in *. f_equal. lia.
Qed.

Lemma pq_pop_law q ls l :
  pq_ok q → queue q = ls ++ [l] →
  ∃ q', pq_Pop q = Done (l, q') ∧ pq_ok q' ∧ pq_frame q q' ∧ queue q' = ls.
Proof.
  intros [Hnd Hix] Hq. unfold pq_Pop.
  rewrite decide_False by (rewrite Hq; by destruct ls).
  assert (queue q !! length ls = Some l) as Hl by (rewrite Hq; apply list_lookup_middle; done).
  assert (length (queue q) - 1 = length ls)%nat as Hlen
    by (rewrite Hq, length_app; simpl; lia).
  rewrite Hlen, (queue_at_done _ _ _ Hl). eexists. split; [reflexivity|].
  cbn [queue set_index]. rewrite Hlen, Hq, take_app_length.
  split_and!; [split|apply set_index_frame|done]; cbn [queue objects].
  - rewrite Hq in Hnd. by apply NoDup_app in Hnd as [? _].
  - intros i l' Hi. rewrite set_index_other.
    + apply Hix. rewrite Hq. by apply lookup_app_l_Some.
    + intros <-. pose proof (lookup_lt_Some _ _ _ Hi).
      assert (queue q !! i = Some l) as Hi' by (rewrite Hq; by apply lookup_app_l_Some).
      pose proof (NoDup_lookup _ _ _ _ Hnd Hi' Hl). lia.
Qed.

#[global] Program Instance pq_laws : HeapLaws (priorityqueue V) nat := {
  items := queue; prio := pq_prio; heap_ok := pq_ok; frame := pq_frame;
  pushable := pq_pushable;
}.
Next Obligation. intros. by apply pq_frame_prio. Qed.
Next Obligation. done. Qed.
Next Obligation. apply pq_less_law. Qed.
Next Obligation. apply pq_swap_law. Qed.
Next Obligation. apply pq_push_law. Qed.
Next Obligation. apply pq_pop_law. Qed.
End queue_laws.

(** ** Abstraction and well-formedness *)

Section cache_state.
Context {V : Type}.
Implicit Types (q : priorityqueue V) (c : Cache V) (e : element V) (l : nat)
  (k : string).

(** A cache entry, seen from outside: the value, its ttl and its expiry. *)
Definition entry : Type := V * Z * Z.
Definition content e : entry := (value e, ttl e, expTime e).

Definition entry_at q l : option (string * entry) :=
  (λ e, (key e, content e)) <$> (objects q !! l).

(** The abstract state of a cache: its entries by key. *)
Definition cache_map c : gmap string entry :=
  omap (λ l, snd <$> entry_at (pq c) l) (elements c).

(** The map and the queue hold the same elements, each under its own key, and
    the queue is a heap by expiry time with consistent indices. *)
Record cache_wf c : Prop := {
  wf_ok : pq_ok (pq c);
  wf_heap : heap_ordered (pq c);
  wf_elements k l :
    elements c !! k = Some l ↔
    l ∈ queue (pq c) ∧ ∃ w, entry_at (pq c) l = Some (k, w);
  wf_fresh l : is_Some (objects (pq c) !! l) → (l < next_loc c)%nat;
}.

Lemma frame_entry q q' l : pq_frame q q' → entry_at q' l = entry_at q l.
Proof.
  intros Hf. specialize (Hf l). unfold entry_at, strip, content in *.
  destruct (objects q !! l), (objects q' !! l); simplify_eq/=; congruence.
Qed.

Lemma frame_domain q q' l :
  pq_frame q q' → is_Some (objects q' !! l) → is_Some (objects q !! l).
Proof.
  intros Hf [e' He']. specialize (Hf l). rewrite He' in Hf.
  destruct (objects q !! l); [eauto|done].
Qed.

Lemma pq_ok_entry q l :
  pq_ok q → l ∈ queue q → ∃ k w, entry_at q l = Some (k, w).
Proof.
  intros [_ Hix] (i & Hi)%list_elem_of_lookup.
  destruct (Hix _ _ Hi) as (e & He & _). exists (key e), (content e).
  unfold entry_at. by rewrite He.
Qed.

Lemma entry_at_Some q l k w :
  entry_at q l = Some (k, w) ↔
  ∃ e, objects q !! l = Some e ∧ key e = k ∧ content e = w.
Proof.
  unfold entry_at. rewrite fmap_Some. naive_solver.
Qed.

Lemma cache_map_lookup c k w :
  cache_wf c →
  cache_map c !! k = Some w ↔
  ∃ l, l ∈ queue (pq c) ∧ entry_at (pq c) l = Some (k, w).
Proof.
  intros Hwf. unfold cache_map. rewrite lookup_omap, bind_Some. split.
  - intros (l & Hl & Hw). exists l. apply (wf_elements _ Hwf) in Hl as [Hin [w' Hw']].
    rewrite Hw' in Hw. naive_solver.
  - intros (l & Hin & Hl). exists l. rewrite Hl. split; [|done].
    apply (wf_elements _ Hwf). eauto.
Qed.

Lemma wf_entry_inj c l l' k w w' :
  cache_wf c → l ∈ queue (pq c) → l' ∈ queue (pq c) →
  entry_at (pq c) l = Some (k, w) → entry_at (pq c) l' = Some (k, w') → l = l'.
Proof.
  intros Hwf Hl Hl' Hw Hw'.
  assert (elements c !! k = Some l) by (apply (wf_elements _ Hwf); eauto).
  assert (elements c !! k = Some l') by (apply (wf_elements _ Hwf); eauto).
  congruence.
Qed.

Lemma cache_map_element c k l :
  cache_wf c → elements c !! k = Some l →
  ∃ e, objects (pq c) !! l = Some e ∧ key e = k ∧
    cache_map c !! k = Some (content e) ∧ l ∈ queue (pq c).
Proof.
  intros Hwf Hk. apply (wf_elements _ Hwf) in Hk as [Hin [w Hw]].
  pose proof Hw as (e & He & <- & <-)%entry_at_Some.
  exists e. split_and!; [done|done| |done].
  apply cache_map_lookup; eauto.
Qed.

Lemma cache_map_None c k :
  cache_wf c → cache_map c !! k = None ↔ elements c !! k = None.
Proof.
  intros Hwf. destruct (elements c !! k) as [l|] eqn:Hk.
  - apply cache_map_element in Hk as (e & _ & _ & -> & _); done.
  - unfold cache_map. by rewrite lookup_omap, Hk.
Qed.

(** The index of an element of the queue is its position. *)
Lemma pq_ok_index q l :
  pq_ok q → l ∈ queue q →
  ∃ e, objects q !! l = Some e ∧ 0 <= index e ∧
    queue q !! Z.to_nat (index e) = Some l.
Proof.
  intros [_ Hix] (i & Hi)%list_elem_of_lookup.
  destruct (Hix _ _ Hi) as (e & He & Hie). exists e.
  rewrite Hie, Nat2Z.id. split_and!; [done|lia|done].
Qed.

(** A cache whose queue was rearranged. *)
Lemma wf_rearranged c c' :
  cache_wf c → pq_ok (pq c') → heap_ordered (pq c') →
  pq_frame (pq c) (pq c') → queue (pq c') ≡ₚ queue (pq c) →
  elements c' = elements c → next_loc c' = next_loc c →
  cache_wf c' ∧ cache_map c' = cache_map c.
Proof.
  intros Hwf Hok Hh Hf Hp He Hn. split.
  - split; [done|done| |].
    + intros k l. rewrite He, (frame_entry _ _ _ Hf), Hp. apply (wf_elements _ Hwf).
    + intros l Hl. rewrite Hn. apply (wf_fresh _ Hwf). by eapply frame_domain.
  - unfold cache_map. rewrite He. apply omap_ext. intros k l _.
    by rewrite (frame_entry _ _ _ Hf).
Qed.

Lemma NewTTLCache_wf : cache_wf (@NewTTLCache V).
Proof.
  split; simpl.
  - split; [constructor|done].
  - intros i Hi. simpl in Hi. lia.
  - intros k l. split; [done|]. set_solver.
  - intros l [e He]. done.
Qed.
End cache_state.

(** ** The operations on elements *)

Section element_operations.
Context {V : Type}.
Implicit Types (q : priorityqueue V) (c : Cache V) (e : element V) (l : nat)
  (k : string) (v : V).

Lemma heapremove_spec q l :
  pq_ok q → heap_ordered q → l ∈ queue q →
  ∃ q', heapremove q l = Done q' ∧ pq_ok q' ∧ heap_ordered q' ∧
    pq_frame q q' ∧ l :: queue q' ≡ₚ queue q.
Proof.
  intros Hok Hh Hl. destruct (pq_ok_index _ _ Hok Hl) as (e & He & Hpos & Hi).
  unfold heapremove. rewrite (load_done _ _ _ He). simpl.
  rewrite (proj2 (Z.ltb_ge _ _)) by done.
  destruct (heap_Remove_spec (HL:=pq_laws) q _ _ Hok Hi Hh) as (q' & Hr & Hok' & Hf & Hp & Hh').
  rewrite Hr. simpl. eauto 10.
Qed.

Lemma remove0_spec c k l :
  cache_wf c → elements c !! k = Some l →
  ∃ c', remove0 c l = Done c' ∧ cache_wf c' ∧ closed c' = closed c ∧
    cache_map c' = delete k (cache_map c) ∧ l :: queue (pq c') ≡ₚ queue (pq c).
Proof.
  intros Hwf Hk.
  destruct (cache_map_element _ _ _ Hwf Hk) as (e & He & Hke & _ & Hin).
  destruct (heapremove_spec (pq c) l) as (q' & Hr & Hok & Hh & Hf & Hp);
    [apply Hwf|apply Hwf|done|].
  unfold remove0. rewrite (load_done _ _ _ He). simpl. rewrite Hr. simpl.
  eexists. split; [done|].
  assert (∀ k' l', delete k (elements c) !! k' = Some l' ↔
    l' ∈ queue q' ∧ ∃ w, entry_at q' l' = Some (k', w)) as Hel.
  { intros k' l'. rewrite (frame_entry _ _ _ Hf).
    rewrite lookup_delete_Some, (wf_elements _ Hwf), <-Hp, elem_of_cons.
    assert (NoDup (l :: queue q')) as [Hl _]%NoDup_cons by (rewrite Hp; apply Hwf).
    assert (entry_at (pq c) l = Some (k, content e)) as Hw
      by (apply entry_at_Some; eauto).
    split.
    - intros (Hne & [-> |?] & w & Hw'); [|by eauto]. rewrite Hw in Hw'. congruence.
    - intros (Hl' & w & Hw'). split_and!; [|by right|by eauto].
      intros ->. assert (l = l'); [|naive_solver].
      eapply wf_entry_inj; [done|done| |done|done]. rewrite <-Hp. by right. }
  assert (cache_wf (with_pq (MkCache (closed c) (pq c) (delete (key e) (elements c))
    (next_loc c)) q')) as Hwf'.
  { rewrite Hke. split; [done|done|done|].
    intros l' Hl'. apply (wf_fresh _ Hwf). by eapply frame_domain. }
  split_and!; [done|done| |done].
  apply map_eq. intros k'. apply option_eq. intros w.
  rewrite lookup_delete_Some, !cache_map_lookup by done. cbn [pq with_pq].
  setoid_rewrite (frame_entry _ _ _ Hf). split.
  - intros (l' & Hl' & Hw). split; [|exists l'; by rewrite <-Hp, elem_of_cons; eauto].
    intros ->. assert (delete k' (elements c) !! k' = Some l') as Hd; [|by rewrite lookup_delete_eq in Hd].
    apply Hel. rewrite (frame_entry _ _ _ Hf). eauto.
  - intros (Hne & l' & Hl' & Hw). exists l'. split; [|done].
    rewrite <-Hp, elem_of_cons in Hl'. destruct Hl' as [-> |?]; [|done].
    apply entry_at_Some in Hw as (e' & He' & Hk' & _). congruence.
Qed.

(** Overwriting the content of one element of the queue. *)
Definition set_content v (t x : Z) e : element V := Element (index e) (key e) v t x.

Definition overwrite q l v (t x : Z) : priorityqueue V :=
  PQ (alter (set_content v t x) l (objects q)) (queue q).

Lemma entry_overwrite q l l' v t x :
  entry_at (overwrite q l v t x) l' =
  (if decide (l = l') then prod_map id (λ _, (v, t, x)) <$> entry_at q l'
   else entry_at q l').
Proof.
  unfold entry_at. simpl. rewrite lookup_alter. case_decide; [|done].
  subst. by destruct (objects q !! l').
Qed.

Lemma overwrite_ok q l v t x : pq_ok q → pq_ok (overwrite q l v t x).
Proof.
  intros [Hnd Hix]. split; [done|]. simpl. intros i l' Hi.
  destruct (Hix i l' Hi) as (e & He & Hie). rewrite lookup_alter.
  case_decide; [subst|by eauto]. rewrite He. eexists. split; [done|]. done.
Qed.

Lemma overwrite_except q l v t x i :
  pq_ok q → heap_ordered q → queue q !! i = Some l →
  heap_except (keys (overwrite q l v t x)) (length (queue q)) i.
Proof.
  intros Hok Hh Hi. apply (heap_except_ext (keys q)).
  - intros j Hj Hji. unfold keys. simpl. destruct (queue q !! j) as [l'|] eqn:Hl'; [|done].
    assert (l ≠ l') by (intros <-; apply Hji; by eapply pq_ok_inj).
    unfold pq_prio. simpl. by rewrite lookup_alter_ne.
  - by apply heap_order_except.
Qed.

Lemma heapify_spec q l i :
  pq_ok q → queue q !! i = Some l → heap_except (keys q) (length (queue q)) i →
  ∃ q', heapify q l = Done q' ∧ pq_ok q' ∧ heap_ordered q' ∧
    pq_frame q q' ∧ queue q' ≡ₚ queue q.
Proof.
  intros Hok Hi Hex. pose proof Hok as [_ Hix].
  destruct (Hix _ _ Hi) as (e & He & Hie).
  unfold heapify. rewrite (load_done _ _ _ He). simpl.
  rewrite (proj2 (Z.ltb_ge _ _)), Hie, Nat2Z.id by lia.
  destruct (heap_Fix_spec (HL:=pq_laws) q i Hok) as (q' & Hr & Hok' & Hf & Hp & Hh');
    [by eapply lookup_lt_Some|done|]. eauto 10.
Qed.

Lemma update0_spec c k l v t x :
  cache_wf c → elements c !! k = Some l →
  ∃ c', update0 c l v t x = Done c' ∧ cache_wf c' ∧ closed c' = closed c ∧
    cache_map c' = <[k := (v, t, x)]> (cache_map c).
Proof.
  intros Hwf Hk.
  destruct (cache_map_element _ _ _ Hwf Hk) as (e & He & Hke & _ & Hin).
  pose proof Hin as (i & Hi)%list_elem_of_lookup.
  pose (q1 := overwrite (pq c) l v t x).
  assert (∀ l' k', (∃ w, entry_at q1 l' = Some (k', w)) ↔
    ∃ w, entry_at (pq c) l' = Some (k', w)) as Hkeyed.
  { intros l' k'. unfold q1. rewrite entry_overwrite. case_decide; [|done].
    destruct (entry_at (pq c) l') as [[k'' w]|]; simpl; naive_solver. }
  destruct (heapify_spec q1 l i) as (q' & Hr & Hok & Hh & Hf & Hp);
    [by apply overwrite_ok, Hwf|done|exact (overwrite_except (pq c) l v t x i (wf_ok c Hwf) (wf_heap c Hwf) Hi)|].
  unfold update0. rewrite (load_done _ _ _ He). cbn [mbind outcome_bind].
  fold (set_content v t x). fold (overwrite (pq c) l v t x). fold q1.
   rewrite Hr. cbn [mbind outcome_bind].
  eexists. split; [done|].
  assert (cache_wf (with_pq c q')) as Hwf'.
  { split; [done|done| |]; cbn [pq with_pq elements next_loc].
    - intros k' l'. rewrite (frame_entry _ _ _ Hf), Hkeyed, Hp. apply (wf_elements _ Hwf).
    - intros l' Hl'. apply (wf_fresh _ Hwf). apply (frame_domain _ _ _ Hf) in Hl'.
      unfold q1, overwrite in Hl'. cbn [objects] in Hl'. by apply lookup_alter_is_Some in Hl'. }
  split_and!; [done|done|].
  apply map_eq. intros k'. apply option_eq. intros w.
  rewrite cache_map_lookup by done. cbn [pq with_pq]. rewrite lookup_insert.
  setoid_rewrite (frame_entry _ _ _ Hf).
  setoid_rewrite Hp. unfold q1. cbn [overwrite queue].
  assert (entry_at (pq c) l = Some (k, content e)) as Hw by (apply entry_at_Some; eauto).
  case_decide as Hkk.
  - subst k'. split.
    + intros (l' & Hl' & Hw'). rewrite entry_overwrite in Hw'. case_decide.
      * subst l'. rewrite Hw in Hw'. simpl in Hw'. congruence.
      * exfalso. pose proof (wf_entry_inj c l l' _ _ _ Hwf Hin Hl' Hw Hw'). done.
    + intros [= <-]. exists l. split; [done|]. rewrite entry_overwrite, decide_True by done.
      by rewrite Hw.
  - rewrite cache_map_lookup by done. f_equiv. intros l'. rewrite entry_overwrite.
    case_decide; [|done]. subst l'. rewrite Hw. simpl. naive_solver.
Qed.

Lemma alloc_queue c e l :
  cache_wf c → l ∈ queue (pq c) →
  l ≠ next_loc c ∧ objects (pq (alloc c e).1) !! l = objects (pq c) !! l.
Proof.
  intros Hwf Hl. destruct (pq_ok_index _ _ (wf_ok _ Hwf) Hl) as (e' & He' & _).
  assert (l ≠ next_loc c) as Hne.
  { pose proof (wf_fresh _ Hwf l ltac:(eauto)). lia. }
  split; [done|]. simpl. by rewrite lookup_insert_ne.
Qed.

Lemma alloc_ok c e :
  cache_wf c →
  pq_ok (pq (alloc c e).1) ∧ heap_ordered (pq (alloc c e).1) ∧
  pq_pushable (pq (alloc c e).1) (next_loc c).
Proof.
  intros Hwf. pose proof (wf_ok _ Hwf) as [Hnd Hix]. split_and!.
  - split; [done|]. intros i l Hi.
    pose proof (alloc_queue c e l Hwf ltac:(by eapply list_elem_of_lookup_2)) as [_ ->].
    by apply Hix.
  - intros i Hi. pose proof (wf_heap _ Hwf i Hi) as Hle.
    assert (∀ j, keys (pq (alloc c e).1) j = keys (pq c) j) as Hk; [|by rewrite !Hk].
    intros j. unfold keys. simpl. destruct (queue (pq c) !! j) as [l|] eqn:Hl; [|done].
    pose proof (alloc_queue c e l Hwf ltac:(by eapply list_elem_of_lookup_2)) as [_ Ho].
    unfold pq_prio. simpl in Ho. simpl. by rewrite Ho.
  - split; simpl.
    + intros Hl. by destruct (alloc_queue c e _ Hwf Hl).
    + rewrite lookup_insert_eq. eauto.
Qed.

(** A queue with one more entry, under a key that the cache does not have. *)
Lemma wf_extend c q' k l (w0 : entry) :
  cache_wf c → elements c !! k = None → pq_ok q' → heap_ordered q' →
  queue q' ≡ₚ l :: queue (pq c) → entry_at q' l = Some (k, w0) →
  (∀ l', l' ∈ queue (pq c) → entry_at q' l' = entry_at (pq c) l') →
  (∀ l', is_Some (objects q' !! l') → (l' < S (next_loc c))%nat) →
  let c' := MkCache (closed c) q' (<[k := l]> (elements c)) (S (next_loc c)) in
  cache_wf c' ∧ cache_map c' = <[k := w0]> (cache_map c).
Proof.
  intros Hwf Hk Hok Hh Hp Hl Hold Hfresh c'.
  assert (∀ l', l' ∈ queue q' ↔ l' = l ∨ l' ∈ queue (pq c)) as Hin.
  { intros l'. by rewrite Hp, elem_of_cons. }
  assert (∀ l' k' w, l' ∈ queue (pq c) → entry_at q' l' = Some (k', w) →
    k' ≠ k ∧ elements c !! k' = Some l') as Hkept.
  { intros l' k' w Hl' Hw. rewrite Hold in Hw by done.
    assert (elements c !! k' = Some l') as He by (apply (wf_elements _ Hwf); eauto).
    split; [congruence|done]. }
  assert (cache_wf c') as Hwf'.
  { split; cbn [c' pq elements next_loc]; [done|done| |done].
    intros k' l'. rewrite lookup_insert_Some, Hin. split.
    - intros [[-> <-]|[Hne Hl']]; [split; eauto|].
      apply (wf_elements _ Hwf) in Hl' as [Hq Hw]. rewrite Hold by done. eauto.
    - intros ([->|Hq] & w & Hw); [rewrite Hl in Hw; simplify_eq; by left|].
      destruct (Hkept l' k' w Hq Hw) as [? ?]. by right. }
  split; [done|]. apply map_eq. intros k'. apply option_eq. intros w.
  rewrite cache_map_lookup, lookup_insert_Some by done. cbn [c' pq]. split.
  - intros (l' & [->|Hq]%Hin & Hw); [rewrite Hl in Hw; simplify_eq; by left|].
    destruct (Hkept l' k' w Hq Hw) as [? _]. right. split; [done|].
    apply cache_map_lookup; [done|]. rewrite Hold in Hw by done. eauto.
  - intros [[-> <-]|[Hne Hw]]; [exists l; rewrite Hin; auto|].
    apply cache_map_lookup in Hw as (l' & Hq & Hw); [|done].
    exists l'. rewrite Hin, Hold by done. auto.
Qed.

Lemma add0_spec c k v t x :
  cache_wf c → elements c !! k = None →
  ∃ c', (let '(c1, l) := alloc c (Element (-1) k v t x) in add0 c1 l) = Done c' ∧
    cache_wf c' ∧ closed c' = closed c ∧
    cache_map c' = <[k := (v, t, x)]> (cache_map c).
Proof.
  intros Hwf Hk. set (e := Element (-1) k v t x). set (l := next_loc c).
  destruct (alloc_ok c e Hwf) as (Hok1 & Hh1 & Hpush).
  set (c1 := (alloc c e).1) in *. change (alloc c e) with (c1, l). cbv beta iota.
  destruct (heap_Push_spec (HL:=pq_laws) (pq c1) l Hok1 Hpush Hh1)
    as (q' & Hr & Hok & Hf & Hp & Hh). cbn [items pq_laws] in Hp.
  assert (entry_at q' l = Some (k, (v, t, x))) as Hl.
  { rewrite (frame_entry _ _ _ Hf). unfold entry_at. simpl. by rewrite lookup_insert_eq. }
  unfold add0, heappush. rewrite Hr. cbn [mbind outcome_bind].
  pose proof Hl as (e' & He' & Hke' & _)%entry_at_Some.
  rewrite (load_done _ _ _ He'). cbn [mbind outcome_bind]. rewrite Hke'.
  eexists. split; [done|].
  destruct (wf_extend c q' k l (v, t, x) Hwf Hk Hok Hh Hp Hl) as [Hwf' Hmap]; [..|done].
  - intros l' Hl'. rewrite (frame_entry _ _ _ Hf). unfold entry_at.
    destruct (alloc_queue c e l' Hwf Hl') as [_ Ho]. fold c1 in Ho. by rewrite Ho.
  - intros l' Hl'. apply (frame_domain _ _ _ Hf) in Hl'. cbn [c1 alloc fst pq objects] in Hl'.
    apply lookup_insert_is_Some in Hl' as [<-|[_ Hl']]; [unfold l; lia|].
    pose proof (wf_fresh _ Hwf _ Hl'). lia.
Qed.

(** The root of the queue expires first. *)
Lemma first_spec c :
  cache_wf c →
  match queue (pq c) with
  | [] => cache_map c = ∅
  | l :: _ => ∃ e, objects (pq c) !! l = Some e ∧ elements c !! key e = Some l ∧
      cache_map c !! key e = Some (content e) ∧
      ∀ k w, cache_map c !! k = Some w → expTime e <= w.2
  end.
Proof.
  intros Hwf. destruct (queue (pq c)) as [|l ls] eqn:Hq.
  - apply map_empty. intros k. destruct (cache_map c !! k) as [w|] eqn:Hw; [|done].
    apply cache_map_lookup in Hw as (l & Hl & _); [|done]. rewrite Hq in Hl. set_solver.
  - assert (l ∈ queue (pq c)) as Hl by (rewrite Hq; apply elem_of_cons; by left).
    destruct (pq_ok_index _ _ (wf_ok _ Hwf) Hl) as (e & He & _).
    assert (entry_at (pq c) l = Some (key e, content e)) as Hel
      by (apply entry_at_Some; eauto).
    exists e. split_and!; [done|apply (wf_elements _ Hwf); eauto|
      apply cache_map_lookup; eauto|].
    intros k w Hw. apply cache_map_lookup in Hw as (l' & (i & Hi)%list_elem_of_lookup & Hw);
      [|done]. apply entry_at_Some in Hw as (e' & He' & _ & <-).
    pose proof (heap_order_root _ _ i (wf_heap _ Hwf) (lookup_lt_Some _ _ _ Hi)) as Hle.
    rewrite (keys_lookup (HL:=pq_laws) _ 0%nat l), (keys_lookup (HL:=pq_laws) _ i l') in Hle
      by (done || by simpl; rewrite Hq).
    simpl in Hle. unfold pq_prio in Hle. by rewrite He, He' in Hle.
Qed.

Lemma size_cache_map c : cache_wf c → size (cache_map c) = size (elements c).
Proof.
  intros Hwf. rewrite <-!(size_dom (D:=gset string)). f_equal. apply set_eq. intros k.
  rewrite !elem_of_dom, <-!not_eq_None_Some. by rewrite cache_map_None.
Qed.
End element_operations.

(** ** The abstract cache and the refinement *)

Section refinement.
Context {V : Type}.
Implicit Types (c : Cache V) (e : element V) (l : nat) (k : string) (v : V)
  (m : gmap string (@entry V)) (now : nat → Z).

Inductive request :=
  | RSize
  | RFirst
  | RGet (k : string)
  | RPut (k : string) (v : V) (t : Z)
  | RRemove (k : string)
  | RClearExpired
  | RClose.

Inductive answer :=
  | AInt (n : Z)
  | AValue (v : option V)
  | ABool (b : bool)
  | AUnit.

(** One call on the cache, [now] giving the successive readings of the clock. *)
Definition exec c (r : request) now : outcome (Cache V * answer) :=
  match r with
  | RSize => Done (c, AInt (Size c))
  | RFirst => v ← First c; Done (c, AValue v)
  | RGet k => v ← Get c k; Done (c, AValue v)
  | RPut k v t => '(c, b, _) ← Put c k v t (now 0%nat); Done (c, ABool b)
  | RRemove k => '(c, b, _) ← Remove c k; Done (c, ABool b)
  | RClearExpired => c ← clearExpired c now; Done (c, AUnit)
  | RClose => let '(c, b) := doClose c in Done (c, ABool b)
  end.

(** The specification: a map from keys to entries and a closed flag. *)
Definition spec_state : Type := bool * gmap string (@entry V).

Definition abstract c : spec_state := (closed c, cache_map c).

Definition entry_expired (w : @entry V) (t : Z) : bool :=
  (w.1.2 =? 0) || (w.2 <? t).

Inductive spec_step : spec_state → request → (nat → Z) → answer → spec_state → Prop :=
  | spec_closed_size m now : spec_step (true, m) RSize now (AInt (-1)) (true, m)
  | spec_closed_first m now : spec_step (true, m) RFirst now (AValue None) (true, m)
  | spec_closed_get m k now : spec_step (true, m) (RGet k) now (AValue None) (true, m)
  | spec_closed_put m k v t now :
      spec_step (true, m) (RPut k v t) now (ABool false) (true, m)
  | spec_closed_remove m k now :
      spec_step (true, m) (RRemove k) now (ABool false) (true, m)
  | spec_size m now :
      spec_step (false, m) RSize now (AInt (Z.of_nat (size m))) (false, m)
  | spec_first_none now : spec_step (false, ∅) RFirst now (AValue None) (false, ∅)
  | spec_first_some m k w now :
      (* an entry that expires first *)
      m !! k = Some w → (∀ k' w', m !! k' = Some w' → w.2 <= w'.2) →
      spec_step (false, m) RFirst now (AValue (Some w.1.1)) (false, m)
  | spec_get m k now :
      spec_step (false, m) (RGet k) now
        (AValue ((λ w : @entry V, w.1.1) <$> m !! k)) (false, m)
  | spec_put m k v t now :
      spec_step (false, m) (RPut k v t) now (ABool true)
        (false, <[k := (v, t, now 0%nat + t)]> m)
  | spec_remove m k now :
      spec_step (false, m) (RRemove k) now (ABool (bool_decide (is_Some (m !! k))))
        (false, delete k m)
  | spec_clear b m m' now :
      (* only expired entries go, and one of the first to expire does *)
      m' ⊆ m →
      (∀ k w, m !! k = Some w → m' !! k = None → ∃ i, entry_expired w (now i) = true) →
      (∀ k w, m !! k = Some w → w.2 < now 0%nat → (size m' < size m)%nat) →
      spec_step (b, m) RClearExpired now AUnit (b, m')
  | spec_close b m now : spec_step (b, m) RClose now (ABool b) (true, m).

Definition valid_request (r : request) : Prop :=
  match r with RPut _ _ t => 0 <= t | _ => True end.

Lemma hasExpired_content e t : hasExpired e t = entry_expired (content e) t.
Proof.
  unfold hasExpired, entry_expired, content. simpl. by destruct (ttl e =? 0).
Qed.

Lemma clear_loop_spec fuel now c i :
  cache_wf c → (length (queue (pq c)) < fuel + i)%nat → (0 < fuel)%nat →
  ∃ c', clear_loop fuel now c i = Done c' ∧ cache_wf c' ∧ closed c' = closed c ∧
    cache_map c' ⊆ cache_map c ∧
    ∀ k w, cache_map c !! k = Some w → cache_map c' !! k = None →
      ∃ j, entry_expired w (now j) = true.
Proof.
  revert c i. induction fuel as [|fuel IH]; intros c i Hwf Hfuel Hpos; [lia|].
  cbn [clear_loop].
  assert (∃ c', Done c = Done c' ∧ cache_wf c' ∧ closed c' = closed c ∧
    cache_map c' ⊆ cache_map c ∧
    ∀ k w, cache_map c !! k = Some w → cache_map c' !! k = None →
      ∃ j, entry_expired w (now j) = true) as Hstop.
  { exists c. split_and!; [done..|congruence]. }
  destruct (i <? _)%nat eqn:Hi; bools; [|done].
  destruct (lookup_lt_is_Some_2 (queue (pq c)) i Hi) as [l Hl].
  rewrite (queue_at_done _ _ _ Hl). cbn [mbind outcome_bind].
  pose proof (list_elem_of_lookup_2 _ _ _ Hl) as Hin.
  destruct (pq_ok_index _ _ (wf_ok _ Hwf) Hin) as (e & He & _).
  rewrite (load_done _ _ _ He). cbn [mbind outcome_bind].
  destruct (hasExpired e (now i)) eqn:Hexp; simpl; [|done].
  assert (elements c !! key e = Some l) as Hk.
  { apply (wf_elements _ Hwf). split; [done|]. exists (content e).
    apply entry_at_Some; eauto. }
  destruct (remove0_spec c _ l Hwf Hk) as (c1 & -> & Hwf1 & Hcl & Hmap & Hp).
  cbn [mbind outcome_bind]. apply Permutation_length in Hp. simpl in Hp.
  destruct (IH c1 (S i) Hwf1) as (c' & -> & Hwf' & Hcl' & Hsub & Hexp');
    [lia|destruct fuel; lia|].
  exists c'. split_and!; [done|done|congruence| |].
  - etrans; [done|]. rewrite Hmap. apply delete_subseteq.
  - intros k w Hw Hnone. destruct (decide (k = key e)) as [->|Hne].
    + exists i. destruct (cache_map_element _ _ _ Hwf Hk) as (e' & He' & _ & Hc & _).
      rewrite Hc in Hw. simplify_eq. by rewrite <-hasExpired_content.
    + apply Hexp' with k; [|done]. by rewrite Hmap, lookup_delete_ne.
Qed.

(** clearExpired terminates, keeps the cache well formed, drops only expired
    entries, and drops at least one when some entry has expired. *)
Lemma clearExpired_spec c now :
  cache_wf c →
  ∃ c', clearExpired c now = Done c' ∧ cache_wf c' ∧ closed c' = closed c ∧
    cache_map c' ⊆ cache_map c ∧
    (∀ k w, cache_map c !! k = Some w → cache_map c' !! k = None →
      ∃ j, entry_expired w (now j) = true) ∧
    (∀ k w, cache_map c !! k = Some w → w.2 < now 0%nat →
      (size (cache_map c') < size (cache_map c))%nat).
Proof.
  intros Hwf. unfold clearExpired.
  destruct (clear_loop_spec (S (length (queue (pq c)))) now c 0 Hwf)
    as (c' & Hc & Hwf' & Hcl & Hsub & Hexp); [lia..|].
  exists c'. split_and!; [done..|]. intros k w Hw Hlt.
  pose proof (first_spec c Hwf) as Hfirst. cbn [clear_loop] in Hc.
  destruct (queue (pq c)) as [|l ls] eqn:Hq.
  { by rewrite Hfirst in Hw. }
  destruct Hfirst as (e & He & Hk & Hm & Hmin).
  assert (queue_at (pq c) 0 = Done l) as Hat by by (unfold queue_at; rewrite Hq).
  rewrite Hat in Hc. simpl in Hc. rewrite (load_done _ _ _ He) in Hc. simpl in Hc.
  specialize (Hmin _ _ Hw). rewrite hasExpired_content in Hc.
  unfold entry_expired, content in Hc. simpl in Hc.
  rewrite (proj2 (Z.ltb_lt (expTime e) (now 0%nat))), orb_true_r in Hc by lia.
  simpl in Hc. destruct (remove0_spec c _ l Hwf Hk) as (c1 & Hr & Hwf1 & _ & Hmap & Hp).
  rewrite Hr in Hc. simpl in Hc. apply Permutation_length in Hp. simpl in Hp.
  rewrite Hq in Hp. simpl in Hp.
  destruct (clear_loop_spec (length (queue (pq c))) now c1 1 Hwf1)
    as (c'' & Hc'' & _ & _ & Hsub' & _); [rewrite Hq; simpl; lia..|].
  rewrite Hq in Hc''. simpl in Hc''.
  rewrite Hc'' in Hc. simplify_eq.
  apply map_subseteq_size in Hsub'. rewrite Hmap, map_size_delete_Some in Hsub' by eauto.
  assert (size (cache_map c) ≠ 0%nat); [|lia].
  intros Hz. apply map_size_empty_inv in Hz. by rewrite Hz in Hw.
Qed.

Lemma Get_spec c k :
  cache_wf c → closed c = false →
  Get c k = Done ((λ w : @entry V, w.1.1) <$> cache_map c !! k).
Proof.
  intros Hwf Hcl. unfold Get. rewrite Hcl. destruct (elements c !! k) as [l|] eqn:Hk.
  - destruct (cache_map_element _ _ _ Hwf Hk) as (e & He & _ & -> & _).
    by rewrite (load_done _ _ _ He).
  - by rewrite (proj2 (cache_map_None _ _ Hwf) Hk).
Qed.

Lemma Put_spec c k v t (tm : Z) :
  cache_wf c → closed c = false → 0 <= t →
  ∃ c', Put c k v t tm = Done (c', true, true) ∧ cache_wf c' ∧ closed c' = false ∧
    cache_map c' = <[k := (v, t, tm + t)]> (cache_map c).
Proof.
  intros Hwf Hcl Ht. unfold Put. rewrite (proj2 (Z.ltb_ge _ _)), Hcl by done.
  destruct (elements c !! k) as [l|] eqn:Hk.
  - destruct (update0_spec c k l v t (tm + t) Hwf Hk) as (c' & -> & ? & ? & ?).
    simpl. eexists. split_and!; [done|done|congruence|done].
  - destruct (add0_spec c k v t (tm + t) Hwf Hk) as (c' & Ha & ? & ? & ?).
    destruct (alloc c _) as [c1 l]. rewrite Ha. simpl.
    eexists. split_and!; [done|done|congruence|done].
Qed.

Lemma Remove_spec c k :
  cache_wf c → closed c = false →
  ∃ c', Remove c k = Done (c', bool_decide (is_Some (cache_map c !! k)),
                           bool_decide (is_Some (cache_map c !! k))) ∧
    cache_wf c' ∧ closed c' = false ∧ cache_map c' = delete k (cache_map c).
Proof.
  intros Hwf Hcl. unfold Remove. rewrite Hcl.
  destruct (elements c !! k) as [l|] eqn:Hk.
  - destruct (cache_map_element _ _ _ Hwf Hk) as (e & _ & _ & Hw & _).
    destruct (remove0_spec c k l Hwf Hk) as (c' & -> & ? & ? & ? & _). simpl.
    rewrite bool_decide_eq_true_2 by (rewrite Hw; eauto).
    eexists. split_and!; [done|done|congruence|done].
  - apply (cache_map_None _ _ Hwf) in Hk.
    rewrite bool_decide_eq_false_2 by (rewrite Hk; by intros []).
    exists c. split_and!; [done..|]. by rewrite delete_id.
Qed.

Lemma exec_refines c r now :
  cache_wf c → valid_request r →
  ∃ c' a, exec c r now = Done (c', a) ∧ cache_wf c' ∧
    spec_step (abstract c) r now a (abstract c').
Proof.
  intros Hwf Hr. unfold abstract.
  destruct (closed c) eqn:Hcl; destruct r as [| |k|k v t|k| |]; simpl.
  all: try (destruct (clearExpired_spec c now Hwf) as (c' & -> & ? & Hcl' & ? & ? & ?);
    simpl; exists c', AUnit; split_and!; [done..|];
    rewrite Hcl', Hcl; by constructor).
  all: unfold Size, First, Get, Remove, doClose; rewrite ?Hcl; simpl;
    try (eexists _, _; split_and!; [done|done|simpl; rewrite Hcl; by constructor]).
  - simpl in Hr. unfold Put. rewrite (proj2 (Z.ltb_ge _ _)), Hcl by done. simpl.
    eexists _, _. split_and!; [done|done|rewrite Hcl; by constructor].
  - eexists _, _. split_and!; [done|by destruct Hwf; split|]. constructor.
  - eexists _, _. split_and!; [done|done|]. rewrite Hcl, <-size_cache_map by done.
    constructor.
  - pose proof (first_spec c Hwf) as Hf. unfold pq_first.
    destruct (queue (pq c)) as [|l ls].
    + simpl. eexists _, _. split_and!; [done|done|]. rewrite Hcl, Hf. constructor.
    + destruct Hf as (e & He & _ & Hm & Hmin). rewrite (load_done _ _ _ He). simpl.
      eexists _, _. split_and!; [done|done|]. rewrite Hcl.
      apply (spec_first_some _ (key e) (content e)); [done|]. apply Hmin.
  - pose proof (Get_spec c k Hwf Hcl) as Hg. unfold Get in Hg. rewrite Hcl in Hg.
    rewrite Hg. simpl. eexists _, _. split_and!; [done|done|rewrite Hcl; constructor].
  - destruct (Put_spec c k v t (now 0%nat) Hwf Hcl Hr) as (c' & -> & ? & Hcl' & Hm).
    simpl. eexists _, _. split_and!; [done|done|rewrite Hcl', Hm; constructor].
  - destruct (Remove_spec c k Hwf Hcl) as (c' & Hrm & ? & Hcl' & Hm).
    unfold Remove in Hrm. rewrite Hcl in Hrm. rewrite Hrm. simpl.
    eexists _, _. split_and!; [done|done|rewrite Hcl', Hm; constructor].
  - eexists _, _. split_and!; [done|by destruct Hwf; split|]. constructor.
Qed.
End refinement.

(** ** Sequences of calls, and of cleaner passes *)

Section traces.
Context {V : Type}.
Implicit Types (c : Cache V) (k : string) (v : V).

Fixpoint exec_all c (rs : list (@request V * (nat → Z)))
    : outcome (Cache V * list (@answer V)) :=
  match rs with
  | [] => Done (c, [])
  | (r, now) :: rs =>
      '(c, a) ← exec c r now;
      '(c, l) ← exec_all c rs;
      Done (c, a :: l)
  end.

Inductive spec_all : spec_state → list (@request V * (nat → Z)) →
    list (@answer V) → spec_state → Prop :=
  | spec_all_nil s : spec_all s [] [] s
  | spec_all_cons s r now a s' rs l s'' :
      spec_step s r now a s' → spec_all s' rs l s'' →
      spec_all s ((r, now) :: rs) (a :: l) s''.

Lemma exec_all_refines c rs :
  cache_wf c → Forall (λ r, valid_request r.1) rs →
  ∃ c' l, exec_all c rs = Done (c', l) ∧ cache_wf c' ∧
    spec_all (abstract c) rs l (abstract c').
Proof.
  intros Hwf HF. revert c Hwf.
  induction HF as [|[r now] rs Hr HF IH]; intros c Hwf; simpl.
  { eexists _, _. split_and!; [done|done|constructor]. }
  destruct (exec_refines c r now Hwf Hr) as (c1 & a & -> & Hwf1 & Hs). simpl.
  destruct (IH c1 Hwf1) as (c' & l & -> & Hwf' & Hs'). simpl.
  eexists _, _. split_and!; [done|done|]. by econstructor.
Qed.

(** Successive runs of clearExpired, as the cleaner goroutine makes them. *)
Fixpoint clear_passes (n : nat) (clock : nat → nat → Z) c : outcome (Cache V) :=
  match n with
  | O => Done c
  | S n => c ← clearExpired c (clock n); clear_passes n clock c
  end.

Lemma clear_passes_spec n clock c T :
  cache_wf c → (size (cache_map c) ≤ n)%nat → (∀ p i, T <= clock p i) →
  ∃ c', clear_passes n clock c = Done c' ∧ cache_wf c' ∧
    cache_map c' ⊆ cache_map c ∧
    (∀ k w, cache_map c' !! k = Some w → T <= w.2) ∧
    (∀ k w, cache_map c !! k = Some w → cache_map c' !! k = None →
      ∃ p i, entry_expired w (clock p i) = true).
Proof.
  revert c. induction n as [|n IH]; intros c Hwf Hn HT; simpl.
  { exists c. split_and!; [done|done|done| |congruence].
    intros k w Hw. assert (cache_map c = ∅) as He by (apply map_size_empty_inv; lia).
    by rewrite He in Hw. }
  destruct (clearExpired_spec c (clock n) Hwf)
    as (c1 & -> & Hwf1 & _ & Hsub & Hexp & Hprog). simpl.
  assert (∀ c', cache_map c' ⊆ cache_map c1 →
    (∀ k w, cache_map c1 !! k = Some w → cache_map c' !! k = None →
      ∃ p i, entry_expired w (clock p i) = true) →
    ∀ k w, cache_map c !! k = Some w → cache_map c' !! k = None →
      ∃ p i, entry_expired w (clock p i) = true) as Hlift.
  { intros c' _ Hd k w Hw Hnone. destruct (cache_map c1 !! k) as [w1|] eqn:Hw1.
    - pose proof (lookup_weaken _ _ _ _ Hw1 Hsub). simplify_eq. eauto.
    - destruct (Hexp k w Hw Hw1) as [j Hj]. eauto. }
  destruct (decide (size (cache_map c1) ≤ n)%nat) as [Hle|Hgt].
  { destruct (IH c1 Hwf1 Hle HT) as (c' & -> & Hwf' & Hsub' & HT' & Hd).
    exists c'. split_and!; [done|done|by etrans|done|eauto]. }
  (* nothing was removed: nothing had expired *)
  assert (∀ k w, cache_map c !! k = Some w → T <= w.2) as Hnone.
  { intros k w Hw. destruct (decide (T <= w.2)) as [|Hlt]; [done|exfalso].
    pose proof (HT n 0%nat). specialize (Hprog k w Hw ltac:(lia)). lia. }
  assert (∀ m c2, cache_wf c2 → cache_map c2 ⊆ cache_map c →
    ∃ c', clear_passes m clock c2 = Done c' ∧ cache_wf c' ∧
      cache_map c' ⊆ cache_map c2 ∧
      (∀ k w, cache_map c2 !! k = Some w → cache_map c' !! k = None →
        ∃ p i, entry_expired w (clock p i) = true)) as Hrest.
  { clear -HT. induction m as [|m IH]; intros c2 Hwf2 Hsub2; simpl.
    { exists c2. split_and!; [done..|congruence]. }
    destruct (clearExpired_spec c2 (clock m) Hwf2)
      as (c3 & -> & Hwf3 & _ & Hsub3 & Hexp3 & _). simpl.
    destruct (IH c3 Hwf3 ltac:(by etrans)) as (c' & -> & Hwf' & Hsub' & Hd).
    exists c'. split_and!; [done|done|by etrans|]. intros k w Hw Hno.
    destruct (cache_map c3 !! k) as [w3|] eqn:Hw3.
    - pose proof (lookup_weaken _ _ _ _ Hw3 Hsub3). simplify_eq. eauto.
    - destruct (Hexp3 k w Hw Hw3) as [j Hj]. eauto. }
  destruct (Hrest n c1 Hwf1 Hsub) as (c' & -> & Hwf' & Hsub' & Hd).
  exists c'. split_and!; [done|done|by etrans| |eauto].
  intros k w Hw. apply Hnone with k. do 2 (eapply lookup_weaken; [|done]). done.
Qed.

(** C5.  Every sequence of calls on a new cache with times to live that are not
    negative (Put panics on a negative one by contract) returns, keeps
    the queue, its indices and the map consistent, and answers as the map of
    live entries that specifies the cache: Put inserts, Get and Remove look up
    by key, First answers an entry that expires first, Size counts, and every
    call on a closed cache is refused. *)
Theorem Cache_refines_map (rs : list (@request V * (nat → Z))) :
  Forall (λ r, valid_request r.1) rs →
  ∃ c l, exec_all NewTTLCache rs = Done (c, l) ∧ cache_wf c ∧
    spec_all (false, ∅) rs l (abstract c).
Proof.
  intros HF. destruct (exec_all_refines NewTTLCache rs NewTTLCache_wf HF)
    as (c & l & He & Hwf & Hs). eauto 10.
Qed.

(** C36.  As many passes of the cleaner as the cache has entries remove every
    entry that expires before all the passes, and no pass removes an entry that
    had not expired when it looked. *)
Theorem clearExpired_converges clock c T :
  cache_wf c → (∀ p i, T <= clock p i) →
  ∃ c', clear_passes (size (cache_map c)) clock c = Done c' ∧ cache_wf c' ∧
    (∀ k w, cache_map c' !! k = Some w → T <= w.2) ∧
    (∀ k w, cache_map c !! k = Some w → cache_map c' !! k ≠ Some w →
      ∃ p i, entry_expired w (clock p i) = true).
Proof.
  intros Hwf HT.
  destruct (clear_passes_spec (size (cache_map c)) clock c T Hwf ltac:(lia) HT)
    as (c' & Hc & Hwf' & Hsub & HT' & Hd).
  exists c'. split_and!; [done..|]. intros k w Hw Hno.
  apply Hd with k; [done|]. destruct (cache_map c' !! k) as [w'|] eqn:Hw'; [|done].
  pose proof (lookup_weaken _ _ _ _ Hw' Hsub). congruence.
Qed.
End traces.

(** Two entries put at time 0 with a ttl of 1. *)
Definition two_puts : list (@request bool * (nat → Z)) :=
  [(RPut "a" true 1, λ _, 0); (RPut "b" true 1, λ _, 0)].

(** One pass of clearExpired does not clear all that has expired: its loop
    advances over the slot that each removal refills.  Two entries that expired
    long ago: the pass leaves one. *)
Theorem clearExpired_incomplete :
  ∃ c c' l, exec_all NewTTLCache two_puts = Done (c, l) ∧
    (∀ k w, cache_map c !! k = Some w → entry_expired w 100 = true) ∧
    clearExpired c (λ _, 100) = Done c' ∧ size (cache_map c') = 1%nat.
Proof.
  eexists _, _, _. split_and!; [vm_compute; reflexivity| |vm_compute; reflexivity|].
  - intros k w.
    refine (bool_decide_unpack (map_Forall (λ _ w, entry_expired w 100 = true)
      (cache_map _)) _ k w). by vm_compute.
  - by vm_compute.
Qed.

Lemma Cache_refines_map_witness :
  Forall (λ r, valid_request r.1) two_puts ∧
  ∃ c l, exec_all NewTTLCache two_puts = Done (c, l) ∧ cache_wf c ∧
    spec_all (false, ∅) two_puts l (abstract c).
Proof.
  assert (Forall (λ r : @request bool * (nat → Z), valid_request r.1) two_puts)
    as HF by (repeat constructor; simpl; lia).
  split; [exact HF|exact (Cache_refines_map two_puts HF)].
Defined.

Lemma clearExpired_converges_witness :
  ∃ c c' : Cache bool, size (cache_map c) = 2%nat ∧ cache_wf c ∧
    clear_passes (size (cache_map c)) (λ _ _, 100) c = Done c' ∧
    ∀ k w, cache_map c' !! k = Some w → 100 <= w.2.
Proof.
  destruct (exec_all_refines NewTTLCache two_puts NewTTLCache_wf
    ltac:(repeat constructor; simpl; lia)) as (c & l & He & Hwf & _).
  destruct (clearExpired_converges (λ _ _, 100) c 100 Hwf (λ _ _, Z.le_refl 100))
    as (c' & Hc & _ & HT & _).
  exists c, c'. split_and!; [|exact Hwf|exact Hc|exact HT].
  vm_compute in He. injection He as <- _. vm_compute. reflexivity.
Defined.
