(* ===== verification/CacheControl.v ===== *)
(** * The control channel of the cache: setchanges, Close and startCleaner

    Callers and the cleaner goroutine interleave.  The critical sections of
    Cache.v are atomic (they hold the mutex); what happens outside the mutex is
    a step of its own: the deferred send of [setchanges], which runs after the
    deferred [Unlock], the [close(c.control)] of Close after [doClose], and the
    cleaner's receives and timeouts. *)

From S2P Require Import Prelude ContainerHeap Cache.

(** [make(chan bool, 8)] *)
Definition control_capacity : nat := 8.

(** What the goroutine of startCleaner is doing. *)
Inductive cleaner := Waiting | Stopped.

Record system (V : Type) := System {
  sys_cache : Cache V;
  buffered : nat;          (* values in the control channel *)
  control_closed : bool;
  senders : nat;           (* calls between their Unlock and their send *)
  closers : nat;           (* calls between their doClose and close(c.control) *)
  sys_cleaner : cleaner;
  panics : list panic;     (* panics raised so far, in any goroutine *)
}.
Arguments System {V} _ _ _ _ _ _ _.
Arguments sys_cache {V} _. Arguments buffered {V} _.
Arguments control_closed {V} _. Arguments senders {V} _.
Arguments closers {V} _. Arguments sys_cleaner {V} _. Arguments panics {V} _.

Section system.
Context {V : Type}.
Implicit Types (s : system V) (c : Cache V) (k : string) (v : V).

Definition add_sender (notify : bool) s c : system V :=
  System c (buffered s) (control_closed s)
    (if notify then S (senders s) else senders s) (closers s) (sys_cleaner s) (panics s).

(** [c.control <- true]: panics on a closed channel, blocks ([None]) on a full
    one. *)
Definition do_send s : option (system V) :=
  let n := pred (senders s) in
  if control_closed s
  then Some (System (sys_cache s) (buffered s) true n (closers s) (sys_cleaner s)
               (SendOnClosed :: panics s))
  else if (buffered s <? control_capacity)%nat
  then Some (System (sys_cache s) (S (buffered s)) false n (closers s)
               (sys_cleaner s) (panics s))
  else None.

(** [close(c.control)]: panics when the channel is closed already. *)
Definition do_close s : system V :=
  System (sys_cache s) (buffered s) true (senders s) (pred (closers s)) (sys_cleaner s)
    (if control_closed s then CloseOfClosed :: panics s else panics s).

(** The critical section of Close: a second Close returns at once. *)
Definition enter_close s : system V :=
  let '(c, already) := doClose (sys_cache s) in
  System c (buffered s) (control_closed s) (senders s)
    (if already : bool then closers s else S (closers s)) (sys_cleaner s) (panics s).

(** [<-c.control] in the cleaner: a buffered value first, then the closing. *)
Definition cleaner_receive s : option (system V) :=
  match buffered s with
  | S n => Some (System (sys_cache s) n (control_closed s) (senders s) (closers s)
                   (sys_cleaner s) (panics s))
  | O => if control_closed s
         then Some (System (sys_cache s) 0 true (senders s) (closers s) Stopped (panics s))
         else None
  end.

Definition with_cache s c : system V :=
  System c (buffered s) (control_closed s) (senders s) (closers s) (sys_cleaner s)
    (panics s).

Inductive control_step : system V → system V → Prop :=
  | step_put s c k v t now ok notify :
      Put (sys_cache s) k v t now = Done (c, ok, notify) →
      control_step s (add_sender notify s c)
  | step_remove s c k ok notify :
      Remove (sys_cache s) k = Done (c, ok, notify) →
      control_step s (add_sender notify s c)
  | step_send s s' :
      (0 < senders s)%nat → do_send s = Some s' → control_step s s'
  | step_enter_close s : control_step s (enter_close s)
  | step_close s : (0 < closers s)%nat → control_step s (do_close s)
  | step_receive s s' :
      sys_cleaner s = Waiting → cleaner_receive s = Some s' → control_step s s'
  | step_timer s c now :
      sys_cleaner s = Waiting → clearExpired (sys_cache s) now = Done c →
      control_step s (with_cache s c).

Definition control_start : system V := System NewTTLCache 0 false 0 0 Waiting [].

#[global] Instance control_system : TransitionSystem (system V) := {
  ts_init := λ s, s = control_start;
  ts_step := control_step;
}.

(** The same system when Close is called only once no other call is between
    its critical section and its send. *)
Inductive quiet_step : system V → system V → Prop :=
  | quiet s s' :
      control_step s s' →
      (control_closed s = false → control_closed s' = true → senders s = 0%nat) →
      quiet_step s s'.

(** ** Invariants *)

(** The closed flag goes up before the channel is closed, by exactly one call;
    once it is up no call announces a change. *)
Record control_inv s : Prop := {
  ci_wf : cache_wf (sys_cache s);
  ci_once : (closers s + if control_closed s then 1 else 0)%nat =
            (if closed (sys_cache s) then 1 else 0)%nat;
  ci_room : (buffered s ≤ control_capacity)%nat;
  ci_stopped : sys_cleaner s = Stopped → control_closed s = true ∧ buffered s = 0%nat;
  ci_panics : Forall (λ p, p = SendOnClosed) (panics s);
}.

Lemma Put_notify c k v t now c' ok notify :
  cache_wf c → Put c k v t now = Done (c', ok, notify) →
  cache_wf c' ∧ closed c' = closed c ∧ notify = negb (closed c) ∧ ok = negb (closed c).
Proof.
  intros Hwf Hput. destruct (decide (t < 0)%Z) as [Hneg|Hpos].
  { unfold Put in Hput. by rewrite (proj2 (Z.ltb_lt _ _) Hneg) in Hput. }
  destruct (closed c) eqn:Hcl.
  - unfold Put in Hput. rewrite (proj2 (Z.ltb_ge t 0)), Hcl in Hput by lia.
    by simplify_eq.
  - destruct (Put_spec c k v t now Hwf Hcl ltac:(lia)) as (c1 & Hp & ? & ? & _).
    rewrite Hput in Hp. by simplify_eq.
Qed.

Lemma Remove_notify c k c' ok notify :
  cache_wf c → Remove c k = Done (c', ok, notify) →
  cache_wf c' ∧ closed c' = closed c ∧ (notify = true → closed c = false).
Proof.
  intros Hwf Hrm. destruct (closed c) eqn:Hcl.
  - unfold Remove in Hrm. rewrite Hcl in Hrm. by simplify_eq.
  - destruct (Remove_spec c k Hwf Hcl) as (c1 & Hr & ? & ? & _).
    rewrite Hrm in Hr. by simplify_eq.
Qed.

Lemma control_inv_step s s' : control_inv s → control_step s s' → control_inv s'.
Proof.
  intros [Hwf Honce Hroom Hstop Hpan] Hstep.
  inversion Hstep as [? c k v t now ok notify Hput|? c k ok notify Hrm|? ? Hn Hsend| |
    ? Hn|? ? Hw Hrecv|? c now Hw Hclr]; subst; clear Hstep.
  - destruct (Put_notify _ _ _ _ _ _ _ _ Hwf Hput) as (? & Hcl & _).
    split; simpl; [done|by rewrite Hcl|done..].
  - destruct (Remove_notify _ _ _ _ _ Hwf Hrm) as (? & Hcl & _).
    split; simpl; [done|by rewrite Hcl|done..].
  - unfold do_send in Hsend. destruct (control_closed s) eqn:Hcc; simplify_eq.
    + split; simpl; [done|done|done|naive_solver|by constructor].
    + destruct (_ <? _)%nat eqn:Hlt; simplify_eq. bools.
      split; simpl; [done|done|lia| |done]. intros Hs. by destruct (Hstop Hs).
  - unfold enter_close, doClose. split; simpl; try done.
    + by destruct Hwf; split.
    + destruct (closed (sys_cache s)), (control_closed s); lia.
  - unfold do_close. split; simpl; try done.
    + destruct (control_closed s), (closed (sys_cache s)); lia.
    + naive_solver.
    + destruct (control_closed s); [|done].
      destruct (closed (sys_cache s)); lia.
  - unfold cleaner_receive in Hrecv. destruct (buffered s) as [|n] eqn:Hb.
    + destruct (control_closed s) eqn:Hcc; simplify_eq. by split; simpl; rewrite ?Hcc.
    + simplify_eq. split; simpl; [done|done|lia|by rewrite Hw|done].
  - destruct (clearExpired_spec (sys_cache s) now Hwf) as (c' & Hc & ? & Hcl & _).
    rewrite Hc in Hclr. simplify_eq. split; simpl; [done|by rewrite Hcl|done..].
Qed.

Lemma control_inv_start : control_inv control_start.
Proof. split; simpl; [apply NewTTLCache_wf|done|lia|done|constructor]. Qed.

Lemma control_invariant : inductive_invariant control_inv.
Proof.
  split; [intros ? ->; apply control_inv_start|apply control_inv_step].
Qed.

(** C17.  In every interleaving of calls and cleaner the cache stays well formed,
    the control channel holds at most its 8 values, and it is closed at most
    once, by the first Close: the only panic there can be is the send of a
    pending notification on the closed channel. *)
Theorem control_channel_safe s :
  reachable s → control_inv s.
Proof. apply invariant_reachable, control_invariant. Qed.

(** When Close waits for the pending notifications, nothing panics. *)
Record quiet_inv s : Prop := {
  qi_inv : control_inv s;
  qi_quiet : control_closed s = true → senders s = 0%nat;
  qi_none : panics s = [];
}.

Lemma quiet_inv_step s s' : quiet_inv s → quiet_step s s' → quiet_inv s'.
Proof.
  intros [Hinv Hquiet Hnone] Hqs. destruct Hqs as [s s' Hstep Hq].
  pose proof (control_inv_step _ _ Hinv Hstep) as Hinv'.
  split; [done| |]; destruct Hinv as [Hwf Honce _ _ _];
  inversion Hstep as [? c k v t now ok notify Hput|? c k ok notify Hrm|? ? Hn Hsend| |
    ? Hn|? ? Hw Hrecv|? c now Hw Hclr]; subst; clear Hstep; simpl in *; try done.
  - intros Hcc. destruct (Put_notify _ _ _ _ _ _ _ _ Hwf Hput) as (_ & _ & -> & _).
    rewrite Hcc in Honce. destruct (closed (sys_cache s)); simpl; [auto|lia].
  - intros Hcc. destruct (Remove_notify _ _ _ _ _ Hwf Hrm) as (_ & _ & Hno).
    rewrite Hcc in Honce. destruct notify; [|auto].
    rewrite Hno in Honce by done. lia.
  - unfold do_send in Hsend. intros Hcc. destruct (control_closed s) eqn:Hc1.
    + rewrite Hquiet in Hn by done. lia.
    + destruct (_ <? _)%nat; by simplify_eq.
  - unfold do_close in *. simpl in *. destruct (control_closed s); auto.
  - unfold cleaner_receive in Hrecv. repeat case_match; simplify_eq/=; auto.
  - unfold do_send in Hsend. destruct (control_closed s) eqn:Hc1.
    + rewrite Hquiet in Hn by done. lia.
    + destruct (_ <? _)%nat; by simplify_eq.
  - destruct (control_closed s); [|done]. destruct (closed (sys_cache s)); lia.
  - unfold cleaner_receive in Hrecv. repeat case_match; simplify_eq/=; auto.
Qed.

(** If the channel is closed only when no call has a notification left to
    send, no interleaving panics: after doClose no call announces a change. *)
Theorem quiet_close_safe s :
  rtc quiet_step control_start s → panics s = [].
Proof.
  intros Hr. assert (quiet_inv s) as Hq; [|apply Hq].
  eapply rtc_preserved; [exact quiet_inv_step| |exact Hr].
  split; [apply control_inv_start|done|done].
Qed.

Lemma reachable_control_start : reachable control_start.
Proof. exists control_start. split; [done|apply rtc_refl]. Qed.
End system.

Lemma control_channel_safe_witness :
  reachable (enter_close (V:=bool) control_start) ∧
  control_inv (enter_close (V:=bool) control_start).
Proof.
  assert (reachable (enter_close (V:=bool) control_start)) as Hr.
  { eapply reachable_step; [apply reachable_control_start|apply step_enter_close]. }
  split; [exact Hr|exact (control_channel_safe _ Hr)].
Defined.

Lemma quiet_close_safe_witness :
  rtc quiet_step control_start (enter_close (V:=bool) control_start) ∧
  panics (enter_close (V:=bool) control_start) = [].
Proof.
  assert (rtc quiet_step control_start (enter_close (V:=bool) control_start)) as Hr.
  { apply rtc_once. split; [apply step_enter_close|done]. }
  split; [exact Hr|exact (quiet_close_safe _ Hr)].
Defined.

(** Close races with the notifications: a Put that has left its critical
    section when another goroutine closes the cache sends on the closed control
    channel and panics. *)
Theorem Close_races_with_Put :
  ∃ s : system bool, reachable s ∧ panics s = [SendOnClosed].
Proof.
  assert (∃ c, Put NewTTLCache "id" true 5 0 = Done (c, true, true)) as [c Hput].
  { eexists. vm_compute. reflexivity. }
  eexists. split.
  - eapply reachable_step; [eapply reachable_step; [eapply reachable_step; [
      eapply reachable_step; [apply reachable_control_start|]|]|]|].
    + exact (step_put control_start c "id" true 5 0 true true Hput).
    + apply step_enter_close.
    + apply step_close. simpl. destruct (closed c) eqn:Hc; [|lia].
      destruct (Put_notify _ _ _ _ _ _ _ _ NewTTLCache_wf Hput) as (_ & Hcl & _).
      by rewrite Hcl in Hc.
    + eapply step_send; [simpl; lia|reflexivity].
  - reflexivity.
Qed.
