(* ===== verification/Timeouts.v ===== *)
(** * The time a message may wait for its acknowledgement: connector/utils.go

    calcTimeout multiplies a duration by 0.8 as a [float64].  The binary64
    numbers it meets are positive and normal, so that a number is an integer at a
    fixed scale and an operation is the exact one followed by the rounding to 53
    bits, to the nearest and to the even one of two. *)

From S2P Require Import Prelude.

Local Open Scope Z_scope.

(** How many low bits of [n] do not fit into 53. *)
Definition excess (n : Z) : Z := Z.max 0 (Z.log2 n - 52).

(** The binary64 number nearest to [n], for [n] not negative. *)
Definition round53 (n : Z) : Z :=
  let d := excess n in
  let q := n / 2 ^ d in
  let r := n mod 2 ^ d in
  let up := (2 ^ d <? 2 * r) || ((2 * r =? 2 ^ d) && Z.odd q) in
  (if up then q + 1 else q) * 2 ^ d.

(** 0.8 as a binary64 number: this integer divided by 2^53. *)
Definition four_fifths : Z := 7205759403792794.

(** The conversion to an integer drops the fraction; signs are kept apart. *)
Definition calcTimeout (keepAlive : Z) : Z :=
  Z.sgn keepAlive * (round53 (round53 (Z.abs keepAlive) * four_fifths) / 2 ^ 53).

(** ** The error of a rounding *)

Lemma excess_fits n : 0 <= n → excess n = 0 ↔ n < 2 ^ 53.
Proof.
  intros Hn. unfold excess. destruct (decide (n = 0)) as [->|Hne]; [done|].
  rewrite (Z.log2_lt_pow2 n 53) by lia. lia.
Qed.

(** Numbers of 53 bits are kept. *)
Lemma round53_fits n : 0 <= n < 2 ^ 53 → round53 n = n.
Proof.
  intros Hn. unfold round53. rewrite (proj2 (excess_fits n ltac:(lia))) by lia.
  change (2 ^ 0) with 1. rewrite Z.mod_1_r, Z.div_1_r.
  change (1 <? 2 * 0) with false. change (2 * 0 =? 1) with false. cbn [orb andb]. lia.
Qed.

(** The error is at most half a unit in the last place. *)
Lemma round53_ulp n : 0 <= n → 2 * Z.abs (round53 n - n) <= 2 ^ excess n.
Proof.
  intros Hn. unfold round53. set (d := excess n).
  assert (0 < 2 ^ d) as Hd by (apply Z.pow_pos_nonneg; unfold d, excess; lia).
  pose proof (Z.div_mod n (2 ^ d) ltac:(lia)) as Hdm.
  pose proof (Z.mod_pos_bound n (2 ^ d) Hd) as Hr.
  set (q := n / 2 ^ d) in *. set (r := n mod 2 ^ d) in *.
  destruct (2 ^ d <? 2 * r) eqn:E1; bools; cbn [orb].
  - replace ((q + 1) * 2 ^ d - n) with (2 ^ d - r) by lia. lia.
  - destruct (2 * r =? 2 ^ d) eqn:E2; bools; cbn [andb];
      [destruct (Z.odd q)|];
      [replace ((q + 1) * 2 ^ d - n) with (2 ^ d - r) by lia; lia
      |replace (q * 2 ^ d - n) with (- r) by lia; lia..].
Qed.

(** The relative error is at most 2^-53. *)
Lemma round53_relative n : 0 <= n → 2 ^ 53 * Z.abs (round53 n - n) <= n.
Proof.
  intros Hn. destruct (decide (n < 2 ^ 53)) as [Hlt|Hge].
  { rewrite round53_fits by lia. rewrite Z.sub_diag. cbn. lia. }
  pose proof (round53_ulp n Hn) as Hulp.
  assert (2 ^ 52 * 2 ^ excess n <= n) as Hle; [|lia].
  assert (53 <= Z.log2 n) as Hlog by (apply Z.log2_le_pow2; lia).
  unfold excess. rewrite <-Z.pow_add_r by lia.
  replace (52 + _) with (Z.log2 n) by lia. apply Z.log2_spec. lia.
Qed.

(** A multiple of the last place is not rounded across. *)
Lemma round53_above n m : 0 <= n → (2 ^ excess n | m) → m <= n → m <= round53 n.
Proof.
  intros Hn [k ->] Hle. unfold round53. set (d := excess n) in *.
  assert (0 < 2 ^ d) as Hd by (apply Z.pow_pos_nonneg; unfold d, excess; lia).
  assert (k <= n / 2 ^ d) by (apply Z.div_le_lower_bound; lia).
  destruct (_ || _); nia.
Qed.

(** C40.  The acknowledgement timeout is four fifths of the keep-alive time,
    rounded down, for every keep-alive time below 2^50 nanoseconds (13 days): the
    two roundings of the floating point product do not show.  For every duration
    that a time.Duration can hold the timeout is shorter than the keep-alive time
    and not negative, so that a message is given up before the connection is. *)
Theorem calcTimeout_exact keepAlive :
  0 < keepAlive < 2 ^ 63 →
  0 <= calcTimeout keepAlive < keepAlive ∧
  (keepAlive < 2 ^ 50 → calcTimeout keepAlive = 4 * keepAlive / 5).
Proof.
  intros Hk. unfold calcTimeout.
  rewrite Z.sgn_pos, Z.abs_eq, Z.mul_1_l by lia.
  pose proof (round53_relative keepAlive ltac:(lia)) as Hx.
  set (x := round53 keepAlive) in *.
  assert (0 <= x) as Hx0 by lia.
  pose proof (round53_relative (x * four_fifths) ltac:(unfold four_fifths; lia)) as Hy.
  set (y := round53 (x * four_fifths)) in *.
  unfold four_fifths in Hy. split_and!.
  - apply Z.div_pos; lia.
  - destruct (decide (keepAlive = 1)) as [->|Hne].
    { subst x y. vm_compute. done. }
    apply Z.div_lt_upper_bound; lia.
  - intros Hlt.
    assert (x = keepAlive) as Hxk by (subst x; apply round53_fits; lia).
    subst y. rewrite Hxk in *. clear Hx0 Hx Hxk x. set (y := round53 _) in *.
    pose proof (Z.div_mod (4 * keepAlive) 5 ltac:(lia)) as Hdm.
    pose proof (Z.mod_pos_bound (4 * keepAlive) 5 ltac:(lia)) as Hr.
    set (q := 4 * keepAlive / 5) in *. clearbody q.
    assert (2 ^ 53 * q <= y) as Hlow.
    { apply round53_above; [unfold four_fifths; lia| |unfold four_fifths; lia].
      apply Z.divide_mul_l. exists (2 ^ (53 - excess (keepAlive * four_fifths))).
      assert (Z.log2 (keepAlive * four_fifths) < 103) as Hlog.
      { apply Z.log2_lt_pow2; unfold four_fifths; lia. }
      unfold excess. revert Hlog. generalize (Z.log2 (keepAlive * four_fifths)). intros l Hl.
      rewrite <-Z.pow_add_r by lia. f_equal. lia. }
    symmetry. apply (Z.div_unique_pos _ _ q (y - 2 ^ 53 * q)); lia.
Qed.

Lemma calcTimeout_exact_witness :
  calcTimeout (20 * Second) = 16 * Second.
Proof.
  exact (proj2 (calcTimeout_exact (20 * Second) ltac:(done)) ltac:(done)).
Defined.

(** Above 2^50 nanoseconds the rounding shows. *)
Lemma calcTimeout_rounds :
  calcTimeout (2 ^ 62 + 1) = 3689348814741910528 ∧ 4 * (2 ^ 62 + 1) / 5 = 3689348814741910324.
Proof. vm_compute. done. Qed.
