(* ===== verification/Message.v ===== *)
(** * Messages and their contexts

    connector/context.go, connector/marshaller.go, connector/utils.go and
    connector/errors.go.  A message carries a [context.Context]: a chain of
    key/value pairs in which the innermost binding of a key is the one that is
    read. *)

From S2P Require Import Prelude GoStrings.
From stdpp Require Import pretty.

Local Open Scope Z_scope.

(** ** Contexts *)

Inductive contextKey := topicContextKey | qosContextKey | retainContextKey.

#[export] Instance contextKey_eq_dec : EqDecision contextKey.
Proof. solve_decision. Defined.

Definition Qos : Type := Z.
Definition QosAtMostOnce : Qos := 0.
Definition QosAtLeastOnce : Qos := 1.

(** The dynamic types the connector stores in a context. *)
Inductive ctx_value := CtxString (s : string) | CtxQos (q : Qos) | CtxBool (b : bool).

Definition context : Type := list (contextKey * ctx_value).

Definition Background : context := [].

Definition WithValue (ctx : context) (k : contextKey) (v : ctx_value) : context :=
  (k, v) :: ctx.

Fixpoint Value (ctx : context) (k : contextKey) : option ctx_value :=
  match ctx with
  | [] => None
  | (k', v) :: ctx' => if decide (k' = k) then Some v else Value ctx' k
  end.

Definition SetTopicToCtx (ctx : context) (topic : string) : context :=
  WithValue ctx topicContextKey (CtxString topic).

Definition TopicFromCtx (ctx : context) : option string :=
  match Value ctx topicContextKey with Some (CtxString s) => Some s | _ => None end.

Definition QosFromCtx (ctx : context) : option Qos :=
  match Value ctx qosContextKey with Some (CtxQos q) => Some q | _ => None end.

Definition SetQosToCtx (ctx : context) (qos : Qos) : context :=
  match QosFromCtx ctx with
  | Some q =>
      if negb (q =? qos) then WithValue ctx qosContextKey (CtxQos qos)
      else WithValue ctx qosContextKey (CtxQos qos)
  | None => WithValue ctx qosContextKey (CtxQos qos)
  end.

Definition RetainFromCtx (ctx : context) : bool :=
  match Value ctx retainContextKey with Some (CtxBool r) => r | _ => false end.

Definition SetRetainToCtx (ctx : context) (retain : bool) : context :=
  match Value ctx retainContextKey with
  | Some (CtxBool r) =>
      if negb (Bool.eqb r retain)
      then WithValue ctx retainContextKey (CtxBool retain) else ctx
  | _ => if retain then WithValue ctx retainContextKey (CtxBool retain) else ctx
  end.

(** ** Messages *)

Record message := Message {
  UUID : string;
  Payload : string;
  Context : context;
}.

(** [message.NewMessage]: a fresh message has the background context. *)
Definition NewMessage (uuid payload : string) : message :=
  Message uuid payload Background.

Definition SetContext (msg : message) (ctx : context) : message :=
  Message (UUID msg) (Payload msg) ctx.

#[export] Instance message_eq_dec : EqDecision message.
Proof.
  assert (EqDecision ctx_value) by solve_decision. solve_decision.
Defined.

(** ** Routes *)

(** A route of the message router: where a handler's messages come from and
    where they go when their context names no topic. *)
Record bus (F : Type) := Bus {
  bus_name : string;
  bus_subscribe : string;
  bus_publish : string;
  bus_handler : F;
}.
Arguments Bus {F} _ _ _ _.
Arguments bus_name {F} _. Arguments bus_subscribe {F} _.
Arguments bus_publish {F} _. Arguments bus_handler {F} _.

Definition TopicEmpty : string := "".

(** ** The default marshaller *)

Definition Marshal (msg : message) : result string := Ok (Payload msg).

Definition Unmarshal (mid : Z) (payload : string) : result message :=
  Ok (NewMessage (pretty mid) payload).

(** ** connector/errors.go *)

Definition ErrClosed : error := Sentinel "publisher/subscriber closed".
Definition ErrTimeout : error := Sentinel "publish timeout".
Definition ErrNotConnected : error := Sentinel "not connected".

(** ** connector/utils.go *)

Definition parseSubs (topic : string) : list string := Split topic ",".

Definition subFilters (qos : Qos) (subs : list string) : gmap string Z :=
  foldl (λ filters topic, <[topic := qos]> filters) ∅ subs.

(** ** MQTT topic filters

    What the broker delivers to a subscription: "+" stands for one level, a
    final "#" for any number of them, the parent level included. *)

Fixpoint segments_match (filter topic : list string) : bool :=
  match filter with
  | [] => bool_decide (topic = [])
  | s :: filter' =>
      if decide (s = "#" ∧ filter' = []) then true else
      match topic with
      | [] => false
      | seg :: topic' =>
          (bool_decide (s = "+") || bool_decide (s = seg)) &&
          segments_match filter' topic'
      end
  end.

Definition filter_matches (filter topic : string) : bool :=
  segments_match (Split filter slash) (Split topic slash).

(** An id that is one literal level of a filter. *)
Definition plain_level (s : string) : Prop :=
  byte_free slash s = true ∧ s ≠ "+" ∧ s ≠ "#".

Lemma segments_match_plain s filter topic :
  s ≠ "+" → s ≠ "#" → segments_match (s :: filter) topic = true →
  ∃ topic', topic = s :: topic' ∧ segments_match filter topic' = true.
Proof.
  intros Hp Hh. cbn [segments_match].
  rewrite decide_False by naive_solver. destruct topic as [|seg topic]; [done|].
  rewrite bool_decide_eq_false_2 by done. cbn [orb].
  intros H. bools. subst. eauto.
Qed.

Lemma segments_match_plus filter topic :
  filter ≠ [] → segments_match ("+" :: filter) topic = true →
  ∃ seg topic', topic = seg :: topic' ∧ segments_match filter topic' = true.
Proof.
  intros Hne. cbn [segments_match]. rewrite decide_False by naive_solver.
  destruct topic as [|seg topic]; [done|]. intros H. bools. eauto.
Qed.

(** ** What is read is what was set *)

Lemma Value_set ctx k v : Value (WithValue ctx k v) k = Some v.
Proof. simpl. by rewrite decide_True. Qed.

Lemma Value_other ctx k k' v : k ≠ k' → Value (WithValue ctx k v) k' = Value ctx k'.
Proof. intros. simpl. by rewrite decide_False. Qed.

Lemma TopicFromCtx_set ctx t : TopicFromCtx (SetTopicToCtx ctx t) = Some t.
Proof. done. Qed.

Lemma SetQosToCtx_eq ctx q :
  SetQosToCtx ctx q = WithValue ctx qosContextKey (CtxQos q).
Proof. unfold SetQosToCtx. by destruct (QosFromCtx ctx); [case_match|]. Qed.

Lemma QosFromCtx_set ctx q : QosFromCtx (SetQosToCtx ctx q) = Some q.
Proof. by rewrite SetQosToCtx_eq. Qed.

Lemma RetainFromCtx_set ctx r : RetainFromCtx (SetRetainToCtx ctx r) = r.
Proof.
  unfold SetRetainToCtx, RetainFromCtx.
  destruct (Value ctx retainContextKey) as [[s|q|b]|] eqn:E; destruct r; simpl;
    rewrite ?E; try done; destruct b; simpl; rewrite ?E; done.
Qed.

(** The three setters do not disturb each other's values. *)
Lemma TopicFromCtx_qos ctx q : TopicFromCtx (SetQosToCtx ctx q) = TopicFromCtx ctx.
Proof. by rewrite SetQosToCtx_eq. Qed.

Lemma TopicFromCtx_retain ctx r :
  TopicFromCtx (SetRetainToCtx ctx r) = TopicFromCtx ctx.
Proof. unfold SetRetainToCtx. by repeat case_match. Qed.

Lemma QosFromCtx_topic ctx t : QosFromCtx (SetTopicToCtx ctx t) = QosFromCtx ctx.
Proof. done. Qed.

Lemma QosFromCtx_retain ctx r : QosFromCtx (SetRetainToCtx ctx r) = QosFromCtx ctx.
Proof. unfold SetRetainToCtx. by repeat case_match. Qed.

Lemma RetainFromCtx_topic ctx t :
  RetainFromCtx (SetTopicToCtx ctx t) = RetainFromCtx ctx.
Proof. done. Qed.

Lemma RetainFromCtx_qos ctx q : RetainFromCtx (SetQosToCtx ctx q) = RetainFromCtx ctx.
Proof. by rewrite SetQosToCtx_eq. Qed.

Create Rewrite HintDb ctx.
#[export] Hint Rewrite TopicFromCtx_set TopicFromCtx_qos TopicFromCtx_retain
  QosFromCtx_set QosFromCtx_topic QosFromCtx_retain
  RetainFromCtx_set RetainFromCtx_topic RetainFromCtx_qos : ctx.

(** Subscription filters: the topics, each with the one quality of service. *)
Lemma subFilters_lookup qos subs t :
  subFilters qos subs !! t = if decide (t ∈ subs) then Some qos else None.
Proof.
  unfold subFilters.
  assert (∀ m, foldl (λ f (s : string), <[s:=qos]> f) m subs !! t =
    if decide (t ∈ subs) then Some qos else (m : gmap string Z) !! t) as ->; [|done].
  induction subs as [|s subs IH]; intros m; cbn [foldl].
  { by rewrite decide_False by apply not_elem_of_nil. }
  rewrite IH. destruct (decide (t ∈ subs)) as [Hin|Hin].
  - by rewrite decide_True by (by right).
  - destruct (decide (s = t)) as [->|Hne].
    + rewrite lookup_insert_eq. by rewrite decide_True by left.
    + rewrite lookup_insert_ne by done.
      rewrite decide_False by (by rewrite elem_of_cons; naive_solver). done.
Qed.
