(* ===== verification/Commands.v ===== *)
(** * Cloud commands: routing/commands.go and routing/utils.go

    HandleRequest forwards a command of the cloud to the local broker in both
    spellings of its topic and remembers its correlation id; HandleResponse
    forwards the local answer to a remembered command, once.  The handlers are
    written against the interface [RequestCache] of what they need of the
    cache; Cache.v implements it.

    [json.Unmarshal] into the Ditto envelope and the accessors of its headers are
    third-party code: the argument [unmarshal] gives the error of the first, or
    what the two accessors answer when the handlers call them, which may be a
    panic (of null headers, of a header that is no string).  A handler returns
    its cache apart from its outcome, because what it did to the cache survives a
    panic. *)

From S2P Require Import Prelude GoStrings Util ContainerHeap Cache Message.

Local Open Scope Z_scope.

Definition TopicCommandRequest : string := "command//+/req/#".
Definition TopicCommandResponse : string := "command//+/res/#,c//+/s/#".
Definition msgInvalidCloudCommand : string := "invalid cloud command".
Definition errNoTopic : error := Sentinel "no MQTT topic".

(** ** routing/utils.go *)

(** command topic is in format command/tenantID/gatewayID/deviceID/suffix *)
Definition fixCommand (topic : string) : result string :=
  let segments := Split topic slash in
  if (length segments <? 5)%nat
  then Err (Errorf ("Invalid command topic " +:+ topic))
  else
    let buff := "command//" in
    let buff :=
      if 0 <? slen (nth 3 segments "")
      then buff +:+ nth 2 segments "" +:+ ":" +:+ nth 3 segments ""
      else buff in
    Ok (foldl (λ b seg, b +:+ "/" +:+ seg) buff (drop 4 segments)).

(** deviceID is in format gatewayID:ID *)
Definition stripGatewayID (gatewayID deviceID : string) : outcome (result string) :=
  if HasPrefix deviceID gatewayID then
    if slen deviceID <=? slen gatewayID + 1 then Done (Ok "")
    else s ← slice_from deviceID (slen gatewayID + 1); Done (Ok s)
  else Done (Err (Errorf ("Invalid deviceID " +:+ deviceID +:+ " for gateway "
                          +:+ gatewayID))).

(** ** What the handlers need of the request cache *)

Class RequestCache (C : Type) := {
  rc_put : C → string → Z → Z → outcome C;     (* key, time to live, now *)
  rc_remove : C → string → outcome (C * bool);
  rc_clear : C → (nat → Z) → outcome C;        (* a pass of the cleaner *)
  rc_valid : C → Prop;
  rc_open : C → bool;
  rc_pending : C → gset string;
  rc_put_law c k t now :
    rc_valid c → 0 <= t →
    ∃ c', rc_put c k t now = Done c' ∧ rc_valid c' ∧ rc_open c' = rc_open c ∧
      rc_pending c' = if rc_open c then {[k]} ∪ rc_pending c else rc_pending c;
  rc_remove_law c k :
    rc_valid c →
    ∃ c', rc_remove c k = Done (c', bool_decide (k ∈ rc_pending c)) ∧
      rc_valid c' ∧ rc_open c' = rc_open c ∧
      rc_pending c' = rc_pending c ∖ {[k]};
  rc_clear_law c now :
    rc_valid c →
    ∃ c', rc_clear c now = Done c' ∧ rc_valid c' ∧ rc_open c' = rc_open c ∧
      rc_pending c' ⊆ rc_pending c;
}.

(** The cache of cache/cache.go keeps the promises; a closed cache remembers
    nothing. *)
#[local] Obligation Tactic := idtac.

#[export] Program Instance Cache_RequestCache : RequestCache (Cache bool) := {
  rc_put c k t now := r ← Put c k true t now; Done r.1.1;
  rc_remove c k := r ← Remove c k; Done r.1;
  rc_clear := clearExpired;
  rc_valid := cache_wf;
  rc_open c := negb (closed c);
  rc_pending c := if closed c then ∅ else dom (cache_map c);
}.
Next Obligation.
  intros c k t now Hwf Ht. simpl. destruct (closed c) eqn:Hcl.
  - exists c. unfold Put. rewrite (proj2 (Z.ltb_ge _ _)), Hcl by done.
    by split_and!.
  - destruct (Put_spec c k true t now Hwf Hcl Ht) as (c' & -> & ? & Hcl' & Hm).
    exists c'. simpl. rewrite Hcl', Hm. split_and!; [done|done|done|].
    by rewrite dom_insert_L.
Qed.
Next Obligation.
  intros c k Hwf. simpl. destruct (closed c) eqn:Hcl.
  - exists c. unfold Remove. rewrite Hcl. simpl.
    split_and!; [|done|done|set_solver].
    by rewrite bool_decide_eq_false_2 by set_solver.
  - destruct (Remove_spec c k Hwf Hcl) as (c' & -> & ? & Hcl' & Hm).
    exists c'. simpl. rewrite Hcl', Hm.
    split_and!; [|done|done|by rewrite dom_delete_L].
    do 2 f_equal. apply bool_decide_ext. by rewrite elem_of_dom.
Qed.
Next Obligation.
  intros c now Hwf. simpl.
  destruct (clearExpired_spec c now Hwf) as (c' & -> & ? & Hcl & Hsub & _).
  exists c'. rewrite Hcl. split_and!; [done..|]. case_match; [done|]. by apply subseteq_dom.
Qed.

(** A Ditto envelope, by the answers of [Headers.CorrelationID()] and
    [Headers.Timeout()]. *)
Record headers := Headers { CorrelationID : outcome string; Timeout : outcome string }.

Record cmdRequestHandler := CmdRequestHandler {
  req_tenantID : string;
  req_deviceID : string;
  req_generic : bool;
}.

Record cmdResponseHandler := CmdResponseHandler {
  res_prefix : string;
  res_tenantID : string;
  res_deviceID : string;
  res_generic : bool;
}.

Section handlers.
Context `{RequestCache C}.
Variable unmarshal : string → result headers.
Implicit Types (c : C) (msg : message).

(** The bookkeeping of HandleRequest: a command that expects an answer. *)
Definition remember c (now : Z) (command : headers) : outcome C :=
  correlationID ← CorrelationID command;
  if 0 <? slen correlationID then
    header ← Timeout command;
    timeout ← ParseTimeout header;
    if negb (timeout =? 0)
    then rc_put c correlationID (timeout + Second * 5) now
    else Done c
  else Done c.

(** The forwarding of HandleRequest. *)
Definition forward_request (h : cmdRequestHandler) (topic : string) msg
    : outcome (result (list message)) :=
  let fixed :=
    if req_generic h then
      match fixCommand topic with
      | Err e => Err e
      | Ok topic => Ok (topic, SetContext msg (SetTopicToCtx (Context msg) topic))
      end
    else Ok (topic, msg) in
  match fixed with
  | Err e => Done (Err e)
  | Ok (topic, msg) =>
      '(_, deviceID, suffix) ← ParseCmdTopic topic;
      let topic := "c//" +:+ deviceID +:+ "/q/" +:+ suffix in
      let short := SetContext (NewMessage (UUID msg) (Payload msg))
                     (SetTopicToCtx (Context msg) topic) in
      Done (Ok [msg; short])
  end.

Definition HandleRequest (h : cmdRequestHandler) c (now : Z) msg
    : C * outcome (result (list message)) :=
  match TopicFromCtx (Context msg) with
  | None => (c, Done (Err errNoTopic))
  | Some topic =>
      match unmarshal (Payload msg) with
      | Err e => (c, Done (Err (Wrap e msgInvalidCloudCommand)))
      | Ok command =>
          match remember c now command with
          | Done c => (c, forward_request h topic msg)
          | Panicked p => (c, Panicked p)
          | NoFuel => (c, NoFuel)
          end
      end
  end.

(** The topic and the message of an answer to a remembered command. *)
Definition forward_response (h : cmdResponseHandler) (topic : string) msg
    : outcome (result (list message)) :=
  '(_, deviceID, suffix) ← ParseCmdTopic topic;
  let buff :=
    if res_generic h && (0 <? slen (res_prefix h)) then res_prefix h +:+ "/" else "" in
  let buff := buff +:+ "command/" in
  buff ← (if res_generic h then
            let buff := buff +:+ res_tenantID h +:+ "/" +:+ res_deviceID h +:+ "/" in
            stripped ← stripGatewayID (res_deviceID h) deviceID;
            Done (match stripped with Err e => Err e | Ok s => Ok (buff +:+ s) end)
          else Done (Ok (buff +:+ "/" +:+ deviceID)));
  match buff with
  | Err e => Done (Err e)
  | Ok buff =>
      let buff := buff +:+ "/res/" +:+ suffix in
      Done (Ok [SetContext msg (SetTopicToCtx (Context msg) buff)])
  end.

Definition HandleResponse (h : cmdResponseHandler) c msg
    : C * outcome (result (list message)) :=
  match TopicFromCtx (Context msg) with
  | None => (c, Done (Err errNoTopic))
  | Some topic =>
      match unmarshal (Payload msg) with
      | Err e => (c, Done (Err (Wrap e msgInvalidCloudCommand)))
      | Ok command =>
          match CorrelationID command with
          | Done correlationID =>
              match rc_remove c correlationID with
              | Done (c, true) => (c, forward_response h topic msg)
              | Done (c, false) => (c, Done (Ok []))
              | Panicked p => (c, Panicked p)
              | NoFuel => (c, NoFuel)
              end
          | Panicked p => (c, Panicked p)
          | NoFuel => (c, NoFuel)
          end
      end
  end.

Definition NewCommandRequestHandler (tenantID deviceID : string) (generic : bool)
    : C → Z → message → C * outcome (result (list message)) :=
  HandleRequest (CmdRequestHandler tenantID deviceID generic).

Definition CommandsReqBus (tenantID deviceID : string) (generic : bool)
    : bus (C → Z → message → C * outcome (result (list message))) :=
  let topic :=
    if generic then "command/" +:+ tenantID +:+ "/" +:+ deviceID +:+ "/+/req/#"
    else TopicCommandRequest in
  Bus "commands_request_bus" topic TopicEmpty
    (NewCommandRequestHandler tenantID deviceID generic).

Definition NewCommandResponseHandler (prefix tenantID deviceID : string) (generic : bool)
    : C → message → C * outcome (result (list message)) :=
  HandleResponse (CmdResponseHandler prefix tenantID deviceID generic).

(** [prefix] is the environment variable COMMAND_RESPONSE_TOPIC_PREFIX. *)
Definition CommandsResBus (prefix tenantID deviceID : string) (generic : bool)
    : bus (C → message → C * outcome (result (list message))) :=
  Bus "commands_response_bus" TopicCommandResponse TopicEmpty
    (NewCommandResponseHandler prefix tenantID deviceID generic).
End handlers.

(** ** Topics built segment by segment *)

Lemma foldl_segments buff l :
  l ≠ [] → foldl (λ b seg, b +:+ "/" +:+ seg) buff l = buff +:+ "/" +:+ Join l "/".
Proof.
  revert buff. induction l as [|seg l IH]; intros buff Hne; [done|].
  destruct l as [|seg' l]; [done|].
  transitivity (foldl (λ b seg, b +:+ "/" +:+ seg) (buff +:+ "/" +:+ seg) (seg' :: l));
    [done|].
  rewrite IH, (Join_cons seg) by done. by rewrite !sapp_assoc.
Qed.

(** The device a cloud topic of a gateway stands for locally. *)
Definition local_device (gatewayID id : string) : string :=
  if 0 <? slen id then gatewayID +:+ ":" +:+ id else "".

Lemma fixCommand_spec tenantID gatewayID id rest :
  byte_free slash tenantID = true → byte_free slash gatewayID = true →
  byte_free slash id = true →
  fixCommand ("command/" +:+ tenantID +:+ "/" +:+ gatewayID +:+ "/" +:+ id +:+ "/" +:+ rest)
  = Ok (cmd_topic Long (local_device gatewayID id) rest).
Proof.
  intros Ht Hg Hi. unfold fixCommand.
  replace (Split _ slash) with ("command" :: tenantID :: gatewayID :: id :: Split rest slash).
  2:{ change ("command/" +:+ ?x) with ("command" +:+ "/" +:+ x).
      by rewrite !Split_segment by done. }
  pose proof (Split_nonempty rest slash) as Hne.
  destruct (Split rest slash) as [|seg segs] eqn:Hs; [done|]. cbn [length nth drop].
  rewrite (proj2 (Nat.ltb_ge _ 5)) by lia.
  rewrite foldl_segments by done. rewrite <-Hs, Join_Split.
  unfold cmd_topic, local_device. by destruct (0 <? slen id).
Qed.

(** stripGatewayID drops the gateway id and whatever byte comes next. *)
Lemma stripGatewayID_spec gatewayID c id :
  stripGatewayID gatewayID (gatewayID +:+ String c id) = Done (Ok id).
Proof.
  unfold stripGatewayID. rewrite HasPrefix_app.
  destruct (_ <=? _) eqn:E; bools.
  - rewrite slen_app, slen_cons in E.
    assert (slen id = 0) as ->%slen_zero by (pose proof (slen_nonneg id); lia). done.
  - rewrite (slice_from_pieces (gatewayID +:+ String c "") id); [done| |].
    + by rewrite sapp_assoc.
    + by rewrite slen_app.
Qed.

Lemma stripGatewayID_self gatewayID : stripGatewayID gatewayID gatewayID = Done (Ok "").
Proof.
  unfold stripGatewayID.
  assert (HasPrefix gatewayID gatewayID = true) as ->
    by (rewrite <-(sapp_nil_r gatewayID) at 1; apply HasPrefix_app).
  by rewrite (proj2 (Z.leb_le _ _)) by lia.
Qed.

Lemma stripGatewayID_foreign gatewayID deviceID :
  HasPrefix deviceID gatewayID = false →
  ∃ e, stripGatewayID gatewayID deviceID = Done (Err e).
Proof. intros H. unfold stripGatewayID. rewrite H. eauto. Qed.

(** ** Requests and responses *)

Definition cloud_topic (generic : bool) (tenantID gatewayID id kind suffix : string)
    : string :=
  if generic
  then "command/" +:+ tenantID +:+ "/" +:+ gatewayID +:+ "/" +:+ id +:+ "/" +:+ kind
       +:+ "/" +:+ suffix
  else "command//" +:+ id +:+ "/" +:+ kind +:+ "/" +:+ suffix.

(** The device id the local broker sees. *)
Definition local_id (generic : bool) (gatewayID id : string) : string :=
  if generic then local_device gatewayID id else id.

Definition request_type (f : topic_form) : string :=
  match f with Short => "q" | Long => "req" end.
Definition response_type (f : topic_form) : string :=
  match f with Short => "s" | Long => "res" end.

Lemma local_id_free generic g id :
  byte_free slash g = true → byte_free slash id = true →
  byte_free slash (local_id generic g id) = true.
Proof.
  intros Hg Hi. destruct generic; simpl; [|done]. unfold local_device.
  case_match; [|done]. by rewrite byte_free_app, Hg; simpl.
Qed.

(** A parsed cloud topic: what fixCommand (if any) and ParseCmdTopic see. *)
Definition local_topic (f : topic_form) (device type suffix : string) : string :=
  cmd_topic f device (type +:+ String slash suffix).

Section requests.
Context `{RequestCache C}.
Variable unmarshal : string → result headers.
Implicit Types (c : C) (msg : message).

(** Headers that HandleRequest reads without a panic: it looks at the timeout of a
    correlated command only, and cannot parse "s". *)
Definition readable (h : headers) : Prop :=
  ∃ k, CorrelationID h = Done k ∧
    (k = "" ∨ ∃ timeout, Timeout h = Done timeout ∧ timeout ≠ "s").

Lemma remember_done c now command :
  rc_valid c → readable command →
  ∃ c' k, CorrelationID command = Done k ∧ remember c now command = Done c' ∧
    rc_valid c' ∧ rc_open c' = rc_open c ∧ rc_pending c ⊆ rc_pending c' ∧
    rc_pending c' ⊆ {[k]} ∪ rc_pending c.
Proof.
  intros Hv (k & Hk & Hread). unfold remember. rewrite Hk. cbn [mbind outcome_bind].
  destruct (0 <? slen k) eqn:E; [|exists c, k; set_solver].
  destruct Hread as [->|(timeout & -> & Hs)]; [done|]. cbn [mbind outcome_bind].
  destruct (ParseTimeout_range timeout Hs) as (t & -> & Hr). simpl.
  case_match; [|exists c, k; set_solver].
  destruct (rc_put_law c k (t + Second * 5) now Hv)
    as (c' & -> & ? & ? & Hp); [unfold Second in *; lia|].
  exists c', k. split_and!; [done..| |]; rewrite Hp; case_match; set_solver.
Qed.

Lemma remember_readable c now command c' :
  remember c now command = Done c' → readable command.
Proof.
  unfold remember, readable. destruct (CorrelationID command) as [k| |]; [|done..].
  cbn [mbind outcome_bind]. intros Hrem. exists k. split; [done|].
  destruct (0 <? slen k) eqn:E; [right|left].
  - destruct (Timeout command) as [timeout| |]; [|done..]. exists timeout. split; [done|].
    intros ->. done.
  - apply slen_zero. bools. pose proof (slen_nonneg k). lia.
Qed.

Lemma remember_is_done c now command :
  rc_valid c → is_done (remember c now command) = true ↔ readable command.
Proof.
  intros Hv. split.
  - destruct (remember c now command) as [c'| |] eqn:E; [|done..]. intros _.
    by apply remember_readable in E.
  - intros Hr. by destruct (remember_done c now command Hv Hr) as (c' & k & _ & -> & _).
Qed.

Lemma remember_pending c now k timeout t :
  rc_valid c → rc_open c = true → k ≠ "" → ParseTimeout timeout = Done t → t ≠ 0 →
  ∃ c', remember c now (Headers (Done k) (Done timeout)) = Done c' ∧ rc_valid c' ∧
    rc_pending c' = {[k]} ∪ rc_pending c.
Proof.
  intros Hv Hopen Hk Hparse Ht0. unfold remember. cbn [CorrelationID Timeout mbind outcome_bind].
  rewrite slen_pos by done. rewrite Hparse. simpl.
  rewrite (proj2 (Z.eqb_neq t 0)) by done. simpl.
  destruct (ParseTimeout_range timeout) as (t' & Ht' & Hr).
  { intros ->. done. }
  rewrite Hparse in Ht'. simplify_eq.
  destruct (rc_put_law c k (t' + Second * 5) now Hv)
    as (c' & -> & ? & _ & Hp); [unfold Second in *; lia|].
  rewrite Hopen in Hp. eauto.
Qed.

(** What HandleRequest forwards for a well-formed cloud topic. *)
Lemma forward_request_spec tenantID gatewayID generic id rest msg topic :
  byte_free slash tenantID = true → byte_free slash gatewayID = true →
  byte_free slash id = true →
  topic = cloud_topic generic tenantID gatewayID id "req" rest →
  TopicFromCtx (Context msg) = Some topic →
  ∃ m1 m2,
    forward_request (CmdRequestHandler tenantID gatewayID generic) topic msg
      = Done (Ok [m1; m2]) ∧
    TopicFromCtx (Context m1) =
      Some (local_topic Long (local_id generic gatewayID id) "req" rest) ∧
    TopicFromCtx (Context m2) =
      Some (local_topic Short (local_id generic gatewayID id) "q" rest) ∧
    Payload m1 = Payload msg ∧ Payload m2 = Payload msg ∧ UUID m2 = UUID m1.
Proof.
  intros Ht Hg Hi -> Hctx. unfold forward_request. cbn [req_generic].
  pose proof (local_id_free generic gatewayID id Hg Hi) as Hfree.
  destruct generic; cbn [local_id cloud_topic] in *.
  - rewrite fixCommand_spec by done.
    rewrite (bind_done ("req", local_device gatewayID id, rest))
      by (by apply (ParseCmdTopic_parts Long)).
    do 2 eexists. by split_and!.
  - rewrite (bind_done ("req", id, rest)) by (by apply (ParseCmdTopic_parts Long)).
    do 2 eexists. by split_and!.
Qed.

Lemma forward_response_spec prefix tenantID gatewayID generic id f rest msg topic :
  byte_free slash gatewayID = true → byte_free slash id = true →
  (generic = true → id ≠ "") →
  topic = local_topic f (local_id generic gatewayID id) (response_type f) rest →
  ∃ m, forward_response (CmdResponseHandler prefix tenantID gatewayID generic) topic msg
      = Done (Ok [m]) ∧
    TopicFromCtx (Context m) =
      Some ((if generic && (0 <? slen prefix) then prefix +:+ "/" else "") +:+
            cloud_topic generic tenantID gatewayID id "res" rest) ∧
    Payload m = Payload msg ∧ UUID m = UUID msg.
Proof.
  intros Hg Hi Hne ->. unfold forward_response. cbn [res_generic res_prefix].
  pose proof (local_id_free generic gatewayID id Hg Hi) as Hfree.
  rewrite (bind_done (response_type f, local_id generic gatewayID id, rest))
    by (apply ParseCmdTopic_parts; [done|by destruct f]).
  destruct generic; cbn [res_deviceID res_tenantID local_id cloud_topic].
  - unfold local_device. rewrite (slen_pos id) by (by apply Hne).
    rewrite (stripGatewayID_spec gatewayID ":" id
      : stripGatewayID gatewayID (gatewayID +:+ ":" +:+ id) = _).
    eexists. split_and!; [done| |done|done].
    cbn [andb]. unfold SetContext. cbn [Context]. rewrite TopicFromCtx_set.
    by rewrite !sapp_assoc.
  - eexists. split_and!; [done| |done|done]. unfold SetContext. cbn [Context].
    rewrite TopicFromCtx_set. by rewrite !sapp_assoc.
Qed.

(** C1.  A cloud command reaches the gateway's device under both spellings of
    its topic, and the device's answer to either spelling is published to the
    cloud under the device's response topic, with the payload untouched; the
    correlation id is then used up, so a second answer is dropped. *)
Theorem command_round_trip prefix tenantID gatewayID generic id rest c now msg k timeout t :
  rc_valid c → rc_open c = true →
  byte_free slash tenantID = true → byte_free slash gatewayID = true →
  byte_free slash id = true → (generic = true → id ≠ "") →
  TopicFromCtx (Context msg) =
    Some (cloud_topic generic tenantID gatewayID id "req" rest) →
  unmarshal (Payload msg) = Ok (Headers (Done k) (Done timeout)) → k ≠ "" →
  ParseTimeout timeout = Done t → t ≠ 0 →
  let hq := CmdRequestHandler tenantID gatewayID generic in
  let hr := CmdResponseHandler prefix tenantID gatewayID generic in
  let device := local_id generic gatewayID id in
  ∃ c' m1 m2,
    HandleRequest unmarshal hq c now msg = (c', Done (Ok [m1; m2])) ∧
    TopicFromCtx (Context m1) = Some (local_topic Long device "req" rest) ∧
    TopicFromCtx (Context m2) = Some (local_topic Short device "q" rest) ∧
    Payload m1 = Payload msg ∧ Payload m2 = Payload msg ∧
    ∀ f rest' answer timeout',
      unmarshal (Payload answer) = Ok (Headers (Done k) timeout') →
      TopicFromCtx (Context answer) =
        Some (local_topic f device (response_type f) rest') →
      ∃ c'' m,
        HandleResponse unmarshal hr c' answer = (c'', Done (Ok [m])) ∧
        TopicFromCtx (Context m) =
          Some ((if generic && (0 <? slen prefix) then prefix +:+ "/" else "") +:+
                cloud_topic generic tenantID gatewayID id "res" rest') ∧
        Payload m = Payload answer ∧
        rc_pending c'' = rc_pending c ∖ {[k]} ∧
        (HandleResponse unmarshal hr c'' answer).2 = Done (Ok []).
Proof.
  intros Hv Hopen Ht Hg Hi Hne Hctx Hdec Hk Hparse Ht0 hq hr device. subst hq hr device.
  destruct (forward_request_spec tenantID gatewayID generic id rest msg _
    Ht Hg Hi eq_refl Hctx) as (m1 & m2 & Hfwd & Hm1 & Hm2 & Hp1 & Hp2 & _).
  destruct (remember_pending c now k timeout t Hv Hopen Hk Hparse Ht0)
    as (c' & Hrem & Hv' & Hpend).
  exists c', m1, m2. split_and!; [|done..|].
  { unfold HandleRequest. by rewrite Hctx, Hdec, Hrem, Hfwd. }
  intros f rest' answer timeout' Hdec' Hctx'.
  destruct (forward_response_spec prefix tenantID gatewayID generic id f rest' answer _
    Hg Hi Hne eq_refl) as (m & Hres & Hm & Hpm & _).
  destruct (rc_remove_law c' k Hv') as (c'' & Hr & Hv'' & _ & Hpend').
  rewrite bool_decide_eq_true_2 in Hr by set_solver.
  exists c'', m. split_and!; [|done|done|set_solver|].
  { unfold HandleResponse. rewrite Hctx', Hdec'. cbn [CorrelationID].
    by rewrite Hr, Hres. }
  destruct (rc_remove_law c'' k Hv'') as (c3 & Hr3 & _).
  rewrite bool_decide_eq_false_2 in Hr3 by set_solver.
  unfold HandleResponse. rewrite Hctx', Hdec'. cbn [CorrelationID]. by rewrite Hr3.
Qed.

(** ** Sequences of requests, answers and cleaner passes *)

Inductive event :=
  | Request (hq : cmdRequestHandler) (now : Z) (msg : message)
  | Response (hr : cmdResponseHandler) (msg : message)
  | Cleaning (now : nat → Z).

Definition handle (c : C) (ev : event) : C * list message :=
  let answer r :=
    match r with (c, Done (Ok out)) => (c, out) | (c, _) => (c, []) end in
  match ev with
  | Request hq now msg => answer (HandleRequest unmarshal hq c now msg)
  | Response hr msg => answer (HandleResponse unmarshal hr c msg)
  | Cleaning now => match rc_clear c now with Done c => (c, []) | _ => (c, []) end
  end.

Definition correlates (k : string) msg : bool :=
  match unmarshal (Payload msg) with
  | Ok h => match CorrelationID h with Done k' => bool_decide (k' = k) | _ => false end
  | Err _ => false
  end.

(** How many commands with the id [k] a sequence holds, and how many answers
    to it are forwarded to the cloud. *)
Definition commands_of (k : string) (ev : event) : nat :=
  match ev with
  | Request _ _ msg => if correlates k msg then 1 else 0
  | _ => 0
  end.

Definition answers_of (k : string) (c : C) (ev : event) : nat :=
  match ev with
  | Response _ msg => if correlates k msg then length (handle c ev).2 else 0
  | _ => 0
  end.

Fixpoint answers (k : string) (c : C) (evs : list event) : nat :=
  match evs with
  | [] => 0
  | ev :: evs => answers_of k c ev + answers k (handle c ev).1 evs
  end.

Definition is_pending (k : string) (c : C) : nat :=
  if decide (k ∈ rc_pending c) then 1 else 0.

Lemma is_pending_le k c c' :
  (k ∈ rc_pending c → k ∈ rc_pending c') → (is_pending k c ≤ is_pending k c')%nat.
Proof. unfold is_pending. intros. repeat case_decide; try lia. tauto. Qed.

Lemma forward_response_one hr topic msg out :
  forward_response hr topic msg = Done (Ok out) → length out = 1%nat.
Proof.
  unfold forward_response. go_simpl.
  destruct (ParseCmdTopic topic) as [[[? d] ?]| |]; [|done..].
  destruct (res_generic hr); simpl.
  - destruct (stripGatewayID _ _) as [[?|?]| |]; intros; simplify_eq/=; done.
  - intros. by simplify_eq.
Qed.

Lemma HandleResponse_one hr c msg :
  (length (handle c (Response hr msg)).2 ≤ 1)%nat.
Proof.
  cbn [handle]. unfold HandleResponse.
  destruct (TopicFromCtx _); [|simpl; lia].
  destruct (unmarshal _) as [h|]; [|simpl; lia].
  destruct (CorrelationID h) as [k| |]; [|simpl; lia..].
  destruct (rc_remove _ _) as [[? []]| |]; [|simpl; lia..].
  destruct (forward_response _ _ _) as [[out|]| |] eqn:E; [|simpl; lia..].
  apply forward_response_one in E. simpl. lia.
Qed.

(** One event: an answer uses the pending id up, a command adds it. *)
Lemma handle_balance k c ev :
  rc_valid c →
  rc_valid (handle c ev).1 ∧
  (answers_of k c ev + is_pending k (handle c ev).1
   ≤ commands_of k ev + is_pending k c)%nat.
Proof.
  intros Hv. destruct ev as [hq now msg|hr msg|now].
  - cbn [answers_of commands_of handle]. unfold HandleRequest, correlates.
    destruct (TopicFromCtx _); [|simpl; split; [done|lia]].
    destruct (unmarshal (Payload msg)) as [h|]; [|simpl; split; [done|lia]].
    destruct (remember c now h) as [c'| |] eqn:E; [|simpl; split; [done|lia]..].
    destruct (remember_done c now h Hv (remember_readable _ _ _ _ E))
      as (c1 & k' & Hk & E1 & Hv' & _ & _ & Hsub).
    rewrite E in E1. injection E1 as <-. rewrite Hk.
    replace (_ : C * _) with (c', (match forward_request hq s msg with
      Done (Ok out) => out | _ => [] end)) by (by repeat case_match).
    cbn [fst]. split; [done|]. unfold is_pending.
    repeat case_decide; repeat case_bool_decide; try lia; try set_solver.
  - pose proof (HandleResponse_one hr c msg) as Hone. revert Hone.
    cbn [answers_of commands_of handle]. unfold HandleResponse, correlates.
    destruct (TopicFromCtx _); [|simpl; case_match; split; done || lia].
    destruct (unmarshal (Payload msg)) as [h|]; [|simpl; split; [done|lia]].
    destruct (CorrelationID h) as [k'| |]; [|simpl; split; [done|lia]..].
    destruct (rc_remove_law c k' Hv) as (c' & -> & Hv' & _ & Hp).
    destruct (decide (k' ∈ rc_pending c)) as [Hin|Hin].
    + rewrite bool_decide_eq_true_2 by done. intros Hone.
      assert (∀ o : outcome (result (list message)),
        (match (c', o) with (c, Done (Ok out)) => (c, out) | (c, _) => (c, []) end).1 = c')
        as Hc' by (by intros [[]| |]).
      rewrite Hc'. split; [done|]. unfold is_pending. rewrite Hp.
      repeat case_decide; repeat case_bool_decide; try lia; set_solver.
    + rewrite bool_decide_eq_false_2 by done. intros _. cbn [fst snd length].
      split; [done|]. case_bool_decide; simpl; apply is_pending_le; set_solver.
  - cbn [answers_of commands_of handle].
    destruct (rc_clear_law c now Hv) as (c' & -> & Hv' & _ & Hsub). cbn [fst].
    split; [done|]. apply is_pending_le. set_solver.
Qed.

Fixpoint commands (k : string) (evs : list event) : nat :=
  match evs with [] => 0 | ev :: evs => commands_of k ev + commands k evs end.

(** C28.  In every interleaving of commands, answers and cleaner passes, at most
    as many answers with a correlation id are forwarded to the cloud as
    commands with that id have been received. *)
Theorem answers_at_most_once k c evs :
  rc_valid c → k ∉ rc_pending c → (answers k c evs ≤ commands k evs)%nat.
Proof.
  intros Hv Hk.
  assert (∀ c, rc_valid c → (answers k c evs ≤ commands k evs + is_pending k c)%nat)
    as Hgen.
  { clear c Hv Hk. induction evs as [|ev evs IH]; intros c Hv; cbn [answers commands]; [lia|].
    destruct (handle_balance k c ev Hv) as [Hv' Hbal]. specialize (IH _ Hv'). lia. }
  specialize (Hgen c Hv). unfold is_pending in Hgen. rewrite decide_False in Hgen by done.
  lia.
Qed.

(** ** Which topics of the subscription the request handler accepts *)

Lemma forward_request_cut tenantID gatewayID (generic : bool) id msg topic :
  byte_free slash tenantID = true → byte_free slash gatewayID = true →
  byte_free slash id = true →
  topic = (if generic
    then "command/" +:+ tenantID +:+ "/" +:+ gatewayID +:+ "/" +:+ id +:+ "/" +:+ "req"
    else "command//" +:+ id +:+ "/" +:+ "req") →
  forward_request (CmdRequestHandler tenantID gatewayID generic) topic msg
  = Panicked SliceOutOfRange.
Proof.
  intros Ht Hg Hi ->. unfold forward_request. cbn [req_generic].
  pose proof (local_id_free generic gatewayID id Hg Hi) as Hfree.
  destruct generic; cbn [local_id] in *.
  - rewrite fixCommand_spec by done.
    pose proof (ParseCmdTopic_cut Long _ "req" Hfree eq_refl) as Hcut.
    unfold cmd_topic in *. by rewrite Hcut.
  - pose proof (ParseCmdTopic_cut Long id "req" Hi eq_refl) as Hcut.
    unfold cmd_topic in *. cbn [form_prefix] in *.
    change (String slash "req") with ("/" +:+ "req") in Hcut. by rewrite Hcut.
Qed.

Lemma Split_request_filter tenantID deviceID (generic : bool) :
  byte_free slash tenantID = true → byte_free slash deviceID = true →
  Split (bus_subscribe (CommandsReqBus (C:=C) unmarshal tenantID deviceID generic)) slash =
  (if generic then ["command"; tenantID; deviceID] else ["command"; ""])
  ++ ["+"; "req"; "#"].
Proof.
  intros Ht Hd. destruct generic; [|done]. cbn [CommandsReqBus bus_subscribe].
  change ("command/" +:+ ?x) with ("command" +:+ "/" +:+ x).
  change "/+/req/#" with ("/" +:+ "+/req/#").
  by rewrite !Split_segment by done.
Qed.

(** The topics the subscription delivers: a request for some device, or a topic
    that stops at "req". *)
Lemma request_filter_topics tenantID gatewayID (generic : bool) topic :
  plain_level tenantID → plain_level gatewayID →
  filter_matches (bus_subscribe (CommandsReqBus (C:=C) unmarshal tenantID gatewayID generic)) topic
    = true →
  ∃ id, byte_free slash id = true ∧
    ((length (Split topic slash) = (if generic then 5 else 4)%nat ∧
      topic = (if generic
        then "command/" +:+ tenantID +:+ "/" +:+ gatewayID +:+ "/" +:+ id +:+ "/" +:+ "req"
        else "command//" +:+ id +:+ "/" +:+ "req")) ∨
     ((if generic then 5 else 4) < length (Split topic slash))%nat ∧
      ∃ rest, topic = cloud_topic generic tenantID gatewayID id "req" rest).
Proof.
  intros (Ht & Ht1 & Ht2) (Hg & Hg1 & Hg2). unfold filter_matches.
  rewrite Split_request_filter by done. intros Hm.
  pose proof (Join_Split topic slash) as Htopic.
  pose proof (Split_segments_free topic slash) as Hfree.
  assert (∃ id rest, Split topic slash =
    (if generic then ["command"; tenantID; gatewayID] else ["command"; ""])
    ++ id :: "req" :: rest) as (id & rest & Hs).
  { destruct generic; cbn [app] in Hm.
    - apply segments_match_plain in Hm as (? & -> & Hm); [|done..].
      apply segments_match_plain in Hm as (? & -> & Hm); [|done..].
      apply segments_match_plain in Hm as (? & -> & Hm); [|done..].
      apply segments_match_plus in Hm as (id & ? & -> & Hm); [|done].
      apply segments_match_plain in Hm as (rest & -> & Hm); [|done..].
      by exists id, rest.
    - apply segments_match_plain in Hm as (? & -> & Hm); [|done..].
      apply segments_match_plain in Hm as (? & -> & Hm); [|done..].
      apply segments_match_plus in Hm as (id & ? & -> & Hm); [|done].
      apply segments_match_plain in Hm as (rest & -> & Hm); [|done..].
      by exists id, rest. }
  rewrite Hs in *. exists id. split.
  { rewrite Forall_forall in Hfree. apply Hfree. destruct generic; set_solver. }
  destruct rest as [|seg rest].
  - left. rewrite length_app. split; [by destruct generic|]. rewrite <-Htopic.
    by destruct generic.
  - right. rewrite length_app. split; [destruct generic; simpl; lia|].
    exists (Join (seg :: rest) "/"). rewrite <-Htopic.
    by destruct generic.
Qed.

(** On the topics its bus subscribes to, the request handler returns
    exactly when the topic goes on after "req" and it can read the headers; the "#" of the subscription also lets the
    topic ".../req" through, on which the handler panics. *)
Lemma HandleRequest_defined tenantID gatewayID (generic : bool) topic c now msg h :
  plain_level tenantID → plain_level gatewayID → rc_valid c →
  filter_matches (bus_subscribe (CommandsReqBus (C:=C) unmarshal tenantID gatewayID generic)) topic
    = true →
  TopicFromCtx (Context msg) = Some topic → unmarshal (Payload msg) = Ok h →
  is_done (bus_handler (CommandsReqBus (C:=C) unmarshal tenantID gatewayID generic) c now msg).2
    = true ↔
  ((if generic then 5 else 4) < length (Split topic slash))%nat ∧
  readable h.
Proof.
  intros Ht Hg Hv Hm Hctx Hdec. cbn [CommandsReqBus bus_handler].
  destruct (request_filter_topics _ _ _ _ Ht Hg Hm) as (id & Hid & Hcase).
  destruct Ht as [Ht _], Hg as [Hg _].
  unfold NewCommandRequestHandler, HandleRequest. rewrite Hctx, Hdec.
  pose proof (remember_is_done c now h Hv) as Hread.
  destruct (remember c now h) as [c'| |]; cbn [is_done snd] in *;
    [|split; [done|by intros [_ ?%Hread]]..].
  rewrite <-Hread. destruct Hcase as [[Hlen Htop]|[Hlen [rest Htop]]].
  - rewrite (forward_request_cut tenantID gatewayID generic id msg topic) by done.
    cbn [is_done]. split; [done|lia].
  - destruct (forward_request_spec tenantID gatewayID generic id rest msg topic)
      as (m1 & m2 & -> & _); done.
Qed.
End requests.

(** ** The theorems at work: a payload that is its own correlation id *)

Definition sample_envelope (payload : string) : result headers :=
  if bool_decide (payload = "") then Err (Sentinel "unexpected end of JSON input")
  else Ok (Headers (Done payload) (Done "10")).

Definition sample_command : message :=
  SetContext (NewMessage "1" "id-7")
    (SetTopicToCtx Background "command/tenant/ns:gw/dev/req/id-7/toggle").

Lemma command_round_trip_witness :
  ∃ c' m1 m2,
    HandleRequest sample_envelope (CmdRequestHandler "tenant" "ns:gw" true)
      (NewTTLCache (V:=bool)) 0 sample_command = (c', Done (Ok [m1; m2])) ∧
    TopicFromCtx (Context m1) = Some "command//ns:gw:dev/req/id-7/toggle" ∧
    TopicFromCtx (Context m2) = Some "c//ns:gw:dev/q/id-7/toggle".
Proof.
  destruct (command_round_trip (H:=Cache_RequestCache) sample_envelope "" "tenant" "ns:gw" true "dev" "id-7/toggle"
    (NewTTLCache (V:=bool)) 0 sample_command "id-7" "10" (10 * Second)
    NewTTLCache_wf eq_refl eq_refl eq_refl eq_refl ltac:(done) eq_refl eq_refl
    ltac:(done) eq_refl ltac:(done)) as (c' & m1 & m2 & H & H1 & H2 & _).
  exists c', m1, m2. split_and!; [exact H|exact H1|exact H2].
Defined.

Lemma answers_at_most_once_witness :
  let evs := [Request (CmdRequestHandler "tenant" "ns:gw" true) 0 sample_command] in
  (answers sample_envelope "id-7" (NewTTLCache (V:=bool)) evs
   ≤ commands sample_envelope "id-7" evs)%nat.
Proof.
  intros evs. apply (answers_at_most_once (H:=Cache_RequestCache) sample_envelope "id-7" (NewTTLCache (V:=bool))).
  - apply NewTTLCache_wf.
  - vm_compute. intros H. by inversion H.
Defined.

Lemma HandleRequest_defined_witness :
  is_done (HandleRequest sample_envelope (CmdRequestHandler "tenant" "ns:gw" true)
    (NewTTLCache (V:=bool)) 0 sample_command).2 = true.
Proof.
  apply (HandleRequest_defined (H:=Cache_RequestCache) sample_envelope "tenant" "ns:gw" true
    "command/tenant/ns:gw/dev/req/id-7/toggle" (NewTTLCache (V:=bool)) 0 sample_command
    (Headers (Done "id-7") (Done "10"))).
  - by split_and!.
  - by split_and!.
  - apply NewTTLCache_wf.
  - reflexivity.
  - reflexivity.
  - reflexivity.
  - split; [vm_compute; lia|]. exists "id-7". split; [reflexivity|]. right. by exists "10".
Defined.
