(* ===== verification/Events.v ===== *)
(** * Events and telemetry: routing/events.go and routing/timestamp.go

    HandleEvent completes the topic of a local event or telemetry message with
    the tenant and device it leaves out, and in generic mode moves the gateway
    id into the topic.  The bytes of [sjson.SetBytes] are an argument. *)

From S2P Require Import Prelude GoStrings Util ContainerHeap Cache Message Commands.

Local Open Scope Z_scope.

Definition TopicsEvent : string := "event/#,e/#".
Definition TopicsTelemetry : string := "telemetry/#,t/#".

Record eventsHandler := EventsHandler {
  ev_prefix : string;
  ev_tenantID : string;
  ev_deviceID : string;
  ev_generic : bool;
}.

Definition HandlerFunc : Type := message → outcome (result (list message)).

Definition HandleEvent (h : eventsHandler) : HandlerFunc := λ msg,
  match TopicFromCtx (Context msg) with
  | None => Done (Err errNoTopic)
  | Some topic =>
      let segments := Split topic slash in
      segment0 ← or_panic IndexOutOfRange (head segments);
      let msgType :=
        if bool_decide (segment0 = "telemetry") || bool_decide (segment0 = "t")
        then "telemetry" else "event" in
      let tenID :=
        if (1 <? length segments)%nat && (0 <? slen (nth 1 segments ""))
        then nth 1 segments "" else ev_tenantID h in
      let devID :=
        if (2 <? length segments)%nat && (0 <? slen (nth 2 segments ""))
        then nth 2 segments "" else ev_deviceID h in
      let buff :=
        if ev_generic h && (0 <? slen (ev_prefix h)) then ev_prefix h +:+ "/" else "" in
      let buff := buff +:+ msgType +:+ "/" +:+ tenID +:+ "/" in
      stripped ← (if ev_generic h
                  then stripGatewayID (ev_deviceID h) devID
                  else Done (Ok ""));
      match stripped with
      | Err e => Done (Err e)
      | Ok stripped =>
          let buff :=
            if ev_generic h then buff +:+ ev_deviceID h +:+ "/" +:+ stripped
            else buff +:+ devID in
          let buff := foldl (λ b seg, b +:+ "/" +:+ seg) buff (drop 3 segments) in
          Done (Ok [SetContext msg (SetTopicToCtx (Context msg) buff)])
      end
  end.

Definition NewEventsHandler (prefix tenantID deviceID : string) (generic : bool)
    : HandlerFunc :=
  HandleEvent (EventsHandler prefix tenantID deviceID generic).

(** [now] is the clock in milliseconds. *)
Definition AddTimestamp (SetBytes : string → string → Z → result string) (now : Z)
    (h : HandlerFunc) : HandlerFunc := λ msg,
  match SetBytes (Payload msg) "headers.x-timestamp" now with
  | Err e => Done (Err e)
  | Ok payload =>
      let event := NewMessage (UUID msg) payload in
      h (SetContext event (Context msg))
  end.

(** [prefix] is the environment variable EVENTS_TOPIC_PREFIX. *)
Definition EventsBus SetBytes (now : Z) (prefix tenantID deviceID : string)
    (generic : bool) : bus HandlerFunc :=
  let h := NewEventsHandler prefix tenantID deviceID generic in
  Bus "events_bus" TopicsEvent TopicEmpty
    (if generic then AddTimestamp SetBytes now h else h).

(** [prefix] is the environment variable TELEMETRY_TOPIC_PREFIX. *)
Definition TelemetryBus (prefix tenantID deviceID : string) (generic : bool)
    : bus HandlerFunc :=
  Bus "telemetry_bus" TopicsTelemetry TopicEmpty
    (NewEventsHandler prefix tenantID deviceID generic).

(** ** Topics as segments *)

Definition default_segment (d : string) (seg : string) : string :=
  if decide (seg = "") then d else seg.

Definition message_kind (segments : list string) : string :=
  if decide (head segments = Some "telemetry" ∨ head segments = Some "t")
  then "telemetry" else "event".

(** The segments of a topic with the handler's tenant and device filled in. *)
Definition complete_segments (h : eventsHandler) (segments : list string)
    : string * string * string * list string :=
  (message_kind segments,
   default_segment (ev_tenantID h) (nth 1 segments ""),
   default_segment (ev_deviceID h) (nth 2 segments ""),
   drop 3 segments).

Lemma guarded_segment n segments d :
  (if (n <? length segments)%nat && (0 <? slen (nth n segments ""))
   then nth n segments "" else d) = default_segment d (nth n segments "").
Proof.
  unfold default_segment. destruct (n <? length segments)%nat eqn:E; simpl.
  - case_decide as Hd.
    + by rewrite Hd.
    + by rewrite slen_pos.
  - bools. rewrite nth_overflow by lia. by rewrite decide_True.
Qed.

Lemma foldl_topic buff l :
  foldl (λ b seg, b +:+ "/" +:+ seg) buff l = Join (buff :: l) "/".
Proof.
  destruct l as [|seg l]; [done|]. rewrite foldl_segments, (Join_cons buff) by done.
  done.
Qed.

Lemma Join_head a b l : Join ((a +:+ b) :: l) "/" = a +:+ Join (b :: l) "/".
Proof. destruct l; [done|]. rewrite !Join_cons by done. by rewrite !sapp_assoc. Qed.

Lemma head_kind seg segments :
  (if bool_decide (seg = "telemetry") || bool_decide (seg = "t")
   then "telemetry" else "event") = message_kind (seg :: segments).
Proof.
  unfold message_kind. cbn [head].
  repeat case_bool_decide; case_decide; subst; naive_solver.
Qed.

(** The handler through the completed segments. *)
Lemma HandleEvent_segments h msg topic :
  TopicFromCtx (Context msg) = Some topic →
  HandleEvent h msg =
  let '(kind, ten, dev, rest) := complete_segments h (Split topic slash) in
  let send t := Done (Ok [SetContext msg (SetTopicToCtx (Context msg) t)]) in
  if ev_generic h then
    stripped ← stripGatewayID (ev_deviceID h) dev;
    match stripped with
    | Err e => Done (Err e)
    | Ok id =>
        send ((if 0 <? slen (ev_prefix h) then ev_prefix h +:+ "/" else "") +:+
              Join (kind :: ten :: ev_deviceID h :: id :: rest) "/")
    end
  else send (Join (kind :: ten :: dev :: rest) "/").
Proof.
  intros Hctx. unfold HandleEvent, complete_segments. rewrite Hctx.
  pose proof (Split_nonempty topic slash) as Hne.
  destruct (Split topic slash) as [|seg segs] eqn:Hs; [done|].
  cbn [head or_panic]. rewrite (bind_done seg) by done.
  rewrite !guarded_segment, (head_kind seg segs).
  destruct (ev_generic h); cbn [andb].
  - destruct (stripGatewayID _ _) as [[id|e]| |]; cbn [mbind outcome_bind]; [|done..].
    by rewrite foldl_topic, !sapp_assoc, !Join_head, !(Join_cons _ (_ :: _)) by done.
  - cbn [mbind outcome_bind].
    by rewrite foldl_topic, !sapp_assoc, !Join_head, !(Join_cons _ (_ :: _)) by done.
Qed.

Lemma message_kind_idem segments rest :
  message_kind (message_kind segments :: rest) = message_kind segments.
Proof. unfold message_kind. cbn [head]. repeat case_decide; naive_solver. Qed.

Lemma default_segment_idem d seg :
  default_segment d (default_segment d seg) = default_segment d seg.
Proof. unfold default_segment. repeat case_decide; done. Qed.

Lemma default_segment_some d seg : seg ≠ "" → default_segment d seg = seg.
Proof. intros. unfold default_segment. by rewrite decide_False. Qed.

Lemma complete_segments_idem h segments :
  let '(kind, ten, dev, rest) := complete_segments h segments in
  complete_segments h (kind :: ten :: dev :: rest) = (kind, ten, dev, rest).
Proof.
  unfold complete_segments. cbn [nth drop].
  by rewrite message_kind_idem, !default_segment_idem.
Qed.

Lemma complete_segments_free h topic :
  byte_free slash (ev_tenantID h) = true → byte_free slash (ev_deviceID h) = true →
  let '(kind, ten, dev, rest) := complete_segments h (Split topic slash) in
  Forall (λ seg, byte_free slash seg = true) (kind :: ten :: dev :: rest).
Proof.
  intros Ht Hd. pose proof (Split_segments_free topic slash) as Hf.
  assert (∀ n, byte_free slash (nth n (Split topic slash) "") = true) as Hn.
  { intros n. destruct (nth_in_or_default n (Split topic slash) "") as [Hin| ->]; [|done].
    rewrite Forall_forall in Hf. apply Hf. by apply list_elem_of_In. }
  unfold complete_segments, message_kind, default_segment.
  repeat constructor; [by case_decide..|]. by apply Forall_drop.
Qed.

(** C30.  Without a gateway prefix an event's topic is completed to
    kind/tenant/device/...: the short kinds are spelled out, an empty tenant or
    device is filled in, the further levels and the payload are kept, and a
    completed topic is a fixed point. *)
Theorem HandleEvent_completes h msg topic :
  ev_generic h = false → byte_free slash (ev_tenantID h) = true →
  byte_free slash (ev_deviceID h) = true →
  TopicFromCtx (Context msg) = Some topic →
  ∃ m topic', HandleEvent h msg = Done (Ok [m]) ∧
    Payload m = Payload msg ∧ TopicFromCtx (Context m) = Some topic' ∧
    (let segments := Split topic slash in
     Split topic' slash =
       message_kind segments ::
       default_segment (ev_tenantID h) (nth 1 segments "") ::
       default_segment (ev_deviceID h) (nth 2 segments "") :: drop 3 segments) ∧
    ∃ m', HandleEvent h m = Done (Ok [m']) ∧ TopicFromCtx (Context m') = Some topic'.
Proof.
  intros Hgen Ht Hd Hctx. pose proof (complete_segments_free h topic Ht Hd) as Hfree.
  pose proof (complete_segments_idem h (Split topic slash)) as Hidem.
  rewrite (HandleEvent_segments h msg topic) by done. cbv zeta.
  destruct (complete_segments h (Split topic slash)) as [[[kind ten] dev] rest] eqn:E.
  rewrite Hgen. set (t := Join (kind :: ten :: dev :: rest) "/").
  assert (Split t slash = kind :: ten :: dev :: rest) as Hl by (by apply Split_Join).
  exists (SetContext msg (SetTopicToCtx (Context msg) t)), t. split_and!; [done..| |].
  - rewrite Hl. unfold complete_segments in E. by simplify_eq.
  - rewrite (HandleEvent_segments h _ t) by done. rewrite Hl, Hidem, Hgen.
    by eexists.
Qed.

(** In generic mode the device of an event is published under its gateway:
    gateway, any one byte and an id become the levels gateway/id.  The byte is
    not checked to be the ":" of the format "gatewayID:ID", so that
    differently named devices share one topic; other devices are refused. *)
Theorem HandleEvent_gateway h msg kind tenant device levels :
  ev_generic h = true →
  Forall (λ seg, byte_free slash seg = true) (kind :: tenant :: device :: levels) →
  TopicFromCtx (Context msg) = Some (Join (kind :: tenant :: device :: levels) "/") →
  let publish id :=
    Done (Ok [SetContext msg (SetTopicToCtx (Context msg)
      ((if 0 <? slen (ev_prefix h) then ev_prefix h +:+ "/" else "") +:+
       Join (message_kind [kind] :: default_segment (ev_tenantID h) tenant ::
             ev_deviceID h :: id :: levels) "/"))]) in
  (∀ c id, device = ev_deviceID h +:+ String c id → HandleEvent h msg = publish id) ∧
  (device = "" ∨ device = ev_deviceID h → HandleEvent h msg = publish "") ∧
  (device ≠ "" → HasPrefix device (ev_deviceID h) = false →
   ∃ e, HandleEvent h msg = Done (Err e)).
Proof.
  intros Hgen Hfree Hctx. cbv zeta.
  rewrite (HandleEvent_segments h msg _ Hctx). rewrite Split_Join by done.
  unfold complete_segments. cbn [nth drop]. rewrite Hgen.
  assert (∀ seg, message_kind (kind :: seg) = message_kind [kind]) as -> by done.
  split_and!.
  - intros c id ->. rewrite (default_segment_some (ev_deviceID h) (_ +:+ String c id))
      by (by destruct (ev_deviceID h)).
    by rewrite stripGatewayID_spec.
  - intros Hdev. assert (default_segment (ev_deviceID h) device = ev_deviceID h) as Hd.
    { unfold default_segment. case_decide; [done|]. by destruct Hdev. }
    by rewrite Hd, stripGatewayID_self.
  - intros Hne Hp. rewrite (default_segment_some (ev_deviceID h) device) by done.
    destruct (stripGatewayID_foreign _ _ Hp) as [e ->]. eauto.
Qed.

(** ** Examples *)

Definition sample_event (topic : string) : message :=
  SetContext (NewMessage "1" "{}") (SetTopicToCtx Background topic).

Lemma HandleEvent_completes_witness :
  ∃ m, HandleEvent (EventsHandler "" "tenant" "ns:gw" false) (sample_event "t///a/b")
    = Done (Ok [m]) ∧
    TopicFromCtx (Context m) = Some "telemetry/tenant/ns:gw/a/b".
Proof.
  destruct (HandleEvent_completes (EventsHandler "" "tenant" "ns:gw" false)
    (sample_event "t///a/b") "t///a/b" eq_refl eq_refl eq_refl eq_refl)
    as (m & t & H & _ & Ht & Hs & _).
  exists m. split; [exact H|]. rewrite Ht. f_equal.
  rewrite <-(Join_Split t slash), Hs. reflexivity.
Defined.

Lemma HandleEvent_gateway_witness :
  HandleEvent (EventsHandler "" "tenant" "ns:gw" true) (sample_event "event/tenant/ns:gwX1/a")
  = Done (Ok [SetContext (sample_event "event/tenant/ns:gwX1/a")
      (SetTopicToCtx (Context (sample_event "event/tenant/ns:gwX1/a"))
         "event/tenant/ns:gw/1/a")]).
Proof.
  refine (proj1 (HandleEvent_gateway (EventsHandler "" "tenant" "ns:gw" true)
    (sample_event "event/tenant/ns:gwX1/a") "event" "tenant" "ns:gwX1" ["a"] eq_refl _ eq_refl)
    "X"%char "1" eq_refl).
  repeat constructor.
Defined.
