(* ===== verification/Deadlines.v ===== *)
(** * How long a command waits for its answer: routing/commands.go over cache/cache.go

    HandleRequest remembers the correlation id of a command in the cache for five
    seconds more than the command's timeout, HandleResponse looks for it, and the
    cleaner takes it away once the time is over.  Commands.v has the handlers over
    the interface of the cache; here they run on the cache itself, with the times at
    which the cleaner reads the clock. *)

From S2P Require Import Prelude GoStrings Util Cache Message Commands.

Local Open Scope Z_scope.

Section deadlines.
Variable unmarshal : string → result headers.
Implicit Types (c : Cache bool) (k : string) (evs : list event).

#[local] Existing Instance Cache_RequestCache.

(** The cache after some messages and passes of the cleaner. *)
Definition handled c evs : Cache bool := foldl (λ c ev, (handle unmarshal c ev).1) c evs.

(** A message about other commands, or a pass of the cleaner whose readings of the
    clock are all up to [deadline]. *)
Definition apart k (deadline : Z) (ev : event) : Prop :=
  match ev with
  | Request _ _ msg | Response _ msg => correlates unmarshal k msg = false
  | Cleaning now => ∀ i, now i <= deadline
  end.

(** The cache remembers [k] until [deadline]. *)
Record remembers c k (deadline : Z) : Prop := {
  rm_wf : cache_wf c;
  rm_open : closed c = false;
  rm_entry : ∃ w : @entry bool, cache_map c !! k = Some w ∧ w.1.2 ≠ 0 ∧ w.2 = deadline;
}.

(** What a message does to the cache: nothing, or an operation on its own key. *)
Lemma remember_other c now command k deadline c' :
  remembers c k deadline → CorrelationID command ≠ Done k →
  remember c now command = Done c' → remembers c' k deadline.
Proof.
  intros Hc Hne. unfold remember. destruct (CorrelationID command) as [k'| |]; [|done..].
  cbn [mbind outcome_bind]. destruct (0 <? _); [|by intros [= <-]].
  destruct (Timeout command) as [timeout| |]; [|done..]. cbn [mbind outcome_bind].
  destruct (ParseTimeout timeout) as [t| |] eqn:Ht; cbn [mbind outcome_bind]; [|done..].
  destruct (negb (t =? 0)); [|by intros [= <-]].
  assert (0 <= t) as Hpos.
  { destruct (ParseTimeout_range timeout) as (t' & Ht' & Hr).
    - intros Hs. by rewrite Hs in Ht.
    - rewrite Ht in Ht'. injection Ht' as ->. lia. }
  destruct Hc as [Hwf Hopen (w & Hw & Hr)]. cbn [rc_put Cache_RequestCache].
  destruct (Put_spec c k' true (t + Second * 5) now Hwf Hopen)
    as (c1 & -> & Hwf1 & Hopen1 & Hm); [unfold Second; lia|].
  intros [= <-]. split; [done|done|]. exists w. rewrite Hm, lookup_insert_ne; [done|].
  intros ->. by apply Hne.
Qed.

Lemma handle_apart c k deadline ev :
  remembers c k deadline → apart k deadline ev →
  remembers (handle unmarshal c ev).1 k deadline.
Proof.
  intros Hc Hev. destruct ev as [hq now msg|hr msg|now]; cbn [handle apart] in *.
  - unfold HandleRequest, correlates in *. destruct (TopicFromCtx _) as [topic|]; [|done].
    destruct (unmarshal _) as [command|]; [|done].
    destruct (remember c now command) as [c'| |] eqn:E; [|done..].
    assert (CorrelationID command ≠ Done k) as Hne.
    { intros Hk. rewrite Hk in Hev. by apply bool_decide_eq_false in Hev. }
    pose proof (remember_other c now command k deadline c' Hc Hne E).
    by destruct (forward_request _ _ _) as [[]| |].
  - unfold HandleResponse, correlates in *. destruct (TopicFromCtx _) as [topic|]; [|done].
    destruct (unmarshal _) as [command|]; [|done].
    destruct (CorrelationID command) as [k'| |]; [|done..]. apply bool_decide_eq_false in Hev.
    destruct Hc as [Hwf Hopen (w & Hw & Hr)]. cbn [rc_remove Cache_RequestCache].
    destruct (Remove_spec c k' Hwf Hopen) as (c' & -> & Hwf' & Hopen' & Hm).
    assert (remembers c' k deadline) as Hc'.
    { split; [done|done|]. exists w. by rewrite Hm, lookup_delete_ne. }
    cbn [mbind outcome_bind fst snd]. destruct (bool_decide _); [|done].
    by destruct (forward_response _ _ _) as [[]| |].
  - destruct Hc as [Hwf Hopen (w & Hw & Hne & Hr)]. cbn [rc_clear Cache_RequestCache].
    destruct (clearExpired_spec c now Hwf) as (c' & -> & Hwf' & Hcl & Hsub & Hexp & _).
    split; [done|by rewrite <-Hopen|]. exists w. split; [|done].
    destruct (cache_map c' !! k) as [w'|] eqn:E.
    + pose proof (lookup_weaken _ _ _ _ E Hsub) as Hw'. cbn [fst]. congruence.
    + destruct (Hexp k w Hw E) as [j Hj]. unfold entry_expired in Hj. specialize (Hev j). bools; lia.
Qed.

Lemma handled_apart c k deadline evs :
  remembers c k deadline → Forall (apart k deadline) evs → remembers (handled c evs) k deadline.
Proof.
  intros Hc Hevs. unfold handled. revert c Hc.
  induction Hevs as [|ev evs Hev Hevs IH]; intros c Hc; cbn [foldl]; [done|].
  by apply IH, handle_apart.
Qed.

(** A request that is remembered. *)
Lemma HandleRequest_remembers hq c now msg topic k timeout t :
  cache_wf c → closed c = false → TopicFromCtx (Context msg) = Some topic →
  unmarshal (Payload msg) = Ok (Headers (Done k) (Done timeout)) → k ≠ "" →
  ParseTimeout timeout = Done t → t ≠ 0 →
  remembers (HandleRequest unmarshal hq c now msg).1 k (now + (t + Second * 5)).
Proof.
  intros Hwf Hopen Hctx Hdec Hk Ht Ht0. unfold HandleRequest. rewrite Hctx, Hdec.
  assert (0 <= t) as Hpos.
  { destruct (ParseTimeout_range timeout) as (t' & Ht' & Hr).
    - intros ->. by vm_compute in Ht.
    - rewrite Ht in Ht'. injection Ht' as ->. lia. }
  unfold remember. cbn [CorrelationID Timeout mbind outcome_bind].
  rewrite slen_pos by done. cbn [mbind outcome_bind]. rewrite Ht.
  cbn [mbind outcome_bind]. rewrite (proj2 (Z.eqb_neq t 0)) by done. cbn [negb].
  cbn [rc_put Cache_RequestCache].
  destruct (Put_spec c k true (t + Second * 5) now Hwf Hopen)
    as (c1 & -> & Hwf1 & Hopen1 & Hm); [unfold Second; lia|].
  cbn [mbind outcome_bind fst snd]. split; [done|done|].
  eexists. rewrite Hm, lookup_insert_eq. split; [done|]. cbn. unfold Second. lia.
Qed.

(** What HandleResponse makes of an answer whose command is remembered, or is not. *)
Lemma HandleResponse_remembered hr c msg topic k timeout deadline :
  remembers c k deadline → TopicFromCtx (Context msg) = Some topic →
  unmarshal (Payload msg) = Ok (Headers (Done k) timeout) →
  (HandleResponse unmarshal hr c msg).2 = forward_response hr topic msg.
Proof.
  intros [Hwf Hopen (w & Hw & _)] Hctx Hdec. unfold HandleResponse. rewrite Hctx, Hdec.
  cbn [CorrelationID rc_remove Cache_RequestCache].
  destruct (Remove_spec c k Hwf Hopen) as (c' & -> & _).
  cbn [mbind outcome_bind fst snd]. by rewrite bool_decide_eq_true_2.
Qed.

Lemma HandleResponse_forgotten hr c msg topic k timeout :
  cache_wf c → cache_map c !! k = None → TopicFromCtx (Context msg) = Some topic →
  unmarshal (Payload msg) = Ok (Headers (Done k) timeout) →
  (HandleResponse unmarshal hr c msg).2 = Done (Ok []).
Proof.
  intros Hwf Hk Hctx Hdec. unfold HandleResponse. rewrite Hctx, Hdec.
  cbn [CorrelationID rc_remove Cache_RequestCache]. destruct (closed c) eqn:Hopen.
  - unfold Remove. by rewrite Hopen.
  - destruct (Remove_spec c k Hwf Hopen) as (c' & -> & _).
    cbn [mbind outcome_bind fst snd]. rewrite bool_decide_eq_false_2; [done|].
    rewrite Hk. by intros [? ?].
Qed.

(** C4.  A command waits for its answer for its timeout and five seconds more: in
    whatever messages about other commands and passes of the cleaner come between,
    an answer is forwarded to the cloud, under the response topic of the device, as
    long as the cleaner has read no later time; once the cleaner has made as many
    passes after that time as the cache has entries, the answer is dropped. *)
Theorem answer_in_time prefix tenantID gatewayID generic id rest c now msg k timeout t evs :
  cache_wf c → closed c = false →
  byte_free slash gatewayID = true → byte_free slash id = true → (generic = true → id ≠ "") →
  TopicFromCtx (Context msg) = Some (cloud_topic generic tenantID gatewayID id "req" rest) →
  unmarshal (Payload msg) = Ok (Headers (Done k) (Done timeout)) → k ≠ "" →
  ParseTimeout timeout = Done t → t ≠ 0 →
  let deadline := now + (t + Second * 5) in
  let hq := CmdRequestHandler tenantID gatewayID generic in
  let hr := CmdResponseHandler prefix tenantID gatewayID generic in
  let waiting := handled (HandleRequest unmarshal hq c now msg).1 evs in
  Forall (apart k deadline) evs →
  ∀ f rest' answer timeout',
    unmarshal (Payload answer) = Ok (Headers (Done k) timeout') →
    TopicFromCtx (Context answer) =
      Some (local_topic f (local_id generic gatewayID id) (response_type f) rest') →
    (∃ m, (HandleResponse unmarshal hr waiting answer).2 = Done (Ok [m]) ∧
      TopicFromCtx (Context m) =
        Some ((if generic && (0 <? slen prefix) then prefix +:+ "/" else "") +:+
              cloud_topic generic tenantID gatewayID id "res" rest') ∧
      Payload m = Payload answer) ∧
    (∀ clock, (∀ p i, deadline < clock p i) →
      ∃ late, clear_passes (size (cache_map waiting)) clock waiting = Done late ∧
        (HandleResponse unmarshal hr late answer).2 = Done (Ok [])).
Proof.
  intros Hwf Hopen Hg Hi Hne Hctx Hdec Hk Ht Ht0 deadline hq hr waiting Hevs f rest' answer timeout'
    Hdec' Hctx'.
  assert (remembers waiting k deadline) as Hw.
  { apply handled_apart; [|done]. by apply (HandleRequest_remembers hq c now msg _ k timeout t
      Hwf Hopen Hctx). }
  split.
  - destruct (forward_response_spec prefix tenantID gatewayID generic id f rest' answer _
      Hg Hi Hne eq_refl) as (m & Hres & Hm & Hpm & _).
    exists m. split; [|done]. rewrite <-Hres. by eapply HandleResponse_remembered.
  - intros clock Hclock. pose proof Hw as [Hwf' _ (w & Hent & Hw1 & Hw2)].
    destruct (clear_passes_spec (size (cache_map waiting)) clock waiting (deadline + 1) Hwf')
      as (late & Hrun & Hwfl & Hsub & Hleft & _); [lia|intros p i; specialize (Hclock p i); lia|].
    exists late. split; [done|]. eapply HandleResponse_forgotten; [done| |done|done].
    destruct (cache_map late !! k) as [w'|] eqn:E; [|done].
    pose proof (lookup_weaken _ _ _ _ E Hsub) as Hw'. rewrite Hent in Hw'. simplify_eq.
    specialize (Hleft k w' E). lia.
Qed.
End deadlines.

(** ** Example *)

(** The command of Commands.v, with another one and a pass of the cleaner in
    between. *)
Definition sample_between : list event :=
  [Request (CmdRequestHandler "tenant" "ns:gw" true) Second (NewMessage "2" "other");
   Cleaning (λ _, 12 * Second)].

Definition sample_answer : message :=
  SetContext (NewMessage "3" "id-7") (SetTopicToCtx Background "c//ns:gw:dev/s/id-7/200").

Lemma answer_in_time_witness :
  let waiting := handled sample_envelope
    (HandleRequest sample_envelope (CmdRequestHandler "tenant" "ns:gw" true)
       NewTTLCache 0 sample_command).1 sample_between in
  (∃ m, (HandleResponse sample_envelope (CmdResponseHandler "" "tenant" "ns:gw" true)
           waiting sample_answer).2 = Done (Ok [m]) ∧
     TopicFromCtx (Context m) = Some "command/tenant/ns:gw/dev/res/id-7/200") ∧
  ∃ late, clear_passes (size (cache_map waiting)) (λ _ _, 16 * Second) waiting = Done late ∧
    (HandleResponse sample_envelope (CmdResponseHandler "" "tenant" "ns:gw" true)
       late sample_answer).2 = Done (Ok []).
Proof.
  intros waiting.
  destruct (answer_in_time sample_envelope "" "tenant" "ns:gw" true "dev" "id-7/toggle"
    NewTTLCache 0 sample_command "id-7" "10" (10 * Second) sample_between
    NewTTLCache_wf eq_refl eq_refl eq_refl ltac:(done) eq_refl eq_refl ltac:(done) eq_refl
    ltac:(done)) with (f := Short) (rest' := "id-7/200") (answer := sample_answer)
    (timeout' := Done "10") as [(m & Hm & Ht & _) Hlate].
  - apply Forall_cons. split; [reflexivity|]. apply Forall_cons. split; [|apply Forall_nil_2].
    intros i. vm_compute. discriminate.
  - reflexivity.
  - reflexivity.
  - split; [exists m; exact (conj Hm Ht)|].
    apply Hlate. intros _ _. reflexivity.
Defined.
