(* ===== verification/Service.v ===== *)
(** * Connection status and gateway parameters: routing/service.go

    The handlers are connection listeners; what they publish is returned as the
    list of published messages, in order.  [encoding/json]'s quoting of a string
    is an argument, as are fresh UUIDs and the clock (in seconds). *)

From stdpp Require Import pretty.
From S2P Require Import Prelude GoStrings Message.

Local Open Scope Z_scope.

Definition TopicGwParamsRequest : string := "edge/thing/request".
Definition TopicGwParamsResponse : string := "edge/thing/response".
Definition TopicConnectionStatus : string := "edge/connection/remote/status".

Definition StatusConfigError : string := "CONFIG_ERROR".
Definition StatusProvisioningError : string := "PROVISIONING_ERROR".
Definition StatusProvisioningUpdate : string := "PROVISIONING_UPDATE".
Definition StatusProvisioningMissing : string := "PROVISIONING_MISSING".
Definition StatusConnectionClosed : string := "CONNECTION_CLOSED".
Definition StatusConnectionUnknown : string := "CONNECTION_UNKNOWN".
Definition StatusConnectionError : string := "CONNECTION_ERROR".
Definition StatusConnectionNotAuthenticated : string := "CONNECTION_NOT_AUTHENTICATED".

(** The refusals of the paho client, compared by identity. *)
Definition ErrorRefusedBadProtocolVersion : error := Sentinel "unacceptable protocol version".
Definition ErrorRefusedIDRejected : error := Sentinel "identifier rejected".
Definition ErrorRefusedBadUsernameOrPassword : error := Sentinel "bad user name or password".
Definition ErrorRefusedNotAuthorised : error := Sentinel "not Authorized".

Record GwParams := MkGwParams { DeviceID : string; TenantID : string; PolicyID : string }.

Record ConnectionStatus := MkStatus {
  Connected : bool;
  Timestamp : Z;
  Cause : string;
}.

(** A message handed to a publisher with a topic. *)
Definition publication : Type := string * message.

Section service.
Variable json_string : string → string.

(** The fields of a JSON object. *)
Definition json_object (fields : list string) : string := "{" +:+ Join fields "," +:+ "}".

Definition json_field (name value : string) : string := json_string name +:+ ":" +:+ value.

(** The [omitempty] fields are left out when they are zero. *)
Definition marshal_status (s : ConnectionStatus) : string :=
  json_object
    ([json_field "connected" (if Connected s then "true" else "false")]
     ++ (if Timestamp s =? 0 then [] else [json_field "timestamp" (pretty (Timestamp s))])
     ++ (if slen (Cause s) =? 0 then [] else [json_field "cause" (json_string (Cause s))])).

Definition marshal_params (p : GwParams) : string :=
  json_object
    ([json_field "deviceId" (json_string (DeviceID p));
      json_field "tenantId" (json_string (TenantID p))]
     ++ (if slen (PolicyID p) =? 0 then []
         else [json_field "policyId" (json_string (PolicyID p))])).

Definition NewGwParams (deviceID tenantID policyID : string) : GwParams :=
  MkGwParams deviceID tenantID policyID.

Definition NewGwParamsMessage (uuid : string) (params : GwParams) : message :=
  NewMessage uuid (marshal_params params).

Definition status_of (cause : string) (now : Z) : ConnectionStatus :=
  MkStatus (slen cause =? 0) now cause.

Definition SendStatus (uuid cause : string) (now : Z) : list publication :=
  let message := NewMessage uuid (marshal_status (status_of cause now)) in
  [(TopicConnectionStatus,
    SetContext message (SetRetainToCtx (Context message) true))].

Definition SendGwParams (uuid : string) (params : GwParams) (retain : bool)
    : list publication :=
  let paramsMsg := NewGwParamsMessage uuid params in
  [(TopicGwParamsResponse,
    SetContext paramsMsg (SetRetainToCtx (Context paramsMsg) retain))].

(** ** The listeners *)

Inductive cloud_call := CloudConnect | CloudDisconnect.

Definition CloudConnectionHandler_Connected (connected : bool) (err : option error)
    : cloud_call :=
  if connected then CloudConnect else CloudDisconnect.

Definition ReconnectHandler_Connected (uuid : string) (params : GwParams)
    (connected : bool) (err : option error) : list publication :=
  if connected then SendGwParams uuid params false else [].

Definition ErrorsHandler_Connected (uuid : string) (now : Z) (connected : bool)
    (err : option error) : list publication :=
  match err with
  | Some e =>
      if connected then []
      else if errors_is e ErrorRefusedBadUsernameOrPassword
           then SendStatus uuid StatusConnectionNotAuthenticated now
           else SendStatus uuid StatusConnectionError now
  | None => []
  end.

Definition ConnectionStatusHandler_Connected (uuid : string) (now : Z)
    (connected : bool) (err : option error) : list publication :=
  if connected then SendStatus uuid "" now else [].

(** The parameters bus: any request is answered. *)
Definition ParamsBus (params : GwParams) : bus (string → message → result (list message)) :=
  Bus "params_bus" TopicGwParamsRequest TopicGwParamsResponse
    (λ uuid msg, Ok [NewGwParamsMessage uuid params]).

(** The cause to report for a connection error, and whether to try again. *)
Definition StatusCause (err : error) : string * bool :=
  if errors_is err ErrorRefusedIDRejected then (StatusConnectionError, false) else
  if errors_is err ErrorRefusedBadProtocolVersion then (StatusConnectionError, false) else
  if errors_is err ErrorRefusedNotAuthorised then (StatusConnectionError, false) else
  if errors_is err ErrorRefusedBadUsernameOrPassword
  then (StatusConnectionNotAuthenticated, false)
  else (StatusConnectionError, true).

(** What one connection event makes the two status listeners publish. *)
Definition status_publications (uuid : string) (now : Z) (connected : bool)
    (err : option error) : list publication :=
  ErrorsHandler_Connected uuid now connected err
  ++ ConnectionStatusHandler_Connected uuid now connected err.

(** A connection event is reported by exactly one retained status message,
    "connected" without a cause on a connection and "not connected" with a cause
    on a failure (NOT_AUTHENTICATED exactly for wrong credentials); an orderly
    disconnection, which has no error, is not reported. *)
Theorem status_reported uuid now connected err :
  match status_publications uuid now connected err with
  | [] => connected = false ∧ err = None
  | [(topic, m)] =>
      topic = TopicConnectionStatus ∧ RetainFromCtx (Context m) = true ∧
      ∃ cause, Payload m = marshal_status (status_of cause now) ∧
        Connected (status_of cause now) = connected ∧
        (connected = true → cause = "") ∧
        (connected = false → ∃ e, err = Some e ∧
          (cause = StatusConnectionNotAuthenticated ↔
           errors_is e ErrorRefusedBadUsernameOrPassword = true) ∧
          (cause = StatusConnectionError ∨ cause = StatusConnectionNotAuthenticated))
  | _ => False
  end.
Proof.
  unfold status_publications, ErrorsHandler_Connected, ConnectionStatusHandler_Connected.
  destruct connected, err as [e|]; cbn [app].
  - split_and!; [done|done|]. exists "". naive_solver.
  - split_and!; [done|done|]. exists "". naive_solver.
  - destruct (errors_is e _) eqn:E; cbn [app SendStatus].
    + split_and!; [done|done|]. exists StatusConnectionNotAuthenticated.
      split_and!; [done|done|done|]. intros _. exists e. rewrite E.
      split_and!; [done|done|by right].
    + split_and!; [done|done|]. exists StatusConnectionError.
      split_and!; [done|done|done|]. intros _. exists e. rewrite E.
      split_and!; [done|done|by left].
  - done.
Qed.
End service.

(** Which errors are final, by the chain of causes. *)
Lemma StatusCause_final err :
  (StatusCause err).2 = false ↔
  errors_is err ErrorRefusedIDRejected = true ∨
  errors_is err ErrorRefusedBadProtocolVersion = true ∨
  errors_is err ErrorRefusedNotAuthorised = true ∨
  errors_is err ErrorRefusedBadUsernameOrPassword = true.
Proof. unfold StatusCause. repeat case_match; naive_solver. Qed.
