(* ===== verification/Connection.v ===== *)
(** * MQTT connections: connector/connection.go and connector/config.go

    A connection keeps its subscriptions and its listeners and drives the paho
    client.  The client is third-party code: the connection's calls to it are
    recorded, in order, in [calls], and what the client answers
    ([IsConnectionOpen], [IsConnected], a fresh UUID) is an argument.  The
    subscription records are shared between the [sync.Map], its iteration in
    onConnected and unsubscribe, so they live in a store of their own. *)

From Stdlib Require Import QArith.
From S2P Require Import Prelude GoStrings Message.
From S2P Require Import Prelude.

Local Open Scope Z_scope.

(** ** connector/config.go *)

(** A [float64] as far as the code compares it. *)
Inductive float64 := Finite (q : Q) | PosInf | NegInf | NaN.

Definition float_lt (a b : float64) : bool :=
  match a, b with
  | NaN, _ | _, NaN => false
  | NegInf, NegInf => false
  | NegInf, _ => true
  | _, NegInf => false
  | PosInf, _ => false
  | Finite _, PosInf => true
  | Finite x, Finite y => negb (Qle_bool y x)
  end.

Definition keepAliveTimeout : Z := 20 * Second.
Definition connectTimeout : Z := 30 * Second.
Definition maxReconnectInterval : Z := Minute.
Definition connectRetryInterval : Z := Minute.
Definition disconnectQuiesce : Z := 10000.
Definition subTimeout : Z := 15 * Second.
Definition unsubTimeout : Z := 5 * Second.

Record Credentials := MkCredentials { UserName : string; Password : string }.

(** [TLS] stands for [tls.Config], a reference. *)
Record Configuration (TLS : Type) := MkConfiguration {
  URL : string;
  CleanSession : bool;
  NoOpStore : bool;
  ConnectTimeout : Z;
  KeepAliveTimeout : Z;
  ConnectRetryInterval : Z;
  ExternalReconnect : bool;
  AuthErrRetries : Z;
  BackoffMultiplier : float64;
  MaxReconnectInterval : Z;
  MinReconnectInterval : Z;
  Creds : Credentials;
  WillTopic : string;
  WillMessage : string;
  WillQos : Qos;
  WillRetain : bool;
  TLSConfig : option TLS;
}.
Arguments MkConfiguration {TLS}.
Arguments URL {TLS} _. Arguments CleanSession {TLS} _. Arguments NoOpStore {TLS} _.
Arguments ConnectTimeout {TLS} _. Arguments KeepAliveTimeout {TLS} _.
Arguments ConnectRetryInterval {TLS} _. Arguments ExternalReconnect {TLS} _.
Arguments AuthErrRetries {TLS} _. Arguments BackoffMultiplier {TLS} _.
Arguments MaxReconnectInterval {TLS} _. Arguments MinReconnectInterval {TLS} _.
Arguments Creds {TLS} _. Arguments WillTopic {TLS} _. Arguments WillMessage {TLS} _.
Arguments WillQos {TLS} _. Arguments WillRetain {TLS} _. Arguments TLSConfig {TLS} _.

Section configuration.
Context {TLS : Type}.
Implicit Types (c : Configuration TLS).

(** [url_parse] is [url.Parse]: the error, if any. *)
Definition Validate (url_parse : string → option error) c : option error :=
  if slen (URL c) =? 0 then Some (Sentinel "MQTT url is missing") else
  match url_parse (URL c) with
  | Some err => Some (Wrap err "invalid MQTT url")
  | None =>
      if MinReconnectInterval c <? 0
      then Some (Sentinel "MinReconnectInterval < 0") else
      if MaxReconnectInterval c <? 0
      then Some (Sentinel "MaxReconnectInterval < 0") else
      if MaxReconnectInterval c <? MinReconnectInterval c
      then Some (Sentinel "MinReconnectInterval > MaxReconnectInterval") else
      if AuthErrRetries c <? 1
      then Some (Sentinel "AuthErrRetries < 1") else
      if float_lt (BackoffMultiplier c) (Finite 1)
      then Some (Sentinel "BackoffMultiplier < 1") else None
  end.

(** [request_uri] is [url.ParseRequestURI] followed by [String]. *)
Definition NewMQTTClientConfig (request_uri : string → result string)
    (broker : string) : result (Configuration TLS) :=
  match request_uri broker with
  | Err e => Err e
  | Ok u =>
      Ok {| URL := u; CleanSession := false; NoOpStore := false;
            ConnectTimeout := connectTimeout; KeepAliveTimeout := keepAliveTimeout;
            ConnectRetryInterval := connectRetryInterval;
            ExternalReconnect := false; AuthErrRetries := 1;
            BackoffMultiplier := Finite 2;
            MaxReconnectInterval := maxReconnectInterval;
            MinReconnectInterval := maxReconnectInterval;
            Creds := MkCredentials "" ""; WillTopic := ""; WillMessage := "";
            WillQos := QosAtMostOnce; WillRetain := false; TLSConfig := None |}
  end.

(** The options handed to [mqtt.NewClient]; the fields the code leaves at paho's
    own defaults are optional. *)
Record ClientOptions := MkClientOptions {
  co_clientID : string;
  co_cleanSession : bool;
  co_broker : string;
  co_keepAlive : Z;
  co_connectTimeout : Z;
  co_maxReconnectInterval : Z;
  co_autoReconnect : bool;
  co_connectRetry : option Z;
  co_tls : option TLS;
  co_will : option (string * string * Qos * bool);
  co_credentials : option (string * string);
  co_noOpStore : bool;
}.

Definition createClientOptions c (clientID : string) (cleanSession : bool)
    : ClientOptions :=
  {| co_clientID := clientID;
     co_cleanSession := cleanSession;
     co_broker := URL c;
     co_keepAlive := KeepAliveTimeout c;
     co_connectTimeout := ConnectTimeout c;
     co_maxReconnectInterval := MaxReconnectInterval c;
     co_autoReconnect :=
       if 0 <? MaxReconnectInterval c then negb (ExternalReconnect c) else false;
     co_connectRetry :=
       if 0 <? ConnectRetryInterval c then Some (ConnectRetryInterval c) else None;
     co_tls := TLSConfig c;
     co_will :=
       if 0 <? slen (WillMessage c)
       then Some (WillTopic c, WillMessage c, WillQos c, WillRetain c) else None;
     co_credentials :=
       if 0 <? slen (UserName (Creds c))
       then Some (UserName (Creds c), Password (Creds c)) else None;
     co_noOpStore := NoOpStore c |}.

(** ** connector/nop_store.go

    The store of packets in flight that keeps none; [packet] is paho's type. *)
Definition nostore : Type := unit.

Section nostore.
Context {packet : Type}.
Definition nostore_Open (s : nostore) : nostore := s.
Definition nostore_Put (s : nostore) (key : string) (p : packet) : nostore := s.
Definition nostore_Get (s : nostore) (key : string) : option packet := None.
Definition nostore_Del (s : nostore) (key : string) : nostore := s.
Definition nostore_All (s : nostore) : list string := [].
Definition nostore_Close (s : nostore) : nostore := s.
Definition nostore_Reset (s : nostore) : nostore := s.
End nostore.

(** The exponential backoff of a connection; zero durations leave the library's
    defaults in place. *)
Record BackOff := MkBackOff {
  bo_maxElapsedTime : Z;
  bo_randomizationFactor : Q;
  bo_multiplier : float64;
  bo_initialInterval : option Z;
  bo_maxInterval : option Z;
}.

Definition ConnectBackoff c : BackOff :=
  {| bo_maxElapsedTime := 0;
     bo_randomizationFactor := 1 # 4;
     bo_multiplier := BackoffMultiplier c;
     bo_initialInterval :=
       if 0 <? MinReconnectInterval c then Some (MinReconnectInterval c) else None;
     bo_maxInterval :=
       if 0 <? MaxReconnectInterval c then Some (MaxReconnectInterval c) else None |}.
End configuration.
Arguments ClientOptions TLS : clear implicits.

(** ** The connection *)

Record subscriptioninfo := MkInfo {
  si_topics : list string;
  si_callback : option nat;        (* the identity of the message handler *)
  si_qos : Qos;
  si_disposed : bool;
}.

#[export] Instance subscriptioninfo_eq_dec : EqDecision subscriptioninfo.
Proof. solve_decision. Defined.

(** A route of the paho client: a callback or the default handler wrapper. *)
Inductive route := RouteTo (callback : option nat) | RouteDefault.

Inductive client_call :=
  | SubscribeMultiple (filters : gmap string Z) (callback : option nat)
  | Unsubscribe (topics : list string)
  | AddRoute (topic : string) (r : route)
  | ConnectCall
  | DisconnectCall (quiesce : Z).

Definition listener : Type := nat.

Record MQTTConnection (TLS : Type) := MkConnection {
  config : Configuration TLS;
  clientID : string;
  options : ClientOptions TLS * option nat;   (* and the credentials provider *)
  infos : gmap nat subscriptioninfo;          (* the store of subscription records *)
  next_info : nat;
  topics : gmap string nat;                   (* the sync.Map: id to record *)
  listeners : option (list listener);
  defaultHandler : option nat;
  running : bool;
  reconnecting : bool;
  calls : list client_call;                   (* latest first *)
}.
Arguments MkConnection {TLS}.
Arguments config {TLS} _. Arguments clientID {TLS} _. Arguments options {TLS} _.
Arguments infos {TLS} _. Arguments next_info {TLS} _. Arguments topics {TLS} _.
Arguments listeners {TLS} _. Arguments defaultHandler {TLS} _.
Arguments running {TLS} _. Arguments reconnecting {TLS} _. Arguments calls {TLS} _.

Section connection.
Context {TLS : Type}.
Implicit Types (c : MQTTConnection TLS).

Definition with_calls c (cs : list client_call) : MQTTConnection TLS :=
  MkConnection (config c) (clientID c) (options c) (infos c) (next_info c) (topics c)
    (listeners c) (defaultHandler c) (running c) (reconnecting c) (rev cs ++ calls c).

Definition with_listeners c (ls : option (list listener)) : MQTTConnection TLS :=
  MkConnection (config c) (clientID c) (options c) (infos c) (next_info c) (topics c)
    ls (defaultHandler c) (running c) (reconnecting c) (calls c).

Definition with_running c (r : bool) : MQTTConnection TLS :=
  MkConnection (config c) (clientID c) (options c) (infos c) (next_info c) (topics c)
    (listeners c) (defaultHandler c) r (reconnecting c) (calls c).

Definition with_infos c (m : gmap nat subscriptioninfo) (ts : gmap string nat)
    : MQTTConnection TLS :=
  MkConnection (config c) (clientID c) (options c) m (next_info c) ts
    (listeners c) (defaultHandler c) (running c) (reconnecting c) (calls c).

Definition ConnectionURL c : string := URL (config c).
Definition ConnectionAuthErrRetries c : Z := AuthErrRetries (config c).
Definition ConnectionClientID c : string := clientID c.

Definition initMQTTClient (cfg : Configuration TLS) (id : string) (prov : option nat)
    : ClientOptions TLS * option nat :=
  (createClientOptions cfg id (CleanSession cfg), prov).

(** [uuid] is [watermill.NewShortUUID()]. *)
Definition NewMQTTConnectionCredentialsProvider (url_parse : string → option error)
    (config : option (Configuration TLS)) (id uuid : string) (prov : option nat)
    : result (MQTTConnection TLS) :=
  match config with
  | None => Err (Sentinel "no client config")
  | Some cfg =>
      match Validate url_parse cfg with
      | Some err => Err (Wrap err "invalid configuration")
      | None =>
          let '(cfg, id) :=
            if slen id =? 0
            then (MkConfiguration (URL cfg) true (NoOpStore cfg) (ConnectTimeout cfg)
                    (KeepAliveTimeout cfg) (ConnectRetryInterval cfg)
                    (ExternalReconnect cfg) (AuthErrRetries cfg)
                    (BackoffMultiplier cfg) (MaxReconnectInterval cfg)
                    (MinReconnectInterval cfg) (Creds cfg) (WillTopic cfg)
                    (WillMessage cfg) (WillQos cfg) (WillRetain cfg) (TLSConfig cfg), uuid)
            else (cfg, id) in
          Ok (MkConnection cfg id (initMQTTClient cfg id prov) ∅ 0 ∅ None None true false [])
      end
  end.

Definition NewMQTTConnection (url_parse : string → option error)
    (config : option (Configuration TLS)) (id uuid : string)
    : result (MQTTConnection TLS) :=
  NewMQTTConnectionCredentialsProvider url_parse config id uuid None.

Definition Connect c : MQTTConnection TLS := with_calls (with_running c true) [ConnectCall].

(** ** Listeners *)

Definition AddConnectionListener c (l : listener) : MQTTConnection TLS :=
  if bool_decide (l ∈ default [] (listeners c)) then c else
  with_listeners c (Some (match listeners c with
                          | Some ls => ls ++ [l]
                          | None => [l]
                          end)).

(** The slice without its [i]-th element. *)
Definition RemoveConnectionListener c (l : listener) : MQTTConnection TLS :=
  match list_find (λ l', l = l') (default [] (listeners c)) with
  | Some (i, _) =>
      let ls := default [] (listeners c) in
      with_listeners c (Some (take i ls ++ drop (S i) ls))
  | None => c
  end.

(** A notification: to which listener, what. *)
Definition notification : Type := listener * bool * option error.

Definition listenersRef c : list listener := default [] (listeners c).

Definition fireConnectionEvent c (hasConnection : bool) (err : option error)
    : list notification :=
  (λ l, (l, hasConnection, err)) <$> listenersRef c.

(** [isConnected] is the client's IsConnected. *)
Definition Disconnect c (isConnected : bool) : MQTTConnection TLS * list notification :=
  let fireDisconnect := isConnected in
  let c := if running c
           then with_calls (with_running c false) [DisconnectCall disconnectQuiesce]
           else c in
  (c, if fireDisconnect then fireConnectionEvent c false None else []).

Definition defHandlerRef c : option nat := defaultHandler c.

Definition setDefaultHandler c (h : option nat) : MQTTConnection TLS :=
  MkConnection (config c) (clientID c) (options c) (infos c) (next_info c) (topics c)
    (listeners c) h (running c) (reconnecting c) (calls c).

(** The handler that gets an unrouted message, if there is one. *)
Definition onDefaultHandlerWrapper c : option nat := defHandlerRef c.

(** ** Subscriptions *)

(** [isOpen] is IsConnectionOpen, [uuid] a fresh UUID; [topics\[0\]] panics on
    an empty list. *)
Definition subscribe c (isOpen : bool) (uuid : string) (callback : option nat)
    (qos : Qos) (ts : list string) : outcome (MQTTConnection TLS * string) :=
  topic0 ← or_panic IndexOutOfRange (head ts);
  let id := if (1 <? length ts)%nat then uuid else topic0 in
  let l := next_info c in
  let c := MkConnection (config c) (clientID c) (options c)
             (<[l := MkInfo ts callback qos false]> (infos c)) (S l)
             (<[id := l]> (topics c)) (listeners c) (defaultHandler c) (running c)
             (reconnecting c) (calls c) in
  let c :=
    if isOpen then with_calls c [SubscribeMultiple (subFilters qos ts) callback]
    else if negb (qos =? QosAtMostOnce)
         then with_calls c ((λ t, AddRoute t (RouteTo callback)) <$> ts)
         else c in
  Done (c, id).

(** unsubscribe in its two steps: the record leaves the map, and then, under
    its lock, it is disposed of. *)
Definition unsubscribe_load c (id : string) : MQTTConnection TLS * option nat :=
  (with_infos c (infos c) (delete id (topics c)), topics c !! id).

Definition unsubscribe_dispose c (isOpen : bool) (l : nat) (autoDelete : bool)
    : outcome (MQTTConnection TLS) :=
  sub ← or_panic NilDereference (infos c !! l);
  let sub' := MkInfo (si_topics sub) (si_callback sub) (si_qos sub) true in
  let c := with_infos c (<[l := sub']> (infos c)) (topics c) in
  Done (if autoDelete && isOpen
        then with_calls c [Unsubscribe (si_topics sub)]
        else with_calls c ((λ t, AddRoute t RouteDefault) <$> si_topics sub)).

Definition unsubscribe c (isOpen : bool) (id : string) (autoDelete : bool)
    : outcome (MQTTConnection TLS) :=
  let '(c, loaded) := unsubscribe_load c id in
  match loaded with
  | None => Done c
  | Some l => unsubscribe_dispose c isOpen l autoDelete
  end.

(** One record of the iteration of onConnected. *)
Definition resubscribe c (l : nat) : outcome (MQTTConnection TLS) :=
  sub ← or_panic NilDereference (infos c !! l);
  Done (if si_disposed sub then c
        else with_calls c [SubscribeMultiple (subFilters (si_qos sub) (si_topics sub))
                             (si_callback sub)]).

Fixpoint resubscribe_all c (ls : list nat) : outcome (MQTTConnection TLS) :=
  match ls with
  | [] => Done c
  | l :: ls => c ← resubscribe c l; resubscribe_all c ls
  end.

(** ** Waiting for the subscriptions of onConnected *)

(** A subscribe token: when it completes, if it does, and its error. *)
Record sub_token := MkSubToken { st_done_at : option Z; st_error : option error }.

Inductive sub_log := SubProcessed | SubProblem (err : error) | SubDone.

Definition subscribeWait : Z := 4 * Second.

(** The select of one token from the time [now] on: when it fires, and whether the
    context's deadline or the token is taken; [pick] decides when both are there. *)
Definition select_token (deadline now : Z) (pick : bool) (t : sub_token) : Z * bool :=
  match st_done_at t with
  | None => (Z.max now deadline, false)
  | Some d =>
      let fires := Z.max now (Z.min deadline d) in
      (fires, (d <=? fires) && (negb (deadline <=? fires) || pick))
  end.

(** What is logged for each token, and when the last one has been seen. *)
Fixpoint wait_tokens (deadline now : Z) (tokens : list (sub_token * bool)) : list sub_log * Z :=
  match tokens with
  | [] => ([], now)
  | (t, pick) :: tokens =>
      let '(now, taken) := select_token deadline now pick t in
      let entry :=
        if taken
        then match st_error t with Some err => SubProblem err | None => SubDone end
        else SubProcessed in
      let '(entries, now) := wait_tokens deadline now tokens in
      (entry :: entries, now)
  end.

Definition waitForSubscribeTokens (now : Z) (tokens : list (sub_token * bool))
    : list sub_log * Z :=
  wait_tokens (now + subscribeWait) now tokens.

Lemma wait_tokens_bounds deadline now tokens :
  length (wait_tokens deadline now tokens).1 = length tokens ∧
  now <= (wait_tokens deadline now tokens).2 <= Z.max now deadline.
Proof.
  revert now. induction tokens as [|[t pick] tokens IH]; intros now; cbn; [lia|].
  assert (now <= (select_token deadline now pick t).1 <= Z.max now deadline) as Hs.
  { unfold select_token. destruct (st_done_at t); cbn; lia. }
  destruct (select_token deadline now pick t) as [now' taken]. cbn in Hs.
  specialize (IH now'). destruct (wait_tokens deadline now' tokens). cbn in *. lia.
Qed.

(** The handlers of a connection are held up for at most four seconds, however many
    subscriptions it has and however their tokens fare, and every token is
    reported. *)
Lemma waitForSubscribeTokens_bounds now tokens :
  length (waitForSubscribeTokens now tokens).1 = length tokens ∧
  now <= (waitForSubscribeTokens now tokens).2 <= now + subscribeWait.
Proof.
  unfold waitForSubscribeTokens.
  pose proof (wait_tokens_bounds (now + subscribeWait) now tokens).
  unfold subscribeWait, Second in *. lia.
Qed.

(** [order] is the order in which the map is iterated. *)
Definition onConnected c (order : list nat)
    : outcome (MQTTConnection TLS * list notification) :=
  c ← resubscribe_all c order;
  Done (c, fireConnectionEvent c true None).
End connection.

(** ** The live subscriptions of a connection *)

Section subscriptions.
Context {TLS : Type}.
Implicit Types (c : MQTTConnection TLS).

(** Every id names a record of its own that has not been disposed of. *)
Record conn_wf c : Prop := {
  cw_fresh l : is_Some (infos c !! l) → (l < next_info c)%nat;
  cw_live id l : topics c !! id = Some l →
    ∃ sub, infos c !! l = Some sub ∧ si_disposed sub = false;
  cw_inj id id' l : topics c !! id = Some l → topics c !! id' = Some l → id = id';
}.

(** The subscriptions by id. *)
Definition active c : gmap string subscriptioninfo :=
  omap (λ l, infos c !! l) (topics c).

Lemma active_lookup c id :
  active c !! id = topics c !! id ≫= (λ l, infos c !! l).
Proof. apply lookup_omap. Qed.

Lemma active_Some c id sub :
  active c !! id = Some sub ↔ ∃ l, topics c !! id = Some l ∧ infos c !! l = Some sub.
Proof. rewrite active_lookup. apply bind_Some. Qed.

Lemma active_None c id : conn_wf c → active c !! id = None ↔ topics c !! id = None.
Proof.
  intros Hwf. rewrite active_lookup. split; [|by intros ->].
  destruct (topics c !! id) as [l|] eqn:E; [|done].
  destruct (cw_live c Hwf id l E) as (sub & Hs & _). simpl. congruence.
Qed.

Lemma conn_wf_same c c' :
  infos c' = infos c → next_info c' = next_info c → topics c' = topics c →
  conn_wf c → conn_wf c' ∧ active c' = active c.
Proof.
  intros Hi Hn Ht [H1 H2 H3]. unfold active. rewrite Hi, Ht. split; [|done].
  by split; rewrite ?Hi, ?Hn, ?Ht.
Qed.

Definition subscribe_calls (isOpen : bool) callback (qos : Qos) (ts : list string)
    : list client_call :=
  if isOpen then [SubscribeMultiple (subFilters qos ts) callback]
  else if negb (qos =? QosAtMostOnce)
       then (λ t, AddRoute t (RouteTo callback)) <$> ts else [].

Lemma subscribe_spec c isOpen uuid callback qos t ts :
  conn_wf c →
  let id := if (1 <? length (t :: ts))%nat then uuid else t in
  ∃ c', subscribe c isOpen uuid callback qos (t :: ts) = Done (c', id) ∧ conn_wf c' ∧
    active c' = <[id := MkInfo (t :: ts) callback qos false]> (active c) ∧
    calls c' = rev (subscribe_calls isOpen callback qos (t :: ts)) ++ calls c ∧
    config c' = config c ∧ topics c' !! id = Some (next_info c) ∧
    (∀ id', id' ≠ id → topics c' !! id' = topics c !! id').
Proof.
  intros Hwf id. unfold subscribe. cbn [or_panic head mbind outcome_bind].
  fold id. set (l := next_info c).
  set (c0 := MkConnection _ _ _ (<[l := _]> _) _ _ _ _ _ _ _).
  assert (conn_wf c0 ∧ active c0 = <[id := MkInfo (t :: ts) callback qos false]> (active c))
    as [Hwf0 Ha].
  { destruct Hwf as [Hf Hl Hinj].
    assert (∀ id' l', topics c !! id' = Some l' → l' ≠ l) as Hold.
    { intros id' l' H ->. destruct (Hl _ _ H) as (? & H' & _).
      specialize (Hf l (mk_is_Some _ _ H')). unfold l in Hf. lia. }
    split.
    - split; subst c0; cbn [infos next_info topics].
      + intros l' [s Hs]. destruct (decide (l' = l)) as [->|Hne]; [lia|].
        rewrite lookup_insert_ne in Hs by done. specialize (Hf l' (mk_is_Some _ _ Hs)).
        unfold l. lia.
      + intros id' l' H. apply lookup_insert_Some in H as [[<- <-]|[Hne H]].
        * eexists. by rewrite lookup_insert_eq.
        * rewrite lookup_insert_ne by (symmetry; eauto). eauto.
      + intros id1 id2 l' H1 H2.
        apply lookup_insert_Some in H1 as [[<- <-]|[Hn1 H1]];
          apply lookup_insert_Some in H2 as [[<- ?]|[Hn2 H2]]; subst; try done.
        * by apply Hold in H2.
        * by apply Hold in H1.
        * eauto.
    - apply map_eq. intros id'. rewrite active_lookup. subst c0. cbn [infos topics].
      destruct (decide (id' = id)) as [->|Hne].
      + rewrite !lookup_insert_eq. cbn. by rewrite lookup_insert_eq.
      + rewrite !lookup_insert_ne by done. rewrite active_lookup.
        destruct (topics c !! id') as [l'|] eqn:E; [|done]. cbn.
        rewrite lookup_insert_ne by (symmetry; eauto). done. }
  set (c1 := if isOpen then _ else _).
  assert (c1 = with_calls c0 (subscribe_calls isOpen callback qos (t :: ts))) as ->.
  { unfold c1, subscribe_calls. by repeat case_match. }
  eexists. split; [done|].
  destruct (conn_wf_same c0 (with_calls c0 (subscribe_calls isOpen callback qos (t :: ts)))
    eq_refl eq_refl eq_refl Hwf0) as [? ->].
  split_and!; [done|done|done|done| |]; cbn [with_calls topics c0].
  - by rewrite lookup_insert_eq.
  - intros id' Hne. by rewrite lookup_insert_ne.
Qed.

Definition unsubscribe_calls (isOpen autoDelete : bool) (ts : list string)
    : list client_call :=
  if autoDelete && isOpen then [Unsubscribe ts]
  else (λ t, AddRoute t RouteDefault) <$> ts.

Lemma unsubscribe_spec c isOpen id autoDelete :
  conn_wf c →
  ∃ c', unsubscribe c isOpen id autoDelete = Done c' ∧ conn_wf c' ∧
    active c' = delete id (active c) ∧ topics c' = delete id (topics c) ∧
    calls c' = rev (match active c !! id with
                    | Some sub => unsubscribe_calls isOpen autoDelete (si_topics sub)
                    | None => []
                    end) ++ calls c ∧
    config c' = config c.
Proof.
  intros Hwf. unfold unsubscribe, unsubscribe_load.
  destruct (topics c !! id) as [l|] eqn:Hid.
  2:{ eexists. split; [done|].
      assert (delete id (topics c) = topics c) as Hd by (by apply delete_id).
      rewrite (proj2 (active_None c id Hwf)) by done.
      destruct (conn_wf_same c (with_infos c (infos c) (delete id (topics c))))
        as [? ->]; [done..|].
      split_and!; [done| |done|done|done].
      by rewrite delete_id by (by apply active_None). }
  destruct (cw_live c Hwf id l Hid) as (sub & Hsub & Hlive).
  assert (active c !! id = Some sub) as -> by (apply active_Some; eauto).
  unfold unsubscribe_dispose. cbn [infos with_infos]. rewrite Hsub.
  cbn [or_panic mbind outcome_bind]. set (c0 := with_infos _ (<[l := _]> _) _).
  assert (conn_wf c0 ∧ active c0 = delete id (active c)) as [Hwf0 Ha].
  { destruct Hwf as [Hf Hl Hinj].
    assert (∀ id' l', delete id (topics c) !! id' = Some l' →
      id' ≠ id ∧ topics c !! id' = Some l' ∧ l' ≠ l) as Hother.
    { intros id' l' H. apply lookup_delete_Some in H as [Hne H]. split_and!; [done|done|].
      intros ->. by specialize (Hinj _ _ _ Hid H). }
    split.
    - split; subst c0; cbn [infos next_info topics with_infos].
      + intros l' [s Hs]. apply Hf. apply lookup_insert_Some in Hs as [[<- _]|[_ Hs]]; eauto.
      + intros id' l' H. apply Hother in H as (Hne & H & Hl').
        rewrite lookup_insert_ne by done. eauto.
      + intros id1 id2 l' (_ & H1 & _)%Hother (_ & H2 & _)%Hother. eauto.
    - apply map_eq. intros id'. rewrite active_lookup. subst c0.
      cbn [infos topics with_infos]. destruct (decide (id' = id)) as [->|Hne].
      + by rewrite !lookup_delete_eq.
      + rewrite !lookup_delete_ne by done. rewrite active_lookup.
        destruct (topics c !! id') as [l'|] eqn:E; [|done]. cbn.
        rewrite lookup_insert_ne; [done|]. intros ->. by specialize (Hinj _ _ _ Hid E). }
  set (c1 := if autoDelete && isOpen then _ else _).
  assert (c1 = with_calls c0 (unsubscribe_calls isOpen autoDelete (si_topics sub))) as ->.
  { unfold c1, unsubscribe_calls. by case_match. }
  eexists. split; [done|].
  destruct (conn_wf_same c0 (with_calls c0
    (unsubscribe_calls isOpen autoDelete (si_topics sub))) eq_refl eq_refl eq_refl Hwf0)
    as [? ->].
  by split_and!.
Qed.

(** The packets of a reconnection: one per live subscription. *)
Definition subscribe_packet (sub : subscriptioninfo) : client_call :=
  SubscribeMultiple (subFilters (si_qos sub) (si_topics sub)) (si_callback sub).

Lemma resubscribe_all_spec c ls subs :
  Forall2 (λ l sub, infos c !! l = Some sub ∧ si_disposed sub = false) ls subs →
  ∃ c', resubscribe_all c ls = Done c' ∧ infos c' = infos c ∧ topics c' = topics c ∧
    next_info c' = next_info c ∧ config c' = config c ∧
    listeners c' = listeners c ∧
    calls c' = rev (subscribe_packet <$> subs) ++ calls c.
Proof.
  revert c subs. induction ls as [|l ls IH]; intros c subs Hall.
  { inversion Hall. subst. by exists c. }
  inversion Hall as [|? sub ? subs' [Hl Hd] Hrest]; subst. cbn [resubscribe_all].
  unfold resubscribe. rewrite Hl. cbn [or_panic mbind outcome_bind]. rewrite Hd.
  destruct (IH (with_calls c [subscribe_packet sub]) subs' Hrest)
    as (c' & Hc & ? & ? & ? & ? & ? & Hcalls).
  exists c'. split_and!; [done..|]. rewrite Hcalls. cbn. by rewrite <-app_assoc.
Qed.

(** A connection that has just been made has no subscriptions. *)
Lemma NewMQTTConnection_fresh url_parse cfg id uuid c :
  NewMQTTConnection url_parse cfg id uuid = Ok c → conn_wf c ∧ active c = ∅.
Proof.
  unfold NewMQTTConnection, NewMQTTConnectionCredentialsProvider.
  destruct cfg as [cfg|]; [|done]. destruct (Validate url_parse cfg); [done|].
  destruct (slen id =? 0); intros [= <-]; (split; [|done]).
  all: split; cbn; [intros l [s Hs]|intros k l H|intros k k' l H];
    by rewrite lookup_empty in *.
Qed.

Lemma onConnected_spec c order :
  conn_wf c → order ≡ₚ (map_to_list (topics c)).*2 →
  ∃ c' subs, onConnected c order = Done (c', fireConnectionEvent c true None) ∧
    conn_wf c' ∧ active c' = active c ∧ topics c' = topics c ∧ config c' = config c ∧
    (∀ sub, sub ∈ subs ↔ ∃ id, active c !! id = Some sub) ∧
    calls c' = rev (subscribe_packet <$> subs) ++ calls c.
Proof.
  intros Hwf Horder.
  assert (∀ l, l ∈ order ↔ ∃ id, topics c !! id = Some l) as Hin.
  { intros l. rewrite Horder, list_elem_of_fmap. split.
    - intros ([id l'] & -> & H). apply elem_of_map_to_list in H. eauto.
    - intros [id H]. exists (id, l). split; [done|]. by apply elem_of_map_to_list. }
  assert (∃ subs, Forall2 (λ l sub, infos c !! l = Some sub ∧ si_disposed sub = false)
    order subs) as [subs Hsubs].
  { apply Forall_exists_Forall2_l. apply Forall_forall. intros l Hl.
    apply Hin in Hl as [id Hid]. destruct (cw_live c Hwf id l Hid) as (sub & ? & ?). eauto. }
  destruct (resubscribe_all_spec c order subs Hsubs) as (c' & Hc & Hi & Ht & Hn & Hcfg & Hls & Hcalls).
  exists c', subs. unfold onConnected. rewrite Hc. cbn [mbind outcome_bind].
  destruct (conn_wf_same c c' Hi Hn Ht Hwf) as [? ?].
  unfold fireConnectionEvent, listenersRef. rewrite Hls.
  split_and!; [done..| |done]. intros sub. split.
  - intros Hsub. apply list_elem_of_lookup in Hsub as [i Hi'].
    destruct (Forall2_lookup_r _ _ _ _ _ Hsubs Hi') as (l & Hl & Hl' & _).
    assert (l ∈ order) as [id Hid]%Hin by (by eapply list_elem_of_lookup_2).
    exists id. apply active_Some. eauto.
  - intros [id Hid]. apply active_Some in Hid as (l & Hid & Hl).
    assert (l ∈ order) as Hlo by (apply Hin; eauto).
    apply list_elem_of_lookup in Hlo as [i Hi'].
    destruct (Forall2_lookup_l _ _ _ _ _ Hsubs Hi') as (sub' & Hs & Hs' & _).
    simplify_eq. by eapply list_elem_of_lookup_2.
Qed.
End subscriptions.

(** ** The listener registry *)

Section registry.
Context {TLS : Type}.
Implicit Types (c : MQTTConnection TLS).

Inductive listener_op := LAdd (l : listener) | LRemove (l : listener).

Definition listener_run c (o : listener_op) : MQTTConnection TLS :=
  match o with
  | LAdd l => AddConnectionListener c l
  | LRemove l => RemoveConnectionListener c l
  end.

Definition listener_spec (ls : list listener) (o : listener_op) : list listener :=
  match o with
  | LAdd l => if decide (l ∈ ls) then ls else ls ++ [l]
  | LRemove l => filter (λ l', l' ≠ l) ls
  end.

Lemma filter_ne_absent (l : listener) (ls : list listener) : l ∉ ls → filter (λ l', l' ≠ l) ls = ls.
Proof.
  induction ls as [|x ls IH]; [done|]. rewrite not_elem_of_cons. intros [Hne Hl].
  rewrite filter_cons_True by done. by rewrite IH.
Qed.

Lemma listener_run_spec c o :
  NoDup (listenersRef c) →
  listenersRef (listener_run c o) = listener_spec (listenersRef c) o ∧
  NoDup (listener_spec (listenersRef c) o).
Proof.
  intros Hnd. destruct o as [l|l]; cbn [listener_run listener_spec].
  - unfold AddConnectionListener. destruct (decide (l ∈ listenersRef c)) as [Hin|Hin].
    + by rewrite bool_decide_eq_true_2.
    + rewrite bool_decide_eq_false_2 by done. unfold listenersRef in *.
      cbn [listeners with_listeners default from_option].
      split; [by destruct (listeners c)|].
      apply NoDup_app. split; [done|]. split; [|apply NoDup_singleton].
      by intros x Hx ->%list_elem_of_singleton.
  - split; [|by apply NoDup_filter]. unfold RemoveConnectionListener.
    fold (listenersRef c). destruct (list_find _ _) as [[i l']|] eqn:E.
    + apply list_find_Some in E as (Hi & <- & _). cbn [listeners with_listeners].
      unfold listenersRef at 1. cbn [default from_option].
      change (default [] (listeners c)) with (listenersRef c).
      pose proof (take_drop_middle _ _ _ Hi) as Heq. revert Heq.
      generalize (take i (listenersRef c)) (drop (S i) (listenersRef c)).
      intros l1 l2 Heq. rewrite <-Heq in Hnd |- *.
      apply NoDup_app in Hnd as (_ & Hd1 & [Hd2 _]%NoDup_cons).
      rewrite filter_app, filter_cons_False by tauto.
      rewrite !filter_ne_absent; [done|done|]. intros Hin. apply (Hd1 _ Hin). by left.
    + apply list_find_None in E. rewrite filter_ne_absent; [done|].
      intros Hin. rewrite Forall_forall in E. by apply (E l).
Qed.

(** After any sequence of AddConnectionListener and
    RemoveConnectionListener the listeners are those whose last operation was an
    Add, in the order they were added, and one event notifies each of them
    exactly once. *)
Theorem listeners_registry c os connected err :
  listenersRef c = [] →
  let c' := foldl listener_run c os in
  listenersRef c' = foldl listener_spec [] os ∧
  NoDup (listenersRef c') ∧
  fireConnectionEvent c' connected err =
    (λ l, (l, connected, err)) <$> foldl listener_spec [] os ∧
  ∀ l, l ∈ listenersRef c' ↔
    ∃ os1 os2, os = os1 ++ LAdd l :: os2 ∧ LRemove l ∉ os2.
Proof.
  intros H0 c'.
  assert (listenersRef c' = foldl listener_spec [] os ∧ NoDup (listenersRef c')) as [Hc Hnd].
  { unfold c'. induction os as [|o os IH] using rev_ind; [cbn [foldl]; rewrite H0; split; [done|constructor]|].
    rewrite !foldl_app. cbn [foldl]. destruct IH as [IH1 IH2].
    destruct (listener_run_spec (foldl listener_run c os) o IH2) as [-> ?].
    by rewrite <-IH1. }
  split_and!; [done|done|by unfold fireConnectionEvent; rewrite Hc|].
  rewrite Hc. clear. intros l.
  induction os as [|o os IH] using rev_ind.
  { split; [by intros ?%not_elem_of_nil|]. intros ([|] & ? & ? & _); done. }
  rewrite foldl_app. cbn [foldl].
  assert ((∃ os1 os2, os ++ [o] = os1 ++ LAdd l :: os2 ∧ LRemove l ∉ os2) ↔
    o = LAdd l ∨ o ≠ LRemove l ∧
      ∃ os1 os2, os = os1 ++ LAdd l :: os2 ∧ LRemove l ∉ os2) as ->.
  { split.
    - intros (os1 & os2 & H & Hnot). destruct os2 as [|o2 os2 _] using rev_ind.
      + apply app_inj_tail in H as [-> ->]. by left.
      + right. rewrite app_comm_cons, app_assoc in H. apply app_inj_tail in H as [-> ->].
        set_solver.
    - intros [->|[Hne (os1 & os2 & -> & Hnot)]].
      + exists os, []. split; [done|]. apply not_elem_of_nil.
      + exists os1, (os2 ++ [o]). split; [by rewrite <-app_assoc|]. set_solver. }
  rewrite <-IH. destruct o as [l'|l']; cbn [listener_spec].
  - case_decide; rewrite ?elem_of_app, ?list_elem_of_singleton; naive_solver.
  - rewrite list_elem_of_filter. naive_solver.
Qed.
End registry.

(** ** An example connection *)

Definition sample_configuration (clean : bool) : Configuration unit :=
  MkConfiguration "tcp://broker:1883" clean false connectTimeout keepAliveTimeout 0 false 1
    (Finite 2) Minute Minute (MkCredentials "" "") "" "" QosAtMostOnce false None.

Definition sample_connection (clean : bool) : MQTTConnection unit :=
  MkConnection (sample_configuration clean) "id"
    (initMQTTClient (sample_configuration clean) "id" None)
    ∅ 0 ∅ None None true false [].

Lemma sample_connection_wf clean :
  conn_wf (sample_connection clean) ∧ active (sample_connection clean) = ∅.
Proof.
  split; [|done]. split; cbn.
  - intros l [s Hs]. by rewrite lookup_empty in Hs.
  - intros id l H. by rewrite lookup_empty in H.
  - intros id id' l H. by rewrite lookup_empty in H.
Qed.

Lemma listeners_registry_witness :
  listenersRef (foldl listener_run (sample_connection true) [LAdd 1%nat; LAdd 2%nat; LAdd 1%nat; LRemove 2%nat])
  = [1%nat].
Proof.
  exact (proj1 (listeners_registry (sample_connection true)
    [LAdd 1%nat; LAdd 2%nat; LAdd 1%nat; LRemove 2%nat] true None eq_refl)).
Defined.
