(* ===== verification/SubscriptionManager.v ===== *)
(** * The subscription manager: connector/subscription_manager.go

    The manager counts the local subscriptions of each topic and keeps one
    subscription per counted topic on the connection it forwards to.  The
    connection is the one of Connection.v; [bridge] adds the broker's side of it,
    the session, so that the theorems speak about what the broker delivers. *)

From S2P Require Import Prelude GoStrings Message Connection.

Local Open Scope Z_scope.

Record subscriptionManager := MkManager {
  m_topics : gmap string Z;
  m_conn : bool;               (* a connection has been stored *)
}.

Definition NewSubscriptionManager : subscriptionManager := MkManager ∅ false.

Definition add0 (m : subscriptionManager) (topic : string) : subscriptionManager * bool :=
  match m_topics m !! topic with
  | Some n => (MkManager (<[topic := n + 1]> (m_topics m)) (m_conn m), false)
  | None => (MkManager (<[topic := 1]> (m_topics m)) (m_conn m), true)
  end.

Definition remove0 (m : subscriptionManager) (topic : string)
    : subscriptionManager * bool :=
  match m_topics m !! topic with
  | Some n =>
      if 1 <? n
      then (MkManager (<[topic := n - 1]> (m_topics m)) (m_conn m), false)
      else (MkManager (delete topic (m_topics m)) (m_conn m), true)
  | None => (m, false)
  end.

(** [order] is the order in which the map is iterated. *)
Definition copyTopics (m : subscriptionManager) (order : list string) (clear : bool)
    : subscriptionManager * list string :=
  (if clear then MkManager ∅ (m_conn m) else m, order).

Section manager.
Context {TLS : Type}.
Implicit Types (m : subscriptionManager) (c : MQTTConnection TLS).

Definition Add m c (isOpen : bool) (topic : string)
    : outcome (subscriptionManager * MQTTConnection TLS * bool) :=
  let '(m, fresh) := add0 m topic in
  if fresh && m_conn m then
    r ← subscribe c isOpen "" None QosAtMostOnce [topic];
    Done (m, r.1, true)
  else Done (m, c, false).

Definition Remove m c (isOpen : bool) (topic : string)
    : outcome (subscriptionManager * MQTTConnection TLS * bool) :=
  let '(m, last) := remove0 m topic in
  if last && m_conn m then
    c ← unsubscribe c isOpen topic true;
    Done (m, c, true)
  else Done (m, c, false).

Fixpoint unsubscribe_each c (isOpen : bool) (ts : list string)
    : outcome (MQTTConnection TLS) :=
  match ts with
  | [] => Done c
  | t :: ts => c ← unsubscribe c isOpen t true; unsubscribe_each c isOpen ts
  end.

Definition RemoveAll m c (isOpen : bool) (order : list string)
    : outcome (subscriptionManager * MQTTConnection TLS) :=
  let '(m, topics) := copyTopics m order true in
  if m_conn m then c ← unsubscribe_each c isOpen topics; Done (m, c)
  else Done (m, c).

Fixpoint subscribe_each c (isOpen : bool) (ts : list string)
    : outcome (MQTTConnection TLS) :=
  match ts with
  | [] => Done c
  | t :: ts =>
      r ← subscribe c isOpen "" None QosAtMostOnce [t];
      subscribe_each r.1 isOpen ts
  end.

Definition ForwardTo m c (isOpen : bool) (order : list string)
    : outcome (subscriptionManager * MQTTConnection TLS) :=
  let m := MkManager (m_topics m) true in
  let '(m, topics) := copyTopics m order false in
  c ← subscribe_each c isOpen topics;
  Done (m, c).

(** ** The broker's session *)

(** What a packet does to the filters of the session. *)
Definition deliver (session : gset string) (call : client_call) : gset string :=
  match call with
  | SubscribeMultiple filters _ => dom filters ∪ session
  | Unsubscribe topics => session ∖ list_to_set topics
  | _ => session
  end.

(** The session after the calls an operation added. *)
Definition emit (c c' : MQTTConnection TLS) (session : gset string) : gset string :=
  foldl deliver session
    (rev (take (length (calls c') - length (calls c)) (calls c'))).

Record bridge := MkBridge {
  mgr : subscriptionManager;
  cloud : MQTTConnection TLS;
  isOpen : bool;
  session : gset string;
}.

(** What can happen to the manager and its connection, one after the other. *)
Inductive op :=
  | OAdd (topic : string)
  | ORemove (topic : string)
  | ORemoveAll (order : list string)
  | OForwardTo (order : list string)
  | OConnected (order : list nat)     (* the client connects *)
  | OConnectionLost.

Definition with_conn (b : bridge) m c : bridge :=
  MkBridge m c (isOpen b) (emit (cloud b) c (session b)).

Definition bridge_run (b : bridge) (o : op) : outcome (bridge * option bool) :=
  match o with
  | OAdd t =>
      r ← Add (mgr b) (cloud b) (isOpen b) t;
      Done (with_conn b r.1.1 r.1.2, Some r.2)
  | ORemove t =>
      r ← Remove (mgr b) (cloud b) (isOpen b) t;
      Done (with_conn b r.1.1 r.1.2, Some r.2)
  | ORemoveAll order =>
      r ← RemoveAll (mgr b) (cloud b) (isOpen b) order;
      Done (with_conn b r.1 r.2, None)
  | OForwardTo order =>
      r ← ForwardTo (mgr b) (cloud b) (isOpen b) order;
      Done (with_conn b r.1 r.2, None)
  | OConnected order =>
      let s := if CleanSession (config (cloud b)) then ∅ else session b in
      r ← onConnected (cloud b) order;
      Done (MkBridge (mgr b) r.1 true (emit (cloud b) r.1 s), None)
  | OConnectionLost =>
      Done (MkBridge (mgr b) (cloud b) false (session b), None)
  end.

(** Map iterations visit every entry once. *)
Definition valid_op (b : bridge) (o : op) : Prop :=
  match o with
  | ORemoveAll order | OForwardTo order =>
      order ≡ₚ (map_to_list (m_topics (mgr b))).*1
  | OConnected order => order ≡ₚ (map_to_list (topics (cloud b))).*2
  | _ => True
  end.

(** ** The specification: a multiset of topics *)

(** The topics that are counted, whether they are forwarded over a connection and
    whether this is open, and the filters whose last unsubscription came while it
    was down: a persistent session has not been told of them. *)
Record ledger := MkLedger {
  sp_topics : gmultiset string;
  sp_forwarded : bool;
  sp_open : bool;
  sp_missed : gset string;
}.

(** The last subscription of a filter goes: the broker is told if it can be. *)
Definition drop_filter (isOpen : bool) (missed : gset string) (t : string) : gset string :=
  if isOpen then missed ∖ {[t]} else {[t]} ∪ missed.

Definition spec_run (clean : bool) (s : ledger) (o : op) : ledger * option bool :=
  let '(MkLedger ts fwd up missed) := s in
  match o with
  | OAdd t => (MkLedger (ts ⊎ {[+ t +]}) fwd up missed, Some (bool_decide (t ∉ ts) && fwd))
  | ORemove t =>
      let last := bool_decide (multiplicity t ts = 1%nat) && fwd in
      (MkLedger (ts ∖ {[+ t +]}) fwd up (if last then drop_filter up missed t else missed),
       Some last)
  | ORemoveAll order =>
      (MkLedger ∅ fwd up (if fwd then foldl (drop_filter up) missed order else missed), None)
  | OForwardTo _ => (MkLedger ts true up missed, None)
  | OConnected _ => (MkLedger ts fwd true (if clean then ∅ else missed), None)
  | OConnectionLost => (MkLedger ts fwd false missed, None)
  end.
End manager.
Arguments bridge TLS : clear implicits.

(** ** Lemmas *)

Section refinement.
Context {TLS : Type}.
Implicit Types (m : subscriptionManager) (c : MQTTConnection TLS) (b : bridge TLS)
  (spec : gmultiset string) (t : string).

Lemma emit_calls c c' cs s : calls c' = rev cs ++ calls c → emit c c' s = foldl deliver s cs.
Proof.
  intros H. unfold emit. rewrite H, length_app, Nat.add_sub, take_app_length.
  by rewrite rev_involutive.
Qed.

Lemma elem_of_subFilters f qos ts : f ∈ dom (subFilters qos ts) ↔ f ∈ ts.
Proof.
  rewrite elem_of_dom, subFilters_lookup. by case_decide; split; try done; eauto.
Qed.

(** The subscriptions of others on the same connection. *)
Variable F : gmap string subscriptioninfo.

Definition foreign_free t : Prop :=
  F !! t = None ∧ ∀ id sub, F !! id = Some sub → t ∉ si_topics sub.

(** What the manager keeps on the connection. *)
Definition manager_sub t : subscriptioninfo := MkInfo [t] None QosAtMostOnce false.

Definition expected spec (forwarded : bool) (id : string) : option subscriptioninfo :=
  if decide (id ∈ spec ∧ forwarded = true) then Some (manager_sub id) else F !! id.

(** The filters of the subscriptions. *)
Definition filters_of (subs : gmap string subscriptioninfo) (f : string) : Prop :=
  ∃ id sub, subs !! id = Some sub ∧ f ∈ si_topics sub.

(** Adding a filter nobody has, and dropping one only a given id has. *)
Lemma filters_of_insert subs id sub f :
  filters_of (<[id := sub]> subs) f ↔
  f ∈ si_topics sub ∨ filters_of (delete id subs) f.
Proof.
  unfold filters_of. split.
  - intros (id' & sub' & H & Hf). apply lookup_insert_Some in H as [[-> ->]|[Hne H]]; [by left|].
    right. exists id', sub'. by rewrite lookup_delete_ne.
  - intros [Hf|(id' & sub' & H & Hf)].
    + exists id, sub. by rewrite lookup_insert_eq.
    + apply lookup_delete_Some in H as [Hne H]. exists id', sub'.
      by rewrite lookup_insert_ne.
Qed.

Lemma filters_of_delete subs id sub f :
  subs !! id = Some sub →
  (∀ id' sub', subs !! id' = Some sub' → id' ≠ id → f ∈ si_topics sub → f ∉ si_topics sub') →
  filters_of (delete id subs) f ↔ filters_of subs f ∧ f ∉ si_topics sub.
Proof.
  intros Hid Hdis. unfold filters_of. split.
  - intros (id' & sub' & H & Hf). apply lookup_delete_Some in H as [Hne H].
    split; [eauto|]. intros Hf'. by eapply (Hdis id').
  - intros [(id' & sub' & H & Hf) Hnf]. exists id', sub'.
    rewrite lookup_delete_ne; [done|]. intros ->. by simplify_eq.
Qed.

(** The manager's own calls on the session. *)
Lemma session_subscribe s t : deliver s (subscribe_packet (manager_sub t)) = {[t]} ∪ s.
Proof. apply set_eq. intros f. cbn. set_solver. Qed.

Lemma session_packets s subs f :
  f ∈ foldl deliver s (subscribe_packet <$> subs) ↔
  f ∈ s ∨ ∃ sub, sub ∈ subs ∧ f ∈ si_topics sub.
Proof.
  revert s. induction subs as [|sub subs IH]; intros s; cbn [fmap list_fmap foldl].
  - set_solver.
  - rewrite IH. cbn [deliver subscribe_packet]. rewrite elem_of_union, elem_of_subFilters.
    set_solver.
Qed.

Lemma session_routes s ts r : foldl deliver s ((λ t, AddRoute t r) <$> ts) = s.
Proof. induction ts; [done|]. done. Qed.

(** Calls only accumulate, so the effects on the session compose. *)
Definition extends c c' : Prop :=
  config c' = config c ∧ ∃ cs, calls c' = rev cs ++ calls c.

(** A connection with the subscriptions [A], and the broker's session.  An open
    connection has all its filters in the session; what else is there has been
    removed while the connection was down, and is in [stale]: a persistent session
    keeps it, a clean one has nothing of the kind once it is open. *)
Record conn_inv c (isOpen : bool) (s : gset string)
    (A : gmap string subscriptioninfo) (stale : gset string) : Prop := {
  ci_wf : conn_wf c;
  ci_active : active c = A;
  ci_live f : isOpen = true → filters_of A f → f ∈ s;
  ci_stale f : f ∈ s → filters_of A f ∨ f ∈ stale;
  ci_clean : CleanSession (config c) = true → isOpen = true → stale = ∅;
}.

(** No subscription but the one with the id [t] has the filter [t]. *)
Definition owns (A : gmap string subscriptioninfo) t : Prop :=
  (A !! t = None ∨ A !! t = Some (manager_sub t)) ∧
  ∀ id sub, A !! id = Some sub → id ≠ t → t ∉ si_topics sub.

(** A subscription to one filter, under its own id. *)
Lemma conn_subscribe_one c o s A stale uuid callback qos t :
  conn_inv c o s A stale → (∀ sub, A !! t = Some sub → si_topics sub = [t]) →
  ∃ c', subscribe c o uuid callback qos [t] = Done (c', t) ∧ extends c c' ∧
    conn_inv c' o (emit c c' s) (<[t := MkInfo [t] callback qos false]> A) stale.
Proof.
  intros [Hwf Ha Hlive Hstale Hcl] Ht.
  destruct (subscribe_spec c o uuid callback qos t [] Hwf)
    as (c' & Hc & Hwf' & Ha' & Hcalls & Hcfg & _).
  exists c'. split; [done|]. split; [split; [done|by eexists]|].
  assert (∀ f, filters_of (<[t := MkInfo [t] callback qos false]> A) f ↔ f = t ∨ filters_of A f)
    as HA.
  { intros f. rewrite filters_of_insert. cbn [si_topics]. rewrite list_elem_of_singleton.
    destruct (A !! t) as [sub|] eqn:E; [|by rewrite delete_id].
    rewrite <-(insert_id A t sub E) at 2. rewrite filters_of_insert, (Ht sub eq_refl).
    rewrite list_elem_of_singleton. tauto. }
  assert (∀ f, f ∈ emit c c' s ↔ (o = true ∧ f = t) ∨ f ∈ s) as Hs.
  { intros f. rewrite (emit_calls _ _ _ _ Hcalls).
    destruct o; unfold subscribe_calls.
    - cbn [foldl deliver]. rewrite elem_of_union, elem_of_subFilters, list_elem_of_singleton. tauto.
    - destruct (negb _); [rewrite session_routes|cbn [foldl]]; naive_solver. }
  split; [done|by rewrite Ha', Ha|..|by rewrite Hcfg]; intros f; rewrite Hs, HA; naive_solver.
Qed.

Lemma conn_subscribe c o s A stale t :
  conn_inv c o s A stale → owns A t →
  ∃ c', subscribe c o "" None QosAtMostOnce [t] = Done (c', t) ∧ extends c c' ∧
    conn_inv c' o (emit c c' s) (<[t := manager_sub t]> A) stale.
Proof.
  intros Hc [Ht _]. apply conn_subscribe_one; [done|].
  intros sub Hsub. destruct Ht; by simplify_eq.
Qed.

(** An unsubscription of a filter that may not be there. *)
Definition drop_known (A : gmap string subscriptioninfo) (o : bool) t (stale : gset string)
    : gset string :=
  match A !! t with Some _ => drop_filter o stale t | None => stale end.

Lemma conn_unsubscribe c o s A stale t :
  conn_inv c o s A stale → owns A t →
  ∃ c', unsubscribe c o t true = Done c' ∧ extends c c' ∧
    conn_inv c' o (emit c c' s) (delete t A) (drop_known A o t stale).
Proof.
  intros [Hwf Ha Hlive Hstale Hcl] [Ht Hown].
  destruct (unsubscribe_spec c o t true Hwf) as (c' & Hc & Hwf' & Ha' & _ & Hcalls & Hcfg).
  exists c'. split; [done|]. split; [split; [done|by eexists]|].
  unfold drop_known. rewrite Ha in Ha', Hcalls. destruct Ht as [Ht|Ht]; rewrite Ht in Hcalls |- *.
  { rewrite (emit_calls _ _ _ _ Hcalls). cbn [foldl].
    rewrite delete_id in Ha' |- * by done. split; [done|by rewrite Ha'|done..|by rewrite Hcfg]. }
  assert (∀ f, filters_of (delete t A) f ↔ filters_of A f ∧ f ≠ t) as HA.
  { intros f. rewrite (filters_of_delete A t (manager_sub t)); [|done|].
    - cbn [manager_sub si_topics]. by rewrite list_elem_of_singleton.
    - cbn [manager_sub si_topics]. intros id sub Hid Hne ->%list_elem_of_singleton. eauto. }
  assert (∀ f, f ∈ emit c c' s ↔ f ∈ s ∧ ¬ (o = true ∧ f = t)) as Hs.
  { intros f. rewrite (emit_calls _ _ _ _ Hcalls). destruct o;
      cbn [unsubscribe_calls andb foldl deliver manager_sub si_topics]; [|naive_solver].
    rewrite elem_of_difference, elem_of_list_to_set, list_elem_of_singleton. naive_solver. }
  unfold drop_filter. split; [done|by rewrite Ha'|..].
  - intros f. rewrite Hs, HA. naive_solver.
  - intros f. rewrite Hs, HA. destruct (decide (f = t)); destruct o; set_solver.
  - rewrite Hcfg. intros Hclean ->. rewrite Hcl by done. set_solver.
Qed.

Lemma foldl_insert_lookup ts (A : gmap string subscriptioninfo) id :
  foldl (λ A t, <[t := manager_sub t]> A) A ts !! id =
  if decide (id ∈ ts) then Some (manager_sub id) else A !! id.
Proof.
  revert A. induction ts as [|t ts IH]; intros A; cbn [foldl].
  { by rewrite decide_False by apply not_elem_of_nil. }
  rewrite IH. destruct (decide (id ∈ ts)) as [Hin|Hin].
  - by rewrite decide_True by (by right).
  - destruct (decide (id = t)) as [->|Hne].
    + rewrite lookup_insert_eq. by rewrite decide_True by left.
    + rewrite lookup_insert_ne by done.
      by rewrite decide_False by (rewrite elem_of_cons; naive_solver).
Qed.

Lemma foldl_delete_lookup ts (A : gmap string subscriptioninfo) id :
  foldl (λ A t, delete t A) A ts !! id = if decide (id ∈ ts) then None else A !! id.
Proof.
  revert A. induction ts as [|t ts IH]; intros A; cbn [foldl].
  { by rewrite decide_False by apply not_elem_of_nil. }
  rewrite IH. destruct (decide (id ∈ ts)) as [Hin|Hin].
  - by rewrite decide_True by (by right).
  - destruct (decide (id = t)) as [->|Hne].
    + rewrite lookup_delete_eq. by rewrite decide_True by left.
    + rewrite lookup_delete_ne by done.
      by rewrite decide_False by (rewrite elem_of_cons; naive_solver).
Qed.

Lemma owns_insert A t t' : owns A t → owns (<[t' := manager_sub t']> A) t.
Proof.
  intros [Ht Hown]. split.
  - destruct (decide (t' = t)) as [->|Hne]; [right; by rewrite lookup_insert_eq|].
    by rewrite lookup_insert_ne.
  - intros id sub H Hne. apply lookup_insert_Some in H as [[<- <-]|[_ H]]; [|eauto].
    cbn. by rewrite list_elem_of_singleton.
Qed.

Lemma owns_delete A t t' : owns A t → owns (delete t' A) t.
Proof.
  intros [Ht Hown]. split.
  - destruct (decide (t' = t)) as [->|Hne]; [left; by rewrite lookup_delete_eq|].
    by rewrite lookup_delete_ne.
  - intros id sub [_ H]%lookup_delete_Some. eauto.
Qed.

Lemma emit_refl c s : emit c c s = s.
Proof. by rewrite (emit_calls c c []). Qed.

Lemma emit_trans c c1 c2 s :
  extends c c1 → extends c1 c2 → emit c c2 s = emit c1 c2 (emit c c1 s).
Proof.
  intros [_ [cs1 H1]] [_ [cs2 H2]]. rewrite (emit_calls _ _ _ _ H1), (emit_calls _ _ _ _ H2).
  rewrite (emit_calls c c2 (cs1 ++ cs2)); [by rewrite foldl_app|].
  rewrite H2, H1, rev_app_distr. by rewrite app_assoc.
Qed.

Lemma extends_refl c : extends c c.
Proof. split; [done|by exists []]. Qed.

Lemma extends_trans c c1 c2 : extends c c1 → extends c1 c2 → extends c c2.
Proof.
  intros [Hc1 [cs1 H1]] [Hc2 [cs2 H2]]. split; [congruence|]. exists (cs1 ++ cs2).
  by rewrite H2, H1, rev_app_distr, app_assoc.
Qed.

Lemma conn_subscribe_each c o s A stale ts :
  conn_inv c o s A stale → (∀ t, t ∈ ts → owns A t) →
  ∃ c', subscribe_each c o ts = Done c' ∧ extends c c' ∧
    conn_inv c' o (emit c c' s) (foldl (λ A t, <[t := manager_sub t]> A) A ts) stale.
Proof.
  revert c s A. induction ts as [|t ts IH]; intros c s A Hc Hown; cbn [subscribe_each].
  { exists c. rewrite emit_refl. auto using extends_refl. }
  destruct (conn_subscribe c o s A stale t Hc) as (c1 & -> & He1 & Hc1); [apply Hown; by left|].
  cbn [mbind outcome_bind fst].
  destruct (IH c1 _ _ Hc1) as (c2 & Hc2 & He2 & Hinv).
  { intros t' Ht'. apply owns_insert, Hown. by right. }
  exists c2. rewrite (emit_trans c c1 c2) by done.
  eauto using extends_trans.
Qed.

Lemma conn_unsubscribe_each c o s A stale ts :
  conn_inv c o s A stale → (∀ t, t ∈ ts → owns A t) → NoDup ts → (∀ t, t ∈ ts → is_Some (A !! t)) →
  ∃ c', unsubscribe_each c o ts = Done c' ∧ extends c c' ∧
    conn_inv c' o (emit c c' s) (foldl (λ A t, delete t A) A ts)
      (foldl (drop_filter o) stale ts).
Proof.
  revert c s A stale. induction ts as [|t ts IH]; intros c s A stale Hc Hown Hnd Hin;
    cbn [unsubscribe_each].
  { exists c. rewrite emit_refl. auto using extends_refl. }
  apply NoDup_cons in Hnd as [Hnew Hnd].
  destruct (conn_unsubscribe c o s A stale t Hc) as (c1 & -> & He1 & Hc1); [apply Hown; by left|].
  unfold drop_known in Hc1. destruct (Hin t ltac:(by left)) as [sub Hsub]. rewrite Hsub in Hc1.
  cbn [mbind outcome_bind fst].
  destruct (IH c1 _ _ _ Hc1) as (c2 & Hc2 & He2 & Hinv).
  { intros t' Ht'. apply owns_delete, Hown. by right. }
  { done. }
  { intros t' Ht'. rewrite lookup_delete_ne by (by intros ->). apply Hin. by right. }
  exists c2. rewrite (emit_trans c c1 c2) by done.
  eauto using extends_trans.
Qed.

(** ** The manager and its specification *)

(** The counts of the manager are those of the multiset. *)
Definition counts m spec : Prop := ∀ t, m_topics m !! t =
  if decide (t ∈ spec) then Some (Z.of_nat (multiplicity t spec)) else None.

Lemma counts_add0 m spec t :
  counts m spec →
  ∃ m', add0 m t = (m', bool_decide (t ∉ spec)) ∧ counts m' (spec ⊎ {[+ t +]}) ∧
    m_conn m' = m_conn m.
Proof.
  intros Hc. unfold add0. rewrite Hc.
  assert (∀ t', multiplicity t' (spec ⊎ {[+ t +]}) =
    (multiplicity t' spec + if decide (t = t') then 1 else 0)%nat) as Hm.
  { intros t'. rewrite multiplicity_disj_union, multiplicity_singleton.
    f_equal. by apply decide_ext. }
  assert (∀ n t', (m_topics m !! t = None → n = 1) →
    (∀ k, m_topics m !! t = Some k → n = k + 1) →
    <[t := n]> (m_topics m) !! t' =
    if decide (t' ∈ spec ⊎ {[+ t +]})
    then Some (Z.of_nat (multiplicity t' (spec ⊎ {[+ t +]}))) else None) as Hnew.
  { intros n t' Hn1 Hn2. rewrite Hm. destruct (decide (t = t')) as [<-|Hne].
    - rewrite lookup_insert_eq. rewrite (decide_True (P:=t ∈ _)) by multiset_solver.
      f_equal. rewrite Hc in Hn1, Hn2. destruct (decide (t ∈ spec)) as [Hin|Hin].
      + rewrite (Hn2 _ eq_refl). lia.
      + apply not_elem_of_multiplicity in Hin. rewrite Hn1 by done. lia.
    - rewrite lookup_insert_ne, Hc, Nat.add_0_r by done. apply decide_ext.
      split; multiset_solver. }
  destruct (decide (t ∈ spec)) as [Hin|Hin].
  - rewrite bool_decide_eq_false_2 by auto. eexists. split; [done|].
    split; [|done]. intros t'. cbn [m_topics]. apply Hnew; rewrite Hc, decide_True by done;
      [done|congruence].
  - rewrite bool_decide_eq_true_2 by done. eexists. split; [done|].
    split; [|done]. intros t'. cbn [m_topics]. apply Hnew; rewrite Hc, decide_False by done;
      done.
Qed.

Lemma counts_remove0 m spec t :
  counts m spec →
  ∃ m', remove0 m t = (m', bool_decide (multiplicity t spec = 1%nat)) ∧
    counts m' (spec ∖ {[+ t +]}) ∧ m_conn m' = m_conn m.
Proof.
  intros Hc. unfold remove0. rewrite Hc.
  assert (∀ t', multiplicity t' (spec ∖ {[+ t +]}) =
    (multiplicity t' spec - if decide (t = t') then 1 else 0)%nat) as Hm.
  { intros t'. rewrite multiplicity_difference, multiplicity_singleton.
    f_equal. by apply decide_ext. }
  assert (∀ t', t' ∈ spec ∖ {[+ t +]} ↔
    (0 < multiplicity t' spec - if decide (t = t') then 1 else 0)%nat) as Hin.
  { intros t'. rewrite elem_of_multiplicity, Hm. done. }
  assert (∀ t', t' ∈ spec ↔ (0 < multiplicity t' spec)%nat) as Hin0
    by (intros; by rewrite elem_of_multiplicity).
  destruct (decide (t ∈ spec)) as [Ht|Ht].
  - destruct (1 <? _)%Z eqn:E; bools.
    + rewrite bool_decide_eq_false_2 by lia. eexists. split; [done|]. split; [|done].
      intros t'. cbn [m_topics]. rewrite Hm. destruct (decide (t = t')) as [<-|Hne].
      * rewrite lookup_insert_eq, decide_True; [f_equal; lia|].
        apply Hin. rewrite decide_True by done. lia.
      * rewrite lookup_insert_ne, Hc, Nat.sub_0_r by done. apply decide_ext.
        rewrite Hin, decide_False, Nat.sub_0_r by done. apply Hin0.
    + pose proof (proj1 (Hin0 t) Ht) as Hpos. rewrite bool_decide_eq_true_2 by lia. eexists. split; [done|].
      split; [|done]. intros t'. cbn [m_topics]. rewrite Hm.
      destruct (decide (t = t')) as [<-|Hne].
      * rewrite lookup_delete_eq, decide_False; [done|].
        rewrite Hin, decide_True by done. lia.
      * rewrite lookup_delete_ne, Hc, Nat.sub_0_r by done. apply decide_ext.
        rewrite Hin, decide_False, Nat.sub_0_r by done. apply Hin0.
  - assert (multiplicity t spec = 0%nat) as H0 by (by apply not_elem_of_multiplicity).
    rewrite bool_decide_eq_false_2 by lia. exists m. split; [done|]. split; [|done].
    intros t'. rewrite Hm, Hc. destruct (decide (t = t')) as [<-|Hne].
    + rewrite decide_False, decide_False; [done| |done]. rewrite Hin. lia.
    + rewrite Nat.sub_0_r. apply decide_ext.
      rewrite Hin, decide_False, Nat.sub_0_r by done. apply Hin0.
Qed.

(** The counts determine the multiset. *)
Lemma counts_inj m spec spec' : counts m spec → counts m spec' → spec = spec'.
Proof.
  intros H H'. apply gmultiset_eq. intros t. specialize (H t). specialize (H' t).
  rewrite H in H'.
  destruct (decide (t ∈ spec)) as [Hin|Hin], (decide (t ∈ spec')) as [Hin'|Hin']; try done.
  - injection H' as ?. lia.
  - apply not_elem_of_multiplicity in Hin, Hin'. congruence.
Qed.

(** ** Simulation *)

Record bridge_inv b (s : ledger) (A : gmap string subscriptioninfo) : Prop := {
  bi_conn : conn_inv (cloud b) (isOpen b) (session b) A (sp_missed s);
  bi_open : isOpen b = sp_open s;
  bi_forwarded : m_conn (mgr b) = sp_forwarded s;
  bi_counts : counts (mgr b) (sp_topics s);
  bi_free t : t ∈ sp_topics s → foreign_free t;
  bi_active id : A !! id = expected (sp_topics s) (sp_forwarded s) id;
}.

(** An operation simulates the specification. *)
Definition simulates b (s : ledger) (o : op) : Prop :=
  ∃ b' A', let r := spec_run (CleanSession (config (cloud b))) s o in
    bridge_run b o = Done (b', r.2) ∧ bridge_inv b' r.1 A' ∧
    config (cloud b') = config (cloud b).

Lemma expected_owns spec forwarded A t :
  (∀ id, A !! id = expected spec forwarded id) → foreign_free t → owns A t.
Proof.
  intros HA [Hf1 Hf2]. split.
  - rewrite HA. unfold expected. case_decide; [by right|by left].
  - intros id sub H Hne. rewrite HA in H. unfold expected in H.
    case_decide; simplify_eq; [|eauto]. cbn. by rewrite list_elem_of_singleton.
Qed.

Lemma counts_keys m spec order :
  counts m spec → order ≡ₚ (map_to_list (m_topics m)).*1 → ∀ t, t ∈ order ↔ t ∈ spec.
Proof.
  intros Hc Ho t. rewrite Ho, list_elem_of_fmap. split.
  - intros ([t' n] & -> & H). apply elem_of_map_to_list in H.
    rewrite Hc in H. by case_decide.
  - intros Hin. exists (t, Z.of_nat (multiplicity t spec)). split; [done|].
    apply elem_of_map_to_list. rewrite Hc. by rewrite decide_True.
Qed.

Lemma filters_expected spec forwarded (A : gmap string subscriptioninfo) f :
  (∀ id, A !! id = expected spec forwarded id) → (∀ t, t ∈ spec → foreign_free t) →
  filters_of A f ↔ (forwarded = true ∧ f ∈ spec) ∨ filters_of F f.
Proof.
  intros HA Hfree. unfold filters_of. setoid_rewrite HA. unfold expected. split.
  - intros (id & sub & H & Hf). case_decide as Hd; simplify_eq.
    + left. cbn in Hf. apply list_elem_of_singleton in Hf as ->. tauto.
    + right. eauto.
  - intros [[Hf Hin]|(id & sub & H & Hf)].
    + exists f, (manager_sub f). rewrite decide_True by done. split; [done|]. by left.
    + exists id, sub. rewrite decide_False; [done|]. intros [Hin _].
      destruct (Hfree _ Hin) as [Hn _]. congruence.
Qed.

(** The topics an operation adds must not be those of other subscribers. *)
Definition allowed (o : op) : Prop :=
  match o with OAdd t | ORemove t => foreign_free t | _ => True end.

Lemma run_OAdd b s A t : bridge_inv b s A → foreign_free t → simulates b s (OAdd t).
Proof.
  destruct s as [ts fwd up missed]. intros [Hconn Hup Hfwd Hcnt Hfree HA] Hft.
  cbn [sp_topics sp_forwarded sp_open sp_missed] in *.
  unfold simulates. cbn [bridge_run spec_run fst snd]. unfold Add.
  destruct (counts_add0 (mgr b) ts t Hcnt) as (m' & -> & Hcnt' & Hm'). rewrite Hm', Hfwd.
  assert (∀ id, id ∈ ts ⊎ {[+ t +]} → foreign_free id) as Hfree'.
  { intros id [Hin|Hin]%gmultiset_elem_of_disj_union; [auto|].
    by apply gmultiset_elem_of_singleton in Hin as ->. }
  destruct (bool_decide (t ∉ ts) && fwd) eqn:E.
  - bools. subst. destruct (conn_subscribe _ _ _ _ _ t Hconn) as (c' & -> & [Hcfg _] & Hconn').
    { by eapply expected_owns. }
    cbn [mbind outcome_bind fst snd]. do 2 eexists. split; [done|]. split; [|done].
    split; cbn [cloud isOpen session mgr with_conn sp_topics sp_forwarded sp_open sp_missed];
      [done|done|congruence|done|done|].
    intros id. unfold expected. destruct (decide (t = id)) as [<-|Hne].
    + rewrite lookup_insert_eq. rewrite decide_True; [done|]. split; [multiset_solver|done].
    + rewrite lookup_insert_ne, HA by done. unfold expected. apply decide_ext.
      split; intros [? ?]; (split; [multiset_solver|done]).
  - exists (with_conn b m' (cloud b)), A. split; [done|]. split; [|done].
    split; cbn [cloud isOpen session mgr with_conn sp_topics sp_forwarded sp_open sp_missed];
      [by rewrite emit_refl|done|congruence|done|done|].
    intros id. rewrite HA. unfold expected. apply decide_ext.
    rewrite gmultiset_elem_of_disj_union, gmultiset_elem_of_singleton.
    apply andb_false_iff in E as [E|E]; [|split; intros [? ?]; congruence].
    apply bool_decide_eq_false, dec_stable in E.
    split; [tauto|]. intros [[Hin|Heq] ?]; [tauto|by subst].
Qed.

Lemma run_ORemove b s A t : bridge_inv b s A → foreign_free t → simulates b s (ORemove t).
Proof.
  destruct s as [ts fwd up missed]. intros [Hconn Hup Hfwd Hcnt Hfree HA] Hft.
  cbn [sp_topics sp_forwarded sp_open sp_missed] in *.
  unfold simulates. cbn [bridge_run spec_run fst snd]. unfold Remove.
  destruct (counts_remove0 (mgr b) ts t Hcnt) as (m' & -> & Hcnt' & Hm'). rewrite Hm', Hfwd.
  assert (∀ id, id ∈ ts ∖ {[+ t +]} → foreign_free id) as Hfree'.
  { intros id Hin. apply Hfree. multiset_solver. }
  destruct (bool_decide (multiplicity t ts = 1%nat) && fwd) eqn:E.
  - bools. subst. destruct (conn_unsubscribe _ _ _ _ _ t Hconn) as (c' & -> & [Hcfg _] & Hconn').
    { by eapply expected_owns. }
    assert (t ∈ ts) as Ht by (apply elem_of_multiplicity; lia).
    unfold drop_known in Hconn'. rewrite HA in Hconn'. unfold expected in Hconn'.
    rewrite decide_True in Hconn' by done.
    cbn [mbind outcome_bind fst snd]. do 2 eexists. split; [done|]. split; [|done].
    split; cbn [cloud isOpen session mgr with_conn sp_topics sp_forwarded sp_open sp_missed];
      [done|done|congruence|done|done|].
    intros id. unfold expected. destruct (decide (t = id)) as [<-|Hne].
    + rewrite lookup_delete_eq. rewrite decide_False; [symmetry; apply Hft|]. multiset_solver.
    + rewrite lookup_delete_ne, HA by done. unfold expected. apply decide_ext.
      split; intros [? ?]; (split; [multiset_solver|done]).
  - exists (with_conn b m' (cloud b)), A. split; [done|]. split; [|done].
    split; cbn [cloud isOpen session mgr with_conn sp_topics sp_forwarded sp_open sp_missed];
      [by rewrite emit_refl|done|congruence|done|done|].
    intros id. rewrite HA. unfold expected. apply decide_ext.
    apply andb_false_iff in E as [E|E]; [|split; intros [? ?]; congruence]. bools.
    split; intros [? ?]; (split; [|done]); multiset_solver.
Qed.

Lemma run_ORemoveAll b s A order :
  bridge_inv b s A → valid_op b (ORemoveAll order) → simulates b s (ORemoveAll order).
Proof.
  destruct s as [ts fwd up missed]. intros [Hconn Hup Hfwd Hcnt Hfree HA] Ho.
  cbn [sp_topics sp_forwarded sp_open sp_missed valid_op] in *.
  unfold simulates. cbn [bridge_run spec_run fst snd]. unfold RemoveAll, copyTopics.
  cbn [m_conn]. pose proof (counts_keys _ _ _ Hcnt Ho) as Hkeys.
  assert (counts (MkManager ∅ (m_conn (mgr b))) ∅) as Hcnt'.
  { intros t. by rewrite decide_False by multiset_solver. }
  rewrite Hfwd in *. destruct fwd.
  - destruct (conn_unsubscribe_each _ _ _ _ _ order Hconn) as (c' & -> & [Hcfg _] & Hconn').
    { intros t Ht. eapply expected_owns; [done|]. by apply Hfree, Hkeys. }
    { rewrite Ho. apply NoDup_fst_map_to_list. }
    { intros t Ht%Hkeys. rewrite HA. unfold expected. by rewrite decide_True. }
    cbn [mbind outcome_bind fst snd]. do 2 eexists. split; [done|]. split; [|done].
    split; cbn [cloud isOpen session mgr with_conn sp_topics sp_forwarded sp_open sp_missed];
      [by rewrite <-Hup|done|done|done|multiset_solver|].
    intros id. rewrite foldl_delete_lookup, HA. unfold expected.
    rewrite (decide_False (P:=id ∈ ∅ ∧ _)) by multiset_solver.
    destruct (decide (id ∈ order)) as [Hin|Hin].
    + symmetry. apply Hfree, Hkeys, Hin.
    + rewrite Hkeys in Hin. by rewrite decide_False by tauto.
  - exists (with_conn b (MkManager ∅ false) (cloud b)), A. split; [done|]. split; [|done].
    split; cbn [cloud isOpen session mgr with_conn sp_topics sp_forwarded sp_open sp_missed];
      [by rewrite emit_refl|done|done|done|multiset_solver|].
    intros id. rewrite HA. unfold expected. by rewrite !decide_False by naive_solver.
Qed.

Lemma run_OForwardTo b s A order :
  bridge_inv b s A → valid_op b (OForwardTo order) → simulates b s (OForwardTo order).
Proof.
  destruct s as [ts fwd up missed]. intros [Hconn Hup Hfwd Hcnt Hfree HA] Ho.
  cbn [sp_topics sp_forwarded sp_open sp_missed valid_op] in *.
  unfold simulates. cbn [bridge_run spec_run fst snd]. unfold ForwardTo, copyTopics.
  pose proof (counts_keys _ _ _ Hcnt Ho) as Hkeys.
  destruct (conn_subscribe_each _ _ _ _ _ order Hconn) as (c' & -> & [Hcfg _] & Hconn').
  { intros t Ht. eapply expected_owns; [done|]. by apply Hfree, Hkeys. }
  cbn [mbind outcome_bind fst snd]. do 2 eexists. split; [done|]. split; [|done].
  split; cbn [cloud isOpen session mgr with_conn sp_topics sp_forwarded sp_open sp_missed];
    [done|done|done|done|done|].
  intros id. rewrite foldl_insert_lookup, HA. unfold expected.
  destruct (decide (id ∈ order)) as [Hin|Hin]; rewrite Hkeys in Hin.
  - by rewrite decide_True.
  - by rewrite !decide_False by tauto.
Qed.

Lemma run_OConnected b s A order :
  bridge_inv b s A → valid_op b (OConnected order) → simulates b s (OConnected order).
Proof.
  destruct s as [ts fwd up missed]. intros [[Hwf Ha Hlive Hstale Hcl] Hup Hfwd Hcnt Hfree HA] Ho.
  cbn [sp_topics sp_forwarded sp_open sp_missed] in *.
  unfold simulates. cbn [bridge_run spec_run fst snd].
  destruct (onConnected_spec (cloud b) order Hwf Ho)
    as (c' & subs & -> & Hwf' & Ha' & _ & Hcfg & Hsubs & Hcalls).
  cbn [mbind outcome_bind fst snd]. do 2 eexists. split; [done|]. split; [|done].
  split; cbn [cloud isOpen session mgr sp_topics sp_forwarded sp_open sp_missed];
    [|done|done|done|done|exact HA].
  assert (∀ f s, f ∈ emit (cloud b) c' s ↔ f ∈ s ∨ filters_of A f) as Hs.
  { intros f s. rewrite (emit_calls _ _ _ _ Hcalls), session_packets. unfold filters_of.
    rewrite <-Ha. setoid_rewrite Hsubs. set_solver. }
  split; [done|by rewrite Ha', Ha|..].
  - intros f _ Hf. apply Hs. by right.
  - intros f [Hf|Hf]%Hs; [|by left]. destruct (CleanSession _); [set_solver|auto].
  - rewrite Hcfg. by intros ->.
Qed.

Lemma run_OConnectionLost b s A : bridge_inv b s A → simulates b s OConnectionLost.
Proof.
  destruct s as [ts fwd up missed]. intros [[Hwf Ha Hlive Hstale Hcl] Hup Hfwd Hcnt Hfree HA].
  do 2 eexists. split; [done|]. split; [|done]. by split.
Qed.

Lemma run_simulates b s A o :
  bridge_inv b s A → valid_op b o → allowed o → simulates b s o.
Proof.
  intros Hb Hv Ho. destruct o as [t|t|order|order|order|].
  - by eapply run_OAdd.
  - by eapply run_ORemove.
  - by eapply run_ORemoveAll.
  - by eapply run_OForwardTo.
  - by eapply run_OConnected.
  - by eapply run_OConnectionLost.
Qed.

Fixpoint run_all b (os : list op) : outcome (bridge TLS * list (option bool)) :=
  match os with
  | [] => Done (b, [])
  | o :: os => r ← bridge_run b o; r' ← run_all r.1 os; Done (r'.1, r.2 :: r'.2)
  end.

Fixpoint spec_all (clean : bool) (s : ledger) (os : list op) : ledger * list (option bool) :=
  match os with
  | [] => (s, [])
  | o :: os =>
      let r := spec_run clean s o in let r' := spec_all clean r.1 os in (r'.1, r.2 :: r'.2)
  end.

Fixpoint valid_all b (os : list op) : Prop :=
  match os with
  | [] => True
  | o :: os => valid_op b o ∧ allowed o ∧
      match bridge_run b o with Done (b', _) => valid_all b' os | _ => True end
  end.

Lemma run_all_simulates b s A os :
  bridge_inv b s A → valid_all b os →
  ∃ b' A', let r := spec_all (CleanSession (config (cloud b))) s os in
    run_all b os = Done (b', r.2) ∧ bridge_inv b' r.1 A' ∧ config (cloud b') = config (cloud b).
Proof.
  revert b s A. induction os as [|o os IH]; intros b s A Hb Hv.
  - by exists b, A.
  - destruct Hv as (Hvo & Hal & Hv).
    destruct (run_simulates b s A o Hb Hvo Hal) as (b1 & A1 & Hrun & Hb1 & Hcfg1).
    cbn [run_all spec_all]. rewrite Hrun in Hv |- *.
    destruct (IH b1 _ A1 Hb1 Hv) as (b2 & A2 & Hr2 & H2 & Hcfg2). rewrite Hcfg1 in Hr2, H2.
    exists b2, A2. cbn [mbind outcome_bind fst snd]. rewrite Hr2. by rewrite Hcfg2.
Qed.

(** What the invariant says of an open session. *)
Lemma bridge_session b s A :
  bridge_inv b s A → isOpen b = true → ∀ f,
  ((sp_forwarded s = true ∧ f ∈ sp_topics s) ∨ filters_of F f → f ∈ session b) ∧
  (f ∈ session b →
     (sp_forwarded s = true ∧ f ∈ sp_topics s) ∨ filters_of F f ∨ f ∈ sp_missed s) ∧
  (CleanSession (config (cloud b)) = true → sp_missed s = ∅).
Proof.
  intros [[_ _ Hlive Hstale Hcl] _ _ _ Hfree HA] Hopen f.
  pose proof (filters_expected _ _ A f HA Hfree) as Hf.
  split_and!; [by intros ?; apply Hlive, Hf| |auto].
  intros [Hin|Hin]%Hstale; [|by right; right]. apply Hf in Hin as [?|?]; auto.
Qed.

Definition nothing_counted : ledger := MkLedger ∅ false false ∅.

Lemma bridge_inv_start c :
  conn_wf c → active c = F → bridge_inv (MkBridge NewSubscriptionManager c false ∅) nothing_counted F.
Proof.
  intros Hwf Ha. split; cbn; [|done..| |multiset_solver|].
  - by split; [..|set_solver|].
  - intros t. by rewrite decide_False by multiset_solver.
  - intros id. unfold expected. by rewrite decide_False by naive_solver.
Qed.

(** C6.  Over any sequence of local subscriptions and unsubscriptions, calls of
    RemoveAll and ForwardTo, connection losses and reconnections (of a
    connection that other subscribers share), the manager behaves as a multiset of
    topics: Add answers whether the topic is new and Remove whether it was the last
    one (once there is a connection).  Whenever the connection is open the broker's
    session has all the counted topics and the filters of the other subscribers;
    what it has beside them has been removed for good while the connection was
    down, and is nothing if the session is a clean one. *)
Theorem manager_refines_multiset c os :
  conn_wf c → active c = F →
  let clean := CleanSession (config c) in
  let b := MkBridge NewSubscriptionManager c false ∅ in
  valid_all b os →
  ∃ b' s rets,
    run_all b os = Done (b', rets) ∧ spec_all clean nothing_counted os = (s, rets) ∧
    isOpen b' = sp_open s ∧
    (∀ t, m_topics (mgr b') !! t =
      if decide (t ∈ sp_topics s) then Some (Z.of_nat (multiplicity t (sp_topics s))) else None) ∧
    (sp_open s = true → ∀ f,
      let live := (sp_forwarded s = true ∧ f ∈ sp_topics s) ∨ filters_of F f in
      (live → f ∈ session b') ∧ (f ∈ session b' → live ∨ f ∈ sp_missed s) ∧
      (clean = true → sp_missed s = ∅)).
Proof.
  intros Hwf Ha clean b Hv.
  destruct (run_all_simulates b _ F os (bridge_inv_start c Hwf Ha) Hv)
    as (b' & A & Hr & Hinv & Hcfg).
  exists b'. eexists _, _. split; [exact Hr|]. split; [apply surjective_pairing|].
  pose proof (bi_open _ _ _ Hinv) as Hup. split; [done|]. split; [apply Hinv|].
  intros Hopen f. rewrite <-Hup in Hopen.
  destruct (bridge_session b' _ A Hinv Hopen f) as (H1 & H2 & H3).
  rewrite Hcfg in H3. cbn zeta. split_and!; [done|tauto|done].
Qed.
End refinement.

(** ** Sessions that outlive the connection, and examples *)

Definition sample_ops : list op :=
  [OAdd "command//ns:gw/req/#"; OForwardTo ["command//ns:gw/req/#"]; OConnected [0%nat];
   OConnectionLost; ORemove "command//ns:gw/req/#"; OConnected []].

(** On a connection with a persistent session (CleanSession is false, as
    for the hub) an unsubscription while the connection is down is never sent:
    after the reconnection the broker still delivers the topic although the
    manager counts no subscription. *)
Theorem offline_removal_is_lost :
  ∃ (c : MQTTConnection unit) os b' rets,
    conn_wf c ∧ CleanSession (config c) = false ∧ active c = ∅ ∧
    run_all (MkBridge NewSubscriptionManager c false ∅) os = Done (b', rets) ∧
    isOpen b' = true ∧ m_topics (mgr b') = ∅ ∧ active (cloud b') = ∅ ∧
    session b' = {["command//ns:gw/req/#"]}.
Proof.
  exists (sample_connection false), sample_ops. do 2 eexists.
  split; [apply sample_connection_wf|].
  split; [done|]. split; [apply sample_connection_wf|].
  split; [vm_compute; reflexivity|].
  split; [done|]. split; [done|]. split; [done|].
  apply set_eq. intros f. vm_compute. done.
Qed.

Lemma manager_refines_multiset_witness :
  ∃ b' s rets,
    run_all (MkBridge NewSubscriptionManager (sample_connection false) false ∅) sample_ops
      = Done (b', rets) ∧
    spec_all false nothing_counted sample_ops = (s, rets).
Proof.
  destruct (manager_refines_multiset ∅ (sample_connection false) sample_ops
    (proj1 (sample_connection_wf false)) (proj2 (sample_connection_wf false)))
    as (b' & s & rets & Hr & Hs & _);
    [|exists b', s, rets; exact (conj Hr Hs)].
  assert (∀ t, foreign_free ∅ t) as Hfree.
  { intros t. split; [done|]. intros id sub H. by rewrite lookup_empty in H. }
  vm_compute in Hfree |- *.
  repeat (exact I || reflexivity || apply Hfree || split).
Defined.

(** ** Interleavings: Add, Remove and ForwardTo

    Each call holds the lock only while it changes the counts; loading the
    connection and calling it are steps of their own, between which other calls
    run. *)

Inductive caller :=
  | AddCounted (t : string)      (* add0 returned true *)
  | AddLoaded (t : string)       (* the connection was loaded, not nil *)
  | RemoveCounted (t : string)
  | RemoveLoaded (t : string).

Inductive forwarder :=
  | FIdle
  | FStored                      (* m.conn.Store done *)
  | FCopied (rest : list string) (* subscribing the copied topics *)
  | FDone.

Record concurrent := MkConcurrent {
  cc_mgr : subscriptionManager;
  cc_subs : gset string;         (* the connection's subscriptions *)
  cc_calls : list caller;        (* the calls in progress *)
  cc_forward : forwarder;
}.

(** [removes]: whether Remove is called at all. *)
Inductive concurrent_step (removes : bool) : concurrent → concurrent → Prop :=
  | cs_add0 m S L f t m' fresh :
      add0 m t = (m', fresh) →
      concurrent_step removes (MkConcurrent m S L f)
        (MkConcurrent m' S (if fresh then AddCounted t :: L else L) f)
  | cs_remove0 m S L f t m' last :
      removes = true → remove0 m t = (m', last) →
      concurrent_step removes (MkConcurrent m S L f)
        (MkConcurrent m' S (if last then RemoveCounted t :: L else L) f)
  | cs_add_load m S L1 L2 f t :
      concurrent_step removes (MkConcurrent m S (L1 ++ AddCounted t :: L2) f)
        (MkConcurrent m S (if m_conn m then L1 ++ AddLoaded t :: L2 else L1 ++ L2) f)
  | cs_remove_load m S L1 L2 f t :
      concurrent_step removes (MkConcurrent m S (L1 ++ RemoveCounted t :: L2) f)
        (MkConcurrent m S (if m_conn m then L1 ++ RemoveLoaded t :: L2 else L1 ++ L2) f)
  | cs_subscribe m S L1 L2 f t :
      concurrent_step removes (MkConcurrent m S (L1 ++ AddLoaded t :: L2) f)
        (MkConcurrent m ({[t]} ∪ S) (L1 ++ L2) f)
  | cs_unsubscribe m S L1 L2 f t :
      concurrent_step removes (MkConcurrent m S (L1 ++ RemoveLoaded t :: L2) f)
        (MkConcurrent m (S ∖ {[t]}) (L1 ++ L2) f)
  | cs_store m S L :
      concurrent_step removes (MkConcurrent m S L FIdle)
        (MkConcurrent (MkManager (m_topics m) true) S L FStored)
  | cs_copy m S L order :
      order ≡ₚ (map_to_list (m_topics m)).*1 →
      concurrent_step removes (MkConcurrent m S L FStored)
        (MkConcurrent m S L (FCopied (copyTopics m order false).2))
  | cs_forward m S L t rest :
      concurrent_step removes (MkConcurrent m S L (FCopied (t :: rest)))
        (MkConcurrent m ({[t]} ∪ S) L (FCopied rest))
  | cs_forwarded m S L :
      concurrent_step removes (MkConcurrent m S L (FCopied []))
        (MkConcurrent m S L FDone).

Definition concurrent_start : concurrent :=
  MkConcurrent NewSubscriptionManager ∅ [] FIdle.

Section concurrent.

Definition counted (m : subscriptionManager) (t : string) : Prop := is_Some (m_topics m !! t).

(** Somebody is still going to subscribe to [t]. *)
Definition adding (L : list caller) (t : string) : Prop :=
  AddCounted t ∈ L ∨ AddLoaded t ∈ L.

Definition covered (s : concurrent) (t : string) : Prop :=
  t ∈ cc_subs s ∨ adding (cc_calls s) t ∨
  match cc_forward s with FCopied rest => t ∈ rest | _ => False end.

Record no_removal_inv (s : concurrent) : Prop := {
  nr_conn : m_conn (cc_mgr s) = match cc_forward s with FIdle => false | _ => true end;
  nr_calls t : (RemoveCounted t ∉ cc_calls s) ∧ (RemoveLoaded t ∉ cc_calls s);
  nr_covered t :
    match cc_forward s with
    | FIdle | FStored => True
    | FCopied _ | FDone => counted (cc_mgr s) t → covered s t
    end;
}.

Lemma add0_counted m t m' fresh t' :
  add0 m t = (m', fresh) →
  m_conn m' = m_conn m ∧ (counted m' t' → counted m t' ∨ (fresh = true ∧ t' = t)).
Proof.
  unfold add0, counted. intros H. destruct (m_topics m !! t) eqn:E; simplify_eq/=;
    (split; [done|]); intros [n Hn]; apply lookup_insert_Some in Hn as [[<- _]|[_ Hn]]; eauto.
Qed.

Lemma adding_middle L1 L2 x t :
  adding (L1 ++ x :: L2) t ↔ x = AddCounted t ∨ x = AddLoaded t ∨ adding (L1 ++ L2) t.
Proof. unfold adding. rewrite !elem_of_app, !elem_of_cons. naive_solver. Qed.

Lemma no_removal_step s s' :
  no_removal_inv s → concurrent_step false s s' → no_removal_inv s'.
Proof.
  intros [Hconn Hcalls Hcov] Hstep.
  destruct Hstep as [m S L f t m' fresh H|m S L f t m' last Hr _|m S L1 L2 f t|m S L1 L2 f t
    |m S L1 L2 f t|m S L1 L2 f t|m S L|m S L order Ho|m S L t rest|m S L];
    cbn [cc_mgr cc_subs cc_calls cc_forward] in *.
  - destruct (add0_counted m t m' fresh t H) as [Hm _].
    split; cbn [cc_mgr cc_subs cc_calls cc_forward]; [by rewrite Hm| |].
    + intros t'. specialize (Hcalls t'). destruct fresh; [|done].
      rewrite !not_elem_of_cons. naive_solver.
    + intros t'. specialize (Hcov t'). destruct (add0_counted m t m' fresh t' H) as [_ Hc].
      unfold covered, adding in *. cbn [cc_subs cc_calls cc_forward] in *.
      destruct f; try done; intros Hn; destruct (Hc Hn) as [Ho|[-> ->]];
        try (right; left; left; by left); specialize (Hcov Ho);
        (destruct fresh; rewrite ?elem_of_cons; tauto).
  - done.
  - split; cbn [cc_mgr cc_subs cc_calls cc_forward]; [done| |].
    + intros t'. specialize (Hcalls t'). clear -Hcalls.
      destruct (m_conn m); set_solver.
    + intros t'. specialize (Hcov t'). unfold covered in *.
      cbn [cc_subs cc_calls cc_forward] in *. destruct f; try done;
      intros Hn; specialize (Hcov Hn); rewrite adding_middle in Hcov;
      rewrite Hconn, adding_middle; naive_solver.
  - exfalso. apply (proj1 (Hcalls t)). rewrite elem_of_app, elem_of_cons. tauto.
  - split; cbn [cc_mgr cc_subs cc_calls cc_forward]; [done| |].
    + intros t'. specialize (Hcalls t'). clear -Hcalls. set_solver.
    + intros t'. specialize (Hcov t'). unfold covered in *.
      cbn [cc_subs cc_calls cc_forward] in *. destruct f; try done;
      intros Hn; specialize (Hcov Hn); rewrite adding_middle in Hcov; set_solver.
  - exfalso. apply (proj2 (Hcalls t)). rewrite elem_of_app, elem_of_cons. tauto.
  - by split.
  - split; cbn [cc_mgr cc_subs cc_calls cc_forward copyTopics snd]; [done|done|].
    intros t' [n Hn]. right. right. cbn. rewrite Ho, list_elem_of_fmap.
    exists (t', n). split; [done|]. by apply elem_of_map_to_list.
  - split; cbn [cc_mgr cc_subs cc_calls cc_forward]; [done|done|].
    intros t' Ht. specialize (Hcov t' Ht). unfold covered in *. cbn in *. set_solver.
  - split; cbn [cc_mgr cc_subs cc_calls cc_forward]; [done|done|].
    intros t' Ht. specialize (Hcov t' Ht). unfold covered in *. cbn in *. set_solver.
Qed.

(** C22.  However ForwardTo interleaves with any number of Adds, no subscription
    is lost: once the calls in progress have returned, every counted topic is
    subscribed on the connection. *)
Theorem ForwardTo_loses_nothing s t :
  rtc (concurrent_step false) concurrent_start s →
  cc_forward s = FDone → cc_calls s = [] →
  is_Some (m_topics (cc_mgr s) !! t) → t ∈ cc_subs s.
Proof.
  intros Hr Hf Hl Ht.
  assert (no_removal_inv s) as [_ _ Hcov].
  { eapply rtc_preserved; [exact no_removal_step| |exact Hr].
    split; [done| |done]. intros t'. cbn. split; apply not_elem_of_nil. }
  specialize (Hcov t). rewrite Hf in Hcov. specialize (Hcov Ht).
  unfold covered, adding in Hcov. rewrite Hf, Hl in Hcov.
  destruct Hcov as [?|[[H|H]|[]]]; [done|by apply not_elem_of_nil in H..].
Qed.

Lemma ForwardTo_loses_nothing_witness :
  let s := MkConcurrent (MkManager {["a" := 1]} true) {["a"]} [] FDone in
  rtc (concurrent_step false) concurrent_start s ∧ "a" ∈ cc_subs s.
Proof.
  intros s. assert (rtc (concurrent_step false) concurrent_start s) as Hr.
  { eapply rtc_l; [apply cs_store|]. eapply rtc_l; [apply (cs_copy _ _ _ _ []); done|].
    eapply rtc_l; [apply cs_forwarded|].
    eapply rtc_l; [apply (cs_add0 _ _ _ _ _ "a"); reflexivity|].
    eapply rtc_l; [apply (cs_add_load _ _ _ [] [])|].
    eapply rtc_l; [apply (cs_subscribe _ _ _ [] [])|]. apply rtc_refl. }
  split; [exact Hr|].
  apply (ForwardTo_loses_nothing s "a" Hr eq_refl eq_refl).
  vm_compute. eexists. reflexivity.
Defined.

(** With Remove in the picture a subscription can leak: an Add that has
    counted a topic is overtaken by the Remove of the same topic, and then
    subscribes; nothing counts the topic, and the connection keeps it. *)
Theorem Add_overtaken_by_Remove :
  ∃ s, rtc (concurrent_step true) concurrent_start s ∧
    cc_calls s = [] ∧ cc_forward s = FDone ∧
    m_topics (cc_mgr s) = ∅ ∧ cc_subs s = {["a"]}.
Proof.
  exists (MkConcurrent (MkManager ∅ true) {["a"]} [] FDone). split; [|done].
  eapply rtc_l; [apply cs_store|]. eapply rtc_l; [apply (cs_copy _ _ _ _ []); done|].
  eapply rtc_l; [apply cs_forwarded|].
  eapply rtc_l; [apply (cs_add0 _ _ _ _ _ "a"); reflexivity|].
  eapply rtc_l; [apply (cs_add_load _ _ _ [] [])|].
  eapply rtc_l; [apply (cs_remove0 _ _ _ _ _ "a"); [done|reflexivity]|].
  eapply rtc_l; [apply (cs_remove_load _ _ _ [])|].
  eapply rtc_l; [apply (cs_unsubscribe _ _ _ [])|].
  eapply rtc_l; [apply (cs_subscribe _ _ _ [] [])|].
  match goal with |- rtc _ ?x ?y => assert (x = y) as ->; [|apply rtc_refl] end.
  cbn. by f_equal.
Qed.
End concurrent.
