(* ===== verification/Publisher.v ===== *)
(** * Publishers

    connector/publisher.go, connector/ratelimiter.go and
    connector/publisher_mock.go.  The calls to the paho client are returned in
    order; the token of the [i]-th call (did it complete within the timeout, and
    its error) and the results of the rate limiter are arguments. *)

From S2P Require Import Prelude GoStrings Message Connection.

Local Open Scope Z_scope.

Record publish_call := PublishCall {
  pc_topic : string;
  pc_qos : Qos;
  pc_retain : bool;
  pc_payload : string;
}.

Record token := Token { tk_completed : bool; tk_error : option error }.

Record publisher := MkPublisher {
  pub_closed : bool;           (* the state of the wrapper *)
  pub_qos : Qos;
  pub_ackTimeout : Z;
}.

Definition newPublisher (qos : Qos) (ackTimeout : Z) : publisher :=
  MkPublisher false qos ackTimeout.

Definition NewPublisher (qos : Qos) : publisher := newPublisher qos 0.

Definition NewSyncPublisher (qos : Qos) (ackTimeout : Z) : publisher :=
  newPublisher qos ackTimeout.

Definition NewOnlinePublisher (qos : Qos) (ackTimeout : Z) : publisher :=
  NewSyncPublisher qos ackTimeout.

Section publish.
Variable marshal : message → result string.
Variable tokens : nat → token.
Implicit Types (p : publisher) (msg : message).

(** The packet of a message: its context overrides the publisher's topic and
    quality of service. *)
Definition packet p (topic : string) msg (payload : string) : publish_call :=
  {| pc_topic :=
       match TopicFromCtx (Context msg) with
       | Some msgTopic => if 0 <? slen msgTopic then msgTopic else topic
       | None => topic
       end;
     pc_qos := match QosFromCtx (Context msg) with Some q => q | None => pub_qos p end;
     pc_retain := RetainFromCtx (Context msg);
     pc_payload := payload |}.

(** The loop of Publish; [i] counts the calls made so far. *)
Fixpoint publish_loop p (topic : string) (i : nat) (msgs : list message)
    : list publish_call * option error :=
  match msgs with
  | [] => ([], None)
  | msg :: msgs =>
      match marshal msg with
      | Err e => ([], Some (Wrap e "marshal failed"))
      | Ok payload =>
          let call := packet p topic msg payload in
          let next :=
            let '(calls, err) := publish_loop p topic (S i) msgs in
            (call :: calls, err) in
          if (0 <? pub_ackTimeout p) && negb (pc_qos call =? QosAtMostOnce) then
            if negb (tk_completed (tokens i)) then ([call], Some ErrTimeout)
            else match tk_error (tokens i) with
                 | Some err => ([call], Some err)
                 | None => next
                 end
          else next
      end
  end.

Definition Publish p (topic : string) (msgs : list message)
    : list publish_call * option error :=
  if pub_closed p then ([], Some ErrClosed) else publish_loop p topic 0 msgs.

(** The online publisher is its publisher behind a guard; [connected] is
    IsConnectionOpen. *)
Definition onlinepub_Publish p (connected : bool) (topic : string) (msgs : list message)
    : list publish_call * option error :=
  if negb connected then ([], Some ErrNotConnected) else Publish p topic msgs.

(** ** Lemmas *)

(** Does the publisher wait for the token of a call? *)
Definition awaited p (call : publish_call) : bool :=
  (0 <? pub_ackTimeout p) && negb (pc_qos call =? QosAtMostOnce).

(** A call publishes a message: the bindings of the message's context come first,
    each on its own. *)
Record sends p (topic : string) (msg : message) (call : publish_call) : Prop := {
  sd_payload : marshal msg = Ok (pc_payload call);
  sd_own_topic t : Value (Context msg) topicContextKey = Some (CtxString t) → t ≠ "" →
    pc_topic call = t;
  sd_topic : (∀ t, Value (Context msg) topicContextKey = Some (CtxString t) → t = "") →
    pc_topic call = topic;
  sd_own_qos q : Value (Context msg) qosContextKey = Some (CtxQos q) → pc_qos call = q;
  sd_qos : (∀ q, Value (Context msg) qosContextKey ≠ Some (CtxQos q)) →
    pc_qos call = pub_qos p;
  sd_retain : pc_retain call = true ↔
    Value (Context msg) retainContextKey = Some (CtxBool true);
}.

Lemma packet_sends p topic msg payload :
  marshal msg = Ok payload → sends p topic msg (packet p topic msg payload).
Proof.
  intros Hm. unfold packet, TopicFromCtx, QosFromCtx, RetainFromCtx.
  split; cbn [pc_topic pc_qos pc_retain pc_payload]; [done| | | | |].
  - intros t -> Ht. destruct t as [|ch t]; [done|]. by rewrite (proj2 (Z.ltb_lt _ _)) by (unfold slen; cbn [String.length]; lia).
  - intros H. destruct (Value _ _) as [[t|q|b]|]; try done. by rewrite (H t eq_refl).
  - by intros q ->.
  - intros H. destruct (Value _ _) as [[t|q|b]|]; try done. by destruct (H q).
  - destruct (Value _ _) as [[t|q|[]]|]; naive_solver.
Qed.

(** The token of a call allows the loop to go on. *)
Definition settled p (i : nat) (call : publish_call) : Prop :=
  awaited p call = true → tk_completed (tokens i) = true ∧ tk_error (tokens i) = None.

(** What stopped a publication with [n] calls made, the first of them call [i]. *)
Definition stopped_by p (i : nat) (msgs : list message) (calls : list publish_call)
    (err : error) : Prop :=
  (∃ msg e, msgs !! length calls = Some msg ∧ marshal msg = Err e ∧
     err = Wrap e "marshal failed" ∧
     ∀ j call, calls !! j = Some call → settled p (i + j) call) ∨
  (∃ n call, length calls = S n ∧ calls !! n = Some call ∧ awaited p call = true ∧
     (∀ j call, calls !! j = Some call → (j < n)%nat → settled p (i + j) call) ∧
     ((tk_completed (tokens (i + n)) = false ∧ err = ErrTimeout) ∨
      (tk_completed (tokens (i + n)) = true ∧ tk_error (tokens (i + n)) = Some err))).

Lemma stopped_by_cons p i msg msgs call calls err :
  settled p i call → stopped_by p (S i) msgs calls err →
  stopped_by p i (msg :: msgs) (call :: calls) err.
Proof.
  intros Hc [(m & e & Hm & He & Herr & Hset)|(n & last & Hlen & Hlast & Haw & Hset & Htok)].
  - left. exists m, e. split_and!; [done..|]. intros [|j] c Hj; simplify_eq/=.
    + by rewrite Nat.add_0_r.
    + rewrite <-Nat.add_succ_comm. eauto.
  - right. exists (S n), last. rewrite <-Nat.add_succ_comm.
    split_and!; [cbn; lia|done|done| |done].
    intros [|j] c Hj Hlt; simplify_eq/=.
    + by rewrite Nat.add_0_r.
    + rewrite <-Nat.add_succ_comm. apply Hset; [done|lia].
Qed.

Lemma publish_loop_spec p topic i msgs :
  let '(calls, err) := publish_loop p topic i msgs in
  Forall2 (sends p topic) (take (length calls) msgs) calls ∧
  match err with
  | None => length calls = length msgs ∧
      ∀ j call, calls !! j = Some call → settled p (i + j) call
  | Some err => stopped_by p i msgs calls err
  end.
Proof.
  revert i. induction msgs as [|msg msgs IH]; intros i; cbn [publish_loop].
  { split; [constructor|]. split; [done|]. intros j call H. done. }
  destruct (marshal msg) as [payload|e] eqn:Hm.
  2:{ split; [constructor|]. left. exists msg, e. by split_and!. }
  set (call := packet p topic msg payload).
  assert (sends p topic msg call) as Hsend by (by apply packet_sends).
  assert (∀ err, awaited p call = true →
    ((tk_completed (tokens i) = false ∧ err = ErrTimeout) ∨
     (tk_completed (tokens i) = true ∧ tk_error (tokens i) = Some err)) →
    Forall2 (sends p topic) (take (length [call]) (msg :: msgs)) [call] ∧
    stopped_by p i (msg :: msgs) [call] err) as Hstop.
  { intros err Haw Htok. split; [constructor; [exact Hsend|constructor]|]. right. exists 0%nat, call.
    rewrite Nat.add_0_r. split_and!; [done|done|done|intros; lia|done]. }
  assert (settled p i call →
    let '(calls, err) := (let '(calls, err) := publish_loop p topic (S i) msgs in
      (call :: calls, err)) in
    Forall2 (sends p topic) (take (length calls) (msg :: msgs)) calls ∧
    match err with
    | None => length calls = length (msg :: msgs) ∧
        ∀ j call, calls !! j = Some call → settled p (i + j) call
    | Some err => stopped_by p i (msg :: msgs) calls err
    end) as Hnext.
  { intros Hset. specialize (IH (S i)). destruct (publish_loop p topic (S i) msgs) as [calls err].
    destruct IH as [Hall Herr]. split; [by constructor|]. destruct err as [err|].
    - by apply stopped_by_cons.
    - destruct Herr as [Hlen Hset']. split; [cbn; lia|].
      intros [|j] c Hj; simplify_eq/=; [by rewrite Nat.add_0_r|].
      rewrite <-Nat.add_succ_comm. eauto. }
  fold call. fold (awaited p call). destruct (awaited p call) eqn:Haw.
  - destruct (tk_completed (tokens i)) eqn:Hcomp; cbn [negb].
    + destruct (tk_error (tokens i)) as [err|] eqn:Herr; [apply Hstop; auto|].
      by apply Hnext.
    + apply Hstop; auto.
  - apply Hnext. intros H. congruence.
Qed.

(** C38.  Publish sends the messages in order: each under the topic of its context
    when that is bound to a topic that is not empty and under Publish's otherwise,
    with the quality of service of its context or else the publisher's, retained
    exactly when its context says so, and with the payload the marshaller makes
    of it.  It returns without an error exactly when every message was sent and
    every awaited acknowledgement came (it waits only with an acknowledgement
    timeout, and never for QoS 0), and otherwise the error names what stopped it:
    the message after the last one sent could not be marshalled, or the
    acknowledgement of the last one sent timed out or failed. *)
Theorem Publish_in_order p topic msgs :
  pub_closed p = false →
  let '(calls, err) := Publish p topic msgs in
  Forall2 (sends p topic) (take (length calls) msgs) calls ∧
  match err with
  | None => length calls = length msgs ∧
      ∀ j call, calls !! j = Some call → settled p j call
  | Some err => stopped_by p 0 msgs calls err
  end.
Proof.
  intros Hopen. unfold Publish. rewrite Hopen. apply (publish_loop_spec p topic 0 msgs).
Qed.
End publish.

(** ** The rate limiter *)

Section ratelimiter.
(** [wait msg] is [limiter.Wait(msg.Context())]; [publish msg] what the wrapped
    publisher does with one message. *)
Variable wait : message → option error.
Variable publish : message → list publish_call * option error.

(** [duration/count] for [rate.Every]: panics on a zero count. *)
Definition NewRateLimiter_interval (count duration : Z) : outcome Z :=
  if count =? 0 then Panicked DivideByZero else Done (duration `quot` count).

(** The errors accumulated by [multierror.Append]; none is a nil error. *)
Fixpoint ratelimiter_Publish (msgs : list message) : list publish_call * list error :=
  match msgs with
  | [] => ([], [])
  | msg :: msgs =>
      let '(calls, errs) := ratelimiter_Publish msgs in
      match wait msg with
      | Some _ =>
          (calls, Errorf ("publish of " +:+ UUID msg +:+ " failed, message cancelled") :: errs)
      | None =>
          let '(call, err) := publish msg in
          (call ++ calls,
           match err with
           | Some err => Wrap err ("publish of " +:+ UUID msg +:+ " failed") :: errs
           | None => errs
           end)
      end
  end.

(** The rate limiter hands every message whose wait is not cancelled to the
    wrapped publisher, once and in order, whatever happened to the others, and
    reports one error for each message that was cancelled or failed. *)
Theorem ratelimiter_independent msgs :
  let passed := filter (λ msg, wait msg = None) msgs in
  let '(calls, errs) := ratelimiter_Publish msgs in
  calls = passed ≫= (λ msg, (publish msg).1) ∧
  length errs = length (filter (λ msg, wait msg ≠ None ∨ (publish msg).2 ≠ None) msgs) ∧
  (errs = [] ↔ ∀ msg, msg ∈ msgs → wait msg = None ∧ (publish msg).2 = None).
Proof.
  induction msgs as [|msg msgs IH]; cbn [ratelimiter_Publish].
  { split_and!; [done|done|]. split; [intros _ m H; by apply not_elem_of_nil in H|done]. }
  cbv zeta in IH |- *. destruct (ratelimiter_Publish msgs) as [calls errs].
  destruct IH as (Hcalls & Hlen & Hnil).
  destruct (wait msg) as [e|] eqn:Hw.
  - rewrite filter_cons_False, (filter_cons_True (λ m, wait m ≠ None ∨ _))
      by (rewrite ?Hw; (congruence || by left)).
    split_and!; [done|cbn; by rewrite Hlen|]. split; [done|].
    intros H. specialize (H msg ltac:(by left)). destruct H. congruence.
  - rewrite filter_cons_True by done. cbn [mbind list_bind].
    destruct (publish msg) as [call [err|]] eqn:Hp; cbn [fst].
    + rewrite filter_cons_True by (right; by rewrite Hp).
      split_and!; [by rewrite Hcalls|cbn; by rewrite Hlen|]. split; [done|].
      intros H. specialize (H msg ltac:(by left)). rewrite Hp in H. by destruct H.
    + rewrite filter_cons_False by (rewrite Hw, Hp; cbn; tauto).
      split_and!; [by rewrite Hcalls|done|]. rewrite Hnil. split.
      * intros H m [->|Hm]%elem_of_cons; [by rewrite Hp|auto].
      * intros H m Hm. apply H. by right.
Qed.
End ratelimiter.

(** ** The mock publishers *)

Definition nullpublisher_Publish (topic : string) (msgs : list message) : option error := None.

Record errpublisher := MkErrPublisher { ep_err : option error; ep_closed : bool }.

Definition NewErrPublisher (err : option error) : errpublisher := MkErrPublisher err false.

Definition errpublisher_Publish (p : errpublisher) (topic : string) (msgs : list message)
    : option error :=
  if ep_closed p then Some ErrClosed else ep_err p.

Definition errpublisher_Close (p : errpublisher) : errpublisher * option error :=
  if ep_closed p then (p, Some ErrClosed)
  else (MkErrPublisher (ep_err p) true, None).

(** Messages with a topic, a quality of service and a retain flag of their own,
    and one with an empty topic. *)
Definition own_context (topic : string) (qos : Qos) : context :=
  SetRetainToCtx (SetQosToCtx (SetTopicToCtx Background topic) qos) true.

Definition sample_publication : list message :=
  [NewMessage "1" "a"; SetContext (NewMessage "2" "b") (own_context "own" QosAtMostOnce);
   SetContext (NewMessage "3" "c") (SetTopicToCtx Background "")].

Definition sample_calls : list publish_call :=
  [PublishCall "t" 1 false "a"; PublishCall "own" 0 true "b"; PublishCall "t" 1 false "c"].

Lemma Publish_in_order_witness :
  let p := NewSyncPublisher QosAtLeastOnce Second in
  Publish Marshal (λ _, Token true None) p "t" sample_publication = (sample_calls, None) ∧
  Forall2 (sends Marshal p "t") sample_publication sample_calls ∧
  ∀ j call, sample_calls !! j = Some call → settled (λ _, Token true None) p j call.
Proof.
  intros p. split; [reflexivity|].
  destruct (Publish_in_order Marshal (λ _, Token true None) p "t" sample_publication eq_refl)
    as (Hall & _ & Hset).
  split; [exact Hall|exact Hset].
Defined.
