(* ===== verification/Reconnect.v ===== *)
(** * Connecting and reconnecting

    externalReconnect and onConnectionLost of connector/connection.go, and
    LocalConnect and HonoConnect of config/connections.go.  The loops run as
    long as the environment makes them: what each turn of a loop meets (flags,
    backoff intervals, signals, the outcome of the connection attempt) is a list
    of attempts, and a loop whose list ends is still waiting. *)

From S2P Require Import Prelude GoStrings Message Connection Service.

Local Open Scope Z_scope.

Definition externalRetrySleep : Z := 5 * Second.

(** The broker refuses the client itself. *)
Definition auth_error (err : error) : bool :=
  errors_is err ErrorRefusedBadUsernameOrPassword
  || errors_is err ErrorRefusedNotAuthorised.

(** ** externalReconnect *)

Record attempt := MkAttempt {
  at_running : bool;               (* running at the head of the loop *)
  at_backoff : option Z;           (* the next interval; [None] is [Stop] *)
  at_ticks : nat → bool;           (* running after each of the sleeps *)
  at_connect : option error;       (* the outcome of [client.Connect] *)
}.

Inductive reconnect_end :=
  | NotRunning
  | BackoffStopped
  | GaveUp (err : error)
  | Reconnected
  | StillWaiting.

Definition spinCount (reconnectInterval : Z) : Z :=
  let n := reconnectInterval `quot` externalRetrySleep in
  if n =? 0 then 1 else n.

(** The sleeps of one turn: whether the connection kept running. *)
Definition kept_running (ticks : nat → bool) (n : Z) : bool :=
  forallb ticks (seq 0 (Z.to_nat n)).

Section reconnect.
Context {TLS : Type}.
Implicit Types (c : MQTTConnection TLS).

Fixpoint reconnect_loop c (authErrRetries : Z) (env : list attempt)
    : list notification * reconnect_end :=
  match env with
  | [] => ([], StillWaiting)
  | a :: env =>
      if negb (at_running a) then ([], NotRunning) else
      match at_backoff a with
      | None => ([], BackoffStopped)
      | Some reconnectInterval =>
          if negb (kept_running (at_ticks a) (spinCount reconnectInterval))
          then ([], NotRunning) else
          match at_connect a with
          | None => ([], Reconnected)
          | Some err =>
              if auth_error err then
                let authErrRetries := authErrRetries + 1 in
                let fired := fireConnectionEvent c false (Some err) in
                if authErrRetries =? AuthErrRetries (config c)
                then (fired, GaveUp err)
                else let '(events, e) := reconnect_loop c authErrRetries env in
                     (fired ++ events, e)
              else reconnect_loop c authErrRetries env
          end
      end
  end.

Definition externalReconnect c (env : list attempt) : list notification * reconnect_end :=
  reconnect_loop c 0 env.

(** A lost connection: the listeners, then at most one reconnection at a time. *)
Definition onConnectionLost c (err : error) (env : list attempt)
    : list notification * option reconnect_end :=
  let fired := fireConnectionEvent c false (Some err) in
  if ExternalReconnect (config c) && negb (reconnecting c)
  then let '(events, e) := externalReconnect c env in (fired ++ events, Some e)
  else (fired, None).

(** ** Lemmas *)

(** What a loop makes of the environment is told by its first attempts, which
    fail and let the loop go on, and by the one after them, which decides. *)

(** The broker's refusals that count, by the errors of the client library. *)
Definition refusal (err : error) : Prop :=
  errors_is err ErrorRefusedBadUsernameOrPassword = true ∨
  errors_is err ErrorRefusedNotAuthorised = true.

#[export] Instance refusal_dec err : Decision (refusal err).
Proof. unfold refusal. apply _. Defined.

Lemma auth_error_refusal err : auth_error err = true ↔ refusal err.
Proof. unfold auth_error, refusal. apply orb_true_iff. Qed.

(** The refusals among some errors, in order. *)
Definition refusals (errs : list error) : list error := filter refusal errs.

Lemma refusals_cons err errs :
  refusals (err :: errs) = (if auth_error err then [err] else []) ++ refusals errs.
Proof.
  unfold refusals. destruct (auth_error err) eqn:E.
  - by rewrite filter_cons_True by (by apply auth_error_refusal).
  - rewrite filter_cons_False; [done|]. by rewrite <-auth_error_refusal, E.
Qed.

(** The connection stays wanted for a whole interval: it is looked at every five
    seconds, and at least once. *)
Definition stays (a : attempt) (t : Z) : Prop :=
  ∀ i : nat, i = 0%nat ∧ t `quot` (5 * Second) = 0 ∨ Z.of_nat i < t `quot` (5 * Second) →
    at_ticks a i = true.

Lemma kept_running_stays a t : kept_running (at_ticks a) (spinCount t) = true ↔ stays a t.
Proof.
  unfold kept_running, stays, spinCount, externalRetrySleep. rewrite forallb_forall.
  setoid_rewrite in_seq.
  destruct (Z.eqb_spec (t `quot` (5 * Second)) 0) as [E|E]; split; intros H i Hi; apply H; lia.
Qed.

(** An attempt that reaches the broker and fails with [err]. *)
Definition attempt_fails (err : error) (a : attempt) : Prop :=
  at_running a = true ∧ (∃ t, at_backoff a = Some t ∧ stays a t) ∧ at_connect a = Some err.

(** How the deciding attempt ends the loop, after [n] refusals; [last] is the
    refusal it adds. *)
Definition attempt_decides (limit : Z) (n : nat) (a : attempt) (last : list error)
    (e : reconnect_end) : Prop :=
  (at_running a = false ∧ last = [] ∧ e = NotRunning) ∨
  (at_running a = true ∧ at_backoff a = None ∧ last = [] ∧ e = BackoffStopped) ∨
  ∃ t, at_running a = true ∧ at_backoff a = Some t ∧
    ((¬ stays a t ∧ last = [] ∧ e = NotRunning) ∨
     (stays a t ∧ at_connect a = None ∧ last = [] ∧ e = Reconnected) ∨
     ∃ err, stays a t ∧ at_connect a = Some err ∧ refusal err ∧
       Z.of_nat n + 1 = limit ∧ last = [err] ∧ e = GaveUp err).

(** The same of a whole environment, from [r] refusals on. *)
Definition reconnect_run (limit : Z) (r : nat) (env : list attempt) (fired : list error)
    (e : reconnect_end) : Prop :=
  ∃ pre errs last rest, env = pre ++ rest ∧ Forall2 attempt_fails errs pre ∧
    (Z.of_nat r < limit → Z.of_nat (r + length (refusals errs)) < limit) ∧
    fired = refusals errs ++ last ∧
    match rest with
    | [] => last = [] ∧ e = StillWaiting
    | a :: _ => attempt_decides limit (r + length (refusals errs)) a last e
    end.

Lemma reconnect_run_decides limit r a env last e :
  attempt_decides limit r a last e → reconnect_run limit r (a :: env) last e.
Proof.
  intros Ha. exists [], [], last, (a :: env). cbn. rewrite Nat.add_0_r.
  by split_and!.
Qed.

Lemma reconnect_run_cons limit (r : nat) a err env fired e :
  attempt_fails err a → (auth_error err = true → Z.of_nat r + 1 ≠ limit) →
  reconnect_run limit (r + if auth_error err then 1 else 0) env fired e →
  reconnect_run limit r (a :: env) ((if auth_error err then [err] else []) ++ fired) e.
Proof.
  intros Ha Hlim (pre & errs & last & rest & -> & Hall & Hk & -> & Hend).
  exists (a :: pre), (err :: errs), last, rest. rewrite refusals_cons.
  split_and!; [done|by constructor| |by rewrite app_assoc|].
  - intros Hr. rewrite length_app. destruct (auth_error err); cbn [length] in *;
      [specialize (Hlim eq_refl)|]; lia.
  - destruct rest as [|a' rest]; [done|]. rewrite length_app.
    destruct (auth_error err); cbn [length] in *;
      [by rewrite Nat.add_assoc|by rewrite Nat.add_0_r in Hend].
Qed.

Lemma reconnect_loop_run c env (r : nat) :
  ∃ fired e, reconnect_loop c (Z.of_nat r) env
      = (fired ≫= (λ err, fireConnectionEvent c false (Some err)), e) ∧
    reconnect_run (AuthErrRetries (config c)) r env fired e.
Proof.
  revert r. induction env as [|a env IH]; intros r.
  { exists [], StillWaiting. split; [done|]. exists [], [], [], [].
    split_and!; [done|constructor|cbn; lia|done..]. }
  assert (∀ e, attempt_decides (AuthErrRetries (config c)) r a [] e →
    ∃ fired e', ([], e) = (fired ≫= (λ err, fireConnectionEvent c false (Some err)), e') ∧
      reconnect_run (AuthErrRetries (config c)) r (a :: env) fired e') as Hstop.
  { intros e He. exists [], e. split; [done|]. by apply reconnect_run_decides. }
  unfold attempt_decides in Hstop. cbn [reconnect_loop].
  destruct (at_running a) eqn:Hr; cbn [negb]; [|apply Hstop; by left].
  destruct (at_backoff a) as [t|] eqn:Hb; [|apply Hstop; right; by left].
  pose proof (kept_running_stays a t) as Hst.
  destruct (kept_running _ _) eqn:Hk; cbn [negb].
  2:{ apply Hstop. right. right. exists t. split_and!; [done..|]. left.
      split_and!; try done. by intros H%Hst. }
  destruct (at_connect a) as [err|] eqn:Hc.
  2:{ apply Hstop. right. right. exists t. split_and!; [done..|]. right. left. by rewrite <-Hst. }
  assert (attempt_fails err a) as Ha by (split_and!; [done|exists t; by rewrite <-Hst|done]).
  destruct (auth_error err) eqn:Eauth.
  - destruct (_ =? _) eqn:Elim; bools.
    + exists [err], (GaveUp err). cbn. rewrite app_nil_r. split; [done|].
      apply reconnect_run_decides. right. right. exists t. split_and!; [done..|]. right. right.
      exists err. rewrite <-auth_error_refusal, <-Hst. by split_and!.
    + destruct (IH (r + 1)%nat) as (fired & e & Hrun & Hspec).
      replace (Z.of_nat r + 1) with (Z.of_nat (r + 1)) by lia. rewrite Hrun.
      exists (err :: fired), e. split; [done|].
      change (err :: fired) with ([err] ++ fired).
      pose proof (reconnect_run_cons (AuthErrRetries (config c)) r a err env fired e Ha) as Hcons.
      rewrite Eauth in Hcons. by apply Hcons.
  - destruct (IH r) as (fired & e & Hrun & Hspec). exists fired, e. split; [done|].
    pose proof (reconnect_run_cons (AuthErrRetries (config c)) r a err env fired e Ha) as Hcons.
    rewrite Eauth, Nat.add_0_r in Hcons. by apply Hcons.
Qed.

(** C21.  What the reconnection of a lost connection does is fixed by the attempts
    it makes.  Those before the deciding one were wanted for their whole interval,
    reached the broker and failed; every one that was a refusal of the credentials
    or the authorisation notified the listeners, in order and with its error,
    and none of them was the AuthErrRetries-th.  The next attempt decides: the
    connection is no longer wanted at its start or during its interval, the
    back-off stops, it connects, or it is the AuthErrRetries-th refusal, of which
    the listeners are notified before the client gives up.  Without such an
    attempt the loop is still at work; no other error ends it. *)
Theorem externalReconnect_ends c env :
  ∃ pre errs last rest e, env = pre ++ rest ∧
    Forall2 attempt_fails errs pre ∧
    (1 <= AuthErrRetries (config c) →
      Z.of_nat (length (refusals errs)) < AuthErrRetries (config c)) ∧
    externalReconnect c env
      = ((refusals errs ++ last) ≫= (λ err, fireConnectionEvent c false (Some err)), e) ∧
    match rest with
    | [] => last = [] ∧ e = StillWaiting
    | a :: _ => attempt_decides (AuthErrRetries (config c)) (length (refusals errs)) a last e
    end.
Proof.
  destruct (reconnect_loop_run c env 0) as (fired & e & Hrun
    & pre & errs & last & rest & -> & Hall & Hk & -> & Hend).
  exists pre, errs, last, rest, e. split_and!; [done|done|lia|done|done].
Qed.
End reconnect.

(** ** LocalConnect *)

(** The turns of the connect loops: the connection attempt finishes (with an
    error or not) or a signal comes first; then the backoff interval, and a
    signal during the wait. *)
Record turn := MkTurn {
  tn_future : option (option error);   (* [None]: a signal came first *)
  tn_backoff : option Z;
  tn_signal : bool;
}.

Inductive connect_end :=
  | ConnectOk
  | ConnectErr (err : error)
  | ConnectCanceled
  | ConnectWaiting.

(** What follows a failed attempt: wait and go on, or stop. *)
Definition wait_turn (t : turn) (continue : connect_end) : connect_end :=
  match tn_backoff t with
  | None => ConnectCanceled
  | Some _ => if tn_signal t then ConnectCanceled else continue
  end.

(** Only the first error is logged. *)
Fixpoint LocalConnect_loop (logMessage : bool) (env : list turn)
    : list error * connect_end :=
  match env with
  | [] => ([], ConnectWaiting)
  | t :: env =>
      match tn_future t with
      | None => ([], ConnectCanceled)
      | Some None => ([], ConnectOk)
      | Some (Some err) =>
          let '(logs, e) := LocalConnect_loop false env in
          match wait_turn t ConnectWaiting with
          | ConnectWaiting => ((if logMessage then [err] else []) ++ logs, e)
          | e => (if logMessage then [err] else [], e)
          end
      end
  end.

Definition LocalConnect (env : list turn) : list error * connect_end :=
  LocalConnect_loop true env.

(** ** HonoConnect *)

(** [report cause] is what SendStatus publishes; [limit] the AuthErrRetries of
    the connection. *)
Section hono.
Context {R : Type}.
Variable report : string → list R.

Fixpoint HonoConnect_loop (limit authErrRetries : Z) (env : list turn)
    : list R * connect_end :=
  match env with
  | [] => ([], ConnectWaiting)
  | t :: env =>
      match tn_future t with
      | None => ([], ConnectCanceled)
      | Some None => ([], ConnectOk)
      | Some (Some err) =>
          let '(cause, retry) := StatusCause err in
          let next authErrRetries :=
            match wait_turn t ConnectWaiting with
            | ConnectWaiting =>
                let '(sent, e) := HonoConnect_loop limit authErrRetries env in
                (report cause ++ sent, e)
            | e => (report cause, e)
            end in
          if retry then next authErrRetries
          else if auth_error err then
            let authErrRetries := authErrRetries + 1 in
            if authErrRetries =? limit then (report cause, ConnectErr err)
            else next authErrRetries
          else (report cause, ConnectErr err)
      end
  end.

Definition HonoConnect (limit : Z) (env : list turn) : list R * connect_end :=
  HonoConnect_loop limit 0 env.

(** What HonoConnect reports of an error, and the errors that end it at once. *)
Definition reported (err : error) : list R :=
  report (if decide (errors_is err ErrorRefusedBadUsernameOrPassword = true ∧
            ¬ (errors_is err ErrorRefusedIDRejected = true ∨
               errors_is err ErrorRefusedBadProtocolVersion = true ∨
               errors_is err ErrorRefusedNotAuthorised = true))
          then StatusConnectionNotAuthenticated else StatusConnectionError).

Definition rejected (err : error) : Prop :=
  (errors_is err ErrorRefusedIDRejected = true ∨
   errors_is err ErrorRefusedBadProtocolVersion = true) ∧ ¬ refusal err.

Lemma reported_cause err : report (StatusCause err).1 = reported err.
Proof.
  unfold reported, StatusCause. destruct (errors_is err ErrorRefusedIDRejected) eqn:E1.
  { by rewrite decide_False by tauto. }
  destruct (errors_is err ErrorRefusedBadProtocolVersion) eqn:E2.
  { by rewrite decide_False by tauto. }
  destruct (errors_is err ErrorRefusedNotAuthorised) eqn:E3.
  { by rewrite decide_False by tauto. }
  destruct (errors_is err ErrorRefusedBadUsernameOrPassword) eqn:E4.
  - rewrite decide_True; [done|]. split; [done|]. intros H. by destruct_or! H.
  - rewrite decide_False; [done|]. by intros [? _].
Qed.

Lemma not_retried err : (StatusCause err).2 = false ↔ rejected err ∨ refusal err.
Proof.
  rewrite StatusCause_final. unfold rejected.
  destruct (decide (refusal err)) as [H|H]; unfold refusal in *; tauto.
Qed.

(** A failed attempt after which the loop waits and goes on. *)
Definition turn_fails (err : error) (t : turn) : Prop :=
  tn_future t = Some (Some err) ∧ ¬ rejected err ∧ (∃ wait, tn_backoff t = Some wait) ∧
  tn_signal t = false.

(** How the deciding attempt ends HonoConnect, after [n] refusals; [sent] is what
    it adds to the statuses. *)
Definition turn_decides (limit : Z) (n : nat) (t : turn) (sent : list R) (e : connect_end)
    : Prop :=
  match tn_future t with
  | None => sent = [] ∧ e = ConnectCanceled
  | Some None => sent = [] ∧ e = ConnectOk
  | Some (Some err) => sent = reported err ∧
      (((rejected err ∨ refusal err ∧ Z.of_nat n + 1 = limit) ∧ e = ConnectErr err) ∨
       (¬ rejected err ∧ (refusal err → Z.of_nat n + 1 ≠ limit) ∧
        (tn_backoff t = None ∨ tn_signal t = true) ∧ e = ConnectCanceled))
  end.

(** The same of a whole environment, from [r] refusals on. *)
Definition hono_run (limit : Z) (r : nat) (env : list turn) (sent : list R) (e : connect_end)
    : Prop :=
  ∃ pre errs last rest, env = pre ++ rest ∧ Forall2 turn_fails errs pre ∧
    (Z.of_nat r < limit → Z.of_nat (r + length (refusals errs)) < limit) ∧
    sent = (errs ≫= reported) ++ last ∧
    match rest with
    | [] => last = [] ∧ e = ConnectWaiting
    | t :: _ => turn_decides limit (r + length (refusals errs)) t last e
    end.

Lemma hono_run_decides limit r t env sent e :
  turn_decides limit r t sent e → hono_run limit r (t :: env) sent e.
Proof.
  intros Ht. exists [], [], sent, (t :: env). cbn. rewrite Nat.add_0_r. by split_and!.
Qed.

Lemma hono_run_cons limit (r : nat) t err env sent e :
  turn_fails err t → (auth_error err = true → Z.of_nat r + 1 ≠ limit) →
  hono_run limit (r + if auth_error err then 1 else 0) env sent e →
  hono_run limit r (t :: env) (reported err ++ sent) e.
Proof.
  intros Ht Hlim (pre & errs & last & rest & -> & Hall & Hk & -> & Hend).
  exists (t :: pre), (err :: errs), last, rest. rewrite refusals_cons.
  split_and!; [done|by constructor| |by rewrite bind_cons, app_assoc|].
  - intros Hr. rewrite length_app. destruct (auth_error err); cbn [length] in *;
      [specialize (Hlim eq_refl)|]; lia.
  - destruct rest as [|t' rest]; [done|]. rewrite length_app.
    destruct (auth_error err); cbn [length] in *;
      [by rewrite Nat.add_assoc|by rewrite Nat.add_0_r in Hend].
Qed.

(** What follows an attempt that failed and was not final. *)
Lemma hono_next limit (r : nat) t err env (k : Z) :
  tn_future t = Some (Some err) → ¬ rejected err →
  (auth_error err = true → Z.of_nat r + 1 ≠ limit) →
  k = Z.of_nat (r + if auth_error err then 1 else 0) →
  (let '(sent, e) := HonoConnect_loop limit k env in
   hono_run limit (r + if auth_error err then 1 else 0) env sent e) →
  let '(sent, e) :=
    match wait_turn t ConnectWaiting with
    | ConnectWaiting =>
        let '(sent, e) := HonoConnect_loop limit k env in
        (report (StatusCause err).1 ++ sent, e)
    | e => (report (StatusCause err).1, e)
    end in hono_run limit r (t :: env) sent e.
Proof.
  intros Ht Hrej Hlim Hk IH. rewrite reported_cause. unfold wait_turn.
  assert (tn_backoff t = None ∨ tn_signal t = true →
    hono_run limit r (t :: env) (reported err) ConnectCanceled) as Hstop.
  { intros Hw. apply hono_run_decides. unfold turn_decides. rewrite Ht. split; [done|]. right.
    rewrite <-auth_error_refusal. by split_and!. }
  destruct (tn_backoff t) as [w|] eqn:Hb; [|apply Hstop; by left].
  destruct (tn_signal t) eqn:Hs; [apply Hstop; by right|].
  destruct (HonoConnect_loop limit k env) as [sent e]. apply hono_run_cons; [|done|done].
  split_and!; eauto.
Qed.

Lemma HonoConnect_loop_run limit (r : nat) env :
  let '(sent, e) := HonoConnect_loop limit (Z.of_nat r) env in hono_run limit r env sent e.
Proof.
  revert r. induction env as [|t env IH]; intros r; cbn [HonoConnect_loop].
  { exists [], [], [], []. split_and!; [done|constructor|cbn; lia|done..]. }
  destruct (tn_future t) as [[err|]|] eqn:Ht.
  2,3: apply hono_run_decides; unfold turn_decides; by rewrite Ht.
  pose proof (hono_next limit r t err env) as Hnext.
  pose proof (not_retried err) as Hnr. rewrite <-auth_error_refusal in Hnr.
  assert (rejected err ∨ refusal err ∧ Z.of_nat r + 1 = limit →
    hono_run limit r (t :: env) (report (StatusCause err).1) (ConnectErr err)) as Hfinal.
  { intros Hf. rewrite reported_cause. apply hono_run_decides. unfold turn_decides.
    rewrite Ht. split; [done|]. by left. }
  destruct (StatusCause err) as [cause retry] eqn:Hcause. cbn [fst snd] in *.
  destruct (auth_error err) eqn:Eauth.
  - destruct retry; [destruct Hnr as [_ Hnr]; specialize (Hnr (or_intror eq_refl)); done|].
    assert (refusal err) as Href by (by apply auth_error_refusal).
    destruct (_ =? _) eqn:El; bools; [apply Hfinal; by right|].
    apply Hnext; [done|by intros [_ H]|intros _; lia|lia|].
    replace (Z.of_nat r + 1) with (Z.of_nat (r + 1)) by lia. apply IH.
  - destruct retry.
    + apply Hnext; [done| |done|lia|rewrite Nat.add_0_r; apply IH].
      intros H. destruct Hnr as [_ Hnr]. by specialize (Hnr (or_introl H)).
    + apply Hfinal. left. destruct Hnr as [Hnr _]. by destruct (Hnr eq_refl).
Qed.

(** C20.  What HonoConnect does is fixed by the attempts it makes.  Those before the
    deciding one failed, with an error that is neither a rejected identifier or
    protocol version nor the limit-th refusal of the credentials or the
    authorisation, and their whole back-off was waited for.  The next one
    decides: a signal that comes first cancels, a connection ends the loop
    without an error, a final error is returned at once, and after any other
    error the end of the back-off or a signal during the wait cancels.  Without
    such an attempt it is still waiting.  Every failed attempt, the deciding one
    included, has one status reported, in order, that tells bad credentials from
    all other errors. *)
Theorem HonoConnect_ends limit env :
  ∃ pre errs last rest e, env = pre ++ rest ∧
    Forall2 turn_fails errs pre ∧
    (1 <= limit → Z.of_nat (length (refusals errs)) < limit) ∧
    HonoConnect limit env = ((errs ≫= reported) ++ last, e) ∧
    match rest with
    | [] => last = [] ∧ e = ConnectWaiting
    | t :: _ => turn_decides limit (length (refusals errs)) t last e
    end.
Proof.
  pose proof (HonoConnect_loop_run limit 0 env) as Hrun. unfold HonoConnect.
  change (Z.of_nat 0) with 0 in Hrun.
  destruct (HonoConnect_loop limit 0 env) as [sent e].
  destruct Hrun as (pre & errs & last & rest & -> & Hall & Hk & -> & Hend).
  exists pre, errs, last, rest, e. split_and!; [done|done|lia|done|done].
Qed.
End hono.

(** ** Examples *)

Definition network_error : error := Sentinel "network".
Definition sample_attempt (r : option error) : attempt :=
  MkAttempt true (Some Minute) (λ _, true) r.
Definition sample_turn (r : option error) : turn := MkTurn (Some r) (Some Minute) false.

(** Two refusals are too many for a limit of two, whatever failed in between; a
    network error is not reported and not counted. *)
Lemma externalReconnect_gives_up :
  let cn := sample_connection true in
  let env r := [sample_attempt (Some ErrorRefusedNotAuthorised);
    sample_attempt (Some network_error);
    sample_attempt (Some ErrorRefusedBadUsernameOrPassword); sample_attempt r] in
  (reconnect_loop cn (AuthErrRetries (config cn) - 2) (env None)).2
    = GaveUp ErrorRefusedBadUsernameOrPassword ∧
  (reconnect_loop cn (AuthErrRetries (config cn) - 3) (env None)).2 = Reconnected.
Proof. vm_compute. split; reflexivity. Qed.

Lemma HonoConnect_reports :
  HonoConnect (λ cause, [cause]) 2
    [sample_turn (Some network_error); sample_turn (Some ErrorRefusedBadUsernameOrPassword);
     sample_turn None]
  = ([StatusConnectionError; StatusConnectionNotAuthenticated], ConnectOk) ∧
  HonoConnect (λ cause, [cause]) 2
    [sample_turn (Some ErrorRefusedNotAuthorised);
     sample_turn (Some ErrorRefusedBadUsernameOrPassword); sample_turn None]
  = ([StatusConnectionError; StatusConnectionNotAuthenticated],
     ConnectErr ErrorRefusedBadUsernameOrPassword).
Proof. vm_compute. split; reflexivity. Qed.
