(* ===== verification/StopGroup.v ===== *)
(** * The goroutines of a connection: connector/connection.go

    onConnected, onConnectionLost with externalReconnect, Connect and Disconnect
    run in goroutines of their own and meet in two atomic flags and a
    [sync.WaitGroup], the stop group.  Reconnect has what one reconnection does;
    this file has how the goroutines interleave: a state is the shared variables
    with the list of the goroutines that are alive, each at its phase. *)

From S2P Require Import Prelude GoStrings Message Connection Service Reconnect.

Local Open Scope Z_scope.

(** ** [sync.WaitGroup] *)

Record wait_group := MkGroup { counter : Z; waiters : nat }.

Definition negativeCounter : panic := PanicValue "sync: negative WaitGroup counter".
Definition addMisuse : panic :=
  PanicValue "sync: WaitGroup misuse: Add called concurrently with Wait".
Definition groupReused : panic :=
  PanicValue "sync: WaitGroup is reused before previous Wait has returned".

(** Add, and whether it wakes the waiters.  Done is Add(-1). *)
Definition group_Add (g : wait_group) (delta : Z) : outcome (wait_group * bool) :=
  let v := counter g + delta in
  if v <? 0 then Panicked negativeCounter else
  if bool_decide (waiters g ≠ 0%nat) && (0 <? delta) && (v =? delta)
  then Panicked addMisuse else
  if (0 <? v) || bool_decide (waiters g = 0%nat) then Done (MkGroup v (waiters g), false)
  else Done (MkGroup 0 0, true).

(** Wait, and whether it has returned already. *)
Definition group_Wait (g : wait_group) : wait_group * bool :=
  if counter g =? 0 then (g, true) else (MkGroup (counter g) (S (waiters g)), false).

(** A waiter that has been woken looks whether the group is still at rest. *)
Definition group_resume (g : wait_group) : outcome unit :=
  if (counter g =? 0) && bool_decide (waiters g = 0%nat) then Done () else Panicked groupReused.

(** ** The state *)

(** The client: without a connection, opening one, or connected. *)
Inductive link := Idle | Opening | Up.

#[export] Instance link_eq_dec : EqDecision link.
Proof. solve_decision. Defined.

Record shared := MkShared {
  sh_running : bool;
  sh_reconnecting : bool;
  stopGroup : wait_group;
  client : link;
  events : list bool;           (* notifications of the listeners, latest first *)
  crashed : option panic;       (* the process has panicked *)
}.

Definition set_running (s : shared) (b : bool) : shared :=
  MkShared b (sh_reconnecting s) (stopGroup s) (client s) (events s) (crashed s).
Definition set_reconnecting (s : shared) (b : bool) : shared :=
  MkShared (sh_running s) b (stopGroup s) (client s) (events s) (crashed s).
Definition set_group (s : shared) (g : wait_group) : shared :=
  MkShared (sh_running s) (sh_reconnecting s) g (client s) (events s) (crashed s).
Definition set_client (s : shared) (k : link) : shared :=
  MkShared (sh_running s) (sh_reconnecting s) (stopGroup s) k (events s) (crashed s).
Definition notify (s : shared) (connected : bool) : shared :=
  MkShared (sh_running s) (sh_reconnecting s) (stopGroup s) (client s) (connected :: events s)
    (crashed s).
Definition crash (s : shared) (p : panic) : shared :=
  MkShared (sh_running s) (sh_reconnecting s) (stopGroup s) (client s) (events s) (Some p).

(** Where a goroutine stands, by what it does next.  [fire] is what Disconnect has
    read from the client, [r] the refusals that a reconnection has counted, [n] the
    sleeps that are left to it. *)
Inductive phase :=
  (* onConnected *)
  | ConnectedStart                      (* stopGroup.Add(1) *)
  | ConnectedIn                         (* subscriptions, listeners, stopGroup.Done *)
  (* onConnectionLost *)
  | LostStart                           (* the listeners *)
  | LostFlag                            (* reconnecting.SetToIf(false, true) *)
  | LostWon                             (* stopGroup.Add(1) *)
  | LoopHead (r : Z)                    (* running, the next interval *)
  | LoopSleep (r : Z) (n : nat)         (* a sleep and running, or client.Connect *)
  | LoopWait (r : Z)                    (* the answer of the client *)
  | LoopEnd                             (* stopGroup.Done *)
  | LostEnd                             (* reconnecting.UnSet *)
  (* Disconnect *)
  | CloseStart                          (* IsConnected *)
  | CloseSet (fire : bool)              (* running.SetToIf(true, false) *)
  | CloseGroup (fire : bool)            (* stopGroup.Wait *)
  | CloseWait (fire : bool)             (* inside Wait *)
  | CloseWoken (fire : bool)            (* woken inside Wait *)
  | CloseClient (fire : bool)           (* mqttClient.Disconnect *)
  | CloseFire (fire : bool)             (* the listeners *)
  (* Connect *)
  | OpenStart                           (* running.Set *)
  | OpenClient.                         (* mqttClient.Connect *)

(** ** Steps *)

(** What a goroutine is told: the next interval of the back-off, the answer to
    its connection attempt, IsConnected. *)
Record answers := MkAnswers {
  an_backoff : option Z;
  an_connect : option error;
  an_connected : bool;
}.

(** The client starts an attempt unless it has a connection or opens one. *)
Definition client_Connect (s : shared) : shared :=
  match client s with Idle => set_client s Opening | _ => s end.

Definition add_group (s : shared) (delta : Z) (next : list phase)
    : shared * list phase * bool :=
  match group_Add (stopGroup s) delta with
  | Done (g, woken) => (set_group s g, next, woken)
  | Panicked p => (crash s p, [], false)
  | NoFuel => (s, next, false)
  end.

Section steps.
Context {TLS : Type}.
Variable cfg : Configuration TLS.

(** What a step of a goroutine comes to: the shared state, where the goroutine is
    then, if it goes on, and whether it has woken the waiters.  [None]: it has to
    wait. *)
Definition stepped : Type := option (shared * list phase * bool).

Definition onConnected_step (s : shared) (p : phase) : stepped :=
  match p with
  | ConnectedStart => Some (add_group s 1 [ConnectedIn])
  | ConnectedIn => Some (add_group (notify s true) (-1) [])
  | _ => None
  end.

Definition onConnectionLost_step (s : shared) (p : phase) : stepped :=
  match p with
  | LostStart => Some (notify s false, [LostFlag], false)
  | LostFlag =>
      if ExternalReconnect cfg && negb (sh_reconnecting s)
      then Some (set_reconnecting s true, [LostWon], false) else Some (s, [], false)
  | LostEnd => Some (set_reconnecting s false, [], false)
  | _ => None
  end.

Definition externalReconnect_step (a : answers) (s : shared) (p : phase) : stepped :=
  match p with
  | LostWon => Some (add_group s 1 [LoopHead 0])
  | LoopHead r =>
      if negb (sh_running s) then Some (s, [LoopEnd], false) else
      match an_backoff a with
      | None => Some (s, [LoopEnd], false)
      | Some t => Some (s, [LoopSleep r (Z.to_nat (spinCount t))], false)
      end
  | LoopSleep r (S n) =>
      if negb (sh_running s) then Some (s, [LoopEnd], false)
      else Some (s, [LoopSleep r n], false)
  | LoopSleep r O => Some (client_Connect s, [LoopWait r], false)
  | LoopWait r =>
      if decide (client s = Opening) then None else
      match an_connect a with
      | None => Some (s, [LoopEnd], false)
      | Some err =>
          if auth_error err then
            if r + 1 =? AuthErrRetries cfg then Some (notify s false, [LoopEnd], false)
            else Some (notify s false, [LoopHead (r + 1)], false)
          else Some (s, [LoopHead r], false)
      end
  | LoopEnd => Some (add_group s (-1) [LostEnd])
  | _ => None
  end.

Definition Disconnect_step (a : answers) (s : shared) (p : phase) : stepped :=
  match p with
  | CloseStart => Some (s, [CloseSet (an_connected a)], false)
  | CloseSet fire =>
      if sh_running s then Some (set_running s false, [CloseGroup fire], false)
      else Some (s, [CloseFire fire], false)
  | CloseGroup fire =>
      let '(g, returned) := group_Wait (stopGroup s) in
      Some (set_group s g, [if returned then CloseClient fire else CloseWait fire], false)
  | CloseWoken fire =>
      match group_resume (stopGroup s) with
      | Done _ => Some (s, [CloseClient fire], false)
      | Panicked e => Some (crash s e, [], false)
      | NoFuel => None
      end
  | CloseClient fire => Some (set_client s Idle, [CloseFire fire], false)
  | CloseFire fire => Some (if fire then notify s false else s, [], false)
  | _ => None
  end.

Definition Connect_step (s : shared) (p : phase) : stepped :=
  match p with
  | OpenStart => Some (set_running s true, [OpenClient], false)
  | OpenClient => Some (client_Connect s, [], false)
  | _ => None
  end.

(** The step of the goroutine that is at [p]. *)
Definition go_step (a : answers) (s : shared) (p : phase) : stepped :=
  match p with
  | ConnectedStart | ConnectedIn => onConnected_step s p
  | LostStart | LostFlag | LostEnd => onConnectionLost_step s p
  | LostWon | LoopHead _ | LoopSleep _ _ | LoopWait _ | LoopEnd => externalReconnect_step a s p
  | CloseStart | CloseSet _ | CloseGroup _ | CloseWait _ | CloseWoken _ | CloseClient _
  | CloseFire _ => Disconnect_step a s p
  | OpenStart | OpenClient => Connect_step s p
  end.

Definition wake (p : phase) : phase :=
  match p with CloseWait fire => CloseWoken fire | _ => p end.

Definition wake_if (woken : bool) (ps : list phase) : list phase :=
  if woken then map wake ps else ps.

Record sys := MkSys { sh : shared; gos : list phase }.

(** Connect and Disconnect are running. *)
Definition calling (p : phase) : bool :=
  match p with
  | OpenStart | OpenClient | CloseStart | CloseSet _ | CloseGroup _ | CloseWait _ | CloseWoken _
  | CloseClient _ | CloseFire _ => true
  | _ => false
  end.

Fixpoint count (f : phase → bool) (ps : list phase) : nat :=
  match ps with
  | [] => 0
  | p :: ps => (if f p then 1 else 0) + count f ps
  end.

(** A lost connection: paho opens the next one itself if it is told to. *)
Definition lost_link : link :=
  if co_autoReconnect (createClientOptions cfg "" false) then Opening else Idle.

(** Steps of the connection's own goroutines and answers of the client, and what
    arrives from outside: a lost connection, a call of Connect or Disconnect.  At
    most [callers] of these calls run at a time. *)
Inductive kind := Own | Lost | CallDisconnect | CallConnect.

#[export] Instance kind_eq_dec : EqDecision kind.
Proof. solve_decision. Defined.

Variable callers : nat.

Inductive sys_step : kind → sys → sys → Prop :=
  | st_go a s l1 p l2 s' ps woken :
      crashed s = None → go_step a s p = Some (s', ps, woken) →
      sys_step Own (MkSys s (l1 ++ p :: l2)) (MkSys s' (wake_if woken (l1 ++ ps ++ l2)))
  | st_up s l :
      crashed s = None → client s = Opening →
      sys_step Own (MkSys s l) (MkSys (set_client s Up) (l ++ [ConnectedStart]))
  | st_refused s l :
      crashed s = None → client s = Opening →
      sys_step Own (MkSys s l) (MkSys (set_client s Idle) l)
  | st_lost s l :
      crashed s = None → client s = Up →
      sys_step Lost (MkSys s l) (MkSys (set_client s lost_link) (l ++ [LostStart]))
  | st_close s l :
      crashed s = None → (count calling l < callers)%nat →
      sys_step CallDisconnect (MkSys s l) (MkSys s (l ++ [CloseStart]))
  | st_open s l :
      crashed s = None → (count calling l < callers)%nat →
      sys_step CallConnect (MkSys s l) (MkSys s (l ++ [OpenStart])).

Definition fresh_connection : sys :=
  MkSys (MkShared true false (MkGroup 0 0) Idle [] None) [].

#[export] Instance connection_system : TransitionSystem sys := {
  ts_init := λ s, s = fresh_connection;
  ts_step := λ s s', ∃ k, sys_step k s s';
}.
End steps.

(** ** Counting goroutines *)

Lemma count_app f l1 l2 : count f (l1 ++ l2) = (count f l1 + count f l2)%nat.
Proof. induction l1; cbn; lia. Qed.

(** A class of goroutines that a wake-up leaves as it is. *)
Lemma count_wake f b l :
  (∀ p, f (wake p) = f p) → count f (wake_if b l) = count f l.
Proof. intros Hf. destruct b; [|done]. induction l; cbn in *; rewrite ?Hf; lia. Qed.

Definition is_waiting (p : phase) : bool := match p with CloseWait _ => true | _ => false end.

(** After a wake-up nobody waits. *)
Lemma count_woken b l : count is_waiting (wake_if b l) = if b then 0%nat else count is_waiting l.
Proof. destruct b; [|done]. induction l as [|[] l IH]; cbn in *; lia. Qed.

(** Inside the stop group, and owner of the flag reconnecting. *)
Definition inside (p : phase) : bool :=
  match p with
  | ConnectedIn | LoopHead _ | LoopSleep _ _ | LoopWait _ | LoopEnd => true
  | _ => false
  end.

Definition owner (p : phase) : bool :=
  match p with
  | LostWon | LoopHead _ | LoopSleep _ _ | LoopWait _ | LoopEnd | LostEnd => true
  | _ => false
  end.

Lemma count_inside_wake b l : count inside (wake_if b l) = count inside l.
Proof. apply count_wake. by intros []. Qed.
Lemma count_owner_wake b l : count owner (wake_if b l) = count owner l.
Proof. apply count_wake. by intros []. Qed.
Lemma count_calling_wake b l : count calling (wake_if b l) = count calling l.
Proof. apply count_wake. by intros []. Qed.

Create Rewrite HintDb counts.
#[export] Hint Rewrite count_app count_woken count_inside_wake count_owner_wake
  count_calling_wake : counts.

(** Reduce the counts of a step to those of the goroutines it leaves alone. *)
Ltac counts :=
  autorewrite with counts in *; cbn [count is_waiting inside owner calling] in *;
  autorewrite with counts in *; cbn [count is_waiting inside owner calling] in *.

(** The step of a goroutine at a known phase, and case analysis on it. *)
Tactic Notation "go_unfold" hyp(Hgo) :=
  cbn [go_step onConnected_step onConnectionLost_step externalReconnect_step Disconnect_step
       Connect_step] in Hgo.

Tactic Notation "go_case" hyp(Hgo) :=
  go_unfold Hgo;
  repeat match type of Hgo with
    | context [match ?x with _ => _ end] =>
        lazymatch x with
        | context [match _ with _ => _ end] => fail
        | _ => destruct x eqn:?
        end
    end;
  simplify_eq.

Section invariant.
Context {TLS : Type}.
Variable cfg : Configuration TLS.
Variable callers : nat.

(** The stop group counts who is inside, the flag belongs to one goroutine. *)
Record group_inv (s : shared) (l : list phase) : Prop := {
  gi_counter : counter (stopGroup s) = Z.of_nat (count inside l);
  gi_waiters : waiters (stopGroup s) = count is_waiting l;
  gi_busy : waiters (stopGroup s) ≠ 0%nat → (0 < counter (stopGroup s))%Z;
  gi_owner : count owner l = if sh_reconnecting s then 1%nat else 0%nat;
  gi_calls : (count calling l <= callers)%nat;
}.

Definition sys_inv (s : sys) : Prop :=
  match crashed (sh s) with
  | None => group_inv (sh s) (gos s)
  | Some p => p = groupReused
  end.

(** Entering and leaving the group. *)
Lemma add_group_enter s next :
  (0 <= counter (stopGroup s))%Z →
  (waiters (stopGroup s) ≠ 0%nat → (0 < counter (stopGroup s))%Z) →
  add_group s 1 next =
  (set_group s (MkGroup (counter (stopGroup s) + 1) (waiters (stopGroup s))), next, false).
Proof.
  intros Hc Hw. unfold add_group, group_Add.
  rewrite (proj2 (Z.ltb_ge _ _)) by lia.
  destruct (bool_decide (waiters (stopGroup s) ≠ 0%nat)) eqn:E; bools.
  - rewrite (proj2 (Z.eqb_neq _ _)) by (specialize (Hw E); lia).
    rewrite andb_false_r. by rewrite (proj2 (Z.ltb_lt _ _)) by lia.
  - cbn [andb]. by rewrite (proj2 (Z.ltb_lt _ _)) by lia.
Qed.

Lemma add_group_leave s next :
  (0 < counter (stopGroup s))%Z →
  add_group s (-1) next =
  (if (counter (stopGroup s) =? 1) && bool_decide (waiters (stopGroup s) ≠ 0%nat)
   then (set_group s (MkGroup 0 0), next, true)
   else (set_group s (MkGroup (counter (stopGroup s) - 1) (waiters (stopGroup s))), next, false)).
Proof.
  intros Hc. unfold add_group, group_Add. replace (counter (stopGroup s) + -1)%Z with
    (counter (stopGroup s) - 1)%Z by lia.
  rewrite (proj2 (Z.ltb_ge _ _)) by lia. rewrite andb_false_r. cbn [andb].
  destruct (counter (stopGroup s) =? 1)%Z eqn:E1; bools; cbn [andb].
  - rewrite (proj2 (Z.ltb_ge _ _)) by lia. cbn [orb].
    destruct (decide (waiters (stopGroup s) = 0%nat)) as [Hw|Hw].
    + by rewrite (bool_decide_eq_true_2 _ Hw), bool_decide_eq_false_2 by tauto.
    + by rewrite (bool_decide_eq_false_2 _ Hw), bool_decide_eq_true_2 by done.
  - by rewrite (proj2 (Z.ltb_lt _ _)) by lia.
Qed.
Lemma go_inv a s l1 p l2 s' ps woken :
  crashed s = None → group_inv s (l1 ++ p :: l2) → go_step cfg a s p = Some (s', ps, woken) →
  sys_inv (MkSys s' (wake_if woken (l1 ++ ps ++ l2))).
Proof.
  intros Hcr [Hc Hw Hb Ho Hn] Hgo. unfold sys_inv. cbn [sh gos].
  destruct p; go_unfold Hgo.
  1,5: rewrite add_group_enter in Hgo by (done || lia); simplify_eq; cbn -[wake_if];
    rewrite Hcr; split; cbn -[wake_if]; counts; lia.
  1,7: counts; rewrite add_group_leave in Hgo by (cbn; lia); cbn in Hgo;
    destruct (_ && _) eqn:E; simplify_eq; cbn -[wake_if]; rewrite Hcr;
    [bools|apply andb_false_iff in E as [E|E]; bools]; split; cbn -[wake_if]; counts; lia.
  all: unfold client_Connect, group_Wait, group_resume in Hgo; go_case Hgo; cbn -[wake_if];
    rewrite ?Hcr; try done; bools; split; cbn -[wake_if]; counts.
  all: try lia; destruct (sh_reconnecting s); done || lia.
Qed.

Lemma sys_inv_step s s' : sys_inv s → ts_step (TransitionSystem:=connection_system cfg callers) s s' →
  sys_inv s'.
Proof.
  intros Hinv [k Hstep].
  destruct Hstep as [a s l1 p l2 s' ps woken Hcr Hgo|s l Hcr Hk|s l Hcr Hk|s l Hcr Hk|s l Hcr Hn
    |s l Hcr Hn]; unfold sys_inv in Hinv; cbn [sh gos] in Hinv; rewrite Hcr in Hinv.
  { by eapply go_inv. }
  all: destruct Hinv as [Hc Hw Hb Ho Hn']; unfold sys_inv; cbn; rewrite Hcr;
    split; cbn; counts; lia.
Qed.
End invariant.

(** ** What Disconnect achieves *)

(** Disconnect between the flag and the client, before it has passed Wait; a
    reconnection about to call the client; Connect about to. *)
Definition closing (p : phase) : bool :=
  match p with CloseGroup _ | CloseWait _ | CloseWoken _ | CloseClient _ => true | _ => false end.
Definition committed (p : phase) : bool :=
  match p with CloseGroup _ | CloseWait _ => true | _ => false end.
Definition connecting (p : phase) : bool :=
  match p with LoopSleep _ O => true | _ => false end.
Definition opening (p : phase) : bool :=
  match p with OpenClient => true | _ => false end.

Lemma count_closing_wake b l : count closing (wake_if b l) = count closing l.
Proof. apply count_wake. by intros []. Qed.
Lemma count_connecting_wake b l : count connecting (wake_if b l) = count connecting l.
Proof. apply count_wake. by intros []. Qed.
Lemma count_opening_wake b l : count opening (wake_if b l) = count opening l.
Proof. apply count_wake. by intros []. Qed.
Lemma count_committed_false l : count committed (wake_if false l) = count committed l.
Proof. done. Qed.

#[export] Hint Rewrite count_closing_wake count_connecting_wake count_opening_wake
  count_committed_false : counts.

Lemma count_classes l :
  (count committed l <= count closing l)%nat ∧
  (count closing l + count opening l <= count calling l)%nat ∧
  (count connecting l <= count inside l)%nat.
Proof.
  induction l as [|p l IH]; [cbn; lia|]. cbn [count].
  destruct p as [| | | | | |? []| | | | | | | | | | | |]; cbn; lia.
Qed.

Section single.
Context {TLS : Type}.
Variable cfg : Configuration TLS.

Record single_inv (s : shared) (l : list phase) : Prop := {
  si_group : group_inv 1 s l;
  si_client : sh_running s = false → client s ≠ Idle → (1 <= count closing l)%nat;
  si_connect : sh_running s = false → (1 <= count connecting l)%nat → (1 <= count committed l)%nat;
  si_open : (1 <= count opening l)%nat → sh_running s = true;
  si_close : (1 <= count closing l)%nat → sh_running s = false;
}.

Ltac single_counts :=
  counts; cbn [count closing committed connecting opening] in *;
  autorewrite with counts in *; cbn [count closing committed connecting opening] in *.

Lemma single_go a s l1 p l2 s' ps woken :
  crashed s = None → single_inv s (l1 ++ p :: l2) → go_step cfg a s p = Some (s', ps, woken) →
  crashed s' = None → single_inv s' (wake_if woken (l1 ++ ps ++ l2)).
Proof.
  intros Hcr [Hg Hk Hc Ho Hl] Hgo Hcr'.
  pose proof (go_inv cfg 1 a s l1 p l2 s' ps woken Hcr Hg Hgo) as Hg'.
  unfold sys_inv in Hg'. cbn [sh gos] in Hg'. rewrite Hcr' in Hg'.
  destruct Hg as [Gc Gw Gb Go Gn]. pose proof Hg' as [Gc' _ _ _ Gn'].
  pose proof (count_classes l1) as (H11 & H12 & H13).
  pose proof (count_classes l2) as (H21 & H22 & H23).
  destruct p; go_unfold Hgo.
  1,5: rewrite add_group_enter in Hgo by (done || lia).
  3,9: counts; rewrite add_group_leave in Hgo by (cbn; lia); cbn in Hgo;
    destruct (_ && _) eqn:E in Hgo.
  all: unfold client_Connect, group_Wait, group_resume in Hgo; go_case Hgo; bools; (split; [done|..]);
    cbn -[wake_if] in *; single_counts; intros.
  all: repeat match goal with
    | H : ?x = ?x → _ |- _ => specialize (H eq_refl)
    | H : ?P → _, H' : ?P |- _ => specialize (H H')
    | H : (_ <= _)%nat → _ |- _ => specialize (H ltac:(lia))
    end; congruence || lia.
Qed.

Lemma single_step s s' :
  (crashed (sh s) = None → single_inv (sh s) (gos s)) →
  ts_step (TransitionSystem:=connection_system cfg 1) s s' →
  crashed (sh s') = None → single_inv (sh s') (gos s').
Proof.
  intros Hinv [k Hstep] Hcr'.
  destruct Hstep as [a s l1 p l2 s' ps woken Hcr Hgo|s l Hcr Hk|s l Hcr Hk|s l Hcr Hk|s l Hcr Hn
    |s l Hcr Hn]; cbn [sh gos] in *; specialize (Hinv Hcr).
  { exact (single_go _ _ _ _ _ _ _ _ Hcr Hinv Hgo Hcr'). }
  all: destruct Hinv as [[Gc Gw Gb Go Gn] Hk' Hc Ho Hl].
  all: repeat split; cbn in *; single_counts; try lia; intros.
  all: repeat match goal with
    | H : ?P → _, H' : ?P |- _ => specialize (H H')
    | H : (_ <= _)%nat → _ |- _ => specialize (H ltac:(lia))
    | H : client _ ≠ Idle → _ |- _ => specialize (H ltac:(congruence))
    end; congruence || lia.
Qed.

Lemma single_reachable s :
  reachable (H:=connection_system cfg 1) s → crashed (sh s) = None → single_inv (sh s) (gos s).
Proof.
  apply (invariant_reachable (λ s, crashed (sh s) = None → single_inv (sh s) (gos s))).
  split; [|exact single_step]. intros s0 -> _. repeat split; cbn; lia || done.
Qed.

(** C7.  As long as the calls of Connect and Disconnect do not overlap, a
    connection that is not running is closed or being closed: when Disconnect has
    returned, the client has no connection, no reconnection is left that would
    open one, and it stays so until Connect is called.  This holds although the
    handlers of the client and the reconnection run concurrently, since Wait holds
    Disconnect back until a reconnection that has passed its check has gone. *)
Theorem Disconnect_closes s :
  reachable (H:=connection_system cfg 1) s → crashed (sh s) = None →
  sh_running (sh s) = false →
  (client (sh s) ≠ Idle ∨ (1 <= count connecting (gos s))%nat → (1 <= count closing (gos s))%nat) ∧
  (count calling (gos s) = 0%nat →
     client (sh s) = Idle ∧ count connecting (gos s) = 0%nat).
Proof.
  intros Hr Hcr Hrun. destruct (single_reachable s Hr Hcr) as [_ Hk Hc _ _].
  specialize (Hk Hrun). specialize (Hc Hrun).
  pose proof (count_classes (gos s)) as (H1 & H2 & H3).
  assert (client (sh s) ≠ Idle ∨ (1 <= count connecting (gos s))%nat →
    (1 <= count closing (gos s))%nat) as H by (intros [?|?]; [by apply Hk|lia]).
  split; [done|]. intros Hn. split.
  - destruct (decide (client (sh s) = Idle)) as [|Hne]; [done|]. specialize (Hk Hne). lia.
  - destruct (count connecting (gos s)); [done|]. lia.
Qed.
End single.

(** ** Disconnect returns *)

(** What is left to do for a goroutine of a connection that is not running. *)
Definition rank (p : phase) : nat :=
  match p with
  | ConnectedStart => 2 | ConnectedIn => 1
  | LostStart => 6 | LostFlag => 5 | LostWon => 4
  | LoopHead _ => 3 | LoopSleep _ O => 8 | LoopSleep _ (S _) => 3 | LoopWait _ => 4
  | LoopEnd => 2 | LostEnd => 1
  | CloseStart => 6 | CloseSet _ => 5 | CloseGroup _ => 4 | CloseWait _ => 3 | CloseWoken _ => 3
  | CloseClient _ => 2 | CloseFire _ => 1
  | OpenStart => 1 | OpenClient => 4
  end.

Fixpoint ranks (l : list phase) : nat :=
  match l with [] => 0 | p :: l => rank p + ranks l end.

Definition link_rank (k : link) : nat := match k with Opening => 3 | _ => 0 end.

Definition left_to_do (s : sys) : nat := link_rank (client (sh s)) + ranks (gos s).

Definition is_open_start (p : phase) : bool := match p with OpenStart => true | _ => false end.

(** Not running, and nobody about to set running. *)
Definition stopped (s : sys) : Prop :=
  sh_running (sh s) = false ∧ count is_open_start (gos s) = 0%nat.

Lemma ranks_app l1 l2 : ranks (l1 ++ l2) = (ranks l1 + ranks l2)%nat.
Proof. induction l1; cbn; lia. Qed.

Lemma ranks_wake b l : ranks (wake_if b l) = ranks l.
Proof. destruct b; [|done]. induction l as [|[] l IH]; cbn in *; lia. Qed.

Lemma count_open_start_wake b l : count is_open_start (wake_if b l) = count is_open_start l.
Proof. apply count_wake. by intros []. Qed.

#[export] Hint Rewrite ranks_app ranks_wake count_open_start_wake : counts.

Section returns.
Context {TLS : Type}.
Variable cfg : Configuration TLS.
Variable callers : nat.

Lemma client_Connect_rank s :
  (link_rank (client (client_Connect s)) <= 3 + link_rank (client s))%nat ∧
  sh_running (client_Connect s) = sh_running s.
Proof. unfold client_Connect. destruct (client s) eqn:E; cbn; rewrite ?E; cbn; (split; [lia|done]). Qed.

Lemma add_group_frame s d next s' ps woken :
  add_group s d next = (s', ps, woken) →
  (ps = next ∨ ps = []) ∧ client s' = client s ∧ sh_running s' = sh_running s.
Proof.
  unfold add_group. destruct (group_Add _ _) as [[g w]| |]; intros [= <- <- <-]; cbn; auto.
Qed.

(** A step of a goroutine of a stopped connection is progress. *)
Lemma go_progress a s p s' ps woken :
  go_step cfg a s p = Some (s', ps, woken) → sh_running s = false → is_open_start p = false →
  (link_rank (client s') + ranks ps < link_rank (client s) + rank p)%nat ∧
  sh_running s' = false ∧ count is_open_start ps = 0%nat.
Proof.
  intros Hgo Hrun Hp. pose proof (client_Connect_rank s) as [Hcl Hcr].
  destruct p; go_unfold Hgo; try done; rewrite ?Hrun in Hgo; cbn [negb] in Hgo;
    try (injection Hgo as Hgo; apply add_group_frame in Hgo as ([-> | ->] & -> & ->); cbn;
      split_and!; done || lia);
    unfold group_Wait in Hgo; go_case Hgo; cbn [rank ranks is_open_start count] in *;
    rewrite ?Hcr; cbn; try (split_and!; [lia|done..]).
Qed.

(** A step that arrives from outside, but for a call of Connect. *)
Definition arrives (k : kind) : nat := match k with Own => 0 | _ => 9 end.
Definition own (k : kind) : nat := match k with Own => 1 | _ => 0 end.

Lemma stopped_progress k s s' :
  stopped s → sys_step cfg callers k s s' → k ≠ CallConnect →
  stopped s' ∧ (left_to_do s' + own k <= left_to_do s + arrives k)%nat.
Proof.
  intros [Hrun Hopen] Hstep Hk. unfold stopped, left_to_do.
  destruct Hstep as [a s l1 p l2 s' ps woken Hcr Hgo|s l Hcr Hc|s l Hcr Hc|s l Hcr Hc|s l Hcr Hn
    |s l Hcr Hn]; cbn [sh gos own arrives] in *; try done; counts; cbn [count ranks] in *.
  - destruct (is_open_start p) eqn:Ep; [lia|].
    destruct (go_progress a s p s' ps woken Hgo Hrun Ep) as (Hm & ? & ?).
    split; [split; [done|lia]|]. lia.
  - cbn. rewrite Hc. cbn. split; [split; [done|lia]|lia].
  - cbn. rewrite Hc. cbn. split; [split; [done|lia]|lia].
  - cbn. rewrite Hc. unfold lost_link. destruct (co_autoReconnect _); cbn;
      (split; [split; [done|lia]|lia]).
  - split; [split; [done|cbn; lia]|cbn; lia].
Qed.

(** While a goroutine is alive there is a step that nothing outside is needed for. *)
Lemma connection_step_enabled s :
  group_inv callers (sh s) (gos s) → crashed (sh s) = None → gos s ≠ [] →
  ∃ s', sys_step cfg callers Own s s'.
Proof.
  destruct s as [s l]. cbn. intros [Hc Hw Hb _ _] Hcr Hne.
  assert (∃ l1 p l2, l = l1 ++ p :: l2 ∧ is_waiting p = false) as (l1 & p & l2 & -> & Hp).
  { destruct (decide (count is_waiting l = 0%nat)) as [E|E].
    - destruct l as [|p l]; [done|]. exists [], p, l. split; [done|].
      cbn in E. by destruct (is_waiting p).
    - assert (0 < count inside l)%nat as Hin by (rewrite <-Hw in E; specialize (Hb E); lia).
      clear -Hin. induction l as [|p l IH]; cbn in Hin; [lia|].
      destruct (is_waiting p) eqn:Ep; [|by exists [], p, l].
      destruct IH as (l1 & p' & l2 & -> & ?); [by destruct p|]. by exists (p :: l1), p', l2. }
  destruct (go_step cfg (MkAnswers None None false) s p) as [[[s' ps] woken]|] eqn:Hgo.
  { eexists. by apply (st_go cfg callers _ _ _ _ _ _ _ _ Hcr Hgo). }
  assert (client s = Opening) as Hk; [|eexists; by apply st_up].
  destruct p; cbn in Hgo; try done.
  - destruct (ExternalReconnect cfg && _); done.
  - by destruct (negb _).
  - destruct n; [done|]. by destruct (negb _).
  - destruct (decide (client s = Opening)); done.
  - by destruct (sh_running s).
  - by destruct (group_Wait _).
  - unfold group_resume in Hgo. by destruct (_ && _).
Qed.
End returns.

Section properties.
Context {TLS : Type}.
Variable cfg : Configuration TLS.
Variable callers : nat.

Lemma sys_inv_reachable s : reachable (H:=connection_system cfg callers) s → sys_inv callers s.
Proof.
  apply invariant_reachable. split; [|apply sys_inv_step].
  intros s0 ->. split; cbn; lia || done.
Qed.

(** C13.  However the goroutines of a connection interleave, the stop group counts
    exactly the handlers and reconnections that are inside, one that waits is
    held back by one that is inside, and there is at most one reconnection, the
    owner of the flag reconnecting.  The group's counter never becomes negative
    and Add is never called while Wait begins: the only panic is the reuse of the
    group by a handler that enters before a woken Disconnect has returned from
    Wait. *)
Theorem stop_group_counts s :
  reachable (H:=connection_system cfg callers) s →
  match crashed (sh s) with
  | None =>
      counter (stopGroup (sh s)) = Z.of_nat (count inside (gos s)) ∧
      ((1 <= count is_waiting (gos s))%nat → (1 <= count inside (gos s))%nat) ∧
      (count owner (gos s) <= 1)%nat ∧
      (sh_reconnecting (sh s) = true ↔ count owner (gos s) = 1%nat)
  | Some p => p = groupReused
  end.
Proof.
  intros Hr%sys_inv_reachable. unfold sys_inv in Hr.
  destruct (crashed (sh s)); [done|]. destruct Hr as [Hc Hw Hb Ho _]. split; [done|].
  split; [lia|]. rewrite Ho. destruct (sh_reconnecting (sh s)); (split; [lia|done]).
Qed.

(** C16.  Disconnect returns: once a connection is not running and nobody calls
    Connect, its goroutines take a bounded number of steps, nine more for each
    lost connection and each further call of Disconnect that arrives, and as long
    as one of them is alive (a call of Disconnect in Wait, say) one of them can
    take a step, the client's answer to a pending attempt counted among them. *)
Theorem Disconnect_returns s ks s' :
  reachable (H:=connection_system cfg callers) s → stopped s →
  labelled_run (sys_step cfg callers) ks s s' → CallConnect ∉ ks →
  (sum_list_with own ks <= left_to_do s + sum_list_with arrives ks)%nat ∧
  (crashed (sh s') = None → gos s' ≠ [] → ∃ s'', sys_step cfg callers Own s' s'').
Proof.
  intros Hr Hstop Hrun Hks.
  assert (Forall (λ k, k ≠ CallConnect) ks) as HP.
  { apply Forall_forall. intros k Hin ->. by apply Hks. }
  split.
  - pose proof (labelled_run_measure (sys_step cfg callers) (λ k, k ≠ CallConnect) stopped
      left_to_do own arrives ks s s') as Hm.
    enough (sum_list_with own ks + left_to_do s'
      <= left_to_do s + sum_list_with arrives ks)%nat by lia.
    apply Hm; [..|done|done|done];
      intros k s1 s2 Hk H1 Hs; by destruct (stopped_progress cfg callers k s1 s2 H1 Hs Hk).
  - intros Hcr Hne.
    assert (sys_inv callers s') as Hinv.
    { apply (labelled_run_preserved (sys_step cfg callers) (λ _, True) (sys_inv callers) ks s);
        [|by apply Forall_true|done|by apply sys_inv_reachable].
      intros k s1 s2 _ H1 Hs. eapply sys_inv_step; [done|by exists k]. }
    unfold sys_inv in Hinv. rewrite Hcr in Hinv. by apply connection_step_enabled.
Qed.

(** ** A scheduler *)

(** Which step is next. *)
Inductive choice :=
  | Go (i : nat) (a : answers)      (* the goroutine at this place *)
  | ClientUp | ClientRefuses | Lose
  | DoDisconnect | DoConnect.

Definition exec1 (c : choice) (s : sys) : option sys :=
  match crashed (sh s) with
  | Some _ => None
  | None =>
      match c with
      | Go i a =>
          p ← gos s !! i; r ← go_step cfg a (sh s) p;
          let '(s', ps, woken) := r in
          Some (MkSys s' (wake_if woken (take i (gos s) ++ ps ++ drop (S i) (gos s))))
      | ClientUp =>
          if decide (client (sh s) = Opening)
          then Some (MkSys (set_client (sh s) Up) (gos s ++ [ConnectedStart])) else None
      | ClientRefuses =>
          if decide (client (sh s) = Opening)
          then Some (MkSys (set_client (sh s) Idle) (gos s)) else None
      | Lose =>
          if decide (client (sh s) = Up)
          then Some (MkSys (set_client (sh s) (lost_link cfg)) (gos s ++ [LostStart])) else None
      | DoDisconnect =>
          if decide (count calling (gos s) < callers)%nat
          then Some (MkSys (sh s) (gos s ++ [CloseStart])) else None
      | DoConnect =>
          if decide (count calling (gos s) < callers)%nat
          then Some (MkSys (sh s) (gos s ++ [OpenStart])) else None
      end
  end.

Fixpoint exec (cs : list choice) (s : sys) : option sys :=
  match cs with [] => Some s | c :: cs => s ← exec1 c s; exec cs s end.

Lemma exec1_sound c s s' :
  exec1 c s = Some s' → ts_step (TransitionSystem:=connection_system cfg callers) s s'.
Proof.
  destruct s as [s l]. unfold exec1. cbn. destruct (crashed s) eqn:Hcr; [done|].
  destruct c as [i a| | | | |].
  - intros (p & Hp & ([[s1 ps] woken] & Hgo & [= <-])%bind_Some)%bind_Some.
    exists Own. apply take_drop_middle in Hp. rewrite <-Hp at 1. by eapply st_go.
  - destruct (decide _); [|done]. intros [= <-]. exists Own. by apply st_up.
  - destruct (decide _); [|done]. intros [= <-]. exists Own. by apply st_refused.
  - destruct (decide _); [|done]. intros [= <-]. exists Lost. by apply st_lost.
  - destruct (decide _); [|done]. intros [= <-]. exists CallDisconnect. by apply st_close.
  - destruct (decide _); [|done]. intros [= <-]. exists CallConnect. by apply st_open.
Qed.

Lemma exec_reachable cs s :
  exec cs fresh_connection = Some s → reachable (H:=connection_system cfg callers) s.
Proof.
  intros Hex. exists fresh_connection. split; [done|]. revert Hex.
  generalize fresh_connection. induction cs as [|c cs IH]; intros s0; cbn; [by intros [= ->]|].
  intros (s1 & H1%exec1_sound & H2%IH)%bind_Some. exact (rtc_l _ _ _ _ H1 H2).
Qed.
End properties.

(** ** Examples *)

(** A configuration that reconnects itself, as the one of the Hub. *)
Definition external_config : Configuration unit :=
  MkConfiguration "mqtts://hub:8883" false false connectTimeout keepAliveTimeout 0
    true 5 (Finite (QArith_base.Qmake 2 1)) Minute Minute (MkCredentials "" "") "" ""
    QosAtMostOnce false None.

Definition go (i : nat) : choice := Go i (MkAnswers None None false).

(** Connect, and the client has a connection; its handler has not started. *)
Definition connected_run : list choice := [DoConnect; go 0; go 0; ClientUp].

(** A lost connection while the handler of the first one runs: Disconnect waits for
    the handler, is woken when it leaves, and finds the group in use again by the
    reconnection. *)
Definition reuse_run : list choice :=
  connected_run ++ [go 0; Lose; go 1; go 1; DoDisconnect; go 2; go 2; go 2; go 0; go 0; go 1].

Theorem stop_group_reused :
  ∃ s, reachable (H:=connection_system external_config 1) s ∧ crashed (sh s) = Some groupReused.
Proof.
  destruct (exec external_config 1 reuse_run fresh_connection) as [s|] eqn:E; [|by vm_compute in E].
  exists s. split; [by eapply exec_reachable|]. vm_compute in E. by simplify_eq.
Qed.

(** A handler that starts after Disconnect has passed Wait: the last notification
    says that there is a connection, and there is none. *)
Definition late_handler_run : list choice :=
  connected_run ++ [DoDisconnect; Go 1 (MkAnswers None None true); go 1; go 1; go 1; go 1;
                    go 0; go 0].

Theorem connected_after_disconnect {TLS} (cfg : Configuration TLS) :
  ∃ s, reachable (H:=connection_system cfg 1) s ∧ gos s = [] ∧
    crashed (sh s) = None ∧ sh_running (sh s) = false ∧ client (sh s) = Idle ∧
    events (sh s) = [true; false].
Proof.
  eexists. split.
  { apply (exec_reachable cfg 1 late_handler_run). vm_compute. reflexivity. }
  done.
Qed.

(** A Disconnect that overtakes a Connect, between its two operations: the
    connection stays up although it is not running, and a further Disconnect leaves
    it alone. *)
Definition overtaken_run : list choice :=
  [DoConnect; go 0; DoDisconnect; go 1; go 1; go 1; go 1; go 1; go 0; ClientUp; go 0; go 0;
   DoDisconnect; Go 0 (MkAnswers None None true); go 0; go 0].

Theorem Connect_overtaken_by_Disconnect {TLS} (cfg : Configuration TLS) :
  ∃ s, reachable (H:=connection_system cfg 2) s ∧ gos s = [] ∧
    crashed (sh s) = None ∧ sh_running (sh s) = false ∧ client (sh s) = Up.
Proof.
  eexists. split.
  { apply (exec_reachable cfg 2 overtaken_run). vm_compute. reflexivity. }
  done.
Qed.

(** A connection that Disconnect has closed. *)
Definition closing_run : list choice := connected_run ++ [go 0; go 0; DoDisconnect; go 0; go 0].
Definition closed_run : list choice := closing_run ++ [go 0; go 0; go 0].

Definition closed_state : sys :=
  default fresh_connection (exec external_config 1 closed_run fresh_connection).

Lemma closed_state_reachable : reachable (H:=connection_system external_config 1) closed_state.
Proof. apply (exec_reachable external_config 1 closed_run). vm_compute. reflexivity. Qed.

Lemma Disconnect_closes_witness :
  client (sh closed_state) = Idle ∧ count connecting (gos closed_state) = 0%nat.
Proof.
  exact (proj2 (Disconnect_closes external_config closed_state closed_state_reachable
    eq_refl eq_refl) eq_refl).
Defined.

(** The same with Disconnect on its way. *)
Definition closing_state : sys :=
  default fresh_connection (exec external_config 1 closing_run fresh_connection).

Lemma closing_state_reachable : reachable (H:=connection_system external_config 1) closing_state.
Proof. apply (exec_reachable external_config 1 closing_run). vm_compute. reflexivity. Qed.

Lemma Disconnect_returns_witness :
  gos closing_state = [CloseGroup false] ∧
  ∃ s', sys_step external_config 1 Own closing_state s'.
Proof.
  split; [vm_compute; reflexivity|].
  apply (Disconnect_returns external_config 1 closing_state [] closing_state
    closing_state_reachable); [split; vm_compute; reflexivity|constructor
    |apply not_elem_of_nil|reflexivity|discriminate].
Defined.

Lemma stop_group_counts_witness :
  counter (stopGroup (sh closing_state)) = Z.of_nat (count inside (gos closing_state)).
Proof.
  exact (proj1 (stop_group_counts external_config 1 closing_state closing_state_reachable)).
Defined.
