(* ===== verification/MessageLoop.v ===== *)
(** * The message loop of a subscription

    connector/wrapper.go and the [messageloop] of connector/subscriber.go.  The
    paho client calls [handler] for every message, possibly from several
    goroutines; [processMessage] lets one of them through at a time.  The
    goroutine of runMessageLoop waits for the subscriber's Close or for the
    cancellation of its context, and then closes the channel the router reads
    from.  What matters is that nothing is ever sent on that channel after. *)

From S2P Require Import Prelude GoStrings Message.

(** ** States *)

(** A handler that holds the lock [processMessage]. *)
Inductive handler_phase :=
  | HChecking               (* about to read topicClosed *)
  | HSending                (* in the select of [l.out <- msg] and closing *)
  | HAwaiting.              (* in the select of the acknowledgement *)

(** The goroutine of runMessageLoop.  Its deferred calls run in the order
    Unlock, close(out), cleaner. *)
Inductive loop_phase :=
  | LWaiting | LSignalled | LMarked | LStopped | LLocked | LUnlocked | LClosed | LDone.

Record loop := MkLoop {
  capacity : nat;                         (* of [out]; the buffSize *)
  autoAck : bool;
  waiting : list nat;                     (* messages whose handlers want the lock *)
  current : option (nat * handler_phase); (* the handler that has it *)
  phase : loop_phase;
  closedFlag : bool;                      (* wrapper.closed *)
  closers : nat;                          (* Close calls about to close [closing] *)
  closing : bool;                         (* [closing] is closed *)
  cancelled : bool;                       (* the context is done *)
  topicClosed : bool;
  out : list nat;                         (* values buffered in [out] *)
  outClosed : bool;
  received : list nat;                    (* by the router, oldest first *)
  loop_panics : list panic;
}.

(** newWrapper and the loop of Subscribe: [autoAck] when the channel is
    buffered. *)
Definition new_loop (buffSize : nat) : loop :=
  MkLoop buffSize (0 <? buffSize)%nat [] None LWaiting false 0 false false false [] false [] [].

Definition set_current (l : loop) (w : list nat) (h : option (nat * handler_phase)) : loop :=
  MkLoop (capacity l) (autoAck l) w h (phase l) (closedFlag l) (closers l) (closing l)
    (cancelled l) (topicClosed l) (out l) (outClosed l) (received l) (loop_panics l).

Definition set_phase (l : loop) (p : loop_phase) : loop :=
  MkLoop (capacity l) (autoAck l) (waiting l) (current l) p (closedFlag l) (closers l)
    (closing l) (cancelled l) (topicClosed l) (out l) (outClosed l) (received l)
    (loop_panics l).

Definition set_out (l : loop) (o r : list nat) : loop :=
  MkLoop (capacity l) (autoAck l) (waiting l) (current l) (phase l) (closedFlag l)
    (closers l) (closing l) (cancelled l) (topicClosed l) o (outClosed l) r (loop_panics l).

Definition set_wrapper (l : loop) (flag : bool) (n : nat) (c : bool) (ps : list panic) : loop :=
  MkLoop (capacity l) (autoAck l) (waiting l) (current l) (phase l) flag n c
    (cancelled l) (topicClosed l) (out l) (outClosed l) (received l) ps.

Definition set_cancelled (l : loop) : loop :=
  MkLoop (capacity l) (autoAck l) (waiting l) (current l) (phase l) (closedFlag l)
    (closers l) (closing l) true (topicClosed l) (out l) (outClosed l) (received l)
    (loop_panics l).

Definition add_panic (l : loop) (p : panic) : loop :=
  set_wrapper l (closedFlag l) (closers l) (closing l) (p :: loop_panics l).

(** ** wrapper.go *)

(** doClose returns whether the wrapper had been closed before. *)
Definition doClose (l : loop) : loop * bool :=
  if closedFlag l then (l, true)
  else (set_wrapper l true (S (closers l)) (closing l) (loop_panics l), false).

Definition isClosed (l : loop) : bool := closedFlag l.

(** [close(m.closing)] panics on a closed channel. *)
Definition close_closing (l : loop) : loop :=
  set_wrapper l (closedFlag l) (pred (closers l)) true
    (if closing l then CloseOfClosed :: loop_panics l else loop_panics l).

(** Close returns when the loop's goroutine has called [processWg.Done]. *)
Definition wait_done (l : loop) : bool :=
  match phase l with LDone => true | _ => false end.

(** ** The handler *)

(** The message the handler makes of an MQTT message. *)
Definition consume (unmarshal : Z → string → result message) (ctx : context)
    (mid : Z) (payload topic : string) (qos : Qos) : result message :=
  match unmarshal mid payload with
  | Err e => Err e
  | Ok msg => Ok (SetContext msg (SetQosToCtx (SetTopicToCtx ctx topic) qos))
  end.

Lemma consume_context unmarshal ctx mid payload topic qos msg :
  consume unmarshal ctx mid payload topic qos = Ok msg →
  TopicFromCtx (Context msg) = Some topic ∧ QosFromCtx (Context msg) = Some qos ∧
  RetainFromCtx (Context msg) = RetainFromCtx ctx.
Proof.
  unfold consume. destruct (unmarshal mid payload); [|done]. intros [= <-].
  cbn [SetContext Context]. by autorewrite with ctx.
Qed.

(** After the lock: a closed topic drops the message. *)
Definition check_topic (l : loop) (m : nat) : loop :=
  if topicClosed l then set_current l (waiting l) None
  else set_current l (waiting l) (Some (m, HSending)).

(** After the message has been sent. *)
Definition after_send (l : loop) (m : nat) : loop :=
  if autoAck l then set_current l (waiting l) None
  else set_current l (waiting l) (Some (m, HAwaiting)).

(** [l.out <- msg]: into the buffer, or straight to a waiting reader. *)
Definition send_out (l : loop) (m : nat) (reader : bool) : option loop :=
  if outClosed l then Some (set_current (add_panic l SendOnClosed) (waiting l) None)
  else if (length (out l) <? capacity l)%nat
  then Some (after_send (set_out l (out l ++ [m]) (received l)) m)
  else if reader && bool_decide (out l = [])
  then Some (after_send (set_out l (out l) (received l ++ [m])) m)
  else None.

(** ** The goroutine of runMessageLoop *)

(** One step of the goroutine; [None] while it has to wait. *)
Definition loop_next (l : loop) : option loop :=
  match phase l with
  | LWaiting => if closing l || cancelled l then Some (set_phase l LSignalled) else None
  | LSignalled =>
      Some (MkLoop (capacity l) (autoAck l) (waiting l) (current l) LMarked (closedFlag l)
              (closers l) (closing l) (cancelled l) true (out l) (outClosed l) (received l)
              (loop_panics l))
  | LMarked => Some (set_phase l LStopped)
  | LStopped => match current l with None => Some (set_phase l LLocked) | Some _ => None end
  | LLocked => Some (set_phase l LUnlocked)
  | LUnlocked =>
      Some (MkLoop (capacity l) (autoAck l) (waiting l) (current l) LClosed (closedFlag l)
              (closers l) (closing l) (cancelled l) (topicClosed l) (out l) true (received l)
              (if outClosed l then CloseOfClosed :: loop_panics l else loop_panics l))
  | LClosed => Some (set_phase l LDone)
  | LDone => None
  end.

(** ** Steps

    [Own] steps are taken by the connector's goroutines alone; the others need
    the broker, the router, the clock, or a caller. *)

Inductive actor := Own | Other.

Inductive loop_step : actor → loop → loop → Prop :=
  | ls_message l m : loop_step Other l (set_current l (waiting l ++ [m]) (current l))
  | ls_lock l w1 m w2 :
      waiting l = w1 ++ m :: w2 → current l = None → phase l ≠ LLocked →
      loop_step Own l (set_current l (w1 ++ w2) (Some (m, HChecking)))
  | ls_check l m : current l = Some (m, HChecking) → loop_step Own l (check_topic l m)
  | ls_unmarshal l m :
      current l = Some (m, HChecking) → loop_step Own l (set_current l (waiting l) None)
  | ls_send l m l' :
      current l = Some (m, HSending) → send_out l m false = Some l' → loop_step Own l l'
  | ls_handover l m l' :
      current l = Some (m, HSending) → send_out l m true = Some l' → loop_step Other l l'
  | ls_abandon l m p :
      current l = Some (m, p) → p ≠ HChecking → closing l = true →
      loop_step Own l (set_current l (waiting l) None)
  | ls_acked l m :
      current l = Some (m, HAwaiting) → loop_step Other l (set_current l (waiting l) None)
  | ls_receive l m o :
      out l = m :: o → loop_step Other l (set_out l o (received l ++ [m]))
  | ls_close l : loop_step Other l (doClose l).1
  | ls_closing l : (0 < closers l)%nat → loop_step Own l (close_closing l)
  | ls_cancel l : loop_step Other l (set_cancelled l)
  | ls_loop l l' : loop_next l = Some l' → loop_step Own l l'.

#[export] Instance loop_system : TransitionSystem loop := {
  ts_init := λ l, ∃ n, l = new_loop n;
  ts_step := λ l l', ∃ a, loop_step a l l';
}.

(** ** Invariants *)

(** Has the goroutine come past the marking of the topic? *)
Definition marked (p : loop_phase) : bool :=
  match p with LWaiting | LSignalled => false | _ => true end.

(** Has it held the lock? *)
Definition past_lock (p : loop_phase) : bool :=
  match p with LLocked | LUnlocked | LClosed | LDone => true | _ => false end.

Definition out_is_closed (p : loop_phase) : bool :=
  match p with LClosed | LDone => true | _ => false end.

Record loop_inv (l : loop) : Prop := {
  li_topic : topicClosed l = marked (phase l);
  li_out : outClosed l = out_is_closed (phase l);
  li_locked : phase l = LLocked → current l = None;
  li_current m p : past_lock (phase l) = true → current l = Some (m, p) → p = HChecking;
  li_closers : (closers l + if closing l then 1 else 0)%nat = (if closedFlag l then 1 else 0)%nat;
  li_panics : loop_panics l = [];
}.

Lemma loop_inv_start n : loop_inv (new_loop n).
Proof. by split. Qed.

Lemma loop_inv_idle l w :
  loop_inv l → loop_inv (set_current l w None).
Proof. intros [? ? ? ? ? ?]. by split. Qed.

Lemma loop_next_inv l l' : loop_inv l → loop_next l = Some l' → loop_inv l'.
Proof.
  intros [Ht Ho Hl Hc Hn Hp] H. unfold loop_next in H.
  destruct (phase l) eqn:E; cbn in *.
  - destruct (_ || _); simplify_eq. by split; cbn; rewrite ?Ht, ?Ho.
  - simplify_eq. by split; cbn; rewrite ?Ht, ?Ho.
  - simplify_eq. by split; cbn; rewrite ?Ht, ?Ho.
  - destruct (current l) eqn:Ec; simplify_eq. split; cbn; rewrite ?Ht, ?Ho, ?Ec; done.
  - simplify_eq. by split; cbn; rewrite ?Ht, ?Ho.
  - simplify_eq. rewrite Ho. by split; cbn; rewrite ?Ht.
  - simplify_eq. by split; cbn; rewrite ?Ht, ?Ho.
  - done.
Qed.

Lemma send_out_inv l m r l' :
  loop_inv l → current l = Some (m, HSending) → send_out l m r = Some l' → loop_inv l'.
Proof.
  intros Hinv Hcur H. pose proof Hinv as [Ht Ho Hl Hc Hn Hp].
  assert (past_lock (phase l) = false) as Hpast.
  { destruct (past_lock (phase l)) eqn:E; [|done].
    by specialize (Hc m HSending eq_refl Hcur). }
  assert (outClosed l = false) as Hopen by (rewrite Ho; by destruct (phase l)).
  unfold send_out in H. rewrite Hopen in H.
  assert (∀ o r, loop_inv (after_send (set_out l o r) m)) as Hafter.
  { intros o r'. unfold after_send. cbn [autoAck set_out].
    destruct (autoAck l); split; cbn; try done.
    - intros HL. by rewrite HL in Hpast.
    - intros m' p' HL. by rewrite HL in Hpast. }
  destruct (_ <? _)%nat; simplify_eq; [apply Hafter|].
  destruct (r && _); simplify_eq. apply Hafter.
Qed.

Lemma loop_inv_step l l' : loop_inv l → ts_step l l' → loop_inv l'.
Proof.
  intros Hinv [a Hstep]. pose proof Hinv as [Ht Ho Hl Hc Hn Hp].
  destruct Hstep as [l m|l w1 m w2 Hw Hcur Hph|l m Hcur|l m Hcur|l m l' Hcur Hs
    |l m l' Hcur Hs|l m p Hcur _ _|l m Hcur|l m o Hout|l|l Hn'|l|l l' Hs].
  - by split.
  - split; cbn; try done. intros m' p' _ [= _ <-]. done.
  - unfold check_topic. destruct (topicClosed l) eqn:Et; [by apply loop_inv_idle|].
    split; cbn; rewrite ?Et; try done.
    + intros HL. rewrite HL in Ht. done.
    + intros m' p' HL. destruct (phase l); done.
  - by apply loop_inv_idle.
  - by eapply send_out_inv.
  - by eapply send_out_inv.
  - by apply loop_inv_idle.
  - by apply loop_inv_idle.
  - by split.
  - unfold doClose. destruct (closedFlag l) eqn:Ef; [split; cbn; rewrite ?Ef; done|].
    split; cbn; try done. destruct (closing l); lia.
  - destruct (closing l) eqn:Ec; [destruct (closedFlag l); lia|].
    split; cbn; rewrite ?Ec; try done. destruct (closedFlag l); lia.
  - by split.
  - by eapply loop_next_inv.
Qed.

(** C18.  In every interleaving of message handlers, Close, cancellation and the
    router, nothing panics: no message is sent on the closed [out], neither
    channel is closed twice; once [out] is closed no handler is past its check. *)
Theorem message_loop_safe l :
  reachable l →
  loop_panics l = [] ∧ outClosed l = out_is_closed (phase l) ∧
  (outClosed l = true → ∀ m p, current l = Some (m, p) → p = HChecking).
Proof.
  intros Hr. assert (loop_inv l) as [Ht Ho Hl Hc Hn Hp].
  { revert l Hr. apply invariant_reachable. split; [|apply loop_inv_step].
    intros l [n ->]. apply loop_inv_start. }
  split_and!; [done|done|]. intros Hout m p. apply Hc. rewrite Ho in Hout.
  by destruct (phase l).
Qed.

(** ** Close comes to an end *)

Definition phase_rank (p : loop_phase) : nat :=
  match p with
  | LWaiting => 7 | LSignalled => 6 | LMarked => 5 | LStopped => 4
  | LLocked => 3 | LUnlocked => 2 | LClosed => 1 | LDone => 0
  end.

Definition handler_rank (h : option (nat * handler_phase)) : nat :=
  match h with
  | None => 0
  | Some (_, HAwaiting) => 1
  | Some (_, HSending) => 2
  | Some (_, HChecking) => 3
  end.

(** The work the connector's own goroutines have left. *)
Definition work (l : loop) : nat :=
  4 * length (waiting l) + handler_rank (current l) + closers l + phase_rank (phase l).

Lemma own_step_work l l' : loop_step Own l l' → (work l' < work l)%nat.
Proof.
  intros Hstep. inversion Hstep as [|? w1 m w2 Hw Hcur Hph|? m Hcur|? m Hcur|? m ? Hcur Hs
    | |? m p Hcur Hp Hc| | | |? Hn| |? ? Hs]; subst; unfold work.
  - rewrite Hw, Hcur, !length_app. cbn. rewrite length_app. lia.
  - unfold check_topic. rewrite Hcur. destruct (topicClosed l); cbn; lia.
  - rewrite Hcur. cbn. lia.
  - unfold send_out in Hs. rewrite Hcur. destruct (outClosed l); [simplify_eq; cbn; lia|].
    destruct (_ <? _)%nat; simplify_eq/=. unfold after_send. cbn. destruct (autoAck l); cbn; lia.
  - rewrite Hcur. destruct p; cbn; done || lia.
  - cbn. destruct (closers l); lia.
  - unfold loop_next in Hs.
    destruct (phase l) eqn:E; [destruct (_ || _)| | |destruct (current l) eqn:Ec| | | |];
      simplify_eq; cbn; rewrite ?E, ?Ec; cbn; lia.
Qed.

Lemma own_step_enabled l :
  closing l = true → wait_done l = false → ∃ l', loop_step Own l l'.
Proof.
  intros Hc Hd. destruct (current l) as [[m []]|] eqn:Ecur.
  - eexists. by eapply ls_check.
  - eexists. by eapply (ls_abandon _ m HSending).
  - eexists. by eapply (ls_abandon _ m HAwaiting).
  - assert (∃ l', loop_next l = Some l') as [l' Hl].
    { unfold loop_next, wait_done in *. rewrite Hc, Ecur. destruct (phase l); eauto; done. }
    exists l'. by apply ls_loop.
Qed.

Lemma own_step_closing l l' : loop_step Own l l' → closing l = true → closing l' = true.
Proof.
  intros Hstep Hcl. inversion Hstep as [|? w1 m w2 Hw Hcur Hph|? m Hcur|? m Hcur|? m ? Hcur Hs
    | |? m p Hcur Hp Hc| | | |? Hn| |? ? Hs]; subst; try done.
  - unfold check_topic. by destruct (topicClosed l).
  - unfold send_out, after_send in Hs.
    destruct (outClosed l); [by simplify_eq|]. destruct (_ <? _)%nat; simplify_eq/=.
    by destruct (autoAck l).
  - unfold loop_next in Hs.
    destruct (phase l); [destruct (_ || _)| | |destruct (current l)| | | |]; by simplify_eq.
Qed.

(** C19.  Once [closing] is closed the connector's own goroutines finish by
    themselves, whatever the broker and the router do not do: their steps are
    bounded, and as long as the loop has not called processWg.Done, which Close
    waits for, one of them is possible. *)
Theorem Close_terminates l l' n :
  closing l = true → nsteps (loop_step Own) n l l' →
  (n <= work l)%nat ∧ (wait_done l' = true ∨ ∃ l'', loop_step Own l' l'').
Proof.
  intros Hc Hsteps.
  assert (closing l' = true ∧ (n + work l' <= work l)%nat) as [Hc' Hw].
  { revert Hc. induction Hsteps as [|n l l1 l' Hs Hsteps IH]; intros Hc; [split; [done|lia]|].
    destruct (IH (own_step_closing _ _ Hs Hc)) as [? ?].
    pose proof (own_step_work _ _ Hs). split; [done|lia]. }
  split; [lia|]. destruct (wait_done l') eqn:E; [by left|right].
  by apply own_step_enabled.
Qed.

Definition sample_closing : loop := close_closing (doClose (new_loop 0)).1.

Lemma Close_terminates_witness :
  closing sample_closing = true ∧
  (wait_done sample_closing = true ∨ ∃ l'', loop_step Own sample_closing l'').
Proof.
  split; [reflexivity|].
  exact (proj2 (Close_terminates sample_closing sample_closing 0 eq_refl (nsteps_O _ _))).
Defined.

(** The cancellation of the context alone does not get that far: with an
    unbuffered channel, a handler that holds the lock while nobody reads keeps
    the goroutine waiting, and none of the connector's own steps is possible
    (the handler's selects do not look at the context). *)
Theorem cancellation_alone_blocks :
  ∃ l, reachable l ∧ cancelled l = true ∧ closing l = false ∧ wait_done l = false ∧
    ∀ l', ¬ loop_step Own l l'.
Proof.
  exists (MkLoop 0 false [] (Some (7%nat, HSending)) LStopped false 0 false true true [] false [] []).
  split; [|split; [done|split; [done|split; [done|]]]].
  - exists (new_loop 0). split; [by exists 0%nat|].
    eapply rtc_l; [exists Other; apply (ls_message _ 7)|].
    eapply rtc_l; [exists Own; by apply (ls_lock _ [] 7 [])|].
    eapply rtc_l; [exists Own; by apply (ls_check _ 7)|].
    eapply rtc_l; [exists Other; apply ls_cancel|].
    eapply rtc_l; [exists Own; by apply ls_loop|].
    eapply rtc_l; [exists Own; by apply ls_loop|].
    eapply rtc_l; [exists Own; by apply ls_loop|]. apply rtc_refl.
  - intros l' Hstep. inversion Hstep; subst; cbn in *; simplify_eq.
    lia.
Qed.

Lemma message_loop_safe_witness :
  reachable sample_closing ∧ loop_panics sample_closing = [].
Proof.
  assert (reachable sample_closing) as Hr.
  { exists (new_loop 0). split; [by exists 0%nat|].
    eapply rtc_l; [exists Other; apply ls_close|].
    eapply rtc_l; [exists Own; apply ls_closing; cbn; lia|]. apply rtc_refl. }
  split; [exact Hr|exact (proj1 (message_loop_safe sample_closing Hr))].
Defined.
