(* ===== verification/Subscriber.v ===== *)
(** * Subscribers: connector/subscriber.go

    The subscribers of a shared connection, and the dynamic subscriber, which
    opens a client of its own.  The stoppers the code hands to runMessageLoop
    are data here; MessageLoop.v runs the loop itself. *)

From S2P Require Import Prelude GoStrings Message Connection MessageLoop.

Local Open Scope Z_scope.

Record subscriber := MkSubscriber {
  sub_closed : bool;
  sub_qos : Qos;
  sub_buffSize : nat;
  sub_autoDelete : bool;
}.

Definition NewSubscriber (qos : Qos) (autoDelete : bool) : subscriber :=
  MkSubscriber false qos 0 autoDelete.

Definition NewBufferedSubscriber (buffSize : nat) (autoDelete : bool) : subscriber :=
  MkSubscriber false QosAtMostOnce buffSize autoDelete.

(** What the loop does when it stops. *)
Inductive stopper :=
  | StopDefault                                      (* setDefaultHandler(nil) *)
  | StopUnsubscribe (subID : string) (autoDelete : bool).

Section subscriber.
Context {TLS : Type}.
Implicit Types (c : MQTTConnection TLS) (m : subscriber).

(** [handler] is the identity of the loop's handler; an empty topic takes the
    messages nobody else handles. *)
Definition Subscribe m c (isOpen : bool) (uuid : string) (handler : nat) (topic : string)
    : outcome (result (MQTTConnection TLS * loop * stopper)) :=
  if sub_closed m then Done (Err ErrClosed) else
  let topics := parseSubs topic in
  let l := new_loop (sub_buffSize m) in
  if slen topic =? 0 then
    Done (Ok (setDefaultHandler c (Some handler), l, StopDefault))
  else
    r ← subscribe c isOpen uuid (Some handler) (sub_qos m) topics;
    Done (Ok (r.1, l, StopUnsubscribe r.2 (sub_autoDelete m))).

Definition run_stopper c (isOpen : bool) (s : stopper) : outcome (MQTTConnection TLS) :=
  match s with
  | StopDefault => Done (setDefaultHandler c None)
  | StopUnsubscribe subID autoDelete => unsubscribe c isOpen subID autoDelete
  end.

(** ** The dynamic subscriber *)

(** [provider] is the client id provider. *)
Record dynamicsubscriber := MkDynamic {
  ds_cfg : Configuration TLS;
  ds_closed : bool;
  ds_qos : Qos;
  ds_autoDelete : bool;
  ds_provider : option (string → string);
}.

Definition NewDynamicSubscriber (cfg : Configuration TLS) (qos : Qos) (autoDelete : bool)
    (provider : option (string → string)) : dynamicsubscriber :=
  MkDynamic cfg false qos autoDelete provider.

(** [uuid] is a short UUID. *)
Definition getClientID (m : dynamicsubscriber) (uuid topic : string) : string :=
  match ds_provider m with
  | None => uuid
  | Some p => let clientID := p topic in if slen clientID =? 0 then uuid else clientID
  end.

(** The options of the client that a call makes: a persistent session. *)
Definition dynamic_options (m : dynamicsubscriber) (uuid topic : string) : ClientOptions TLS :=
  createClientOptions (ds_cfg m) (getClientID m uuid topic) false.

(** The client's options, the calls made to it and the error: [connect] is the
    error of the connect token, the rest the subscription token, completed in time
    and its error. *)
Definition SubscribeInitialize (m : dynamicsubscriber) (uuid topic : string)
    (connect : option error) (completed : bool) (sub_error : option error)
    : option (ClientOptions TLS) * list client_call * option error :=
  if ds_closed m then (None, [], Some ErrClosed) else
  let topics := parseSubs topic in
  let clientOpts := dynamic_options m uuid topic in
  match connect with
  | Some err => (Some clientOpts, [ConnectCall], Some err)
  | None =>
      let msg := "cannot subscribe for topics: " +:+ topic in
      (Some clientOpts,
       [ConnectCall; SubscribeMultiple (subFilters (ds_qos m) topics) None;
        DisconnectCall disconnectQuiesce],
       if negb completed then Some (Wrap ErrTimeout msg)
       else match sub_error with
            | Some err => Some (Wrap err msg)
            | None => None
            end)
  end.

(** Subscribe of the dynamic subscriber: the client's options, the calls it makes
    at once, and the loop with the calls of its stopper. *)
Definition dynamic_Subscribe (m : dynamicsubscriber) (uuid topic : string)
    (connect : option error)
    : option (ClientOptions TLS) * list client_call * result (loop * list client_call) :=
  if ds_closed m then (None, [], Err ErrClosed) else
  let topics := parseSubs topic in
  let clientOpts := dynamic_options m uuid topic in
  match connect with
  | Some err => (Some clientOpts, [ConnectCall], Err err)
  | None =>
      (Some clientOpts,
       [ConnectCall; SubscribeMultiple (subFilters (ds_qos m) topics) None],
       Ok (new_loop 0,
           (if ds_autoDelete m then [Unsubscribe topics] else [])
           ++ [DisconnectCall disconnectQuiesce]))
  end.

(** What SubscribeInitialize leaves in the persistent session of its client is found
    by Subscribe exactly if the provider names the client: without one every call
    makes a client of its own. *)
Lemma dynamic_session (m : dynamicsubscriber) uuid uuid' topic connect connect' completed sub_error :
  ds_closed m = false → uuid ≠ uuid' →
  ((SubscribeInitialize m uuid topic connect completed sub_error).1.1
     = (dynamic_Subscribe m uuid' topic connect').1.1
   ↔ ∃ p, ds_provider m = Some p ∧ p topic ≠ "").
Proof.
  intros Hc Hu. unfold SubscribeInitialize, dynamic_Subscribe. rewrite Hc.
  assert (∀ o o' : ClientOptions TLS, Some o = Some o' ↔ o = o') as Hsome
    by (intros; split; [by intros [= ->]|by intros ->]).
  assert (dynamic_options m uuid topic = dynamic_options m uuid' topic ↔
    ∃ p, ds_provider m = Some p ∧ p topic ≠ "") as H.
  { unfold dynamic_options, getClientID. destruct (ds_provider m) as [p|].
    - destruct (slen (p topic) =? 0) eqn:E; bools.
      + apply slen_zero in E. split; [|naive_solver].
        intros [=]; done.
      + split; [|done]. intros _. exists p. split; [done|]. intros Hp. by rewrite Hp in E.
    - split; [by intros [=]|naive_solver]. }
  destruct connect, connect'; cbn; by rewrite Hsome.
Qed.

(** ** Subscribing and stopping *)

Lemma parseSubs_nonempty topic : ∃ t ts, parseSubs topic = t :: ts.
Proof.
  unfold parseSubs. destruct (Split topic ",") as [|t ts] eqn:E; [|eauto].
  by apply Split_nonempty in E.
Qed.

(** A subscription of a comma-separated list of topics registers exactly
    these topics with the loop's handler, and the loop's stopper takes exactly
    them away again: the other subscriptions of the connection are as they
    were, and on an open connection the packets are one SUBSCRIBE and, for an
    auto-deleting subscriber, one UNSUBSCRIBE of the same topics. *)
Theorem Subscribe_then_stop m c isOpen uuid handler topic :
  conn_wf c → sub_closed m = false → topic ≠ "" →
  let topics := parseSubs topic in
  let id := match topics with [t] => t | _ => uuid end in
  active c !! id = None →
  ∃ c1 l s c2,
    Subscribe m c isOpen uuid handler topic = Done (Ok (c1, l, s)) ∧
    l = new_loop (sub_buffSize m) ∧
    active c1 = <[id := MkInfo topics (Some handler) (sub_qos m) false]> (active c) ∧
    run_stopper c1 isOpen s = Done c2 ∧ active c2 = active c ∧ conn_wf c2 ∧
    (isOpen = true → sub_autoDelete m = true →
     calls c2 = [Unsubscribe topics;
                 SubscribeMultiple (subFilters (sub_qos m) topics) (Some handler)] ++ calls c).
Proof.
  intros Hwf Hclosed Hne topics id Hid. unfold Subscribe. rewrite Hclosed.
  rewrite (proj2 (Z.eqb_neq _ 0)) by (by rewrite slen_zero).
  destruct (parseSubs_nonempty topic) as (t & ts & Hts).
  assert (id = if (1 <? length (t :: ts))%nat then uuid else t) as Heq.
  { unfold id, topics. rewrite Hts. by destruct ts. }
  unfold topics in *. rewrite Hts in *. clear topics.
  destruct (subscribe_spec c isOpen uuid (Some handler) (sub_qos m) t ts Hwf)
    as (c1 & -> & Hwf1 & Ha1 & Hc1 & _). rewrite <-Heq in Ha1 |- *.
  cbn [mbind outcome_bind fst snd run_stopper].
  destruct (unsubscribe_spec c1 isOpen id (sub_autoDelete m) Hwf1)
    as (c2 & Hun & Hwf2 & Ha2 & _ & Hc2 & _).
  exists c1, (new_loop (sub_buffSize m)), (StopUnsubscribe id (sub_autoDelete m)), c2.
  split_and!; [done|done|done|exact Hun| |done|].
  - rewrite Ha2, Ha1. by rewrite delete_insert_id.
  - intros -> Had. rewrite Hc2, Ha1, lookup_insert_eq, Hc1, Had. done.
Qed.
End subscriber.

Lemma Subscribe_then_stop_witness :
  ∃ c1 l s c2,
    Subscribe (NewSubscriber QosAtLeastOnce true) (sample_connection true) true "u" 1
      "event/#,e/#" = Done (Ok (c1, l, s)) ∧
    run_stopper c1 true s = Done c2 ∧
    calls c2 = [Unsubscribe ["event/#"; "e/#"];
                SubscribeMultiple (subFilters 1 ["event/#"; "e/#"]) (Some 1%nat)].
Proof.
  destruct (Subscribe_then_stop (NewSubscriber QosAtLeastOnce true) (sample_connection true) true
    "u" 1 "event/#,e/#" (proj1 (sample_connection_wf true)) eq_refl ltac:(done) eq_refl)
    as (c1 & l & s & c2 & H1 & _ & _ & H2 & _ & _ & H3).
  exists c1, l, s, c2. split; [exact H1|]. split; [exact H2|].
  rewrite (H3 eq_refl eq_refl). reflexivity.
Defined.
