(* ===== verification/Regexp.v ===== *)
(** * Regular expressions

    The part of Go's [regexp] the connector uses: literals, byte classes, greedy
    bounded and unbounded repetitions of a class, alternatives, captures and ".".
    A match is the leftmost one; among the matches that start there it is the
    one a backtracking search finds first (RE2's leftmost-first semantics).
    [run] is that search, with a continuation for what follows. *)

From S2P Require Import Prelude GoStrings.

Local Open Scope nat_scope.

(** ** UTF-8: the width of the first rune of a string *)

Definition byte_between (lo hi : nat) (c : ascii) : bool :=
  (lo <=? nat_of_ascii c) && (nat_of_ascii c <=? hi).

Definition continuation_byte : ascii → bool := byte_between 128 191.

(** An invalid sequence is one rune of one byte. *)
Definition rune_width (s : string) : nat :=
  match s with
  | String a (String b s') =>
      if byte_between 194 223 a && continuation_byte b then 2 else
      match s' with
      | String c s'' =>
          if ((byte_between 224 224 a && byte_between 160 191 b)
              || (byte_between 237 237 a && byte_between 128 159 b)
              || ((byte_between 225 236 a || byte_between 238 239 a)
                  && continuation_byte b)) && continuation_byte c then 3 else
          match s'' with
          | String d _ =>
              if ((byte_between 240 240 a && byte_between 144 191 b)
                  || (byte_between 244 244 a && byte_between 128 143 b)
                  || (byte_between 241 243 a && continuation_byte b))
                 && continuation_byte c && continuation_byte d then 4 else 1
          | EmptyString => 1
          end
      | EmptyString => 1
      end
  | _ => 1
  end.

(** ** Expressions *)

Definition class : Type := ascii → bool.

Definition digit_class : class := byte_between 48 57.        (* \d *)
Definition print_class : class := byte_between 32 126.       (* [[:print:]] *)
Definition qos_class : class := byte_between 48 50.          (* [0-2] *)

Inductive re :=
  | Lit (s : string)
  | Class (p : class)
  | Rep (p : class) (min : nat) (max : option nat)   (* greedy *)
  | Dot
  | Seq (r1 r2 : re)
  | Alt (r1 r2 : re)
  | Cap (i : nat) (r : re).

Definition captures : Type := list (nat * string).

Section search.
Context {A : Type}.

(** Greedy repetition: the longest first; at least [min], at most [max]. *)
Fixpoint run_rep (p : class) (min : nat) (max : option nat) (s : string)
    (k : string → option A) : option A :=
  let stop := if min =? 0 then k s else None in
  match max with
  | Some 0 => stop
  | _ =>
      match s with
      | String c s' =>
          if p c then
            match run_rep p (pred min) (pred <$> max) s' k with
            | Some x => Some x
            | None => stop
            end
          else stop
      | EmptyString => stop
      end
  end.

(** The bytes of [s] before its suffix [s']. *)
Definition consumed (s s' : string) : string :=
  take_bytes (String.length s - String.length s') s.

Fixpoint run (r : re) (s : string) (caps : captures)
    (k : string → captures → option A) : option A :=
  match r with
  | Lit l =>
      match strip_prefix l s with
      | Some s' => k s' caps
      | None => None
      end
  | Class p =>
      match s with
      | String c s' => if p c then k s' caps else None
      | EmptyString => None
      end
  | Rep p min max => run_rep p min max s (λ s', k s' caps)
  | Dot =>
      match s with
      | String c s' =>
          if Ascii.eqb c "010" then None else k (drop_bytes (rune_width s) s) caps
      | EmptyString => None
      end
  | Seq r1 r2 => run r1 s caps (λ s' caps', run r2 s' caps' k)
  | Alt r1 r2 =>
      match run r1 s caps k with
      | Some x => Some x
      | None => run r2 s caps k
      end
  | Cap i r => run r s caps (λ s' caps', k s' (caps' ++ [(i, consumed s s')]))
  end.
End search.

(** The leftmost match: its captures. *)
Fixpoint find (r : re) (s : string) : option captures :=
  match run r s [] (λ _ caps, Some caps) with
  | Some caps => Some caps
  | None =>
      match s with
      | EmptyString => None
      | String _ s' => find r s'
      end
  end.

(** The text of a capture group; a group that took no part is empty. *)
Definition group (i : nat) (caps : captures) : string :=
  match list_find (λ c, c.1 = i) (rev caps) with
  | Some (_, (_, s)) => s
  | None => ""
  end.

Fixpoint seqs (rs : list re) : re :=
  match rs with
  | [] => Lit ""
  | [r] => r
  | r :: rs => Seq r (seqs rs)
  end.

(** ** What a match is *)

Fixpoint all_bytes (p : class) (s : string) : bool :=
  match s with
  | EmptyString => true
  | String c s' => p c && all_bytes p s'
  end.

(** [matches r s s'] : [r] matches the bytes of [s] before the suffix [s']. *)
Inductive matches : re → string → string → Prop :=
  | m_lit l s' : matches (Lit l) (l +:+ s') s'
  | m_class p c s' : p c = true → matches (Class p) (String c s') s'
  | m_rep p min max a s' :
      all_bytes p a = true → min ≤ String.length a →
      (∀ n, max = Some n → String.length a ≤ n) →
      matches (Rep p min max) (a +:+ s') s'
  | m_dot c s : c ≠ "010"%char →
      matches Dot (String c s) (drop_bytes (rune_width (String c s)) (String c s))
  | m_seq r1 r2 s s1 s' : matches r1 s s1 → matches r2 s1 s' → matches (Seq r1 r2) s s'
  | m_alt_l r1 r2 s s' : matches r1 s s' → matches (Alt r1 r2) s s'
  | m_alt_r r1 r2 s s' : matches r2 s s' → matches (Alt r1 r2) s s'
  | m_cap i r s s' : matches r s s' → matches (Cap i r) s s'.

(** The captures of a match, in the order the groups close. *)
Inductive captured : re → string → string → captures → Prop :=
  | c_leaf r s s' :
      matches r s s' →
      match r with Seq _ _ | Alt _ _ | Cap _ _ => False | _ => True end →
      captured r s s' []
  | c_seq r1 r2 s s1 s' caps1 caps2 :
      captured r1 s s1 caps1 → captured r2 s1 s' caps2 →
      captured (Seq r1 r2) s s' (caps1 ++ caps2)
  | c_alt_l r1 r2 s s' caps : captured r1 s s' caps → captured (Alt r1 r2) s s' caps
  | c_alt_r r1 r2 s s' caps : captured r2 s s' caps → captured (Alt r1 r2) s s' caps
  | c_cap i r s s' caps :
      captured r s s' caps → captured (Cap i r) s s' (caps ++ [(i, consumed s s')]).

Lemma run_rep_sound {A} p min max s (k : string → option A) x :
  run_rep p min max s k = Some x →
  ∃ s', matches (Rep p min max) s s' ∧ k s' = Some x.
Proof.
  revert min max. induction s as [|c s IH]; intros min max H.
  - assert ((if min =? 0 then k "" else None) = Some x) as Hstop
      by (destruct max as [[|]|]; exact H).
    destruct (min =? 0) eqn:Em; [|done]. apply Nat.eqb_eq in Em as ->. exists "". split; [|done].
    apply (m_rep p 0 max "" ""); [done|simpl; lia|simpl; lia].
  - cbn [run_rep] in H.
    assert ((if min =? 0 then k (String c s) else None) = Some x →
      ∃ s', matches (Rep p min max) (String c s) s' ∧ k s' = Some x) as Hstop.
    { intros Hs. destruct (min =? 0) eqn:Em; [|done]. apply Nat.eqb_eq in Em as ->.
      exists (String c s). split; [|done].
      apply (m_rep p 0 max "" (String c s)); [done|simpl; lia|simpl; lia]. }
    assert (max = Some 0 ∨ max ≠ Some 0) as [->|Hmax] by (destruct max as [[|]|]; auto).
    { by apply Hstop. }
    assert ((if p c then
        match run_rep p (pred min) (pred <$> max) s k with
        | Some x => Some x
        | None => if min =? 0 then k (String c s) else None
        end else if min =? 0 then k (String c s) else None) = Some x) as H'.
    { by destruct max as [[|]|]. }
    destruct (p c) eqn:Ep; [|by apply Hstop].
    destruct (run_rep p (pred min) (pred <$> max) s k) eqn:Er; [|by apply Hstop].
    injection H' as ->. apply IH in Er as (s' & Hm & Hk). exists s'. split; [|done].
    inversion Hm as [| |? ? ? a ? Ha Hlo Hhi| | | | |]; subst.
    apply (m_rep p min max (String c a) s'); simpl.
    + by rewrite Ep.
    + lia.
    + intros n ->. destruct n; [done|]. specialize (Hhi n eq_refl). lia.
Qed.

Lemma run_sound {A} r s caps (k : string → captures → option A) x :
  run r s caps k = Some x →
  ∃ s' caps', captured r s s' caps' ∧ k s' (caps ++ caps') = Some x.
Proof.
  revert s caps k. induction r as [l|p|p lo hi| |r1 IH1 r2 IH2|r1 IH1 r2 IH2|i r IH];
    intros s caps k H; cbn [run] in H.
  - destruct (strip_prefix l s) as [s'|] eqn:E; [|done]. apply strip_prefix_spec in E as ->.
    exists s', []. rewrite app_nil_r. split; [|done]. constructor; [constructor|done].
  - destruct s as [|c s]; [done|]. destruct (p c) eqn:E; [|done].
    exists s, []. rewrite app_nil_r. split; [|done]. constructor; [by constructor|done].
  - apply run_rep_sound in H as (s' & Hm & Hk). exists s', []. rewrite app_nil_r.
    split; [|done]. by constructor.
  - destruct s as [|c s]; [done|]. destruct (Ascii.eqb_spec c "010") as [->|Hc]; [done|].
    eexists _, []. rewrite app_nil_r. split; [|exact H]. constructor; [by constructor|done].
  - apply IH1 in H as (s1 & caps1 & H1 & H). apply IH2 in H as (s' & caps2 & H2 & H).
    exists s', (caps1 ++ caps2). rewrite app_assoc. split; [by econstructor|done].
  - destruct (run r1 s caps k) eqn:E.
    + injection H as ->. apply IH1 in E as (s' & caps' & ? & ?).
      exists s', caps'. split; [by apply c_alt_l|done].
    + apply IH2 in H as (s' & caps' & ? & ?). exists s', caps'. split; [by apply c_alt_r|done].
  - apply IH in H as (s' & caps' & Hc & Hk). exists s', (caps' ++ [(i, consumed s s')]).
    rewrite app_assoc. split; [by constructor|done].
Qed.

Lemma find_sound r s caps :
  find r s = Some caps → ∃ before s1 s', s = before +:+ s1 ∧ captured r s1 s' caps.
Proof.
  induction s as [|c s IH]; intros H; cbn [find] in H;
    destruct (run r _ [] _) as [caps'|] eqn:E; simplify_eq.
  - apply run_sound in E as (s' & caps' & Hc & [= <-]). by exists "", "", s'.
  - apply run_sound in E as (s' & caps' & Hc & [= <-]). by exists "", (String c s), s'.
  - destruct (IH H) as (before & s1 & s' & -> & Hc). by exists (String c before), s1, s'.
Qed.

(** The search at the front of the string decides. *)
Lemma find_front r s caps :
  run r s [] (λ _ caps, Some caps) = Some caps → find r s = Some caps.
Proof. intros H. destruct s; cbn [find]; by rewrite H. Qed.

(** ** Reading matches *)

Lemma consumed_app a s' : consumed (a +:+ s') s' = a.
Proof. unfold consumed. rewrite slength_app, Nat.add_sub. apply take_bytes_app. Qed.

Lemma captured_matches r s s' caps : captured r s s' caps → matches r s s'.
Proof.
  intros H. induction H; [done|by econstructor|by apply m_alt_l|by apply m_alt_r|by constructor].
Qed.

(** The captures of the expressions without groups are empty. *)
Lemma captured_lit l s s' caps : captured (Lit l) s s' caps → s = l +:+ s' ∧ caps = [].
Proof. intros H. inversion H as [? ? ? Hm| | | |]; subst. by inversion Hm. Qed.

Lemma captured_rep p min max s s' caps :
  captured (Rep p min max) s s' caps →
  ∃ a, s = a +:+ s' ∧ all_bytes p a = true ∧ min ≤ String.length a ∧
    (∀ n, max = Some n → String.length a ≤ n) ∧ caps = [].
Proof. intros H. inversion H as [? ? ? Hm| | | |]; subst. inversion Hm; subst. eauto 10. Qed.

Lemma captured_seq r1 r2 s s' caps :
  captured (Seq r1 r2) s s' caps →
  ∃ s1 caps1 caps2, captured r1 s s1 caps1 ∧ captured r2 s1 s' caps2 ∧
    caps = caps1 ++ caps2.
Proof. intros H. inversion H as [? ? ? ? Hn| | | |]; subst; [done|]. eauto 10. Qed.

Lemma captured_alt r1 r2 s s' caps :
  captured (Alt r1 r2) s s' caps → captured r1 s s' caps ∨ captured r2 s s' caps.
Proof. intros H. inversion H as [? ? ? ? Hn| | | |]; subst; [done|auto..]. Qed.

Lemma captured_cap i r s s' caps :
  captured (Cap i r) s s' caps →
  ∃ caps', captured r s s' caps' ∧ caps = caps' ++ [(i, consumed s s')].
Proof. intros H. inversion H as [? ? ? ? Hn| | | |]; subst; [done|]. eauto. Qed.

(** Greedy repetition stops as late as what follows allows. *)
Lemma run_rep_greedy {A} p min max a b (k : string → option A) x :
  all_bytes p a = true → min ≤ String.length a →
  (∀ n, max = Some n → String.length a ≤ n) →
  (∀ a' b', b = a' +:+ b' → a' ≠ "" → all_bytes p a' = true → k b' = None) →
  k b = Some x → run_rep p min max (a +:+ b) k = Some x.
Proof.
  intros Ha Hlo Hhi Hlonger Hk. revert min max Hlo Hhi.
  assert (∀ b min max, (∀ a' b', b = a' +:+ b' → a' ≠ "" → all_bytes p a' = true → k b' = None) →
    (min = 0 → k b = None) → run_rep p min max b k = None) as Hnone.
  { clear. induction b as [|c b IH]; intros min max Hl H0.
    - assert ((if min =? 0 then k "" else None) = None) as Hs
        by (destruct (Nat.eqb_spec min 0); auto).
      by destruct max as [[|]|].
    - assert ((if min =? 0 then k (String c b) else None) = None) as Hs
        by (destruct (Nat.eqb_spec min 0); auto).
      assert (max = Some 0 ∨ max ≠ Some 0) as [->|Hm] by (destruct max as [[|]|]; auto); [done|].
      assert (run_rep p min max (String c b) k =
        if p c then match run_rep p (pred min) (pred <$> max) b k with
          | Some x => Some x
          | None => if min =? 0 then k (String c b) else None end
        else if min =? 0 then k (String c b) else None) as -> by (by destruct max as [[|]|]).
      destruct (p c) eqn:E; [|done]. rewrite IH; [done| |].
      + intros a' b' -> Hne Ha'. apply (Hl (String c a') b'); [done|done|]. cbn. by rewrite E.
      + intros _. apply (Hl (String c "") b); [done|done|]. cbn. by rewrite E. }
  induction a as [|c a IH]; intros min max Hlo Hhi.
  - cbn in Hlo. assert (min = 0) as -> by lia. change ("" +:+ b) with b.
    destruct b as [|c b]; [by destruct max as [[|]|]|].
    assert (run_rep p 0 max (String c b) k = match max with Some 0 => k (String c b) | _ =>
      if p c then match run_rep p 0 (pred <$> max) b k with
        | Some x => Some x | None => k (String c b) end else k (String c b) end) as ->
      by (by destruct max as [[|]|]).
    assert (p c = true → run_rep p 0 (pred <$> max) b k = None) as Hn.
    { intros E. apply Hnone.
      - intros a' b' -> Hne Ha'. apply (Hlonger (String c a') b'); [done|done|]. cbn. by rewrite E.
      - intros _. apply (Hlonger (String c "") b); [done|done|]. cbn. by rewrite E. }
    destruct max as [[|n]|]; [done|..]; destruct (p c) eqn:E; rewrite ?Hn by done; done.
  - cbn in Ha. apply andb_true_iff in Ha as [Hc Ha]. cbn in Hlo, Hhi |- *.
    rewrite Hc. specialize (IH Ha (pred min) (pred <$> max)).
    rewrite IH; [by destruct max as [[|n]|]; [specialize (Hhi 0 eq_refl); lia|..]|lia|].
    intros n Hn. destruct max as [n'|]; [|done]. cbn in Hn. specialize (Hhi n' eq_refl).
    simplify_eq. lia.
Qed.
