(* ===== verification/LogHandler.v ===== *)
(** * The Mosquitto log: routing/subscription.go

    The log handler reads the broker's log messages about subscriptions,
    unsubscriptions and disconnections of local clients, keeps the list of
    current subscriptions and tells the subscription manager.  The list is
    Go's [container/list]; the manager is used through the interface
    [SubscriptionManager]. *)

From S2P Require Import Prelude GoStrings Util Message Service Connection SubscriptionManager Regexp.

Local Open Scope Z_scope.

(** ** container/list

    A list of elements with an identity.  [Next] of an element that has been
    removed is nil: Remove clears the element's links. *)

Record glist (A : Type) := GList { nodes : list (nat * A); gl_next : nat }.
Arguments GList {A}. Arguments nodes {A} _. Arguments gl_next {A} _.

Section glist.
Context {A : Type}.
Implicit Types (l : glist A).

Definition list_New : glist A := GList [] 0.

Definition Front l : option nat := fst <$> head (nodes l).

Definition ElementValue l (e : nat) : option A :=
  (λ n, n.2.2) <$> list_find (λ n, n.1 = e) (nodes l).

Definition Next l (e : nat) : option nat :=
  '(i, _) ← list_find (λ n, n.1 = e) (nodes l);
  fst <$> nodes l !! S i.

Definition list_Remove l (e : nat) : glist A :=
  GList (filter (λ n, n.1 ≠ e) (nodes l)) (gl_next l).

Definition PushBack l (x : A) : glist A :=
  GList (nodes l ++ [(gl_next l, x)]) (S (gl_next l)).

Definition values l : list A := snd <$> nodes l.

(** Elements keep their identity. *)
Definition glist_wf l : Prop :=
  NoDup (nodes l).*1 ∧ Forall (λ n, (n.1 < gl_next l)%nat) (nodes l).
End glist.

(** ** Log messages *)

Inductive logMessageType := Subscription | UnSubscription | Disconnection | Termination.

(** [logTimestamp]: seconds since the epoch. *)
Record LogMessage := MkLogMessage {
  lm_ClientID : string;
  lm_Timestamp : Z;
  lm_Text : string;
  lm_Type : logMessageType;
}.

Definition TopicLogSubscribe : string := "$SYS/broker/log/M/subscribe".
Definition TopicLogUnsubscribe : string := "$SYS/broker/log/M/unsubscribe".
Definition TopicLogNoticeLevel : string := "$SYS/broker/log/N".
Definition topicLog : string := "$SYS/broker/log/#".

Definition re_time : re := Cap 1 (Rep digit_class 6 (Some 11%nat)).
Definition re_client : re := Cap 2 (Rep print_class 1 None).

(** [(c|command)//[[:print:]]+/(q|req)/#] *)
Definition re_topic (i : nat) : re :=
  Cap i (seqs [Cap (S i) (Alt (Lit "c") (Lit "command")); Lit "//";
               Rep print_class 1 None; Lit "/";
               Cap (S (S i)) (Alt (Lit "q") (Lit "req")); Lit "/#"]).

Definition subscribeRegexp : re :=
  seqs [re_time; Lit ": "; re_client; Lit " "; Cap 3 (Rep qos_class 1 (Some 1%nat));
        Lit " "; re_topic 4].

Definition unsubscribeRegexp : re :=
  seqs [re_time; Lit ": "; re_client; Lit " "; re_topic 3].

Definition disconnectedRegexp : re :=
  seqs [re_time; Lit ": Client "; re_client; Lit " "; Cap 3 (Seq (Lit "disconnected") Dot)].

Definition disconnectingRegexp : re :=
  seqs [re_time; Lit ": Socket error on client "; re_client; Lit ", ";
        Cap 3 (Seq (Lit "disconnecting") Dot)].

Definition closedConnectionRegexp : re :=
  seqs [re_time; Lit ": Client "; re_client; Lit " ";
        Cap 3 (Seq (Lit "closed its connection") Dot)].

(** [strconv.ParseInt]; [None] is an error. *)
Definition parseLogTimestamp (s : string) : option Z := Atoi s.

(** A match whose first group is a time makes a message. *)
Definition log_message (r : re) (text : nat) (ty : logMessageType) (message : string)
    : option LogMessage :=
  caps ← find r message;
  timestamp ← parseLogTimestamp (group 1 caps);
  Some (MkLogMessage (group 2 caps) timestamp (group text caps) ty).

Definition parseLogMessageNoticeLevel (message : string) : option LogMessage :=
  match log_message disconnectedRegexp 3 Disconnection message with
  | Some m => Some m
  | None =>
      match log_message disconnectingRegexp 3 Termination message with
      | Some m => Some m
      | None => log_message closedConnectionRegexp 3 Termination message
      end
  end.

Definition ParseLogMessage (topic message : string) : option LogMessage :=
  if bool_decide (topic = TopicLogSubscribe)
  then log_message subscribeRegexp 4 Subscription message
  else if bool_decide (topic = TopicLogUnsubscribe)
  then log_message unsubscribeRegexp 3 UnSubscription message
  else if bool_decide (topic = TopicLogNoticeLevel)
  then parseLogMessageNoticeLevel message
  else None.

(** ** The handler *)

Record SubscriptionItem := MkItem {
  it_ClientID : string;
  it_Timestamp : Z;
  it_TopicID : string;
  it_TopicReal : string;
}.

(** An item as JSON: [format] is the RFC 3339 form of a time, [json_string] the
    quoting of encoding/json. *)
Definition logTimestamp_MarshalJSON (format : Z → string) (t : Z) : string :=
  let quote := String.String "034" "" in quote +:+ format t +:+ quote.

Definition SubscriptionItem_String (format : Z → string) (json_string : string → string)
    (s : SubscriptionItem) : string :=
  let omitempty name value :=
    if slen value =? 0 then [] else [json_field json_string name (json_string value)] in
  json_object
    (omitempty "clientId" (it_ClientID s)
     ++ [json_field json_string "timestamp" (logTimestamp_MarshalJSON format (it_Timestamp s))]
     ++ omitempty "topicId" (it_TopicID s) ++ omitempty "topicReal" (it_TopicReal s)).

(** What the handler needs of the subscription manager: it counts a multiset of
    topics. *)
Class SubscriptionManager (M : Type) := {
  sm_Add : M → string → outcome (M * bool);
  sm_Remove : M → string → outcome (M * bool);
  sm_topics : M → gmultiset string → Prop;
  sm_allowed : string → Prop;
  sm_Add_law m X t :
    sm_topics m X → sm_allowed t →
    ∃ m' ok, sm_Add m t = Done (m', ok) ∧ sm_topics m' (X ⊎ {[+ t +]});
  sm_Remove_law m X t :
    sm_topics m X → sm_allowed t →
    ∃ m' ok, sm_Remove m t = Done (m', ok) ∧ sm_topics m' (X ∖ {[+ t +]});
}.

Section handler.
Context `{SubscriptionManager M}.

Record LogHandler := MkLogHandler {
  SubscriptionList : glist SubscriptionItem;
  Manager : M;
}.

Implicit Types (h : LogHandler) (l : glist SubscriptionItem).

Definition filterTopic (topic : string) : bool := Contains topic "/+/".

Definition addSubscription h (logMessage : LogMessage) : outcome LogHandler :=
  let topicNorm := NormalizeTopic (lm_Text logMessage) in
  if filterTopic topicNorm then Done h else
  let itemCandidate :=
    MkItem (lm_ClientID logMessage) (lm_Timestamp logMessage) topicNorm
      (lm_Text logMessage) in
  let l := PushBack (SubscriptionList h) itemCandidate in
  '(m, _) ← sm_Add (Manager h) topicNorm;
  Done (MkLogHandler l m).

(** The loop of removeSubscription; the fuel counts its turns. *)
Fixpoint find_loop (fuel : nat) l (e : option nat) (clientID text : string)
    : outcome (glist SubscriptionItem * bool) :=
  match fuel with
  | O => NoFuel
  | S fuel =>
      match e with
      | None => Done (l, false)
      | Some e =>
          i ← or_panic NilDereference (ElementValue l e);
          if bool_decide (it_ClientID i = clientID) && bool_decide (it_TopicReal i = text)
          then Done (list_Remove l e, true)
          else find_loop fuel l (Next l e) clientID text
      end
  end.

Definition removeSubscription h (logMessage : LogMessage) : outcome LogHandler :=
  let l := SubscriptionList h in
  '(l, found) ← find_loop (S (length (nodes l))) l (Front l)
                  (lm_ClientID logMessage) (lm_Text logMessage);
  if negb found then Done (MkLogHandler l (Manager h)) else
  let topicNorm := NormalizeTopic (lm_Text logMessage) in
  '(m, _) ← sm_Remove (Manager h) topicNorm;
  Done (MkLogHandler l m).

(** The loop of removeAllSubscriptions: [e.Next()] is taken of the removed
    element. *)
Fixpoint collect_loop (fuel : nat) l (e : option nat) (clientID : string)
    (subs : list SubscriptionItem) : outcome (glist SubscriptionItem * list SubscriptionItem) :=
  match fuel with
  | O => NoFuel
  | S fuel =>
      match e with
      | None => Done (l, subs)
      | Some e =>
          i ← or_panic NilDereference (ElementValue l e);
          if bool_decide (it_ClientID i = clientID)
          then let l := list_Remove l e in
               collect_loop fuel l (Next l e) clientID (subs ++ [i])
          else collect_loop fuel l (Next l e) clientID subs
      end
  end.

Fixpoint remove_each (m : M) (subs : list SubscriptionItem) : outcome M :=
  match subs with
  | [] => Done m
  | sub :: subs => '(m, _) ← sm_Remove m (it_TopicID sub); remove_each m subs
  end.

Definition removeAllSubscriptions h (clientID : string) : outcome LogHandler :=
  let l := SubscriptionList h in
  '(l, subs) ← collect_loop (S (length (nodes l))) l (Front l) clientID [];
  m ← remove_each (Manager h) subs;
  Done (MkLogHandler l m).

(** [localClientID] and [cloudClientID] are the connector's own clients. *)
Definition ProcessLogs (localClientID cloudClientID : string) h (msg : message)
    : outcome LogHandler :=
  match TopicFromCtx (Context msg) with
  | None => Done h
  | Some topic =>
      match ParseLogMessage topic (Payload msg) with
      | None => Done h
      | Some logMessage =>
          if bool_decide (lm_ClientID logMessage = localClientID) then Done h else
          if bool_decide (lm_ClientID logMessage = cloudClientID) then Done h else
          match lm_Type logMessage with
          | Subscription => addSubscription h logMessage
          | UnSubscription => removeSubscription h logMessage
          | Disconnection | Termination =>
              removeAllSubscriptions h (lm_ClientID logMessage)
          end
      end
  end.

(** CreateLogHandler: an empty list; the handler is routed from [topicLog]. *)
Definition CreateLogHandler (manager : M) : string * LogHandler :=
  (topicLog, MkLogHandler list_New manager).
End handler.
Arguments LogHandler M : clear implicits.

Example parse_subscribe :
  ParseLogMessage TopicLogSubscribe "1628691769: mosq-x 0 c//org.eclipse:kanto/q/#"
  = Some (MkLogMessage "mosq-x" 1628691769 "c//org.eclipse:kanto/q/#" Subscription).
Proof. vm_compute. reflexivity. Qed.

Example parse_disconnect :
  ParseLogMessage TopicLogNoticeLevel "1628691769: Socket error on client mosq-x, disconnecting."
  = Some (MkLogMessage "mosq-x" 1628691769 "disconnecting." Termination).
Proof. vm_compute. reflexivity. Qed.

(** ** The list *)

Section glist_lemmas.
Context {A : Type}.
Implicit Types (l : glist A) (pre post : list (nat * A)).

Lemma list_find_id pre e (x : A) post :
  NoDup (pre ++ (e, x) :: post).*1 →
  list_find (λ n, n.1 = e) (pre ++ (e, x) :: post) = Some (length pre, (e, x)).
Proof.
  intros Hnd. apply list_find_Some. split_and!; [|done|].
  - by rewrite lookup_app_r, Nat.sub_diag.
  - intros j [e' x'] Hj Hlt. cbn. intros ->. rewrite fmap_app in Hnd.
    apply NoDup_app in Hnd as (_ & Hd & _). rewrite lookup_app_l in Hj by done.
    apply (Hd e); [|cbn; by left]. apply list_elem_of_fmap. exists (e, x').
    split; [done|]. by eapply list_elem_of_lookup_2.
Qed.

Lemma ElementValue_at l pre e x post :
  nodes l = pre ++ (e, x) :: post → NoDup (nodes l).*1 → ElementValue l e = Some x.
Proof. intros Hl Hnd. unfold ElementValue. rewrite Hl in *. by rewrite list_find_id. Qed.

Lemma Next_at l pre e x post :
  nodes l = pre ++ (e, x) :: post → NoDup (nodes l).*1 → Next l e = fst <$> head post.
Proof.
  intros Hl Hnd. unfold Next. rewrite Hl in *. rewrite list_find_id by done.
  cbn [mbind option_bind]. rewrite lookup_app_r by lia.
  replace (S (length pre) - length pre)%nat with 1%nat by lia.
  by destruct post.
Qed.

(** The successor of a removed element is nil. *)
Lemma Next_removed l e : Next (list_Remove l e) e = None.
Proof.
  unfold Next, list_Remove. cbn [nodes].
  destruct (list_find _ _) as [[i n]|] eqn:E; [|done].
  apply list_find_Some in E as (Hi & He & _).
  apply list_elem_of_lookup_2, list_elem_of_filter in Hi. by destruct Hi.
Qed.

Lemma list_Remove_at l pre e x post :
  nodes l = pre ++ (e, x) :: post → NoDup (nodes l).*1 →
  nodes (list_Remove l e) = pre ++ post.
Proof.
  intros Hl Hnd. unfold list_Remove. cbn [nodes]. rewrite Hl in *.
  rewrite fmap_app in Hnd. apply NoDup_app in Hnd as (_ & Hd & [Hp _]%NoDup_cons).
  rewrite filter_app, filter_cons_False by (cbn; tauto).
  assert (∀ k : list (nat * A), e ∉ k.*1 → filter (λ n, n.1 ≠ e) k = k) as Hid.
  { induction k as [|[e' x'] k IH]; [done|]. rewrite fmap_cons, not_elem_of_cons.
    intros [Hne Hk]. rewrite filter_cons_True by (cbn in *; congruence). by rewrite IH. }
  rewrite !Hid; [done|done|]. intros Hin. apply (Hd e Hin). cbn. by left.
Qed.

Lemma glist_wf_PushBack l x : glist_wf l → glist_wf (PushBack l x).
Proof.
  intros [Hnd Hlt]. unfold glist_wf, PushBack. cbn [nodes gl_next]. split.
  - rewrite fmap_app. apply NoDup_app. split_and!; [done| |apply NoDup_singleton].
    intros e He Hs%list_elem_of_singleton. apply list_elem_of_fmap in He as ([e' x'] & -> & He).
    rewrite Forall_forall in Hlt. specialize (Hlt _ He). cbn in Hlt, Hs. lia.
  - apply Forall_app. split; [|by repeat constructor].
    eapply Forall_impl; [exact Hlt|]. cbn. lia.
Qed.

Lemma glist_wf_Remove l e : glist_wf l → glist_wf (list_Remove l e).
Proof.
  intros [Hnd Hlt]. unfold glist_wf, list_Remove. cbn [nodes gl_next]. split.
  - eapply sublist_NoDup; [exact Hnd|]. apply fmap_sublist, sublist_filter.
  - apply Forall_forall. intros n [_ Hn]%list_elem_of_filter.
    rewrite Forall_forall in Hlt. auto.
Qed.

Lemma values_PushBack l x : values (PushBack l x) = values l ++ [x].
Proof. unfold values, PushBack. cbn. by rewrite fmap_app. Qed.
End glist_lemmas.

(** The list without its first element that satisfies [P]. *)
Fixpoint remove_first {A} (P : A → bool) (l : list A) : list A :=
  match l with
  | [] => []
  | x :: l => if P x then l else x :: remove_first P l
  end.

Lemma remove_first_app {A} (P : A → bool) l1 x l2 :
  Forall (λ y, P y = false) l1 → P x = true → remove_first P (l1 ++ x :: l2) = l1 ++ l2.
Proof.
  intros Hall Hx. induction Hall as [|y l1 Hy Hall IH]; cbn; [by rewrite Hx|].
  by rewrite Hy, IH.
Qed.

Lemma remove_first_none {A} (P : A → bool) l :
  Forall (λ y, P y = false) l → remove_first P l = l.
Proof. induction 1 as [|y l Hy Hall IH]; cbn; [done|]. by rewrite Hy, IH. Qed.

(** Either the first hit, with what is before and after it, or none. *)
Lemma first_hit {A} (P : A → bool) (l : list A) :
  (∃ l1 x l2, l = l1 ++ x :: l2 ∧ Forall (λ y, P y = false) l1 ∧ P x = true) ∨
  Forall (λ y, P y = false) l.
Proof.
  induction l as [|y l [(l1 & x & l2 & -> & Hall & Hx)|Hall]].
  - by right; constructor.
  - left. destruct (P y) eqn:E; [by exists [], y, (l1 ++ x :: l2)|].
    exists (y :: l1), x, l2. split_and!; [done|by constructor|done].
  - destruct (P y) eqn:E; [left; by exists [], y, l|right; by constructor].
Qed.

Fixpoint first_of {A} (P : A → bool) (l : list A) : list A :=
  match l with
  | [] => []
  | x :: l => if P x then [x] else first_of P l
  end.

Lemma first_of_remove {A} (P : A → bool) l : l ≡ₚ first_of P l ++ remove_first P l.
Proof.
  induction l as [|x l IH]; cbn; [done|]. destruct (P x); cbn; [done|].
  rewrite IH at 1. by rewrite Permutation_middle.
Qed.

Lemma first_of_cases {A} (P : A → bool) l :
  (∃ x, first_of P l = [x] ∧ x ∈ l ∧ P x = true ∧ existsb P l = true) ∨
  first_of P l = [] ∧ existsb P l = false ∧ remove_first P l = l.
Proof.
  induction l as [|x l IH]; cbn; [by right|]. destruct (P x) eqn:E; cbn.
  - left. exists x. split_and!; [done|by left|done|done].
  - destruct IH as [(y & -> & ? & ? & ?)|(-> & -> & ->)]; [|by right].
    left. exists y. split_and!; [done|by right|done|done].
Qed.

Lemma remove_first_subset {A} (P : A → bool) l x : x ∈ remove_first P l → x ∈ l.
Proof. intros Hx. rewrite (first_of_remove P l). apply elem_of_app. by right. Qed.

Section loops.
Context `{SubscriptionManager M}.
Implicit Types (l : glist SubscriptionItem) (i : SubscriptionItem).

Definition same_subscription (clientID text : string) i : bool :=
  bool_decide (it_ClientID i = clientID) && bool_decide (it_TopicReal i = text).

Definition same_client (clientID : string) i : bool :=
  bool_decide (it_ClientID i = clientID).

Lemma find_loop_spec fuel l pre rest clientID text :
  nodes l = pre ++ rest → glist_wf l → (length rest < fuel)%nat →
  let P := same_subscription clientID text in
  ∃ l', find_loop fuel l (fst <$> head rest) clientID text
      = Done (l', existsb P rest.*2) ∧
    glist_wf l' ∧ values l' = pre.*2 ++ remove_first P rest.*2.
Proof.
  revert pre rest. induction fuel as [|fuel IH]; intros pre rest Hl Hwf Hf P; [lia|].
  destruct rest as [|[e i] rest]; cbn [head fmap option_fmap option_map find_loop].
  { exists l. unfold values. rewrite Hl, fmap_app. cbn. by split_and!. }
  cbn [fst]. rewrite (ElementValue_at l pre e i rest) by (done || apply Hwf).
  cbn [or_panic mbind outcome_bind]. fold (same_subscription clientID text i). fold (P i).
  cbn [list_fmap existsb remove_first snd]. destruct (P i) eqn:E; cbn [orb].
  - exists (list_Remove l e). split; [done|]. split; [by apply glist_wf_Remove|].
    unfold values. rewrite (list_Remove_at l pre e i rest) by (done || apply Hwf).
    by rewrite fmap_app.
  - rewrite (Next_at l pre e i rest) by (done || apply Hwf).
    destruct (IH (pre ++ [(e, i)]) rest) as (l' & Hr & Hwf' & Hv).
    { by rewrite <-app_assoc. } { done. } { cbn in Hf. lia. }
    exists l'. split; [exact Hr|]. split; [done|].
    rewrite Hv, fmap_app, <-app_assoc. done.
Qed.

Lemma collect_loop_spec fuel l pre rest clientID subs :
  nodes l = pre ++ rest → glist_wf l → (length rest < fuel)%nat →
  let P := same_client clientID in
  ∃ l', collect_loop fuel l (fst <$> head rest) clientID subs
      = Done (l', subs ++ first_of P rest.*2) ∧
    glist_wf l' ∧ values l' = pre.*2 ++ remove_first P rest.*2.
Proof.
  revert pre rest. induction fuel as [|fuel IH]; intros pre rest Hl Hwf Hf P; [lia|].
  destruct rest as [|[e i] rest]; cbn [head fmap option_fmap option_map collect_loop].
  { exists l. unfold values. rewrite Hl, fmap_app. cbn. by rewrite app_nil_r. }
  cbn [fst]. rewrite (ElementValue_at l pre e i rest) by (done || apply Hwf).
  cbn [or_panic mbind outcome_bind]. fold (same_client clientID i). fold (P i).
  cbn [list_fmap first_of remove_first snd]. destruct (P i) eqn:E.
  - exists (list_Remove l e). rewrite Next_removed.
    split; [by destruct fuel; [cbn in Hf; lia|]|]. split; [by apply glist_wf_Remove|].
    unfold values. rewrite (list_Remove_at l pre e i rest) by (done || apply Hwf).
    by rewrite fmap_app.
  - rewrite (Next_at l pre e i rest) by (done || apply Hwf).
    destruct (IH (pre ++ [(e, i)]) rest) as (l' & Hr & Hwf' & Hv).
    { by rewrite <-app_assoc. } { done. } { cbn in Hf. lia. }
    exists l'. split; [exact Hr|]. split; [done|].
    rewrite Hv, fmap_app, <-app_assoc. done.
Qed.

(** ** Consistency of the handler and its manager *)

(** The multiset of the topics of some items. *)
Definition topics_of (items : list SubscriptionItem) : gmultiset string :=
  list_to_set_disj (it_TopicID <$> items).

Record handler_inv (h : LogHandler M) : Prop := {
  hi_list : glist_wf (SubscriptionList h);
  hi_items i : i ∈ values (SubscriptionList h) →
    it_TopicID i = NormalizeTopic (it_TopicReal i) ∧ filterTopic (it_TopicID i) = false;
  hi_topics : sm_topics (Manager h) (topics_of (values (SubscriptionList h)));
}.

Hypothesis allowed : ∀ t, filterTopic t = false → sm_allowed t.

(** What a log message comes to for the manager: at most one of its operations. *)
Inductive local_op := Count (t : string) | Discount (t : string) | Keep.

Definition performs (m : M) (o : local_op) (m' : M) : Prop :=
  match o with
  | Count t => ∃ ok, sm_Add m t = Done (m', ok)
  | Discount t => ∃ ok, sm_Remove m t = Done (m', ok)
  | Keep => m' = m
  end.

Definition discount_first (P : SubscriptionItem → bool) (items : list SubscriptionItem)
    : local_op :=
  match first_of P items with i :: _ => Discount (it_TopicID i) | [] => Keep end.

Lemma addSubscription_spec h lm :
  handler_inv h →
  ∃ h', addSubscription h lm = Done h' ∧ handler_inv h' ∧
    values (SubscriptionList h') = values (SubscriptionList h) ++
      (if filterTopic (NormalizeTopic (lm_Text lm)) then []
       else [MkItem (lm_ClientID lm) (lm_Timestamp lm) (NormalizeTopic (lm_Text lm))
               (lm_Text lm)]) ∧
    performs (Manager h)
      (if filterTopic (NormalizeTopic (lm_Text lm)) then Keep
       else Count (NormalizeTopic (lm_Text lm))) (Manager h').
Proof.
  intros [Hl Hi Ht]. unfold addSubscription.
  set (t := NormalizeTopic (lm_Text lm)). destruct (filterTopic t) eqn:Hf.
  { exists h. rewrite app_nil_r. by split_and!. }
  destruct (sm_Add_law (Manager h) _ t Ht (allowed t Hf)) as (m' & ok & Hadd & Ht').
  rewrite Hadd. cbn [mbind outcome_bind]. eexists. split; [done|].
  cbn [SubscriptionList Manager performs].
  split; [|split; [apply values_PushBack|by exists ok]].
  split; cbn [SubscriptionList Manager].
  - by apply glist_wf_PushBack.
  - rewrite values_PushBack. intros i [Hin|Hin]%elem_of_app; [auto|].
    by apply list_elem_of_singleton in Hin as ->.
  - rewrite values_PushBack. unfold topics_of. rewrite fmap_app, list_to_set_disj_app.
    cbn [fmap list_fmap it_TopicID list_to_set_disj]. by rewrite (right_id_L ∅ (⊎)).
Qed.

Lemma topics_of_remove (P : SubscriptionItem → bool) items :
  topics_of items = topics_of (first_of P items) ⊎ topics_of (remove_first P items).
Proof.
  unfold topics_of. rewrite <-list_to_set_disj_app, <-fmap_app.
  apply list_to_set_disj_perm. by rewrite <-first_of_remove.
Qed.

Lemma topics_of_cancel i (X : gmultiset string) :
  (topics_of [i] ⊎ X) ∖ {[+ it_TopicID i +]} = X.
Proof.
  unfold topics_of. cbn [fmap list_fmap list_to_set_disj].
  rewrite (right_id_L ∅ (⊎)). multiset_solver.
Qed.

Lemma removeSubscription_spec h lm :
  handler_inv h →
  ∃ h', removeSubscription h lm = Done h' ∧ handler_inv h' ∧
    values (SubscriptionList h') =
      remove_first (same_subscription (lm_ClientID lm) (lm_Text lm))
        (values (SubscriptionList h)) ∧
    performs (Manager h) (discount_first (same_subscription (lm_ClientID lm) (lm_Text lm))
      (values (SubscriptionList h))) (Manager h').
Proof.
  intros [Hl Hi Ht]. unfold discount_first, removeSubscription.
  set (P := same_subscription (lm_ClientID lm) (lm_Text lm)).
  destruct (find_loop_spec (S (length (nodes (SubscriptionList h)))) (SubscriptionList h) []
    (nodes (SubscriptionList h)) (lm_ClientID lm) (lm_Text lm) eq_refl Hl ltac:(lia))
    as (l' & Hloop & Hl' & Hv).
  unfold Front. rewrite Hloop. cbn [mbind outcome_bind]. fold P in Hv |- *.
  change (nodes (SubscriptionList h)).*2 with (values (SubscriptionList h)) in *.
  cbn [app fmap list_fmap] in Hv.
  assert (∀ i, i ∈ values l' → i ∈ values (SubscriptionList h)) as Hsub.
  { intros i. rewrite Hv. apply remove_first_subset. }
  destruct (first_of_cases P (values (SubscriptionList h)))
    as [(i & Hfirst & Hin & HP & ->)|(Hfirst & -> & Hnone)]; cbn [negb]; rewrite Hfirst.
  - apply andb_true_iff in HP as [_ HP]. apply bool_decide_eq_true in HP.
    destruct (Hi i Hin) as [Hid Hfil]. rewrite <-HP, <-Hid.
    destruct (sm_Remove_law (Manager h) _ (it_TopicID i) Ht (allowed _ Hfil))
      as (m' & ok & Hrem & Ht').
    rewrite Hrem. cbn [mbind outcome_bind]. eexists. split; [done|].
    cbn [SubscriptionList Manager performs].
    split; [|split; [done|by exists ok]]. split; cbn [SubscriptionList Manager]; [done|auto|].
    rewrite Hv. rewrite (topics_of_remove P), Hfirst in Ht'.
    by rewrite topics_of_cancel in Ht'.
  - eexists. split; [done|]. cbn [SubscriptionList]. split; [|done].
    split; cbn [SubscriptionList Manager]; [done|auto|]. by rewrite Hv, Hnone.
Qed.

Lemma removeAllSubscriptions_spec h clientID :
  handler_inv h →
  ∃ h', removeAllSubscriptions h clientID = Done h' ∧ handler_inv h' ∧
    values (SubscriptionList h') =
      remove_first (same_client clientID) (values (SubscriptionList h)) ∧
    performs (Manager h) (discount_first (same_client clientID) (values (SubscriptionList h)))
      (Manager h').
Proof.
  intros [Hl Hi Ht]. unfold discount_first, removeAllSubscriptions. set (P := same_client clientID).
  destruct (collect_loop_spec (S (length (nodes (SubscriptionList h)))) (SubscriptionList h) []
    (nodes (SubscriptionList h)) clientID [] eq_refl Hl ltac:(lia))
    as (l' & Hloop & Hl' & Hv).
  unfold Front. rewrite Hloop. cbn [mbind outcome_bind app]. fold P in Hv |- *.
  change (nodes (SubscriptionList h)).*2 with (values (SubscriptionList h)) in *.
  cbn [app fmap list_fmap] in Hv.
  assert (∀ i, i ∈ values l' → i ∈ values (SubscriptionList h)) as Hsub.
  { intros i. rewrite Hv. apply remove_first_subset. }
  destruct (first_of_cases P (values (SubscriptionList h)))
    as [(i & Hfirst & Hin & HP & _)|(-> & _ & Hnone)].
  - rewrite Hfirst. cbn [remove_each]. destruct (Hi i Hin) as [Hid Hfil].
    destruct (sm_Remove_law (Manager h) _ (it_TopicID i) Ht (allowed _ Hfil))
      as (m' & ok & Hrem & Ht').
    rewrite Hrem. cbn [mbind outcome_bind]. eexists. split; [done|].
    cbn [SubscriptionList Manager performs].
    split; [|split; [done|by exists ok]]. split; cbn [SubscriptionList Manager]; [done|auto|].
    rewrite Hv. rewrite (topics_of_remove P), Hfirst in Ht'.
    by rewrite topics_of_cancel in Ht'.
  - cbn [remove_each mbind outcome_bind]. eexists. split; [done|].
    cbn [SubscriptionList]. split; [|done].
    split; cbn [SubscriptionList Manager]; [done|auto|]. by rewrite Hv, Hnone.
Qed.

(** ** Whole runs *)

(** What a log message does to the subscriptions. *)
Definition log_effect (localClientID cloudClientID : string)
    (items : list SubscriptionItem) (msg : message) : list SubscriptionItem :=
  match TopicFromCtx (Context msg) ≫= λ topic, ParseLogMessage topic (Payload msg) with
  | None => items
  | Some lm =>
      if decide (lm_ClientID lm = localClientID ∨ lm_ClientID lm = cloudClientID)
      then items else
      match lm_Type lm with
      | Subscription =>
          let t := NormalizeTopic (lm_Text lm) in
          if filterTopic t then items
          else items ++ [MkItem (lm_ClientID lm) (lm_Timestamp lm) t (lm_Text lm)]
      | UnSubscription =>
          remove_first (same_subscription (lm_ClientID lm) (lm_Text lm)) items
      | Disconnection | Termination => remove_first (same_client (lm_ClientID lm)) items
      end
  end.

(** What it does to the manager. *)
Definition log_op (localClientID cloudClientID : string)
    (items : list SubscriptionItem) (msg : message) : local_op :=
  match TopicFromCtx (Context msg) ≫= λ topic, ParseLogMessage topic (Payload msg) with
  | None => Keep
  | Some lm =>
      if decide (lm_ClientID lm = localClientID ∨ lm_ClientID lm = cloudClientID)
      then Keep else
      match lm_Type lm with
      | Subscription =>
          let t := NormalizeTopic (lm_Text lm) in if filterTopic t then Keep else Count t
      | UnSubscription =>
          discount_first (same_subscription (lm_ClientID lm) (lm_Text lm)) items
      | Disconnection | Termination => discount_first (same_client (lm_ClientID lm)) items
      end
  end.

Lemma ProcessLogs_spec localID cloudID h msg :
  handler_inv h →
  ∃ h', ProcessLogs localID cloudID h msg = Done h' ∧ handler_inv h' ∧
    values (SubscriptionList h') =
      log_effect localID cloudID (values (SubscriptionList h)) msg ∧
    performs (Manager h) (log_op localID cloudID (values (SubscriptionList h)) msg) (Manager h').
Proof.
  intros Hh. unfold ProcessLogs, log_effect, log_op.
  assert (∃ h', Done h = Done h' ∧ handler_inv h' ∧
    values (SubscriptionList h') = values (SubscriptionList h) ∧
    performs (Manager h) Keep (Manager h')) as Hsame by (by exists h).
  destruct (TopicFromCtx _) as [topic|]; cbn [mbind option_bind]; [|done].
  destruct (ParseLogMessage _ _) as [lm|]; [|done].
  case_bool_decide as Hc1; [by rewrite !decide_True by (by left)|].
  case_bool_decide as Hc2; [by rewrite !decide_True by (by right)|].
  rewrite !decide_False by tauto. destruct (lm_Type lm).
  - destruct (addSubscription_spec h lm Hh) as (h' & -> & Hinv & Hv & Hm).
    exists h'. split_and!; [done..| |done]. rewrite Hv. cbv zeta. case_match; [|done].
    by rewrite app_nil_r.
  - by apply removeSubscription_spec.
  - by apply removeAllSubscriptions_spec.
  - by apply removeAllSubscriptions_spec.
Qed.

Fixpoint process_all (localID cloudID : string) (h : LogHandler M) (msgs : list message)
    : outcome (LogHandler M) :=
  match msgs with
  | [] => Done h
  | msg :: msgs => h ← ProcessLogs localID cloudID h msg; process_all localID cloudID h msgs
  end.

(** C9.  Whatever the broker logs, the handler returns, and the topics the
    subscription manager counts are exactly those of the listed subscriptions
    (with their multiplicities); the connector's own clients and filters with
    "+" levels are never listed. *)
Theorem ProcessLogs_consistent localID cloudID m msgs :
  sm_topics m ∅ →
  ∃ h', process_all localID cloudID (CreateLogHandler m).2 msgs = Done h' ∧
    let items := values (SubscriptionList h') in
    items = foldl (log_effect localID cloudID) [] msgs ∧
    sm_topics (Manager h') (topics_of items) ∧
    ∀ i, i ∈ items → it_TopicID i = NormalizeTopic (it_TopicReal i) ∧
      filterTopic (it_TopicID i) = false.
Proof.
  intros Hm.
  assert (handler_inv (CreateLogHandler m).2) as Hinv.
  { split; cbn; [by split; constructor|by intros i ?%not_elem_of_nil|done]. }
  assert (∀ h, handler_inv h → ∃ h', process_all localID cloudID h msgs = Done h' ∧
    handler_inv h' ∧ values (SubscriptionList h') =
      foldl (log_effect localID cloudID) (values (SubscriptionList h)) msgs) as Hall.
  { clear Hm Hinv m. induction msgs as [|msg msgs IH]; intros h Hinv; cbn [process_all foldl].
    { by exists h. }
    destruct (ProcessLogs_spec localID cloudID h msg Hinv) as (h1 & -> & Hinv1 & Hv1 & _).
    cbn [mbind outcome_bind]. destruct (IH h1 Hinv1) as (h' & ? & ? & ?).
    exists h'. by rewrite <-Hv1. }
  destruct (Hall _ Hinv) as (h' & Hp & [_ Hi Ht] & Hv).
  exists h'. split; [done|]. cbv zeta. by split_and!.
Qed.

(** removeAllSubscriptions removes only the first subscription of the client
    that disconnected: a client that had more keeps the others listed, and their
    topics counted by the manager. *)
Theorem removeAllSubscriptions_removes_one h clientID i items1 items2 :
  handler_inv h →
  values (SubscriptionList h) = items1 ++ i :: items2 →
  it_ClientID i = clientID → Forall (λ j, it_ClientID j ≠ clientID) items1 →
  ∃ h', removeAllSubscriptions h clientID = Done h' ∧
    values (SubscriptionList h') = items1 ++ items2 ∧
    sm_topics (Manager h') (topics_of (items1 ++ items2)) ∧
    ∀ j, j ∈ items2 → it_ClientID j = clientID → it_TopicID j ∈ topics_of (items1 ++ items2).
Proof.
  intros Hh Hv Hc Hfirst.
  destruct (removeAllSubscriptions_spec h clientID Hh) as (h' & Hr & [_ _ Ht] & Hv' & _).
  rewrite Hv, (remove_first_app (same_client clientID)) in Hv'.
  - exists h'. rewrite Hv' in Ht. split_and!; [done|done|done|].
    intros j Hj _. unfold topics_of. apply elem_of_list_to_set_disj, list_elem_of_fmap.
    exists j. split; [done|]. apply elem_of_app. by right.
  - eapply Forall_impl; [exact Hfirst|]. intros j Hj. by apply bool_decide_eq_false.
  - by apply bool_decide_eq_true.
Qed.
End loops.

(** ** The subscription manager of SubscriptionManager.v *)

(** The bridge (manager, connection and session) keeps the promises, when the
    connection's other subscribers [F] are told apart from the topics. *)
Definition bridge_add {TLS} (b : bridge TLS) (t : string) : outcome (bridge TLS * bool) :=
  r ← bridge_run b (OAdd t); Done (r.1, default false r.2).

Definition bridge_remove {TLS} (b : bridge TLS) (t : string) : outcome (bridge TLS * bool) :=
  r ← bridge_run b (ORemove t); Done (r.1, default false r.2).

#[local] Obligation Tactic := idtac.

#[export] Program Instance bridge_SubscriptionManager TLS (F : gmap string subscriptioninfo)
    : SubscriptionManager (bridge TLS) := {
  sm_Add := bridge_add;
  sm_Remove := bridge_remove;
  sm_topics b X := ∃ s A, bridge_inv F b s A ∧ sp_topics s = X;
  sm_allowed := foreign_free F;
}.
Next Obligation.
  intros TLS F b X t ([ts fwd up missed] & A & Hb & <-) Ht.
  destruct (run_OAdd F b _ A t Hb Ht) as (b' & A' & Hr & Hb' & _).
  unfold bridge_add. rewrite Hr. cbn. do 2 eexists. split; [done|]. by eexists _, A'.
Qed.
Next Obligation.
  intros TLS F b X t ([ts fwd up missed] & A & Hb & <-) Ht.
  destruct (run_ORemove F b _ A t Hb Ht) as (b' & A' & Hr & Hb' & _).
  unfold bridge_remove. rewrite Hr. cbn. do 2 eexists. split; [done|]. by eexists _, A'.
Qed.

Definition sample_bridge : bridge unit :=
  MkBridge NewSubscriptionManager (sample_connection true) false ∅.

Lemma sample_bridge_inv : bridge_inv ∅ sample_bridge nothing_counted ∅.
Proof. apply bridge_inv_start; apply sample_connection_wf. Qed.

Definition sample_log (topic payload : string) : message :=
  SetContext (NewMessage "1" payload) (SetTopicToCtx Background topic).

Definition sample_logs : list message :=
  [sample_log TopicLogSubscribe "1628691769: mosq-x 0 c//ns:gw/q/#";
   sample_log TopicLogSubscribe "1628691769: mosq-x 0 command//ns:dev/req/#"].

Lemma sample_allowed t : foreign_free ∅ t.
Proof. split; [done|]. intros id sub Hs. by rewrite lookup_empty in Hs. Qed.

Lemma ProcessLogs_consistent_witness :
  ∃ h', process_all (H:=bridge_SubscriptionManager unit ∅) "connector" "cloud"
    (CreateLogHandler sample_bridge).2 sample_logs = Done h' ∧
    it_TopicID <$> values (SubscriptionList h') =
      ["command//ns:gw/req/#"; "command//ns:dev/req/#"].
Proof.
  destruct (ProcessLogs_consistent (H:=bridge_SubscriptionManager unit ∅)
    (λ t _, sample_allowed t) "connector" "cloud" sample_bridge sample_logs) as (h' & Hp & Hv & _).
  { eexists _, _. split; [apply sample_bridge_inv|done]. }
  exists h'. split; [exact Hp|]. rewrite Hv. vm_compute. reflexivity.
Defined.

Lemma removeAllSubscriptions_removes_one_witness :
  ∃ h h', handler_inv (H:=bridge_SubscriptionManager unit ∅) h ∧
    it_ClientID <$> values (SubscriptionList h) = ["mosq-x"; "mosq-x"] ∧
    removeAllSubscriptions (H:=bridge_SubscriptionManager unit ∅) h "mosq-x" = Done h' ∧
    it_TopicID <$> values (SubscriptionList h') = ["command//ns:dev/req/#"].
Proof.
  assert (handler_inv (H:=bridge_SubscriptionManager unit ∅) (CreateLogHandler sample_bridge).2)
    as H0.
  { split; cbn; [by split; constructor|by intros i ?%not_elem_of_nil|].
    eexists _, _. split; [apply sample_bridge_inv|done]. }
  set (m1 := MkLogMessage "mosq-x" 1 "c//ns:gw/q/#" Subscription).
  set (m2 := MkLogMessage "mosq-x" 1 "command//ns:dev/req/#" Subscription).
  destruct (addSubscription_spec (H:=bridge_SubscriptionManager unit ∅)
    (λ t _, sample_allowed t) _ m1 H0) as (h1 & _ & H1 & V1 & _).
  destruct (addSubscription_spec (H:=bridge_SubscriptionManager unit ∅)
    (λ t _, sample_allowed t) _ m2 H1) as (h2 & _ & H2 & V2 & _).
  rewrite V1 in V2.
  destruct (removeAllSubscriptions_removes_one (H:=bridge_SubscriptionManager unit ∅)
    (λ t _, sample_allowed t) h2 "mosq-x"
    (MkItem "mosq-x" 1 "command//ns:gw/req/#" "c//ns:gw/q/#") []
    [MkItem "mosq-x" 1 "command//ns:dev/req/#" "command//ns:dev/req/#"] H2)
    as (h3 & Hr & Hv & _).
  - rewrite V2. vm_compute. reflexivity.
  - reflexivity.
  - constructor.
  - exists h2, h3. split; [exact H2|]. split; [rewrite V2; vm_compute; reflexivity|].
    split; [exact Hr|]. rewrite Hv. reflexivity.
Defined.

(** ** Parsing *)

Lemma re_topic_captured i s s' caps :
  captured (re_topic i) s s' caps →
  ∃ p r device, s = cmd_filter p r device +:+ s' ∧ all_bytes print_class device = true ∧
    device ≠ "" ∧ ∃ x y, caps = [(S i, x); (S (S i), y); (i, cmd_filter p r device)].
Proof.
  intros (caps' & H & ->)%captured_cap. cbn [seqs] in H.
  apply captured_seq in H as (s1 & c1 & d1 & H1 & H & ->).
  apply captured_seq in H as (s2 & c2 & d2 & [Hs2 ->]%captured_lit & H & ->).
  apply captured_seq in H as (s3 & c3 & d3 & (a & Hs3 & Ha & Hlen & _ & ->)%captured_rep & H & ->).
  apply captured_seq in H as (s4 & c4 & d4 & [Hs4 ->]%captured_lit & H & ->).
  apply captured_seq in H as (s5 & c5 & d5 & H5 & [Hs5 ->]%captured_lit & ->).
  apply captured_cap in H1 as (e1 & H1 & ->). apply captured_cap in H5 as (e5 & H5 & ->).
  assert (∃ p, s = form_prefix p +:+ s2 ∧ e1 = []) as (p & Hs & ->).
  { apply captured_alt in H1 as [[-> ->]%captured_lit|[-> ->]%captured_lit]; subst s1.
    - by exists Short.
    - by exists Long. }
  assert (∃ r, String "/" s4 = form_request r +:+ s' ∧ e5 = []) as (r & Hr & ->).
  { apply captured_alt in H5 as [[-> ->]%captured_lit|[-> ->]%captured_lit]; subst s5.
    - by exists Short.
    - by exists Long. }
  assert (s = cmd_filter p r a +:+ s') as Hs'.
  { unfold cmd_filter. rewrite !sapp_assoc, <-Hr. subst s2 s3. done. }
  exists p, r, a. split_and!; [done|done|by intros ->; cbn in Hlen; lia|].
  rewrite Hs', consumed_app. cbn [app]. eauto.
Qed.

(** What both kinds of subscription messages look like. *)
Lemma log_prefix_captured text rest s s' caps :
  captured (Seq re_time (Seq (Lit text) (Seq re_client rest))) s s' caps →
  ∃ t id s1 caps', captured rest s1 s' caps' ∧ all_bytes digit_class t = true ∧
    all_bytes print_class id = true ∧ id ≠ "" ∧ caps = (1%nat, t) :: (2%nat, id) :: caps'.
Proof.
  intros (s1 & c1 & d1 & (e1 & H1 & ->)%captured_cap & H & ->)%captured_seq.
  apply captured_rep in H1 as (t & -> & Ht & _ & _ & ->).
  apply captured_seq in H as (s2 & c2 & d2 & [-> ->]%captured_lit & H & ->).
  apply captured_seq in H as (s3 & c3 & d3 & (e3 & H3 & ->)%captured_cap & H & ->).
  apply captured_rep in H3 as (id & -> & Hid & Hlen & _ & ->).
  exists t, id, s3, d3. rewrite !consumed_app.
  split_and!; [done|done|done|by intros ->; cbn in Hlen; lia|done].
Qed.

(** C32.  Every subscription or unsubscription message that is parsed is about a
    command filter: its text is one of the four spellings of the filter of a
    non-empty printable device, which NormalizeTopic turns into the long form
    (if the device has no "#"), and its client id is non-empty. *)
Theorem ParseLogMessage_filters topic payload lm :
  ParseLogMessage topic payload = Some lm →
  lm_Type lm = Subscription ∨ lm_Type lm = UnSubscription →
  ∃ p r device, lm_Text lm = cmd_filter p r device ∧
    all_bytes print_class device = true ∧ device ≠ "" ∧ lm_ClientID lm ≠ "" ∧
    (byte_free "#" device = true →
     NormalizeTopic (lm_Text lm) = cmd_filter Long Long device).
Proof.
  assert (∀ re text ty, log_message re text ty payload = Some lm →
    lm_Type lm = ty ∧ ∃ before s s' caps, payload = before +:+ s ∧ captured re s s' caps ∧
      lm_ClientID lm = group 2 caps ∧ lm_Text lm = group text caps) as Hlog.
  { intros re text ty H. unfold log_message in H.
    destruct (find re payload) as [caps|] eqn:E; [|done]. cbn [mbind option_bind] in H.
    destruct (parseLogTimestamp _); [|done]. cbn in H. simplify_eq. cbn. split; [done|].
    apply find_sound in E as (b & s & s' & ? & ?). by exists b, s, s', caps. }
  unfold ParseLogMessage. intros H Hty. repeat case_bool_decide.
  - apply Hlog in H as (_ & _ & s & s' & caps & _ & Hc & Hid & Htext).
    apply log_prefix_captured in Hc as (t & id & s1 & caps' & Hc & _ & _ & Hne & ->).
    cbn [seqs] in Hc.
    apply captured_seq in Hc as (s2 & c2 & d2 & [-> ->]%captured_lit & Hc & ->).
    apply captured_seq in Hc as (s3 & c3 & d3 & (e3 & H3 & ->)%captured_cap & Hc & ->).
    apply captured_rep in H3 as (q & -> & _ & _ & _ & ->).
    apply captured_seq in Hc as (s4 & c4 & d4 & [-> ->]%captured_lit & Hc & ->).
    apply re_topic_captured in Hc as (p & r & dev & -> & Hdev & Hdne & x & y & ->).
    exists p, r, dev. rewrite Hid, Htext. cbn.
    split_and!; [done|done|done|done|by apply NormalizeTopic_filter].
  - apply Hlog in H as (_ & _ & s & s' & caps & _ & Hc & Hid & Htext).
    apply log_prefix_captured in Hc as (t & id & s1 & caps' & Hc & _ & _ & Hne & ->).
    cbn [seqs] in Hc.
    apply captured_seq in Hc as (s2 & c2 & d2 & [-> ->]%captured_lit & Hc & ->).
    apply re_topic_captured in Hc as (p & r & dev & -> & Hdev & Hdne & x & y & ->).
    exists p, r, dev. rewrite Hid, Htext. cbn.
    split_and!; [done|done|done|done|by apply NormalizeTopic_filter].
  - exfalso. unfold parseLogMessageNoticeLevel in H.
    assert (∀ re ty, ty = Disconnection ∨ ty = Termination →
      log_message re 3 ty payload ≠ Some lm) as Hno.
    { intros re ty Hd [E _]%Hlog. rewrite E in Hty. destruct Hty, Hd; congruence. }
    destruct (log_message disconnectedRegexp 3 _ payload) eqn:E1.
    { rewrite H in E1. apply (Hno disconnectedRegexp Disconnection); auto. }
    destruct (log_message disconnectingRegexp 3 _ payload) eqn:E2.
    { rewrite H in E2. apply (Hno disconnectingRegexp Termination); auto. }
    apply (Hno closedConnectionRegexp Termination); auto.
  - done.
Qed.

Lemma consumed_all s : consumed s "" = s.
Proof. rewrite <-(sapp_nil_r s) at 1. apply consumed_app. Qed.

(** Nothing but the whole end of a filter looks like one. *)
Lemma filter_cut r a' b' :
  form_request r = a' +:+ b' → a' ≠ "" →
  strip_prefix "/q/#" b' = None ∧ strip_prefix "/req/#" b' = None.
Proof.
  intros H Hne. rewrite <-(drop_bytes_app a' b'), <-H.
  destruct a' as [|c a']; [done|]. cbn [String.length].
  generalize (String.length a'). intros n. clear.
  assert (∀ m, drop_bytes m "" = "") as Hnil by by intros [].
  destruct r; do 5 (destruct n as [|n]; [done|]); cbn; by rewrite ?Hnil.
Qed.

Definition re_request (i : nat) : re :=
  Seq (Lit "/") (Seq (Cap i (Alt (Lit "q") (Lit "req"))) (Lit "/#")).

Lemma run_filter_end {A} i r caps (k : string → captures → option A) :
  (∀ y, is_Some (k "" (caps ++ [(i, y)]))) →
  ∃ y, run (re_request i) (form_request r) caps k = k "" (caps ++ [(i, y)]) .
Proof.
  intros Hk. destruct r; cbn.
  - exists "q". destruct (Hk "q") as [x ->]. done.
  - exists "req". done.
Qed.

Lemma run_filter_cut {A} i s0 caps (k : string → captures → option A) :
  strip_prefix "/q/#" s0 = None → strip_prefix "/req/#" s0 = None →
  run (re_request i) s0 caps k = None.
Proof.
  intros Hq Hr. unfold re_request. cbn [run].
  destruct (strip_prefix "/" s0) as [s1|] eqn:E1; [|done].
  apply strip_prefix_spec in E1 as ->.
  assert (strip_prefix "q" s1 ≫= strip_prefix "/#" = None) as Hq'.
  { destruct (strip_prefix "q" s1) as [s2|] eqn:E2; [|done]. cbn.
    destruct (strip_prefix "/#" s2) as [s3|] eqn:E3; [|done].
    apply strip_prefix_spec in E2 as ->. apply strip_prefix_spec in E3 as ->. done. }
  assert (strip_prefix "req" s1 ≫= strip_prefix "/#" = None) as Hr'.
  { destruct (strip_prefix "req" s1) as [s2|] eqn:E2; [|done]. cbn.
    destruct (strip_prefix "/#" s2) as [s3|] eqn:E3; [|done].
    apply strip_prefix_spec in E2 as ->. apply strip_prefix_spec in E3 as ->. done. }
  unfold mbind, option_bind in Hq', Hr'.
  destruct (strip_prefix "q" s1) as [s2|]; cbv beta iota in Hq'; [rewrite Hq'|];
    destruct (strip_prefix "req" s1) as [s3|]; cbv beta iota in Hr'; rewrite ?Hr'; done.
Qed.

Lemma run_topic {A} i p r device caps (k : string → captures → option A) :
  all_bytes print_class device = true → device ≠ "" →
  (∀ y z, is_Some (k "" (caps ++ [(S i, y); (S (S i), z); (i, cmd_filter p r device)]))) →
  ∃ y z, run (re_topic i) (cmd_filter p r device) caps k =
    k "" (caps ++ [(S i, y); (S (S i), z); (i, cmd_filter p r device)]).
Proof.
  intros Hdev Hne Hk.
  set (k' := λ s' caps', k s' (caps' ++ [(i, consumed (cmd_filter p r device) s')])).
  assert (∀ y z, k' "" ((caps ++ [(S i, y)]) ++ [(S (S i), z)]) =
    k "" (caps ++ [(S i, y); (S (S i), z); (i, cmd_filter p r device)])) as Hk'.
  { intros y z. unfold k'. by rewrite consumed_all, <-!app_assoc. }
  assert (∀ y, ∃ z,
    run (Seq (Rep print_class 1 None) (re_request (S (S i))))
      (device +:+ form_request r) (caps ++ [(S i, y)]) k' =
    k' "" ((caps ++ [(S i, y)]) ++ [(S (S i), z)])) as Hend.
  { intros y. destruct (run_filter_end (S (S i)) r (caps ++ [(S i, y)]) k') as [z Hz].
    { intros z. rewrite Hk'. apply Hk. }
    exists z. destruct (Hk y z) as [x Hx]. rewrite <-Hk' in Hx. rewrite Hx.
    change (run (Seq ?r1 ?r2) ?s ?c k') with (run_rep print_class 1 None s (λ s', run r2 s' c k')).
    apply run_rep_greedy; [done| |done| |by rewrite Hz].
    - destruct device; [done|cbn; lia].
    - intros a' b' Hb Hnea _. destruct (filter_cut r a' b' Hb Hnea).
      by apply run_filter_cut. }
  change (run (re_topic i) (cmd_filter p r device) caps k) with
    (run (Seq (Cap (S i) (Alt (Lit "c") (Lit "command"))) (Seq (Lit "//")
      (Seq (Rep print_class 1 None) (re_request (S (S i))))))
      (cmd_filter p r device) caps k').
  clearbody k'. unfold cmd_filter at 1. revert Hend.
  generalize (Seq (Rep print_class 1 None) (re_request (S (S i)))). intros tail Hend.
  destruct p; cbn -[consumed];
    match goal with |- context [consumed ?a ?b] =>
      destruct (Hend (consumed a b)) as [z ->]; exists (consumed a b), z;
      destruct (Hk (consumed a b) z) as [x Hx]
    end; by rewrite Hk', ?Hx.
Qed.

(** What follows the client id of a subscription message. *)
Definition re_after_client : re :=
  Seq (Lit " ") (Seq (Cap 3 (Rep qos_class 1 (Some 1%nat))) (Seq (Lit " ") (re_topic 4))).

Lemma run_blocked {A} l r s caps (k : string → captures → option A) :
  strip_prefix l s = None → run (Seq (Lit l) r) s caps k = None.
Proof. intros H. cbn [run]. by rewrite H. Qed.

Lemma byte_free_blocked s : byte_free " " s = true → strip_prefix " " s = None.
Proof.
  intros Hs. destruct (strip_prefix " " s) as [s'|] eqn:E; [|done].
  apply strip_prefix_spec in E as ->. done.
Qed.

Lemma byte_free_suffix c a b : byte_free c (a +:+ b) = true → byte_free c b = true.
Proof. rewrite byte_free_app. intros H. by bools. Qed.

(** The client id cannot stretch into what follows it. *)
Lemma after_client_cut {A} q topic a' b' caps (k : string → captures → option A) :
  qos_class q = true → byte_free " " topic = true →
  (∀ c s, topic = String c s → qos_class c = false) →
  String " " (String q (String " " topic)) = a' +:+ b' → a' ≠ "" →
  run re_after_client b' caps k = None.
Proof.
  intros Hq Hfree Htop H Hne. destruct a' as [|c1 a']; [done|]. injection H as _ H.
  unfold re_after_client. destruct a' as [|c2 a'].
  { cbn in H. subst b'. apply run_blocked. cbn [strip_prefix].
    destruct (Ascii.eqb_spec " " q) as [<-|]; done. }
  injection H as _ H. destruct a' as [|c3 a'].
  { cbn in H. subst b'. cbn [run strip_prefix]. rewrite Ascii.eqb_refl.
    destruct topic as [|c s]; [done|]. cbn [run_rep]. by rewrite (Htop c s). }
  injection H as _ H. subst topic. apply run_blocked, byte_free_blocked.
  by eapply byte_free_suffix.
Qed.

Lemma run_after_client {A} q p r device caps (k : string → captures → option A) :
  qos_class q = true → all_bytes print_class device = true → device ≠ "" →
  (∀ y z w, is_Some (k "" ((caps ++ [(3%nat, w)]) ++
     [(5%nat, y); (6%nat, z); (4%nat, cmd_filter p r device)]))) →
  ∃ y z w, run re_after_client (String " " (String q (String " " (cmd_filter p r device)))) caps k
    = k "" ((caps ++ [(3%nat, w)]) ++ [(5%nat, y); (6%nat, z); (4%nat, cmd_filter p r device)]).
Proof.
  intros Hq Hdev Hne Hk.
  set (s := String q (String " " (cmd_filter p r device))).
  set (w := consumed s (String " " (cmd_filter p r device))).
  destruct (run_topic 4 p r device (caps ++ [(3%nat, w)]) k Hdev Hne (λ y z, Hk y z w))
    as (y & z & Hrun).
  exists y, z, w. rewrite <-Hrun.
  destruct (Hk y z w) as [x Hx]. rewrite <-Hrun in Hx.
  change (run re_after_client (String " " s) caps k)
    with (run_rep qos_class 1 (Some 1%nat) s
      (λ s', run (Seq (Lit " ") (re_topic 4)) s' (caps ++ [(3%nat, consumed s s')]) k)).
  unfold s at 1. cbn [run_rep pred Nat.eqb fmap option_fmap option_map]. rewrite Hq.
  change (run (Seq (Lit " ") (re_topic 4)) (String " " (cmd_filter p r device)) ?caps k)
    with (run (re_topic 4) (cmd_filter p r device) caps k).
  fold w. by rewrite Hx.
Qed.

Lemma cmd_filter_free p r device :
  byte_free " " device = true → byte_free " " (cmd_filter p r device) = true.
Proof.
  intros H. unfold cmd_filter. rewrite !byte_free_app, H.
  by destruct p, r.
Qed.

(** C31.  A broker's message "time: client qos filter" about a command filter is
    read back: time, client id (which may itself contain blanks) and filter, for
    every printable client and device, the device without blanks. *)
Theorem ParseLogMessage_subscribe time n id q p r device :
  all_bytes digit_class time = true → (6 <= String.length time <= 11)%nat →
  Atoi time = Some n →
  all_bytes print_class id = true → id ≠ "" → qos_class q = true →
  all_bytes print_class device = true → byte_free " " device = true → device ≠ "" →
  ParseLogMessage TopicLogSubscribe
    (time +:+ ": " +:+ id +:+ " " +:+ String q (" " +:+ cmd_filter p r device))
  = Some (MkLogMessage id n (cmd_filter p r device) Subscription).
Proof.
  intros Ht Hlen Hn Hid Hidne Hq Hdev Hfree Hdne.
  set (topic := cmd_filter p r device).
  set (after := String " " (String q (String " " topic))).
  change (" " +:+ String q (" " +:+ topic)) with after.
  assert (∃ caps, find subscribeRegexp (time +:+ ": " +:+ id +:+ after) = Some caps ∧
    group 1 caps = time ∧ group 2 caps = id ∧ group 4 caps = topic) as (caps & Hf & H1 & H2 & H4).
  2:{ unfold ParseLogMessage. rewrite bool_decide_eq_true_2 by done.
      unfold log_message. rewrite Hf. cbn [mbind option_bind]. rewrite H1, H2, H4.
      unfold parseLogTimestamp. by rewrite Hn. }
  set (payload := time +:+ ": " +:+ id +:+ after).
  set (caps2 := [(1%nat, time); (2%nat, id)]).
  destruct (run_after_client q p r device caps2 (λ _ caps, Some caps) Hq Hdev Hdne)
    as (y & z & w & Hafter); [eauto|].
  exists ((caps2 ++ [(3%nat, w)]) ++ [(5%nat, y); (6%nat, z); (4%nat, topic)]).
  split; [|done]. apply find_front. fold after topic in Hafter. fold topic.
  set (k2 := λ (s' : string) (caps : captures), Some caps) in *.
  change (run subscribeRegexp payload [] k2) with
    (run_rep digit_class 6 (Some 11%nat) payload (λ s1,
       run (Seq (Lit ": ") (Seq re_client re_after_client)) s1
         [(1%nat, consumed payload s1)] k2)).
  apply run_rep_greedy; [done|lia|by intros ? [= <-]; lia| |].
  - intros a' b' H Hne Ha. destruct a' as [|c a']; [done|]. injection H as <- _. done.
  - unfold payload. rewrite consumed_app.
    change (run (Seq (Lit ": ") (Seq re_client re_after_client)) (": " +:+ id +:+ after) ?caps k2)
      with (run_rep print_class 1 None (id +:+ after) (λ s2,
        run re_after_client s2 (caps ++ [(2%nat, consumed (id +:+ after) s2)]) k2)).
    apply run_rep_greedy; [done| |done| |].
    + destruct id; [done|cbn; lia].
    + intros a' b' H Hne _. eapply after_client_cut; [done| | |exact H|done].
      * by apply cmd_filter_free.
      * intros c s Hc. unfold topic, cmd_filter in Hc. destruct p; by injection Hc as <- _.
    + rewrite consumed_app. exact Hafter.
Qed.

Lemma ParseLogMessage_subscribe_witness :
  ParseLogMessage TopicLogSubscribe "1628691769: client 7 0 c//ns:gw/q/#"
  = Some (MkLogMessage "client 7" 1628691769 "c//ns:gw/q/#" Subscription).
Proof.
  exact (ParseLogMessage_subscribe "1628691769" 1628691769 "client 7" "0" Short Short "ns:gw"
    eq_refl ltac:(cbn; lia) eq_refl eq_refl ltac:(done) eq_refl eq_refl eq_refl ltac:(done)).
Defined.

Lemma ParseLogMessage_filters_witness :
  ∃ p r device, "c//ns:gw/q/#" = cmd_filter p r device ∧ device ≠ "".
Proof.
  destruct (ParseLogMessage_filters TopicLogSubscribe "1628691769: client 7 0 c//ns:gw/q/#"
    (MkLogMessage "client 7" 1628691769 "c//ns:gw/q/#" Subscription))
    as (p & r & device & H & _ & Hne & _).
  - vm_compute. reflexivity.
  - by left.
  - exists p, r, device. split; [exact H|exact Hne].
Defined.
