(* ===== verification/EventLoop.v ===== *)
(** * The application's event loop: cmd/connector/app/eventloop.go

    EventLoop with the provisioning file watcher of util/file_watcher.go, and
    app.Run around it: how launchers follow each other.  What the select of the
    loop receives, in order, is a list of events; a loop whose list ends is
    still waiting.  The file watcher of fsnotify, the launcher's own Run and the
    creation of the local connection are third-party or separate code: what they
    answer is an argument. *)

From S2P Require Import Prelude GoStrings Util Message Connection Service Reconnect.

Local Open Scope Z_scope.

(** ** path/filepath, on Unix *)

Fixpoint trim_slashes (l : list string) : list string :=
  match l with
  | "" :: l => trim_slashes l
  | l => l
  end.

(** The last element of the path, without trailing separators. *)
Definition Base (path : string) : string :=
  if slen path =? 0 then "." else
  match trim_slashes (rev (Split path slash)) with
  | [] => "/"
  | e :: _ => e
  end.

(** The lexical rules of [filepath.Clean] on the elements of a path; the stack
    [out] holds the elements kept, the last one first. *)
Fixpoint clean_elems (rooted : bool) (out : list string) (l : list string) : list string :=
  match l with
  | [] => rev out
  | e :: l =>
      if decide (e = "" ∨ e = ".") then clean_elems rooted out l else
      if decide (e = "..") then
        match out with
        | [] => clean_elems rooted (if rooted then [] else [".."]) l
        | e' :: out' =>
            if decide (e' = "..") then clean_elems rooted (".." :: out) l
            else clean_elems rooted out' l
        end
      else clean_elems rooted (e :: out) l
  end.

Definition Clean (path : string) : string :=
  if slen path =? 0 then "." else
  let rooted := HasPrefix path "/" in
  let body := Join (clean_elems rooted [] (Split path slash)) "/" in
  if rooted then "/" +:+ body else if slen body =? 0 then "." else body.

(** The path up to and with its last separator, cleaned. *)
Definition Dir (path : string) : string :=
  match rev (Split path slash) with
  | _ :: ((_ :: _) as parts) => Clean (Join (rev ("" :: parts)) "/")
  | _ => Clean ""
  end.

(** ** SetupProvisioningWatcher *)

(** [NewWatcher] and [Add] are fsnotify's; the second component tells whether
    the watcher that was created has been closed again. *)
Definition SetupProvisioningWatcher (stat : string → stat_answer)
    (NewWatcher : option error) (Add : string → option error) (path : string)
    : result string * bool :=
  match ValidPath stat path with
  | Err err => (Err (Wrap err ("invalid path '" +:+ path +:+ "'")), false)
  | Ok _ =>
      match NewWatcher with
      | Some err => (Err (Wrap err "cannot create watcher"), false)
      | None =>
          let configDir := Dir path in
          match Add configDir with
          | Some err => (Err (Wrap err ("path '" +:+ path +:+ "' watch error")), true)
          | None => (Ok configDir, false)
          end
      end
  end.

(** ** EventLoop *)

(** A notification of the file watcher; the bits of [Op] are fsnotify's. *)
Record fs_event := MkFsEvent { ev_Name : string; ev_Op : Z }.

Inductive loop_event :=
  | OnSignal
  | OnDone
  | OnWatch (e : fs_event)
  | OnTick.

Inductive loop_end := LoopStopped | LoopWaiting.

Section event_loop.
Context {W : Type}.
Variable launch : fs_event → W → W.

(** [events] holds what arrived since the last tick, the latest first. *)
Fixpoint EventLoop_loop (provisioningName : string) (events : list fs_event)
    (env : list loop_event) (w : W) : W * loop_end :=
  match env with
  | [] => (w, LoopWaiting)
  | OnSignal :: _ => (w, LoopStopped)
  | OnDone :: _ => (w, LoopStopped)
  | OnWatch event :: env =>
      let events :=
        if decide (Base (ev_Name event) = provisioningName) then event :: events
        else events in
      EventLoop_loop provisioningName events env w
  | OnTick :: env =>
      match events with
      | [] => EventLoop_loop provisioningName events env w
      | event :: _ => EventLoop_loop provisioningName [] env (launch event w)
      end
  end.

Definition EventLoop (fileName : string) (env : list loop_event) (w : W) : W * loop_end :=
  EventLoop_loop (Base fileName) [] env w.
End event_loop.

(** ** The specification of the loop: the windows between ticks *)

(** The events before the loop is told to stop, and whether it is. *)
Fixpoint until_stop (env : list loop_event) : list loop_event * loop_end :=
  match env with
  | [] => ([], LoopWaiting)
  | OnSignal :: _ | OnDone :: _ => ([], LoopStopped)
  | e :: env => let '(l, s) := until_stop env in (e :: l, s)
  end.

(** The file events of each window that a tick has closed, in order; [w] is the
    open window. *)
Fixpoint windows (w : list fs_event) (env : list loop_event) : list (list fs_event) :=
  match env with
  | [] => []
  | OnWatch e :: env => windows (w ++ [e]) env
  | OnTick :: env => w :: windows [] env
  | _ :: env => windows w env
  end.

(** One launch per window with an event of the file: the last of them. *)
Definition launches (name : string) (ws : list (list fs_event)) : list fs_event :=
  omap (λ w, last (filter (λ e, Base (ev_Name e) = name) w)) ws.

Lemma EventLoop_loop_windows {W} (launch : fs_event → W → W) name w0 env w :
  EventLoop_loop launch name (rev (filter (λ e, Base (ev_Name e) = name) w0)) env w
  = (foldl (flip launch) w (launches name (windows w0 (until_stop env).1)),
     (until_stop env).2).
Proof.
  revert w0 w. induction env as [|[| |e|] env IH]; intros w0 w; [done..| |].
  - specialize (IH (w0 ++ [e]) w).
    cbn [EventLoop_loop until_stop]. destruct (until_stop env) as [l s].
    cbn [fst snd windows] in *. rewrite <-IH, filter_app. case_decide as He.
    + rewrite filter_cons_True by done. by rewrite rev_app_distr.
    + rewrite filter_cons_False by done. by rewrite app_nil_r.
  - pose proof (IH [] w) as IH0. specialize (IH []).
    cbn [EventLoop_loop until_stop]. destruct (until_stop env) as [l s].
    cbn [fst snd windows launches omap list_omap] in *. unfold launches in *. cbn.
    set (f := filter _ w0). clearbody f.
    destruct f as [|e f _] using rev_ind; [exact IH0|].
    rewrite rev_app_distr, last_snoc. cbn [rev app]. apply IH.
Qed.

(** C24.  The event loop debounces the events of the provisioning file: until it
    is told to stop, every tick that closes a window with events of this file
    launches once, with the last of them, whatever the number of events; windows
    without such an event launch nothing, and what the open window holds when
    the loop stops is not launched. *)
Theorem EventLoop_debounces {W} (launch : fs_event → W → W) fileName env w :
  EventLoop launch fileName env w
  = (foldl (flip launch) w (launches (Base fileName) (windows [] (until_stop env).1)),
     (until_stop env).2).
Proof. exact (EventLoop_loop_windows launch (Base fileName) [] env w). Qed.

(** ** app.Run: one launcher after the other *)

(** A launcher as the interface holds it: nil, or a pointer that may be nil. *)
Inductive launcher_value := NilLauncher | LauncherPtr (ptr : option nat).

(** What Run does to the world, in order. *)
Inductive app_action :=
  | StatusSent (cause : string)
  | LauncherRun (id : nat) (cleanSession : bool) (err : option error)
  | LauncherStop (id : nat)
  | LocalDisconnected
  | RouterClosed
  | WatcherClosed
  | StatusPubClosed.

Record app_state := MkApp {
  launcher : launcher_value;
  next_launcher : nat;
  trace : list app_action;        (* latest first *)
}.

Section run.
(** What the Run of each launcher returns. *)
Variable launcher_run : nat → bool → option error.
(** fsnotify's Create, Write, Chmod, Remove and Rename. *)
Variables Create Write Chmod Remove Rename : Z.

Definition fsOp : Z :=
  Z.lor (Z.lor (Z.lor (Z.lor Create Write) Chmod) Remove) Rename.

Definition act (a : app_action) (s : app_state) : app_state :=
  MkApp (launcher s) (next_launcher s) (a :: trace s).

Definition stopLauncher (l : launcher_value) (s : app_state) : app_state :=
  match l with
  | NilLauncher => s
  | LauncherPtr None => s
  | LauncherPtr (Some id) => act (LauncherStop id) s
  end.

(** A new launcher of the factory, run; it is forgotten when that fails. *)
Definition start_launcher (cleanSession : bool) (s : app_state) : app_state :=
  let id := next_launcher s in
  let err := launcher_run id cleanSession in
  MkApp (match err with Some _ => NilLauncher | None => LauncherPtr (Some id) end) (S id)
    (LauncherRun id cleanSession err :: trace s).

(** The closure handed to the event loop. *)
Definition launch (e : fs_event) (s : app_state) : app_state :=
  if Z.land (ev_Op e) fsOp =? 0 then s else
  start_launcher true (stopLauncher (launcher s) s).


(** ** What Run promises about its launchers *)












End run.

