(* ===== verification/Base64.v ===== *)
(** * Standard base64: the part of encoding/base64 the provisioning file needs

    StdEncoding.DecodeString, and the encoder it is proved to invert. *)

From S2P Require Import Prelude GoStrings.

Local Open Scope Z_scope.

Definition alphabet : string :=
  "ABCDEFGHIJKLMNOPQRSTUVWXYZabcdefghijklmnopqrstuvwxyz0123456789+/".

Definition pad : ascii := "=".

Definition byte_val (c : ascii) : Z := Z.of_nat (nat_of_ascii c).
Definition byte_of (z : Z) : ascii := ascii_of_nat (Z.to_nat z).

(** The value of a digit. *)
Definition decode_digit (c : ascii) : option Z :=
  let i := IndexByte alphabet c in
  if 0 <=? i then Some i else None.

(** The digit of a value below 64. *)
Definition encode_digit (z : Z) : ascii :=
  default pad (String.get (Z.to_nat z) alphabet).

(** Line breaks are skipped wherever they stand. *)
Fixpoint skip_newlines (s : string) : string :=
  match s with
  | "" => ""
  | String c s =>
      if Ascii.eqb c "010" || Ascii.eqb c "013" then skip_newlines s
      else String c (skip_newlines s)
  end.

(** Quanta of four digits; only the last one may be padded, and the bits a
    padded quantum leaves over are not checked. *)
Fixpoint decode_quanta (s : string) : option string :=
  match s with
  | "" => Some ""
  | String a (String b (String c (String d rest))) =>
      va ← decode_digit a;
      vb ← decode_digit b;
      let b1 := byte_of (va * 4 + vb / 16) in
      if Ascii.eqb c pad then
        if Ascii.eqb d pad && (slen rest =? 0) then Some (String b1 "") else None
      else
        vc ← decode_digit c;
        let b2 := byte_of (vb `mod` 16 * 16 + vc / 4) in
        if Ascii.eqb d pad then
          if slen rest =? 0 then Some (String b1 (String b2 "")) else None
        else
          vd ← decode_digit d;
          let b3 := byte_of (vc `mod` 4 * 64 + vd) in
          r ← decode_quanta rest;
          Some (String b1 (String b2 (String b3 r)))
  | _ => None
  end.

Definition DecodeString (s : string) : option string := decode_quanta (skip_newlines s).

Fixpoint EncodeToString (s : string) : string :=
  match s with
  | "" => ""
  | String x "" =>
      let x := byte_val x in
      String (encode_digit (x / 4)) (String (encode_digit (x `mod` 4 * 16))
        (String pad (String pad "")))
  | String x (String y "") =>
      let x := byte_val x in let y := byte_val y in
      String (encode_digit (x / 4)) (String (encode_digit (x `mod` 4 * 16 + y / 16))
        (String (encode_digit (y `mod` 16 * 4)) (String pad "")))
  | String x (String y (String z s)) =>
      let x := byte_val x in let y := byte_val y in let z := byte_val z in
      String (encode_digit (x / 4)) (String (encode_digit (x `mod` 4 * 16 + y / 16))
        (String (encode_digit (y `mod` 16 * 4 + z / 64))
          (String (encode_digit (z `mod` 64)) (EncodeToString s))))
  end.

(** ** Digits *)

Definition digit_ok (z : Z) : bool :=
  bool_decide (decode_digit (encode_digit z) = Some z)
  && negb (Ascii.eqb (encode_digit z) pad)
  && negb (Ascii.eqb (encode_digit z) "010") && negb (Ascii.eqb (encode_digit z) "013").

Lemma digits_ok : Forall (λ z, digit_ok z = true) (seqZ 0 64).
Proof. repeat constructor. Qed.

#[local] Opaque decode_digit encode_digit.

Lemma digit_ok_below z : 0 <= z < 64 → digit_ok z = true.
Proof.
  intros Hz. pose proof (proj1 (Forall_forall _ _) digits_ok z) as H.
  apply H, elem_of_seqZ. lia.
Qed.

Lemma digit_facts z :
  0 <= z < 64 →
  decode_digit (encode_digit z) = Some z ∧
  Ascii.eqb (encode_digit z) pad = false ∧
  Ascii.eqb (encode_digit z) "010" || Ascii.eqb (encode_digit z) "013" = false.
Proof.
  intros Hz%digit_ok_below. unfold digit_ok in Hz.
  apply andb_true_iff in Hz as [Hz H4]. apply andb_true_iff in Hz as [Hz H3].
  apply andb_true_iff in Hz as [H1 H2].
  apply negb_true_iff in H2, H3, H4. apply bool_decide_eq_true in H1.
  split; [exact H1|]. split; [exact H2|]. by apply orb_false_iff.
Qed.

Lemma byte_val_range c : 0 <= byte_val c < 256.
Proof. unfold byte_val. pose proof (nat_ascii_bounded c). lia. Qed.

Lemma byte_of_val c z : z = byte_val c → byte_of z = c.
Proof. intros ->. unfold byte_of, byte_val. rewrite Nat2Z.id. apply ascii_nat_embedding. Qed.

Ltac digits :=
  repeat match goal with
    | |- context [decode_digit (encode_digit ?z)] =>
        rewrite (proj1 (digit_facts z ltac:(Z.div_mod_to_equations; lia)))
    | |- context [Ascii.eqb (encode_digit ?z) pad] =>
        rewrite (proj1 (proj2 (digit_facts z ltac:(Z.div_mod_to_equations; lia))))
    | |- context [Ascii.eqb (encode_digit ?z) "010" || _] =>
        rewrite (proj2 (proj2 (digit_facts z ltac:(Z.div_mod_to_equations; lia))))
    end.

Lemma string_ind3 (P : string → Prop) :
  P "" → (∀ x, P (String x "")) → (∀ x y, P (String x (String y ""))) →
  (∀ x y z s, P s → P (String x (String y (String z s)))) → ∀ s, P s.
Proof.
  intros H0 H1 H2 H3. fix IH 1. intros [|x [|y [|z s]]]; [done|apply H1|apply H2|].
  apply H3, IH.
Qed.

Lemma skip_newlines_encode s : skip_newlines (EncodeToString s) = EncodeToString s.
Proof.
  induction s as [|x|x y|x y z s IH] using string_ind3; cbn [EncodeToString].
  - done.
  - pose proof (byte_val_range x). cbn [skip_newlines]. digits. done.
  - pose proof (byte_val_range x). pose proof (byte_val_range y).
    cbn [skip_newlines]. digits. done.
  - pose proof (byte_val_range x). pose proof (byte_val_range y).
    pose proof (byte_val_range z). cbn [skip_newlines]. digits. by rewrite IH.
Qed.

Lemma decode_quanta_encode s : decode_quanta (EncodeToString s) = Some s.
Proof.
  induction s as [|x|x y|x y z s IH] using string_ind3; cbn [EncodeToString].
  - done.
  - pose proof (byte_val_range x). cbn [decode_quanta]. digits. cbn.
    by rewrite (byte_of_val x) by (Z.div_mod_to_equations; lia).
  - pose proof (byte_val_range x). pose proof (byte_val_range y).
    cbn [decode_quanta]. digits. cbn [mbind option_bind Ascii.eqb pad Bool.eqb slen].
    rewrite (byte_of_val x), (byte_of_val y) by (Z.div_mod_to_equations; lia). done.
  - pose proof (byte_val_range x). pose proof (byte_val_range y).
    pose proof (byte_val_range z). cbn [decode_quanta]. digits.
    cbn [mbind option_bind]. digits. rewrite IH. cbn [mbind option_bind]. digits.
    cbn [mbind option_bind].
    rewrite (byte_of_val x), (byte_of_val y), (byte_of_val z) by (Z.div_mod_to_equations; lia).
    done.
Qed.

(** Every password survives its encoding. *)
Lemma DecodeString_EncodeToString s : DecodeString (EncodeToString s) = Some s.
Proof. unfold DecodeString. rewrite skip_newlines_encode. apply decode_quanta_encode. Qed.
