(* ===== verification/Logger.v ===== *)
(** * The logger: logger/level.go, logger/logger.go, logger/exporter.go and the
    settings of logger/config.go

    A level is Go's [int]; the levels are ERROR to TRACE, but any number can be
    stored in the type. *)

From stdpp Require Import sorting.
From S2P Require Import Prelude GoStrings.

Local Open Scope Z_scope.

Module Log.

Definition LogLevel : Type := Z.

Definition ERROR : LogLevel := 1.
Definition WARN : LogLevel := 2.
Definition INFO : LogLevel := 3.
Definition DEBUG : LogLevel := 4.
Definition TRACE : LogLevel := 5.

Definition Enabled (l level : LogLevel) : bool := level <=? l.

Definition String (l : LogLevel) : string :=
  if l =? WARN then "WARN" else
  if l =? INFO then "INFO" else
  if l =? DEBUG then "DEBUG" else
  if l =? TRACE then "TRACE" else "ERROR".

Definition StringAligned (l : LogLevel) : string :=
  if l =? WARN then "WARN  " else
  if l =? INFO then "INFO  " else
  if l =? DEBUG then "DEBUG " else
  if l =? TRACE then "TRACE " else "ERROR ".

(** [strings.ToUpper] as far as its result is compared with ASCII words: the
    ASCII letters, and the two characters outside ASCII (dotless i and long s)
    whose upper case is in it.  Every other character outside ASCII stays
    outside. *)
Definition upper_byte (c : ascii) : ascii :=
  let n := nat_of_ascii c in
  if (97 <=? n)%nat && (n <=? 122)%nat then ascii_of_nat (n - 32) else c.

Fixpoint ToUpper (s : string) : string :=
  match s with
  | "" => ""
  | String.String c s' =>
      match s' with
      | String.String d s'' =>
          if Ascii.eqb c "196" && Ascii.eqb d "177" then String.String "I" (ToUpper s'')
          else if Ascii.eqb c "197" && Ascii.eqb d "191"
          then String.String "S" (ToUpper s'')
          else String.String (upper_byte c) (ToUpper s')
      | "" => String.String (upper_byte c) ""
      end
  end.

Definition ParseLogLevel (level : string) : LogLevel :=
  let u := ToUpper level in
  if String.eqb u "WARN" then WARN else
  if String.eqb u "INFO" then INFO else
  if String.eqb u "DEBUG" then DEBUG else
  if String.eqb u "TRACE" then TRACE else ERROR.

(** A level in JSON: its name.  [json_string] quotes a string, and [unmarshal]
    reads a JSON value, [None] when it is no string. *)
Definition MarshalJSON (json_string : string → string) (l : LogLevel) : string :=
  json_string (String l).

Definition UnmarshalJSON (unmarshal : string → result (option string)) (b : string)
    : result LogLevel :=
  match unmarshal b with
  | Err err => Err err
  | Ok None => Err (Prelude.Errorf "unrecognized log level")
  | Ok (Some value) => Ok (ParseLogLevel value)
  end.

Record LogSettings := MkLogSettings {
  LogFile : string;
  LogLevelOf : LogLevel;
  LogFileSize : Z;
  LogFileCount : Z;
  LogFileMaxAge : Z;
}.

Definition Validate (c : LogSettings) : option error :=
  if LogFileSize c <=? 0 then Some (Sentinel "logFileSize <= 0") else
  if LogFileCount c <=? 0 then Some (Sentinel "logFileCount <= 0") else
  if LogFileMaxAge c <? 0 then Some (Sentinel "logFileMaxAge < 0") else None.

(** ** Facts *)

(** A level is printed with a name that is read back as this level, also with a
    number that is no level, which is printed and read as ERROR. *)
Lemma ParseLogLevel_String l :
  ParseLogLevel (String l) = if (WARN <=? l) && (l <=? TRACE) then l else ERROR.
Proof.
  unfold String. destruct (l =? WARN) eqn:E2; [bools; by subst|].
  destruct (l =? INFO) eqn:E3; [bools; by subst|].
  destruct (l =? DEBUG) eqn:E4; [bools; by subst|].
  destruct (l =? TRACE) eqn:E5; [bools; by subst|].
  unfold WARN, INFO, DEBUG, TRACE in *. bools.
  destruct (_ && _) eqn:E; [|done]. bools. lia.
Qed.

(** A level survives JSON. *)
Lemma UnmarshalJSON_MarshalJSON json_string unmarshal l :
  unmarshal (json_string (String l)) = Ok (Some (String l)) →
  UnmarshalJSON unmarshal (MarshalJSON json_string l)
  = Ok (if (WARN <=? l) && (l <=? TRACE) then l else ERROR).
Proof. unfold UnmarshalJSON, MarshalJSON. intros ->. by rewrite ParseLogLevel_String. Qed.

Lemma ParseLogLevel_range s : ERROR <= ParseLogLevel s <= TRACE.
Proof. unfold ParseLogLevel. by repeat case_match. Qed.

Lemma Validate_ok c :
  Validate c = None ↔ 0 < LogFileSize c ∧ 0 < LogFileCount c ∧ 0 <= LogFileMaxAge c.
Proof.
  unfold Validate. destruct (_ <=? _) eqn:E1; [bools; naive_solver lia|].
  destruct (LogFileCount c <=? 0) eqn:E2; [bools; naive_solver lia|].
  destruct (_ <? _) eqn:E3; bools; naive_solver lia.
Qed.

(** ** logger/logger.go *)

(** The fields of a message, with the text each value prints as. *)
Definition LogFields : Type := gmap string string.

Record loggerExt := MkLogger { lg_level : LogLevel; lg_fields : option LogFields }.

Definition NewLoggerWithExporter (level : LogLevel) : loggerExt := MkLogger level None.
Definition NewLogger (level : LogLevel) : loggerExt := NewLoggerWithExporter level.

(** key=value, in quotes when the value holds a blank. *)
Definition writePair (key value : string) : string :=
  let quote := String.String "034" "" in
  key +:+ "=" +:+ (if byte_free " " value then value else quote +:+ value +:+ quote).

Definition IsDebugEnabled (l : loggerExt) : bool := Enabled (lg_level l) DEBUG.
Definition IsTraceEnabled (l : loggerExt) : bool := Enabled (lg_level l) TRACE.

(** The helper of connector/utils.go: only this logger can say that debugging is
    off; [None] stands for any other one. *)
Definition isDebugEnabled (l : option loggerExt) : bool :=
  match l with Some log => IsDebugEnabled log | None => true end.

Section logging.
(** LogFields.Add of the watermill library: the second fields win. *)
Variable add : LogFields → LogFields → LogFields.

(** The message that is exported. *)
Definition log (l : loggerExt) (message : string) (fields : option LogFields) : string :=
  let fields :=
    match lg_fields l with
    | Some own => match fields with None => Some own | Some fs => Some (add own fs) end
    | None => fields
    end in
  let fs := default ∅ fields in
  match merge_sort str_le (elements (dom fs)) with
  | [] => message
  | keys =>
      foldl (λ sb key, sb +:+ writePair key (default "" (fs !! key)) +:+ " ")
        (message +:+ " ") keys
  end.

(** An entry that is exported: its level and its text. *)
Definition export_at (level : LogLevel) (l : loggerExt) (message : string)
    (fields : option LogFields) : list (LogLevel * string) :=
  if Enabled (lg_level l) level then [(level, log l message fields)] else [].

(** The error of Error and Warn becomes the field err. *)
Definition with_err (fields : option LogFields) (err : option string) : option LogFields :=
  match err with
  | None => fields
  | Some e => Some (add (default ∅ fields) {["err" := e]})
  end.

Definition Error (l : loggerExt) (msg : string) (err : option string) (fields : option LogFields) :=
  export_at ERROR l msg (with_err fields err).
Definition Warn (l : loggerExt) (msg : string) (err : option string) (fields : option LogFields) :=
  export_at WARN l msg (with_err fields err).
Definition Info (l : loggerExt) (msg : string) (fields : option LogFields) :=
  export_at INFO l msg fields.
Definition Debug (l : loggerExt) (msg : string) (fields : option LogFields) :=
  export_at DEBUG l msg fields.
Definition Trace (l : loggerExt) (msg : string) (fields : option LogFields) :=
  export_at TRACE l msg fields.

(** The formatted variants, of a text that has been formatted. *)
Definition Errorf (l : loggerExt) (msg : string) := export_at ERROR l msg None.
Definition Warnf (l : loggerExt) (msg : string) := export_at WARN l msg None.
Definition Infof (l : loggerExt) (msg : string) := export_at INFO l msg None.
Definition Debugf (l : loggerExt) (msg : string) := export_at DEBUG l msg None.
Definition Tracef (l : loggerExt) (msg : string) := export_at TRACE l msg None.

Definition With (l : loggerExt) (fields : LogFields) : loggerExt :=
  MkLogger (lg_level l) (Some (add (default ∅ (lg_fields l)) fields)).

(** A logger and the loggers derived from it export the same levels: exactly
    those up to their own. *)
Lemma export_levels l fields level msg f :
  (export_at level (With l fields) msg f ≠ [] ↔ export_at level l msg f ≠ []) ∧
  (export_at level l msg f ≠ [] ↔ level <= lg_level l).
Proof.
  unfold export_at, Enabled, With. cbn [lg_level].
  destruct (level <=? lg_level l) eqn:E; bools; (split; [done|]); split; (done || lia).
Qed.
End logging.

(** ** logger/exporter.go *)

(** One line break at the end is dropped, Println adds it again. *)
Definition Export (level : LogLevel) (msg : string) : string :=
  let l := slen msg in
  let msg :=
    if (0 <? l) && HasSuffix msg (String.String "010" "")
    then take_bytes (Z.to_nat (l - 1)) msg else msg in
  StringAligned level +:+ " " +:+ msg.

(** ** The decorators of a level: logger/level.go *)

(** A logger with a level of its own, over the standard exporter of a
    [log.Logger], which is known by its prefix. *)
Record LogLevelDecorator := MkDecorator { dec_prefix : string; dec_level : LogLevel }.

Definition NewLevelDecorator (prefix : string) (level : LogLevel) : LogLevelDecorator :=
  MkDecorator prefix level.

(** The line that is printed for operands that print as [text]: Println ends them
    with a line break. *)
Definition Decorator_Println (l : LogLevelDecorator) (text : string) : string :=
  Export (dec_level l) (text +:+ String.String "010" "").

Definition Decorator_Printf (l : LogLevelDecorator) (text : string) : string :=
  Export (dec_level l) text.

(** Println and Printf print the same line, whatever the text ends with but a
    line break. *)
Lemma Decorator_prints l text :
  Decorator_Println l text = StringAligned (dec_level l) +:+ " " +:+ text ∧
  (HasSuffix text (String.String "010" "") = false →
   Decorator_Printf l text = Decorator_Println l text).
Proof.
  assert (Decorator_Println l text = StringAligned (dec_level l) +:+ " " +:+ text) as H.
  { unfold Decorator_Println, Export.
    rewrite (proj2 (HasSuffix_spec _ _)) by eauto.
    rewrite slen_app. change (slen (String.String "010" "")) with 1.
    rewrite (proj2 (Z.ltb_lt _ _)) by (pose proof (slen_nonneg text); lia). cbn [andb].
    rewrite Z.add_simpl_r. unfold slen. by rewrite Nat2Z.id, take_bytes_app. }
  split; [done|]. intros Hn. rewrite H. unfold Decorator_Printf, Export.
  by rewrite Hn, andb_false_r.
Qed.

(** ** logger/config.go *)

(** The loggers of the paho client, package variables of it; [None] is its
    silent one. *)
Record mqtt_loggers := MkMqttLoggers {
  mqtt_ERROR : option LogLevelDecorator;
  mqtt_CRITICAL : option LogLevelDecorator;
  mqtt_WARN : option LogLevelDecorator;
  mqtt_DEBUG : option LogLevelDecorator;
}.

Definition ConfigMQTT (level : LogLevel) (logger : string) (m : mqtt_loggers) : mqtt_loggers :=
  {| mqtt_ERROR := Some (NewLevelDecorator logger ERROR);
     mqtt_CRITICAL := Some (NewLevelDecorator logger ERROR);
     mqtt_WARN := if WARN <=? level then Some (NewLevelDecorator logger WARN) else mqtt_WARN m;
     mqtt_DEBUG := if DEBUG <=? level then Some (NewLevelDecorator logger DEBUG)
                   else mqtt_DEBUG m |}.

(** fmt's %-<n>v of a string of one-byte characters. *)
Definition pad_right (n : Z) (s : string) : string :=
  s +:+ String.concat "" (repeat " " (Z.to_nat (n - slen s))).

(** The prefix of a [log.Logger]. *)
Definition create (prefix : string) (prefixLen : Z) : string :=
  " " +:+ pad_right (prefixLen + 4) ("[" +:+ prefix +:+ "]").

(** Where the log goes: the standard error, which is not closed, or the rotated
    file of the lumberjack library. *)
Inductive log_output :=
  | Stderr
  | Lumberjack (Filename : string) (MaxSize MaxBackups MaxAge : Z)
      (LocalTime Compress : bool).

Definition newLoggerOut (settings : LogSettings) : log_output :=
  if slen (LogFile settings) =? 0 then Stderr
  else Lumberjack (LogFile settings) (LogFileSize settings) (LogFileCount settings)
         (LogFileMaxAge settings) true true.

(** [pahoLogLevel] is the environment variable MQTT_LOG_LEVEL.  The answer is the
    output, the prefix and the state of the root logger, and the loggers of
    paho. *)
Definition Setup (pahoLogLevel name : string) (settings : LogSettings) (m : mqtt_loggers)
    : log_output * (string * loggerExt) * mqtt_loggers :=
  let m :=
    if 0 <? slen pahoLogLevel
    then ConfigMQTT (ParseLogLevel pahoLogLevel) (create "paho" (slen name)) m else m in
  (newLoggerOut settings, (create name (slen name), NewLogger (LogLevelOf settings)), m).

Lemma slen_pad_right n s : slen (pad_right n s) = Z.max n (slen s).
Proof.
  unfold pad_right. rewrite slen_app.
  assert (∀ k, slen (String.concat "" (repeat " " k)) = Z.of_nat k) as H.
  { induction k as [|[|k] IH]; [done..|]. cbn [repeat String.concat] in *.
    rewrite !slen_app, IH. change (slen " ") with 1. change (slen "") with 0. lia. }
  rewrite H. lia.
Qed.

(** The lines of the connector and of paho are aligned, unless the name is a
    single letter. *)
Lemma Setup_aligned pahoLogLevel name settings m d :
  2 <= slen name →
  mqtt_ERROR (Setup pahoLogLevel name settings m).2 = Some d →
  mqtt_ERROR m = None →
  slen (dec_prefix d) = slen (Setup pahoLogLevel name settings m).1.2.1.
Proof.
  intros Hn. unfold Setup. destruct (0 <? slen pahoLogLevel);
    cbn [fst snd mqtt_ERROR ConfigMQTT]; [|congruence].
  intros [= <-] _. unfold create. cbn [dec_prefix NewLevelDecorator].
  rewrite ?slen_app, ?slen_cons, !slen_pad_right. slen_lia.
Qed.

End Log.
