(* ===== verification/Settings.v ===== *)
(** * The settings and their validation: config/settings.go, config/connections.go

    The settings the connector is started with, what is checked once
    (ValidateStatic) and at every launch (ValidateDynamic), and the reading of
    the configuration file.  [net/url], [encoding/json] and the file system are
    arguments, as are the namespaced identifiers of the Ditto client library. *)

From S2P Require Import Prelude GoStrings Util Logger.

Local Open Scope Z_scope.

(** A parsed URL, as far as the code looks at it. *)
Record url := MkUrl { url_String : string; url_Scheme : string; url_Hostname : string }.

Record TLSSettings := MkTLSSettings {
  CACert : string;
  Cert : string;
  Key : string;
  Alpn : list string;
  TPMKey : string;
  TPMKeyPub : string;
  TPMHandle : Z;
  TPMDevice : string;
}.

Record HubConnectionSettings := MkHub {
  hub_DeviceID : string;
  hub_DeviceIDPattern : string;
  hub_TenantID : string;
  hub_PolicyID : string;
  hub_Address : string;
  hub_Password : string;
  hub_Username : string;
  hub_ClientID : string;
  hub_AuthID : string;
  hub_Generic : bool;
  hub_UseCertificate : bool;
  hub_AutoProvisioningEnabled : bool;
  hub_TLS : TLSSettings;
}.

Record LocalConnectionSettings := MkLocal {
  LocalAddress : string;
  LocalUsername : string;
  LocalPassword : string;
  LocalCACert : string;
  LocalCert : string;
  LocalKey : string;
}.

Record Settings := MkSettings {
  set_Log : Log.LogSettings;
  set_Hub : HubConnectionSettings;
  set_Local : LocalConnectionSettings;
  ProvisioningFile : string;
}.

Definition isConnectionSecure (schema : string) : bool :=
  bool_decide (schema ∈ ["wss"; "ssl"; "tls"; "mqtts"; "mqtt+ssl"; "tcps"]).

Definition NewHubUsername (settings : HubConnectionSettings) : string :=
  if 0 <? slen (hub_Username settings) then hub_Username settings
  else NewHonoUserName (hub_AuthID settings) (hub_TenantID settings).

Definition AWS (parse : string → result url) (c : HubConnectionSettings) : bool :=
  match parse (hub_Address c) with
  | Err _ => false
  | Ok u => HasSuffix (url_Hostname u) "amazonaws.com"
  end.

Section validation.
(** Whether the Ditto library takes a string for a namespaced identifier. *)
Variable namespaced : string → bool.

Definition Hub_Validate (c : HubConnectionSettings) : option error :=
  if (slen (hub_DeviceID c) =? 0) && (slen (hub_DeviceIDPattern c) =? 0)
  then Some (Sentinel "device ID or pattern is missing") else
  if (0 <? slen (hub_DeviceID c)) && negb (namespaced (hub_DeviceID c))
  then Some (Errorf ("device ID '" +:+ hub_DeviceID c +:+ "' has invalid namespace ID")) else
  if slen (hub_TenantID c) =? 0 then Some (Sentinel "tenant ID is missing") else
  if slen (hub_Address c) =? 0 then Some (Sentinel "remote broker address is missing") else
  None.

Definition Local_Validate (c : LocalConnectionSettings) : option error :=
  if slen (LocalAddress c) =? 0 then Some (Sentinel "local address is missing") else None.

Definition ValidateDynamic (settings : Settings) : option error :=
  Hub_Validate (set_Hub settings).

(** [request_uri] is [url.ParseRequestURI], [stat] the file system. *)
Definition ValidateStatic (request_uri : string → result url) (stat : string → stat_answer)
    (settings : Settings) : option error :=
  let hub := set_Hub settings in
  match Log.Validate (set_Log settings) with
  | Some err => Some err
  | None =>
  match Local_Validate (set_Local settings) with
  | Some err => Some err
  | None =>
  match request_uri (hub_Address hub) with
  | Err err => Some err
  | Ok u =>
      let cert :=
        if isConnectionSecure (url_Scheme u) then
          if 0 <? slen (CACert (hub_TLS hub)) then
            if negb (FileExists stat (CACert (hub_TLS hub)))
            then Some (Errorf ("failed to read CA certificate file '"
                               +:+ CACert (hub_TLS hub) +:+ "'"))
            else None
          else Some (Sentinel ("cannot use secure connection when the CA certificate "
                               +:+ "file is not provided"))
        else None in
      match cert with
      | Some err => Some err
      | None =>
          if 0 <? slen (hub_DeviceIDPattern hub) then
            if 0 <? slen (hub_DeviceID hub)
            then Some (Errorf ("cannot use -deviceIdPattern flag value '"
                   +:+ hub_DeviceIDPattern hub +:+ "' when -deviceId flag value '"
                   +:+ hub_DeviceID hub +:+ "' is also provided"))
            else if slen (Cert (hub_TLS hub)) =? 0
            then Some (Errorf ("cannot use -deviceIdPattern flag value '"
                   +:+ hub_DeviceIDPattern hub
                   +:+ "' when the certificate file is not provided"))
            else None
          else None
      end
  end end end.

(** What a validated configuration guarantees. *)
Lemma Hub_Validate_ok c :
  Hub_Validate c = None ↔
  (hub_DeviceID c ≠ "" ∨ hub_DeviceIDPattern c ≠ "") ∧
  (hub_DeviceID c ≠ "" → namespaced (hub_DeviceID c) = true) ∧
  hub_TenantID c ≠ "" ∧ hub_Address c ≠ "".
Proof.
  assert (∀ s, (slen s =? 0) = bool_decide (s = "")) as Hz.
  { intros s. destruct (bool_decide_reflect (s = "")) as [->|H]; [done|].
    apply Z.eqb_neq. by rewrite slen_zero. }
  assert (∀ s, (0 <? slen s) = negb (bool_decide (s = ""))) as Hp.
  { intros s. destruct (bool_decide_reflect (s = "")) as [->|H]; [done|by apply slen_pos]. }
  unfold Hub_Validate. rewrite !Hz, Hp.
  destruct (bool_decide_reflect (hub_DeviceID c = ""));
    destruct (bool_decide_reflect (hub_DeviceIDPattern c = ""));
    destruct (namespaced (hub_DeviceID c));
    destruct (bool_decide_reflect (hub_TenantID c = ""));
    destruct (bool_decide_reflect (hub_Address c = "")); cbn; naive_solver.
Qed.
End validation.

Definition DefaultSettings : Settings :=
  {| set_Hub :=
       {| hub_DeviceID := ""; hub_DeviceIDPattern := ""; hub_TenantID := "";
          hub_PolicyID := ""; hub_Address := "mqtts://mqtt.bosch-iot-hub.com:8883";
          hub_Password := ""; hub_Username := ""; hub_ClientID := ""; hub_AuthID := "";
          hub_Generic := false; hub_UseCertificate := false;
          hub_AutoProvisioningEnabled := true;
          hub_TLS :=
            {| CACert := "iothub.crt"; Cert := ""; Key := ""; Alpn := []; TPMKey := "";
               TPMKeyPub := ""; TPMHandle := 0; TPMDevice := "" |} |};
     set_Local :=
       {| LocalAddress := "tcp://localhost:1883"; LocalUsername := "";
          LocalPassword := ""; LocalCACert := ""; LocalCert := ""; LocalKey := "" |};
     set_Log :=
       {| Log.LogFile := "log/suite-connector.log"; Log.LogLevelOf := Log.INFO;
          Log.LogFileSize := 2; Log.LogFileCount := 5; Log.LogFileMaxAge := 28 |};
     ProvisioningFile := "provisioning.json" |}.

(** The accessors the launcher uses; a copy shares only the slice of ALPN
    protocols, which nothing writes to. *)
Definition Provisioning (settings : Settings) : string := ProvisioningFile settings.
Definition LocalConnection (settings : Settings) : LocalConnectionSettings := set_Local settings.
Definition HubConnection (settings : Settings) : HubConnectionSettings := set_Hub settings.
Definition DeepCopy (settings : Settings) : Settings := settings.

Definition with_hub (settings : Settings) (hub : HubConnectionSettings) : Settings :=
  MkSettings (set_Log settings) hub (set_Local settings) (ProvisioningFile settings).

(** ** ReadConfig *)

(** The dynamic value handed to ReadConfig. *)
Inductive config_value :=
  | StructPtr (s : Settings)
  | NilPtr
  | OtherPtr
  | OtherValue.

Definition validStructPointer (v : config_value) : bool :=
  match v with StructPtr _ => true | _ => false end.

(** [unmarshal] is [json.Unmarshal] into settings: what they become, and the
    error. *)
Definition ReadConfig (stat : string → stat_answer) (read : string → result string)
    (unmarshal : string → Settings → Settings * option error)
    (path : string) (config : config_value) : config_value * option error :=
  match config with
  | StructPtr s =>
      if FileExists stat path then
        match read path with
        | Err err => (config, Some (Wrap err ("error reading configuration file: " +:+ path)))
        | Ok data =>
            if slen data =? 0 then (config, None) else
            match unmarshal data s with
            | (s, Some err) =>
                (StructPtr s, Some (Wrap err ("provided configuration file '" +:+ path
                                              +:+ "' is not a valid JSON")))
            | (s, None) => (StructPtr s, None)
            end
        end
      else (config, None)
  | _ => (config, Some (Sentinel "config not a pointer to struct"))
  end.

(** The defaults pass the static validation once their CA certificate is there,
    and need a device and a tenant to pass the dynamic one. *)
Lemma DefaultSettings_static request_uri stat u :
  request_uri (hub_Address (set_Hub DefaultSettings)) = Ok u →
  FileExists stat "iothub.crt" = true →
  ValidateStatic request_uri stat DefaultSettings = None.
Proof.
  intros Hu Hf. unfold ValidateStatic.
  change (Log.Validate (set_Log DefaultSettings)) with (@None error).
  change (Local_Validate (set_Local DefaultSettings)) with (@None error).
  rewrite Hu. change (CACert (hub_TLS (set_Hub DefaultSettings))) with "iothub.crt".
  rewrite Hf. by destruct (isConnectionSecure _).
Qed.

Lemma DefaultSettings_dynamic namespaced :
  ValidateDynamic namespaced DefaultSettings = Some (Sentinel "device ID or pattern is missing").
Proof. done. Qed.
