(* ===== verification/Provisioning.v ===== *)
(** * Provisioning: config/parse_provisioning.go and ApplySettings

    The JSON container library (gabs) is third-party code: what the code asks of
    it is the class [Gabs].  Go visits the fields of a JSON object in an
    arbitrary order, which the argument [range_order] stands for. *)

From Stdlib Require Import QArith.
From stdpp Require Import pretty.
From S2P Require Import Prelude GoStrings Util Message Connection Service Base64 Settings.

Local Open Scope Z_scope.

Definition deviceIDPath : string := "hub.credentials.deviceId".
Definition tenantIDPath : string := "hub.credentials.tenantId".
Definition policyIDPath : string := "things.thing.policyId".
Definition authIDPath : string := "hub.credentials.authId".
Definition adaptersPath : string := "hub.credentials.adapters".
Definition credentialsTypePath : string := "hub.credentials.type".
Definition certificate : string := "x509-cert".
Definition secretsPath : string := "hub.credentials.secrets".
Definition password : string := "password".
Definition passwordBase64 : string := "passwordBase64".
Definition authoritiesPath : string := "hub.device.authorities".
Definition provisioningEnabled : string := "auto-provisioning-enabled".
Definition defaultStringValue : string := "".

(** The dynamic type of a JSON value; of arrays and objects only the type
    matters here. *)
Inductive any :=
  | ANil
  | ABool (b : bool)
  | AFloat64 (f : float64)
  | AString (s : string)
  | AComposite.

(** What the code uses of the container library. *)
Class Gabs (C : Type) := {
  ParseJSON : string → option C;
  DotPathToSlice : string → list string;
  Search : C → list string → C;
  Path : C → string → C;
  (* of an array in its order; those of an object come in no fixed order, of which
     this is one *)
  Children : C → list C;
  ChildrenMap : C → gmap string C;
  Data : C → any;
}.

(** ** The verb %.0f of package fmt *)

(** The integer nearest to a rational, the even one of two. *)
Definition round_half_even (q : Q) : Z :=
  let d := Z.pos (Qden q) in
  let fl := Qnum q / d in
  match 2 * (Qnum q `mod` d) ?= d with
  | Lt => fl
  | Gt => fl + 1
  | Eq => if Z.even fl then fl else fl + 1
  end.

(** [float64] has no negative zero: the literal -0 prints like 0. *)
Definition format_0f (f : float64) : string :=
  match f with
  | Finite q =>
      (if Qnum q <? 0 then "-" else "") +:+ pretty (Z.abs_N (round_half_even q))
  | PosInf => "+Inf"
  | NegInf => "-Inf"
  | NaN => "NaN"
  end.

(** ** ParseProvisioningJSON *)

Section provisioning.
Context `{Gabs C}.
Implicit Types (jsonData : C) (field : string).

Variable range_order : gmap string C → list (string * C).

Definition as_string (v : any) : option string :=
  match v with AString s => Some s | _ => None end.

Definition readValue field jsonData (path : string) : string :=
  match as_string (Data (Path jsonData path)) with
  | Some value => value
  | None => field
  end.

Definition getString jsonData (path : string) : string :=
  match as_string (Data (Path jsonData path)) with
  | Some value => value
  | None => defaultStringValue
  end.

Definition hasElement jsonData (path element : string) : bool :=
  existsb (λ child, bool_decide (as_string (Data child) = Some element))
    (Children (Search jsonData (DotPathToSlice path))).

(** The fields of one secret: a password ends the search, and the unchecked type
    assertion panics on a passwordBase64 that is not a string. *)
Fixpoint read_secret (fields : list (string * C)) : outcome (option string) :=
  match fields with
  | [] => Done None
  | (key, value) :: fields =>
      decoded ← (if decide (key = passwordBase64) then
                   match Data value with
                   | AString s => Done (DecodeString s)
                   | _ => Panicked TypeAssertion
                   end
                 else Done None);
      match decoded with
      | Some passwordStr => Done (Some passwordStr)
      | None =>
          if decide (key = password) then
            match as_string (Data value) with
            | Some passwordStr => Done (Some passwordStr)
            | None => read_secret fields
            end
          else read_secret fields
      end
  end.

Fixpoint read_secrets field (secrets : list C) : outcome string :=
  match secrets with
  | [] => Done field
  | secret :: secrets =>
      found ← read_secret (range_order (ChildrenMap secret));
      match found with
      | Some passwordStr => Done passwordStr
      | None => read_secrets field secrets
      end
  end.

Definition readPassword field jsonData (path : string) : outcome string :=
  read_secrets field (Children (Search jsonData (DotPathToSlice path))).

Definition mqttURL (mqttSettings : C) : string :=
  let uri := getString mqttSettings "uri" in
  if negb (bool_decide (uri = defaultStringValue)) then
    match Data (Search mqttSettings ["port"]) with
    | AFloat64 port => uri +:+ ":" +:+ format_0f port
    | _ => uri
    end
  else uri.

(** Every field named type of every adapter is looked at; the last one of type
    mqtt gives the address. *)
Definition read_adapter (adaptersContainer : C) field : string :=
  foldl (λ field '(key, value),
    if decide (key = "type") then
      if decide (as_string (Data value) = Some "mqtt") then mqttURL adaptersContainer
      else field
    else field) field (range_order (ChildrenMap adaptersContainer)).

Definition readAddress field jsonData (path : string) : string :=
  foldl (flip read_adapter) field (Children (Search jsonData (DotPathToSlice path))).

Definition ParseProvisioningJSON (data : string) (settings : HubConnectionSettings)
    : outcome (HubConnectionSettings * option error) :=
  match ParseJSON data with
  | None => Done (settings, Some (Sentinel "provided data is not a valid json"))
  | Some jsonData =>
      let DeviceID := readValue (hub_DeviceID settings) jsonData deviceIDPath in
      let TenantID := readValue (hub_TenantID settings) jsonData tenantIDPath in
      let PolicyID := readValue (hub_PolicyID settings) jsonData policyIDPath in
      let AuthID := readValue (hub_AuthID settings) jsonData authIDPath in
      let Address := readAddress (hub_Address settings) jsonData adaptersPath in
      Password ← readPassword (hub_Password settings) jsonData secretsPath;
      Done
        ({| hub_DeviceID := DeviceID;
            hub_DeviceIDPattern := hub_DeviceIDPattern settings;
            hub_TenantID := TenantID;
            hub_PolicyID := PolicyID;
            hub_Address := Address;
            hub_Password := Password;
            hub_Username := hub_Username settings;
            hub_ClientID := hub_ClientID settings;
            hub_AuthID := AuthID;
            hub_Generic := hub_Generic settings;
            hub_UseCertificate :=
              bool_decide (getString jsonData credentialsTypePath = certificate);
            hub_AutoProvisioningEnabled :=
              hasElement jsonData authoritiesPath provisioningEnabled;
            hub_TLS := hub_TLS settings |}, None)
  end.

(** No fuel is involved. *)
Lemma read_secret_fuel l : read_secret l ≠ NoFuel.
Proof.
  induction l as [|[k v] l IH]; [done|]. cbn [read_secret].
  destruct (decide (k = passwordBase64)); [destruct (Data v); try done|]; cbn [mbind outcome_bind].
  1: destruct (DecodeString s); [done|].
  all: destruct (decide (k = password)); [|done].
  all: by destruct (as_string (Data v)).
Qed.

Lemma ParseProvisioningJSON_fuel data settings : ParseProvisioningJSON data settings ≠ NoFuel.
Proof.
  unfold ParseProvisioningJSON, readPassword. destruct (ParseJSON data) as [j|]; [|done].
  generalize (Children (Search j (DotPathToSlice secretsPath))) as l.
  assert (∀ f l, read_secrets f l ≠ NoFuel) as Hl.
  { induction l as [|c l IH]; [done|]. cbn [read_secrets].
    pose proof (read_secret_fuel (range_order (ChildrenMap c))).
    by destruct (read_secret _) as [[p|]| |]. }
  intros l. specialize (Hl (hub_Password settings) l). by destruct (read_secrets _ _).
Qed.

(** ** The specification, without an order *)

(** The address an adapter gives. *)
Definition adapter_address (adapter : C) : option string :=
  value ← ChildrenMap adapter !! "type";
  if decide (as_string (Data value) = Some "mqtt") then Some (mqttURL adapter) else None.

(** The password a secret gives: decoded, or plain. *)
Definition secret_password (secret : C) : outcome (option string) :=
  match ChildrenMap secret !! passwordBase64 with
  | Some value =>
      match Data value with
      | AString s => Done (DecodeString s)
      | _ => Panicked TypeAssertion
      end
  | None => Done (ChildrenMap secret !! password ≫= λ value, as_string (Data value))
  end.

(** A secret with at most one of the two. *)
Definition unambiguous (secret : C) : Prop :=
  ChildrenMap secret !! passwordBase64 = None ∨ ChildrenMap secret !! password = None.

(** The first password found. *)
Fixpoint first_password (secrets : list C) : outcome (option string) :=
  match secrets with
  | [] => Done None
  | secret :: secrets =>
      found ← secret_password secret;
      match found with
      | Some p => Done (Some p)
      | None => first_password secrets
      end
  end.

Hypothesis range_order_perm : ∀ m, range_order m ≡ₚ map_to_list m.

Lemma range_order_lookup m k v : (k, v) ∈ range_order m ↔ m !! k = Some v.
Proof. rewrite range_order_perm. apply elem_of_map_to_list. Qed.

Lemma range_order_nodup m : NoDup (range_order m).*1.
Proof. rewrite range_order_perm. apply NoDup_fst_map_to_list. Qed.

(** The fields around the one with a given key. *)
Lemma range_order_split m k v :
  m !! k = Some v →
  ∃ l1 l2, range_order m = l1 ++ (k, v) :: l2 ∧
    ∀ k' v', (k', v') ∈ l1 ++ l2 → k' ≠ k ∧ m !! k' = Some v'.
Proof.
  intros Hk. apply range_order_lookup in Hk.
  apply list_elem_of_split in Hk as (l1 & l2 & Heq). exists l1, l2. split; [done|].
  intros k' v' Hin. pose proof (range_order_nodup m) as Hnd. rewrite Heq in Hnd.
  split.
  - intros ->. rewrite fmap_app, fmap_cons in Hnd. cbn [fst] in Hnd.
    apply NoDup_app in Hnd as (_ & Hd & [Hn _]%NoDup_cons).
    apply elem_of_app in Hin as [Hin|Hin].
    + apply (Hd k); [|by left]. apply list_elem_of_fmap. by exists (k, v').
    + apply Hn. apply list_elem_of_fmap. by exists (k, v').
  - apply range_order_lookup. rewrite Heq. set_solver.
Qed.

Lemma read_secret_skip l1 l2 :
  (∀ k v, (k, v) ∈ l1 → k ≠ passwordBase64 ∧ k ≠ password) →
  read_secret (l1 ++ l2) = read_secret l2.
Proof.
  induction l1 as [|[k v] l1 IH]; intros Hl; [done|]. cbn [app read_secret].
  destruct (Hl k v) as [H1 H2]; [by left|].
  rewrite decide_False by done. cbn [mbind outcome_bind].
  rewrite decide_False by done. apply IH. intros k' v' Hin. apply (Hl k' v'). by right.
Qed.

Lemma read_secret_none l :
  (∀ k v, (k, v) ∈ l → k ≠ passwordBase64 ∧ k ≠ password) → read_secret l = Done None.
Proof. intros Hl. rewrite <-(app_nil_r l). by apply read_secret_skip. Qed.

Lemma read_secret_order secret :
  unambiguous secret →
  read_secret (range_order (ChildrenMap secret)) = secret_password secret.
Proof.
  unfold unambiguous, secret_password. intros Hone.
  destruct (ChildrenMap secret !! passwordBase64) as [v|] eqn:E64.
  - destruct Hone as [|Hpw]; [done|].
    destruct (range_order_split _ _ _ E64) as (l1 & l2 & -> & Hrest).
    assert (∀ k v, (k, v) ∈ l1 ++ l2 → k ≠ passwordBase64 ∧ k ≠ password) as Hno.
    { intros k v' Hin. destruct (Hrest k v' Hin) as [? Hk]. split; [done|].
      intros ->. congruence. }
    rewrite read_secret_skip by (intros k v' ?; apply (Hno k v'), elem_of_app; by left).
    cbn [read_secret]. rewrite (decide_True _ _ (eq_refl passwordBase64)).
    destruct (Data v); cbn [mbind outcome_bind]; try done.
    destruct (DecodeString s); [done|].
    rewrite decide_False by done. apply read_secret_none.
    intros k v' ?. apply (Hno k v'), elem_of_app. by right.
  - destruct (ChildrenMap secret !! password) as [v|] eqn:Epw.
    + destruct (range_order_split _ _ _ Epw) as (l1 & l2 & -> & Hrest).
      assert (∀ k v, (k, v) ∈ l1 ++ l2 → k ≠ passwordBase64 ∧ k ≠ password) as Hno.
      { intros k v' Hin. destruct (Hrest k v' Hin) as [? Hk]. split; [|done].
        intros ->. congruence. }
      rewrite read_secret_skip by (intros k v' ?; apply (Hno k v'), elem_of_app; by left).
      cbn [read_secret]. rewrite (decide_False (P:=password = passwordBase64)) by done.
      cbn [mbind outcome_bind option_bind]. rewrite (decide_True _ _ (eq_refl password)).
      destruct (as_string (Data v)); [done|]. apply read_secret_none.
      intros k v' ?. apply (Hno k v'), elem_of_app. by right.
    + apply read_secret_none. intros k v Hin. apply range_order_lookup in Hin.
      split; intros ->; congruence.
Qed.

Lemma read_secrets_order field secrets :
  Forall unambiguous secrets →
  read_secrets field secrets = (default field) <$> first_password secrets.
Proof.
  induction 1 as [|secret secrets Hone Hall IH]; [done|]. cbn [read_secrets first_password].
  rewrite read_secret_order by done.
  by destruct (secret_password secret) as [[p|]| |].
Qed.

Lemma read_adapter_order adapter field :
  read_adapter adapter field = default field (adapter_address adapter).
Proof.
  unfold read_adapter, adapter_address.
  assert (∀ (l : list (string * C)) f, (∀ k v, (k, v) ∈ l → k ≠ "type") →
    foldl (λ field '(key, value),
      if decide (key = "type") then
        if decide (as_string (Data value) = Some "mqtt") then mqttURL adapter else field
      else field) f l = f) as Hskip.
  { induction l as [|[k v] l IH]; intros f Hl; [done|]. cbn [foldl].
    rewrite decide_False by (apply (Hl k v); by left). apply IH.
    intros k' v' Hin. apply (Hl k' v'). by right. }
  destruct (ChildrenMap adapter !! "type") as [v|] eqn:E; cbn [mbind option_bind].
  - destruct (range_order_split _ _ _ E) as (l1 & l2 & -> & Hrest).
    rewrite foldl_app, (Hskip l1) by (intros k v' ?; apply (Hrest k v'), elem_of_app; by left).
    cbn [foldl]. rewrite decide_True by done.
    rewrite (Hskip l2) by (intros k v' ?; apply (Hrest k v'), elem_of_app; by right).
    by case_decide.
  - cbn [default from_option]. apply Hskip. intros k v Hin ->.
    apply range_order_lookup in Hin. congruence.
Qed.

Lemma readAddress_order field jsonData path :
  readAddress field jsonData path
  = default field (last (omap adapter_address
      (Children (Search jsonData (DotPathToSlice path))))).
Proof.
  unfold readAddress. generalize (Children (Search jsonData (DotPathToSlice path))) as l.
  intros l. revert field. induction l as [|a l IH]; intros field; [done|].
  cbn [foldl]. unfold flip at 2. rewrite read_adapter_order, IH. cbn [omap list_omap].
  destruct (adapter_address a) as [x|]; cbn [default from_option]; [|done].
  rewrite last_cons. by destruct (last _).
Qed.

(** C12.  What the provisioning file says replaces the settings, field by field:
    a string found at its path, the address of the last mqtt adapter, the first
    password of the secrets; what is not there keeps its value, and the two flags
    are always set.  The order in which Go visits the members of an adapter or of a
    secret does not matter unless a secret holds both a password and a
    passwordBase64, and the only panic is the one of a passwordBase64 that is no
    string. *)
Theorem ParseProvisioningJSON_functional data settings :
  (∀ jsonData, ParseJSON data = Some jsonData →
    Forall unambiguous (Children (Search jsonData (DotPathToSlice secretsPath)))) →
  ParseProvisioningJSON data settings =
  match ParseJSON data with
  | None => Done (settings, Some (Sentinel "provided data is not a valid json"))
  | Some j =>
      let at_path path := as_string (Data (Path j path)) in
      let items path := Children (Search j (DotPathToSlice path)) in
      found ← first_password (items secretsPath);
      Done
        (MkHub (default (hub_DeviceID settings) (at_path deviceIDPath))
           (hub_DeviceIDPattern settings)
           (default (hub_TenantID settings) (at_path tenantIDPath))
           (default (hub_PolicyID settings) (at_path policyIDPath))
           (default (hub_Address settings)
              (last (omap adapter_address (items adaptersPath))))
           (default (hub_Password settings) found)
           (hub_Username settings) (hub_ClientID settings)
           (default (hub_AuthID settings) (at_path authIDPath))
           (hub_Generic settings)
           (bool_decide (at_path credentialsTypePath = Some certificate))
           (bool_decide (Some provisioningEnabled ∈
              ((λ c, as_string (Data c)) <$> items authoritiesPath)))
           (hub_TLS settings), None)
  end.
Proof.
  intros Hone. unfold ParseProvisioningJSON. destruct (ParseJSON data) as [j|]; [|done].
  specialize (Hone j eq_refl). unfold readPassword. rewrite read_secrets_order by done.
  rewrite readAddress_order.
  assert (∀ f path, readValue f j path = default f (as_string (Data (Path j path)))) as Hv.
  { intros f path. unfold readValue. by destruct (as_string _). }
  rewrite !Hv.
  assert (bool_decide (getString j credentialsTypePath = certificate)
    = bool_decide (as_string (Data (Path j credentialsTypePath)) = Some certificate)) as ->.
  { unfold getString. apply bool_decide_ext. destruct (as_string _); naive_solver. }
  assert (hasElement j authoritiesPath provisioningEnabled
    = bool_decide (Some provisioningEnabled ∈ ((λ c, as_string (Data c)) <$>
        Children (Search j (DotPathToSlice authoritiesPath))))) as ->.
  { unfold hasElement. apply eq_true_iff_eq.
    rewrite existsb_exists, bool_decide_eq_true, list_elem_of_fmap.
    setoid_rewrite bool_decide_eq_true. setoid_rewrite <-list_elem_of_In. naive_solver. }
  by destruct (first_password _).
Qed.
End provisioning.

(** ** A secret with both *)

(** Any list of the fields of an object, starting with two of them, is an order
    Go may choose. *)
Lemma order_from {C} (m : gmap string C) k1 v1 k2 v2 :
  m !! k1 = Some v1 → m !! k2 = Some v2 → k1 ≠ k2 →
  ∃ rest, (k1, v1) :: (k2, v2) :: rest ≡ₚ map_to_list m.
Proof.
  intros H1 H2 Hne. exists (map_to_list (delete k2 (delete k1 m))).
  rewrite <-map_to_list_insert by apply lookup_delete_eq.
  rewrite insert_delete_id by (by rewrite lookup_delete_ne).
  rewrite <-map_to_list_insert by apply lookup_delete_eq.
  by rewrite insert_delete_id.
Qed.

(** The order that agrees with a given list on one object. *)
Lemma order_with `{EqDecision C} (m0 : gmap string C) l :
  l ≡ₚ map_to_list m0 →
  ∃ order : gmap string C → list (string * C),
    (∀ m, order m ≡ₚ map_to_list m) ∧ order m0 = l.
Proof.
  intros Hl. exists (λ m, if decide (m = m0) then l else map_to_list m). split.
  - intros m. by case_decide; subst.
  - by rewrite decide_True.
Qed.

(** When a secret holds a password and a passwordBase64 that decodes, both
    are possible results: the order in which Go visits the object decides. *)
Theorem readPassword_ambiguous `{Gabs C, !EqDecision C} (secret : C) rest field v64 vpw s p1 p2 :
  ChildrenMap secret !! passwordBase64 = Some v64 → Data v64 = AString s →
  DecodeString s = Some p1 →
  ChildrenMap secret !! password = Some vpw → Data vpw = AString p2 →
  ∃ order1 order2 : gmap string C → list (string * C),
    (∀ m, order1 m ≡ₚ map_to_list m) ∧ (∀ m, order2 m ≡ₚ map_to_list m) ∧
    read_secrets order1 field (secret :: rest) = Done p1 ∧
    read_secrets order2 field (secret :: rest) = Done p2.
Proof.
  intros H64 Hs Hdec Hpw Hp.
  destruct (order_from _ _ _ _ _ H64 Hpw) as [l1 Hl1]; [done|].
  destruct (order_from _ _ _ _ _ Hpw H64) as [l2 Hl2]; [done|].
  destruct (order_with _ _ Hl1) as (order1 & ? & H1).
  destruct (order_with _ _ Hl2) as (order2 & ? & H2).
  exists order1, order2. split_and!; [done|done| |]; cbn [read_secrets].
  - rewrite H1. cbn [read_secret]. rewrite (decide_True _ _ (eq_refl passwordBase64)), Hs.
    cbn [mbind outcome_bind]. by rewrite Hdec.
  - rewrite H2. cbn [read_secret]. rewrite (decide_False (P:=password = passwordBase64)) by done.
    cbn [mbind outcome_bind]. rewrite (decide_True _ _ (eq_refl password)), Hp. done.
Qed.

(** An adapter of type mqtt without a URI empties the address. *)
Lemma readAddress_empties `{Gabs C} (order : gmap string C → list (string * C)) j path field adapter v :
  (∀ m, order m ≡ₚ map_to_list m) →
  Children (Search j (DotPathToSlice path)) = [adapter] →
  ChildrenMap adapter !! "type" = Some v → Data v = AString "mqtt" →
  Data (Path adapter "uri") = ANil →
  readAddress order field j path = "".
Proof.
  intros Hperm Hc Ht Hv Hu. rewrite readAddress_order by done. rewrite Hc.
  cbn [omap list_omap]. unfold adapter_address. rewrite Ht. cbn [mbind option_bind].
  rewrite Hv. cbn [as_string]. rewrite decide_True by done. cbn.
  unfold mqttURL, getString. by rewrite Hu.
Qed.

(** ** ReadProvisioning and ApplySettings *)

Section apply.
Context `{Gabs C} {R : Type}.
Variable range_order : gmap string C → list (string * C).
Variable stat : string → stat_answer.
Variable read : string → result string.
Variable namespaced : string → bool.
(** What SendStatus publishes for a cause. *)
Variable report : string → list R.
(** [mergo.Map] of the command line into the settings. *)
Variable mergo_map : Settings → result Settings.

Definition ReadProvisioning (path : string) (settings : HubConnectionSettings)
    : outcome (HubConnectionSettings * option error) :=
  if FileExists stat path then
    match read path with
    | Err err =>
        Done (settings, Some (Wrap err ("error reading provisioning file: " +:+ path)))
    | Ok data =>
        '(settings, err) ← ParseProvisioningJSON range_order data settings;
        Done (settings, match err with
                        | Some err => Some (Wrap err ("error reading provisioning file: " +:+ path))
                        | None => None
                        end)
    end
  else Done (settings, None).

(** The settings, what has been published, and the error. *)
Definition ApplySettings (cleanSession : bool) (settings : Settings)
    : outcome (Settings * list R * option error) :=
  let path := Provisioning settings in
  let ok settings :=
    Done (settings,
      if cleanSession then report StatusProvisioningUpdate else [], None) in
  if negb (FileExists stat path) then
    match ValidateDynamic namespaced settings with
    | Some err => Done (settings, report StatusProvisioningMissing, Some err)
    | None => ok settings
    end
  else
    '(hub, err) ← ReadProvisioning path (HubConnection settings);
    let settings := with_hub settings hub in
    match err with
    | Some err => Done (settings, report StatusProvisioningError, Some err)
    | None =>
        match mergo_map settings with
        | Err err => Done (settings, report StatusProvisioningError, Some err)
        | Ok settings =>
            match ValidateDynamic namespaced settings with
            | Some err => Done (settings, report StatusProvisioningError, Some err)
            | None => ok settings
            end
        end
    end.

Lemma ApplySettings_spec cleanSession settings :
  let exists_ := FileExists stat (Provisioning settings) in
  match ApplySettings cleanSession settings with
  | Done (settings', sent, Some err) =>
      sent = report (if exists_ then StatusProvisioningError else StatusProvisioningMissing) ∧
      (exists_ = false → settings' = settings ∧ ValidateDynamic namespaced settings = Some err)
  | Done (settings', sent, None) =>
      ValidateDynamic namespaced settings' = None ∧
      sent = (if cleanSession then report StatusProvisioningUpdate else []) ∧
      if exists_ then
        ∃ data hub, read (Provisioning settings) = Ok data ∧
          ParseProvisioningJSON range_order data (HubConnection settings) = Done (hub, None) ∧
          mergo_map (with_hub settings hub) = Ok settings'
      else settings' = settings
  | Panicked p =>
      exists_ = true ∧ ∃ data, read (Provisioning settings) = Ok data ∧
        ParseProvisioningJSON range_order data (HubConnection settings) = Panicked p
  | NoFuel => False
  end.
Proof.
  intros exists_. unfold exists_, ApplySettings.
  destruct (FileExists stat (Provisioning settings)) eqn:Ef; cbn [negb].
  2:{ destruct (ValidateDynamic namespaced settings) eqn:E; naive_solver. }
  unfold ReadProvisioning. rewrite Ef.
  destruct (read _) as [data|err] eqn:Er; cbn [mbind outcome_bind]; [|naive_solver].
  destruct (ParseProvisioningJSON range_order data _) as [[hub [err|]]|p|] eqn:Ep;
    cbn [mbind outcome_bind]; [naive_solver| |naive_solver|].
  - destruct (mergo_map _) as [settings'|err] eqn:Em; [|naive_solver].
    destruct (ValidateDynamic namespaced settings') eqn:Ev; naive_solver.
  - by apply (ParseProvisioningJSON_fuel range_order data (HubConnection settings)).
Qed.

(** C29.  A launch goes on only with settings that pass the dynamic validation,
    and a failed one has published exactly one status, the missing provisioning
    when there is no file and a provisioning error when there is; an update is
    announced exactly by a launch with a clean session that goes on.  With a file
    the settings are the parsed ones under the command line, and without one they
    are unchanged. *)
Theorem ApplySettings_reports cleanSession settings :
  let exists_ := FileExists stat (Provisioning settings) in
  match ApplySettings cleanSession settings with
  | Done (settings', sent, Some err) =>
      sent = report (if exists_ then StatusProvisioningError else StatusProvisioningMissing) ∧
      (exists_ = false → settings' = settings ∧ ValidateDynamic namespaced settings = Some err)
  | Done (settings', sent, None) =>
      ValidateDynamic namespaced settings' = None ∧
      sent = (if cleanSession then report StatusProvisioningUpdate else []) ∧
      if exists_ then
        ∃ data hub, read (Provisioning settings) = Ok data ∧
          ParseProvisioningJSON range_order data (HubConnection settings) = Done (hub, None) ∧
          mergo_map (with_hub settings hub) = Ok settings'
      else settings' = settings
  | Panicked p =>
      exists_ = true ∧ ∃ data, read (Provisioning settings) = Ok data ∧
        ParseProvisioningJSON range_order data (HubConnection settings) = Panicked p
  | NoFuel => False
  end.
Proof. apply ApplySettings_spec. Qed.
End apply.

(** ** An example document *)

(** The nodes of
    [{"hub": {"credentials": {"deviceId": "ns:dev", "secrets": [{"passwordBase64":
    "cHc="}]}}}], and of a secret (node 6) that holds both kinds of password. *)
#[local] Instance sample_gabs : Gabs nat := {
  ParseJSON s := if decide (s = "document") then Some 0%nat else None;
  DotPathToSlice path := Split path ".";
  Search c path :=
    if decide (c = 0%nat ∧ path = ["hub"; "credentials"; "deviceId"]) then 1%nat
    else if decide (c = 0%nat ∧ path = ["hub"; "credentials"; "secrets"]) then 2%nat
    else 9%nat;
  Path c path :=
    if decide (c = 0%nat ∧ path = deviceIDPath) then 1%nat else 9%nat;
  Children c := if decide (c = 2%nat) then [3%nat] else [];
  ChildrenMap c :=
    if decide (c = 3%nat) then {[passwordBase64 := 4%nat]}
    else if decide (c = 6%nat) then {[passwordBase64 := 4%nat; password := 5%nat]} else ∅;
  Data c :=
    if decide (c = 1%nat) then AString "ns:dev"
    else if decide (c = 4%nat) then AString "cHc="
    else if decide (c = 5%nat) then AString "plain" else ANil;
}.

Lemma ParseProvisioningJSON_functional_witness :
  ∃ hub, ParseProvisioningJSON map_to_list "document" (set_Hub DefaultSettings)
    = Done (hub, None) ∧ hub_DeviceID hub = "ns:dev" ∧ hub_Password hub = "pw" ∧
      hub_Address hub = "mqtts://mqtt.bosch-iot-hub.com:8883".
Proof.
  rewrite (ParseProvisioningJSON_functional map_to_list (λ m, reflexivity _) "document").
  - vm_compute. eexists. split_and!; reflexivity.
  - intros j Hj. vm_compute in Hj. injection Hj as <-.
    constructor; [|constructor]. right. vm_compute. reflexivity.
Defined.

Lemma readPassword_ambiguous_witness :
  ∃ order1 order2 : gmap string nat → list (string * nat),
    (∀ m, order1 m ≡ₚ map_to_list m) ∧ (∀ m, order2 m ≡ₚ map_to_list m) ∧
    read_secrets order1 "" [6%nat] = Done "pw" ∧
    read_secrets order2 "" [6%nat] = Done "plain".
Proof.
  apply (readPassword_ambiguous 6%nat [] "" 4%nat 5%nat "cHc=" "pw" "plain");
    vm_compute; reflexivity.
Defined.
