(* ===== verification/TpmTls.v ===== *)
(** * TPM connections and contexts: tpmtls/tpm_connection.go, tpmtls/tpm_context.go

    Both types hand out their methods on values, not on pointers: a call works
    on a copy of the receiver, and what it assigns to the fields of the copy is
    lost.  A method is modelled by its body, which returns the changed copy, and
    [by_value] is the call that drops it.  The TPM commands of go-tpm, the files
    and the certificates are arguments; what lives outside the structs, the open
    descriptors and the keys loaded in the TPM, is the [world]. *)

From S2P Require Import Prelude GoStrings.

Local Open Scope Z_scope.

(** ** The world *)

Record world := MkWorld {
  handles : gset nat;            (* the open descriptors *)
  next_handle : nat;
  keys : gset Z;                 (* the key handles loaded in the TPM *)
}.

Definition open_handle (w : world) : world * nat :=
  (MkWorld ({[next_handle w]} ∪ handles w) (S (next_handle w)) (keys w), next_handle w).

Definition close_handle (h : nat) (w : world) : world :=
  MkWorld (handles w ∖ {[h]}) (next_handle w) (keys w).

Definition load_key (k : Z) (w : world) : world :=
  MkWorld (handles w) (next_handle w) ({[k]} ∪ keys w).

(** tpm2.FlushContext. *)
Definition FlushContext (k : Z) (w : world) : world :=
  MkWorld (handles w) (next_handle w) (keys w ∖ {[k]}).

(** What the operating system, go-tpm and the crypto packages answer. *)
Record tpm_env := MkEnv {
  env_stat : string → result Z;                    (* the file mode *)
  env_open : string → option error;
  env_dial : string → option error;
  env_manufacturer : option error;
  env_read : string → result string;
  env_pem : string → option string;
  env_x509 : string → result string;
  env_u16 : string → result string;
  env_load : Z → string → string → Z * option error;
  env_public : Z → result string;
  env_key : string → option error;
}.

(** What the code sets of a [tls.Config]; a certificate is its chain. *)
Record tls_Config := MkTls {
  InsecureSkipVerify : bool;
  RootCAs : string;
  Certificates : list (list string);
  MinVersion : Z;
  MaxVersion : Z;
  CipherSuites : list Z;
  NextProtos : list string;
}.

Definition VersionTLS12 : Z := 771.
Definition VersionTLS13 : Z := 772.

Section tpm.
Variable env : tpm_env.

(** ** Connections *)

(** An [io.ReadWriter] made by GetRW: a proxy of a descriptor. *)
Record rwProxy := MkProxy { rwc_of : option nat }.

#[local] Instance rwProxy_eq_dec : EqDecision rwProxy.
Proof. solve_decision. Defined.

Record tpmConnection := MkTpmConnection {
  deviceFile : string;
  rwc : option nat;
  rw : option rwProxy;
}.

Definition ModeDevice : Z := Z.shiftl 1 26.
Definition ModeSocket : Z := Z.shiftl 1 24.

Definition NewTpmConnection (fileName : string) (w : world)
    : result tpmConnection * world :=
  match env_stat env fileName with
  | Err err => (Err err, w)
  | Ok mode =>
      let opened :=
        if negb (Z.land mode ModeDevice =? 0) then
          match env_open env fileName with
          | Some err => Err err
          | None => Ok (open_handle w)
          end
        else if negb (Z.land mode ModeSocket =? 0) then
          match env_dial env fileName with
          | Some err => Err err
          | None => Ok (open_handle w)
          end
        else Err (Errorf "unsupported TPM file mode") in
      match opened with
      | Err err => (Err err, w)
      | Ok (w, h) =>
          match env_manufacturer env with
          | Some _ =>
              (Err (Errorf ("open " +:+ fileName +:+ ": device is not a TPM 2.0")),
               close_handle h w)
          | None => (Ok (MkTpmConnection fileName (Some h) None), w)
          end
      end
  end.

(** The bodies of the methods: the copy as they leave it, and the results. *)
Definition Close_body (t : tpmConnection) (w : world)
    : tpmConnection * outcome (option error * world) :=
  match rw t with
  | Some _ =>
      (t, Done (Some (Sentinel "can't close the TPM connection it's currently in use"), w))
  | None =>
      match rwc t with
      | None => (t, Panicked NilDereference)
      | Some h =>
          (MkTpmConnection (deviceFile t) None (rw t), Done (None, close_handle h w))
      end
  end.

Definition ReleaseRW_body (writer : option rwProxy) (t : tpmConnection)
    : tpmConnection * option error :=
  if decide (writer = rw t)
  then (MkTpmConnection (deviceFile t) (rwc t) None, None)
  else (t, Some (Sentinel "this is RW is not the expected one")).

Definition GetRW_body (t : tpmConnection) : tpmConnection * result (option rwProxy) :=
  match rw t with
  | None =>
      let p := Some (MkProxy (rwc t)) in
      (MkTpmConnection (deviceFile t) (rwc t) p, Ok p)
  | Some _ => (t, Err (Sentinel "tpm RW is currently unavailable"))
  end.

(** A call with a value receiver. *)
Definition by_value {T A} (body : T → T * A) (t : T) : A := (body t).2.

Definition Close (t : tpmConnection) (w : world) : outcome (option error * world) :=
  by_value (λ t, Close_body t w) t.

Definition ReleaseRW (t : tpmConnection) (writer : option rwProxy) : option error :=
  by_value (ReleaseRW_body writer) t.

Definition GetRW (t : tpmConnection) : result (option rwProxy) := by_value GetRW_body t.

(** ** Contexts *)

Record ContextOpts := MkOpts {
  TPMConnectionRW : option rwProxy;
  PrivateKeyFile : string;
  PublicKeyFile : string;
  StorageRootKeyHandle : Z;
  PublicCertFile : string;
  ExtTLSConfig : option tls_Config;
}.

Record tpmTLSContext := MkContext {
  cfg : ContextOpts;
  x509Certificate : string;
  publicKey : option string;
  cachedKeyContext : Z;
}.

Definition with_rw (o : ContextOpts) (p : option rwProxy) : ContextOpts :=
  MkOpts p (PrivateKeyFile o) (PublicKeyFile o) (StorageRootKeyHandle o)
    (PublicCertFile o) (ExtTLSConfig o).

(** The options NewTPMContext insists on. *)
Definition check_opts (opts : ContextOpts) : option error :=
  match TPMConnectionRW opts with
  | None => Some (Sentinel "the TPM connection stream is required")
  | Some _ =>
      if StorageRootKeyHandle opts =? 0
      then Some (Sentinel "the TPM Storage Root Key handle is required") else
      if slen (PublicKeyFile opts) =? 0
      then Some (Sentinel "the TPM Public Key File is required") else
      if slen (PrivateKeyFile opts) =? 0
      then Some (Sentinel "the TPM Private Key File is required") else
      if slen (PublicCertFile opts) =? 0
      then Some (Sentinel "the Public Certificate File is required") else
      match ExtTLSConfig opts with
      | None => Some (Sentinel "the External TLS Config is required")
      | Some ext =>
          if (0 <? length (Certificates ext))%nat
          then Some (Sentinel "Certificates value in ExtTLSConfig MUST be empty") else
          if (0 <? length (CipherSuites ext))%nat
          then Some (Sentinel "CipherSuites value in ExtTLSConfig MUST be empty") else None
      end
  end.

(** The loaders have pointer receivers: what they assign stays. *)
Definition validateAndLoadPublicCert (t : tpmTLSContext) : result tpmTLSContext :=
  match env_read env (PublicCertFile (cfg t)) with
  | Err err => Err (Wrap err "unable to read certificate file content")
  | Ok pubPEM =>
      match env_pem env pubPEM with
      | None => Err (Sentinel "unable to decode certificate file content")
      | Some block =>
          match env_x509 env block with
          | Err err => Err (Wrap err "unable to parse certificate file content")
          | Ok pub => Ok (MkContext (cfg t) pub (publicKey t) (cachedKeyContext t))
          end
      end
  end.

Definition loadKeysContext (t : tpmTLSContext) (w : world)
    : result tpmTLSContext * world :=
  if cachedKeyContext t =? 0 then
    match env_read env (PrivateKeyFile (cfg t)), env_read env (PublicKeyFile (cfg t)) with
    | Err err, _ => (Err err, w)
    | Ok _, Err err => (Err err, w)
    | Ok privBytes, Ok pubBytes =>
        match env_u16 env pubBytes, env_u16 env privBytes with
        | Err err, _ => (Err err, w)
        | Ok _, Err err => (Err err, w)
        | Ok tpmPubBlob, Ok tpmPrivBlob =>
            match env_load env (StorageRootKeyHandle (cfg t)) tpmPubBlob tpmPrivBlob with
            | (handle, Some err) =>
                (Err (Wrap err "tpm2.Load failed"), FlushContext handle w)
            | (handle, None) =>
                (Ok (MkContext (cfg t) (x509Certificate t) (publicKey t) handle),
                 load_key handle w)
            end
        end
    end
  else (Ok t, w).

Definition loadPubKey (t : tpmTLSContext) : result tpmTLSContext :=
  match publicKey t with
  | Some _ => Ok t
  | None =>
      match env_public env (cachedKeyContext t) with
      | Err err => Err err
      | Ok pub =>
          match env_key env pub with
          | Some err => Err err
          | None => Ok (MkContext (cfg t) (x509Certificate t) (Some pub) (cachedKeyContext t))
          end
      end
  end.

Definition NewTPMContext (opts : ContextOpts) (w : world) : result tpmTLSContext * world :=
  match check_opts opts with
  | Some err => (Err err, w)
  | None =>
      match validateAndLoadPublicCert (MkContext opts "" None 0) with
      | Err err => (Err err, w)
      | Ok ctx =>
          match loadKeysContext ctx w with
          | (Err err, w) => (Err err, w)
          | (Ok ctx, w) =>
              match loadPubKey ctx with
              | Err err => (Err err, w)
              | Ok ctx => (Ok ctx, w)
              end
          end
      end
  end.

Definition ContextClose_body (t : tpmTLSContext) (w : world)
    : tpmTLSContext * (option rwProxy * option error * world) :=
  let p := TPMConnectionRW (cfg t) in
  match p with
  | None => (t, (p, Some (Sentinel "this TPM TLS Context is already closed"), w))
  | Some _ =>
      (MkContext (with_rw (cfg t) None) (x509Certificate t) None 0,
       (p, None, FlushContext (cachedKeyContext t) w))
  end.

Definition ContextClose (t : tpmTLSContext) (w : world)
    : option rwProxy * option error * world :=
  by_value (λ t, ContextClose_body t w) t.

(** Sign and Decrypt refuse to work on a closed context; this is the key they use
    when they do not. *)
Definition usable_key (t : tpmTLSContext) : result Z :=
  match TPMConnectionRW (cfg t) with
  | None => Err (Sentinel "this TPM TLS Context is closed")
  | Some _ => Ok (cachedKeyContext t)
  end.

Definition Public (t : tpmTLSContext) : option string :=
  match TPMConnectionRW (cfg t) with
  | None => None
  | Some _ => publicKey t
  end.

(** SHA-256 is the one digest that is signed. *)
Definition Sign (t : tpmTLSContext) (sha256 : bool) (hash_size digest_len : Z)
    (tpm_sign : Z → result string) : result string :=
  match usable_key t with
  | Err err => Err err
  | Ok key =>
      if negb (digest_len =? hash_size)
      then Err (Sentinel "sal: Sign: Digest length doesn't match passed crypto algorithm")
      else if negb sha256 then Err (Errorf "sal: Sign: Hash function is not supported")
      else match tpm_sign key with
           | Err err => Err (Errorf "sign with TPM failed")
           | Ok signature => Ok signature
           end
  end.

Definition Decrypt (t : tpmTLSContext) (tpm_decrypt : Z → result string) : result string :=
  match usable_key t with Err err => Err err | Ok key => tpm_decrypt key end.

(** TLS_ECDHE_RSA_WITH_AES_128_GCM_SHA256, TLS_ECDHE_ECDSA_WITH_AES_128_GCM_SHA256
    and TLS_RSA_WITH_AES_128_CBC_SHA256. *)
Definition tpm_cipher_suites : list Z := [49199; 49195; 60].

(** nil on a closed context, and a panic when there is no external configuration
    to take the authorities from. *)
Definition ContextTLSConfig (t : tpmTLSContext) : outcome (option tls_Config) :=
  match TPMConnectionRW (cfg t) with
  | None => Done None
  | Some _ =>
      ext ← or_panic NilDereference (ExtTLSConfig (cfg t));
      Done (Some (MkTls (InsecureSkipVerify ext) (RootCAs ext) [[x509Certificate t]] 0
              VersionTLS12 tpm_cipher_suites []))
  end.

(** ** The ownership contract of the interface *)

Inductive conn_op :=
  | OpGetRW
  | OpReleaseRW (writer : option rwProxy)
  | OpClose.

#[local] Instance conn_op_eq_dec : EqDecision conn_op.
Proof. solve_decision. Defined.

(** The client-visible results: which operations succeeded. *)
Definition op_ok (t : tpmConnection) (w : world) (o : conn_op) : outcome (bool * world) :=
  match o with
  | OpGetRW => Done (match GetRW t with Ok _ => true | Err _ => false end, w)
  | OpReleaseRW p => Done (match ReleaseRW t p with None => true | Some _ => false end, w)
  | OpClose =>
      '(err, w) ← Close t w;
      Done (match err with None => true | Some _ => false end, w)
  end.

(** The operations of a client on one connection, in order. *)
Fixpoint conn_run (t : tpmConnection) (w : world) (os : list conn_op)
    : outcome (list bool * world) :=
  match os with
  | [] => Done ([], w)
  | o :: os =>
      '(ok, w) ← op_ok t w o;
      '(oks, w) ← conn_run t w os;
      Done (ok :: oks, w)
  end.

(** The results the contract of the interface asks for: one owner at a time, and
    no Close while there is one. *)
Fixpoint contract (owned : option rwProxy) (p : rwProxy) (os : list conn_op) : list bool :=
  match os with
  | [] => []
  | OpGetRW :: os =>
      match owned with
      | None => true :: contract (Some p) p os
      | Some _ => false :: contract owned p os
      end
  | OpReleaseRW writer :: os =>
      if decide (writer = owned) then true :: contract None p os
      else false :: contract owned p os
  | OpClose :: os =>
      match owned with
      | None => true :: contract None p os
      | Some _ => false :: contract owned p os
      end
  end.

(** The results the code gives instead. *)
Definition actual (o : conn_op) : bool :=
  match o with
  | OpGetRW => true
  | OpReleaseRW writer => bool_decide (writer = None)
  | OpClose => true
  end.

Lemma conn_run_actual t w os h :
  rw t = None → rwc t = Some h →
  conn_run t w os = Done (actual <$> os,
    if decide (OpClose ∈ os) then close_handle h w else w).
Proof.
  intros Hrw Hrwc. revert w. induction os as [|o os IH]; intros w.
  { by rewrite decide_False by apply not_elem_of_nil. }
  assert (∀ w', close_handle h (close_handle h w') = close_handle h w') as Hidem.
  { intros w'. unfold close_handle. cbn. f_equal. set_solver. }
  assert (op_ok t w o = Done (actual o, match o with OpClose => close_handle h w | _ => w end))
    as Ho.
  { destruct o as [|writer|]; unfold op_ok, GetRW, ReleaseRW, Close, by_value,
      GetRW_body, ReleaseRW_body, Close_body; rewrite Hrw, ?Hrwc; cbn [snd]; [done| |done].
    cbn [actual]. destruct (decide (writer = None)) as [->|]; [done|].
    by rewrite bool_decide_eq_false_2. }
  cbn [conn_run fmap list_fmap]. rewrite Ho. cbn [mbind outcome_bind]. rewrite IH.
  cbn [mbind outcome_bind]. repeat f_equal.
  destruct (decide (OpClose ∈ os)) as [Hin|Hin], o; try done;
    repeat case_decide; try set_solver.
Qed.

(** The methods of a TPM connection keep no ownership: because they work on
    copies, GetRW always succeeds, ReleaseRW refuses every stream GetRW ever
    returned, and Close closes the descriptor even while a stream is in use.
    The contract of the interface is met only by clients that ask for one
    stream, never give it back, and do not close. *)
Theorem tpm_ownership_not_kept fileName w t w' os :
  NewTpmConnection fileName w = (Ok t, w') →
  ∃ h, h ∈ handles w' ∧
    GetRW t = Ok (Some (MkProxy (Some h))) ∧
    conn_run t w' os = Done (actual <$> os,
      if decide (OpClose ∈ os) then close_handle h w' else w') ∧
    (actual <$> [OpGetRW; OpGetRW] ≠ contract None (MkProxy (Some h)) [OpGetRW; OpGetRW]) ∧
    (actual <$> [OpGetRW; OpReleaseRW (Some (MkProxy (Some h)))]
      ≠ contract None (MkProxy (Some h)) [OpGetRW; OpReleaseRW (Some (MkProxy (Some h)))]) ∧
    (actual <$> [OpGetRW; OpClose] ≠ contract None (MkProxy (Some h)) [OpGetRW; OpClose]).
Proof.
  intros H.
  assert (∃ h, rw t = None ∧ rwc t = Some h ∧ h ∈ handles w') as (h & Hrw & Hrwc & Hin).
  { unfold NewTpmConnection in H. repeat case_match; simplify_eq/=;
      eexists; (split_and!; [done|done|]); set_solver. }
  exists h. split; [done|]. split.
  { unfold GetRW, by_value, GetRW_body. by rewrite Hrw, Hrwc. }
  split; [by apply conn_run_actual|]. cbn. by rewrite decide_True by done.
Qed.
End tpm.

(** ** An example environment *)

(** A TPM device whose key gets the handle 7, and files that can be read. *)
Definition sample_env : tpm_env := {|
  env_stat _ := Ok (Z.shiftl 1 26);
  env_open _ := None;
  env_dial _ := None;
  env_manufacturer := None;
  env_read path := Ok path;
  env_pem s := Some s;
  env_x509 s := Ok s;
  env_u16 s := Ok s;
  env_load _ _ _ := (7, None);
  env_public _ := Ok "public";
  env_key _ := None;
|}.

Definition sample_world : world := MkWorld ∅ 0 ∅.

Lemma tpm_ownership_not_kept_witness :
  conn_run (MkTpmConnection "/dev/tpm0" (Some 0%nat) None) (MkWorld {[0%nat]} 1 ∅)
    [OpGetRW; OpGetRW; OpReleaseRW (Some (MkProxy (Some 0%nat))); OpClose]
  = Done ([true; true; false; true], MkWorld ∅ 1 ∅).
Proof.
  destruct (tpm_ownership_not_kept sample_env "/dev/tpm0" sample_world
    (MkTpmConnection "/dev/tpm0" (Some 0%nat) None) (MkWorld {[0%nat]} 1 ∅)
    [OpGetRW; OpGetRW; OpReleaseRW (Some (MkProxy (Some 0%nat))); OpClose])
    as (h & Hh & Hg & Hrun & _).
  - vm_compute. reflexivity.
  - vm_compute in Hg. injection Hg as <-. rewrite Hrun. vm_compute. reflexivity.
Defined.
