(* ===== verification/Strconv.v ===== *)
(** * strconv.ParseInt with base 0 and 64 bits

    What the environment variables of the connector are read with: a sign, the
    prefixes 0b, 0o, 0x and 0, and underscores between digits. *)

From S2P Require Import Prelude GoStrings.

Local Open Scope Z_scope.

Definition code (c : ascii) : Z := Z.of_nat (nat_of_ascii c).

(** The letters of a prefix or of a digit, in lower case. *)
Definition lower (c : ascii) : Z := Z.lor (code c) 32.

(** The value of a digit or letter; [None] for other bytes. *)
Definition digit_value (c : ascii) : option Z :=
  if (48 <=? code c) && (code c <=? 57) then Some (code c - 48) else
  if (97 <=? lower c) && (lower c <=? 122) then Some (lower c - 97 + 10) else None.

(** The last thing [underscoreOK] has seen. *)
Inductive seen := SeenStart | SeenDigit | SeenUnderscore | SeenOther.

Fixpoint underscores_ok (hex : bool) (last : seen) (s : string) : bool :=
  match s with
  | "" => match last with SeenUnderscore => false | _ => true end
  | String c s =>
      if ((48 <=? code c) && (code c <=? 57))
         || (hex && (97 <=? lower c) && (lower c <=? 102))
      then underscores_ok hex SeenDigit s
      else if Ascii.eqb c "_" then
        match last with
        | SeenDigit => underscores_ok hex SeenUnderscore s
        | _ => false
        end
      else match last with
           | SeenUnderscore => false
           | _ => underscores_ok hex SeenOther s
           end
  end.

(** On a number without its sign. *)
Definition underscoreOK (s : string) : bool :=
  match s with
  | String "0" (String p rest) =>
      if bool_decide (lower p = 98 ∨ lower p = 111 ∨ lower p = 120)
      then underscores_ok (bool_decide (lower p = 120)) SeenDigit rest
      else underscores_ok false SeenStart s
  | _ => underscores_ok false SeenStart s
  end.

(** The base and the digits after the prefix. *)
Definition base_prefix (s : string) : Z * string :=
  match s with
  | String "0" rest =>
      match rest with
      | String p ((String _ _) as digits) =>
          if lower p =? 98 then (2, digits) else
          if lower p =? 111 then (8, digits) else
          if lower p =? 120 then (16, digits) else (8, rest)
      | _ => (8, rest)
      end
  | _ => (10, s)
  end.

(** The digits, underscores skipped; [None] is a syntax error. *)
Fixpoint digits_value (base acc : Z) (s : string) : option Z :=
  match s with
  | "" => Some acc
  | String c s =>
      if Ascii.eqb c "_" then digits_value base acc s else
      match digit_value c with
      | Some d => if d <? base then digits_value base (acc * base + d) s else None
      | None => None
      end
  end.

Definition has_underscore (s : string) : bool := negb (byte_free "_" s).

Definition ParseUint0 (s : string) : option Z :=
  if slen s =? 0 then None else
  let '(base, digits) := base_prefix s in
  n ← digits_value base 0 digits;
  if has_underscore digits && negb (underscoreOK s) then None else
  if two64 <=? n then None else Some n.

(** [None] is any error. *)
Definition ParseInt (s : string) : option Z :=
  let '(neg, digits) :=
    match s with
    | String "+" s => (false, s)
    | String "-" s => (true, s)
    | _ => (false, s)
    end in
  n ← ParseUint0 digits;
  if (if neg : bool then two63 <? n else two63 <=? n) then None
  else Some (if neg then - n else n).

(** What is parsed fits in an [int64]. *)
Lemma digits_value_nonneg base acc s n :
  0 <= base → 0 <= acc → digits_value base acc s = Some n → 0 <= n.
Proof.
  intros Hb. revert acc. induction s as [|c s IH]; intros acc Ha H; cbn in H; [by simplify_eq|].
  destruct (Ascii.eqb c "_"); [by eapply IH|].
  destruct (digit_value c) as [d|] eqn:Ed; [|done]. destruct (d <? base) eqn:E; [|done].
  eapply IH; [|exact H]. unfold digit_value in Ed. repeat case_match; simplify_eq; bools; nia.
Qed.

Lemma ParseInt_range s n : ParseInt s = Some n → in_int64 n.
Proof.
  unfold ParseInt. intros H.
  set (p := match s with String "+" s => _ | String "-" s => _ | _ => _ end) in H.
  destruct p as [neg digits].
  destruct (ParseUint0 digits) as [u|] eqn:Eu; cbn [mbind option_bind] in H; [|done].
  assert (0 <= u) as Hu.
  { unfold ParseUint0 in Eu. destruct (_ =? 0); [done|].
    destruct (base_prefix digits) as [base ds] eqn:Eb.
    destruct (digits_value base 0 ds) as [n'|] eqn:Ed; cbn [mbind option_bind] in Eu; [|done].
    assert (0 <= base).
    { unfold base_prefix in Eb. repeat case_match; simplify_eq; lia. }
    assert (n' = u) as -> by (by repeat case_match; simplify_eq).
    by eapply digits_value_nonneg in Ed. }
  unfold in_int64. destruct neg.
  - destruct (two63 <? u) eqn:E; simplify_eq; bools. unfold two63 in *. lia.
  - destruct (two63 <=? u) eqn:E; simplify_eq; bools. unfold two63 in *. lia.
Qed.

Lemma ParseInt_examples :
  (ParseInt <$> ["60"; "-5"; "+0x1F"; "0b101"; "017"; "1_000"; "0_7"; "0"; ""; "0x"; "1__0";
                 "_1"; "08"; "9223372036854775808"; "-9223372036854775808"; "12s"])
  = [Some 60; Some (-5); Some 31; Some 5; Some 15; Some 1000; Some 7; Some 0; None; None; None;
     None; None; None; Some (- two63); None].
Proof. vm_compute. reflexivity. Qed.
