(* ===== verification/HubConnection.v ===== *)
(** * Making the connections: config/tls_config.go and config/connections.go

    The TLS material of the Hub and of the local broker, the three connections
    of the connector and the publishers and subscribers on the Hub's.  A cleaner
    releases what the TLS configuration of the Hub holds; what it is called on is
    part of the world of TpmTls. *)

From Stdlib Require Import QArith.
From S2P Require Import Prelude GoStrings Util Message Connection Service Publisher.
From S2P Require Import Subscriber Settings Strconv TpmTls.

Local Open Scope Z_scope.

(** ** config/tls_config.go *)

Inductive Cleaner :=
  | noClean
  | TpmCloser (conn : tpmConnection) (tpm : tpmTLSContext).

(** The closer gives the stream back only when the context was open, and closes
    the connection in any case; the errors are dropped. *)
Definition run_cleaner (c : Cleaner) (w : world) : outcome world :=
  match c with
  | noClean => Done w
  | TpmCloser conn tpm =>
      let '(rw, err, w) := ContextClose tpm w in
      let _ := match err with None => ReleaseRW conn rw | Some _ => None end in
      '(_, w) ← Close conn w;
      Done w
  end.

(** ** The backend of a TPM *)

Section tpm_tls.
Variable env : tpm_env.

(** A configuration or an error, and the cleaner, which may be nil. *)
Definition tls_result : Type := result tls_Config * option Cleaner.

Definition NewTPMTlsConfig (settings : TLSSettings) (caCertPool : string) (w : world)
    : outcome (tls_result * world) :=
  match NewTpmConnection env (TPMDevice settings) w with
  | (Err err, w) => Done (Err (Wrap err "failed to open TPM descriptor"), None, w)
  | (Ok conn, w) =>
      match GetRW conn with
      | Err err => Done (Err (Wrap err "failed to open TPM descriptor"), None, w)
      | Ok rw =>
          let tpmConfig :=
            {| PrivateKeyFile := TPMKey settings;
               PublicKeyFile := TPMKeyPub settings;
               PublicCertFile := Cert settings;
               StorageRootKeyHandle := TPMHandle settings `mod` 2 ^ 32;
               TPMConnectionRW := rw;
               ExtTLSConfig := Some (MkTls false caCertPool [] 0 0 [] []) |} in
          match NewTPMContext env tpmConfig w with
          | (Err err, w) => Done (Err (Wrap err "failed to get TPM context"), None, w)
          | (Ok tpm, w) =>
              tlsConfig ← ContextTLSConfig tpm;
              match tlsConfig with
              | None => Done (Err (Sentinel "TPM TLS backend not working"), None, w)
              | Some tlsConfig => Done (Ok tlsConfig, Some (TpmCloser conn tpm), w)
              end
          end
      end
  end.

(** ** What the TPM backend holds *)

(** Descriptors are fresh, and the TPM gives out a handle that is not in use. *)
Definition world_ok (w : world) : Prop := ∀ h, h ∈ handles w → (h < next_handle w)%nat.

Definition fresh_keys (w : world) : Prop :=
  ∀ parent pub priv, (env_load env parent pub priv).1 ∉ keys w.

(** Nothing is held that was not held before. *)
Definition same_resources (w w' : world) : Prop :=
  handles w' = handles w ∧ keys w' = keys w.

Lemma NewTpmConnection_opens file w r w' :
  world_ok w → NewTpmConnection env file w = (r, w') →
  keys w' = keys w ∧
  match r with
  | Ok t => ∃ h, (h ∉ handles w) ∧ t = MkTpmConnection file (Some h) None ∧
      handles w' = {[h]} ∪ handles w
  | Err _ => handles w' = handles w
  end.
Proof.
  intros Hw H.
  assert (next_handle w ∉ handles w) as Hfresh by (intros Hin; specialize (Hw _ Hin); lia).
  unfold NewTpmConnection in H.
  repeat case_match; simplify_eq/=; (split; [done|]); try done; try set_solver.
Qed.

Lemma NewTPMContext_loads opts w r w' :
  fresh_keys w → NewTPMContext env opts w = (r, w') →
  handles w' = handles w ∧
  match r with
  | Ok t => keys w' = {[cachedKeyContext t]} ∪ keys w ∧ (cachedKeyContext t ∉ keys w) ∧
      cfg t = opts ∧ is_Some (TPMConnectionRW opts) ∧ is_Some (ExtTLSConfig opts)
  | Err _ => keys w' = keys w ∨ ∃ k, keys w' = {[k]} ∪ keys w ∧ k ∉ keys w
  end.
Proof.
  intros Hfresh H. unfold NewTPMContext in H.
  destruct (check_opts opts) eqn:Eo; [simplify_eq; split; [done|by left]|].
  assert (is_Some (TPMConnectionRW opts) ∧ is_Some (ExtTLSConfig opts)) as [Hrw Hext].
  { unfold check_opts in Eo. repeat case_match; simplify_eq; eauto. }
  destruct (validateAndLoadPublicCert env _) as [ctx|] eqn:Ev;
    [|simplify_eq; split; [done|by left]].
  assert (∃ pub, ctx = MkContext opts pub None 0) as [pub ->].
  { unfold validateAndLoadPublicCert in Ev. cbn [cfg publicKey cachedKeyContext] in Ev.
    repeat case_match; simplify_eq; eauto. }
  unfold loadKeysContext in H. cbn [cachedKeyContext cfg x509Certificate publicKey] in H.
  change (0 =? 0) with true in H. cbn iota in H.
  destruct (env_read env (PrivateKeyFile opts)); [|simplify_eq; split; [done|by left]].
  destruct (env_read env (PublicKeyFile opts)); [|simplify_eq; split; [done|by left]].
  destruct (env_u16 env _) as [b1|]; [|simplify_eq; split; [done|by left]].
  destruct (env_u16 env _) as [b2|]; [|simplify_eq; split; [done|by left]].
  pose proof (Hfresh (StorageRootKeyHandle opts) b1 b2) as Hk.
  destruct (env_load env _ b1 b2) as [k [err|]]; cbn [fst] in Hk.
  { simplify_eq/=. split; [done|]. left. set_solver. }
  destruct (loadPubKey env _) as [t|] eqn:Et; simplify_eq/=; (split; [done|]).
  - assert (cfg t = opts ∧ cachedKeyContext t = k) as [-> ->].
    { unfold loadPubKey in Et. cbn in Et. repeat case_match; by simplify_eq. }
    eauto.
  - right. eauto.
Qed.

Lemma run_TpmCloser file h w0 (t : tpmTLSContext) w :
  h ∉ handles w0 → cachedKeyContext t ∉ keys w0 → is_Some (TPMConnectionRW (cfg t)) →
  handles w = {[h]} ∪ handles w0 → keys w = {[cachedKeyContext t]} ∪ keys w0 →
  ∃ w', run_cleaner (TpmCloser (MkTpmConnection file (Some h) None) t) w = Done w' ∧
    same_resources w0 w'.
Proof.
  intros Hh Hk [p Hp] Hhs Hks. unfold run_cleaner, ContextClose, by_value, ContextClose_body.
  rewrite Hp. cbn. eexists. split; [done|]. split; cbn; set_solver.
Qed.

Lemma NewTPMTlsConfig_spec settings caCertPool w :
  world_ok w → fresh_keys w →
  ∃ r cl w', NewTPMTlsConfig settings caCertPool w = Done (r, cl, w') ∧
  match r with
  | Ok _ => ∃ c h k, cl = Some c ∧
      (h ∉ handles w) ∧ handles w' = {[h]} ∪ handles w ∧
      (k ∉ keys w) ∧ keys w' = {[k]} ∪ keys w ∧
      ∃ w'', run_cleaner c w' = Done w'' ∧ same_resources w w''
  | Err _ => cl = None ∧
      (handles w' = handles w ↔
       ∃ err, (NewTpmConnection env (TPMDevice settings) w).1 = Err err)
  end.
Proof.
  intros Hw Hk. unfold NewTPMTlsConfig.
  destruct (NewTpmConnection env (TPMDevice settings) w) as [[conn|err] w1] eqn:Ec.
  2:{ destruct (NewTpmConnection_opens _ _ _ _ Hw Ec) as [_ Hh].
      eexists _, _, _. split; [done|]. split; [done|]. cbn. naive_solver. }
  destruct (NewTpmConnection_opens _ _ _ _ Hw Ec) as [Hkeys (h & Hh & -> & Hhs)].
  change (GetRW (MkTpmConnection (TPMDevice settings) (Some h) None))
    with (@Ok (option rwProxy) (Some (MkProxy (Some h)))). cbn iota.
  match goal with |- context [NewTPMContext env ?o w1] => set (opts := o) end.
  destruct (NewTPMContext env opts w1) as [r w2] eqn:Et.
  assert (fresh_keys w1) as Hk1 by (intros ???; rewrite Hkeys; apply Hk).
  destruct (NewTPMContext_loads _ _ _ _ Hk1 Et) as [Hhs2 Hr]. destruct r as [tpm|err].
  - destruct Hr as (Hks & Hnk & Hcfg & Hrw & _). unfold ContextTLSConfig. rewrite Hcfg.
    cbn [TPMConnectionRW opts ExtTLSConfig or_panic mbind outcome_bind].
    eexists _, _, _. split; [done|]. cbn.
    exists (TpmCloser (MkTpmConnection (TPMDevice settings) (Some h) None) tpm), h,
      (cachedKeyContext tpm).
    rewrite Hhs2, Hhs, Hks, Hkeys. rewrite Hkeys in Hnk. split_and!; try done.
    apply run_TpmCloser; [done|done| |congruence|congruence]. by rewrite Hcfg.
  - eexists _, _, _. split; [done|]. split; [done|]. rewrite Hhs2, Hhs. cbn.
    split; [set_solver|naive_solver].
Qed.

(** C37.  The TLS backend of a TPM never hands out a nil cleaner with a
    configuration; it holds one descriptor and one loaded key, and running its
    cleaner gives back exactly these.  When it fails it has no cleaner to offer,
    and then the descriptor stays open exactly when the connection to the TPM had
    been made. *)
Theorem NewTPMTlsConfig_resources settings caCertPool w :
  world_ok w → fresh_keys w →
  ∃ r cl w', NewTPMTlsConfig settings caCertPool w = Done (r, cl, w') ∧
  match r with
  | Ok _ => ∃ c h k, cl = Some c ∧
      (h ∉ handles w) ∧ handles w' = {[h]} ∪ handles w ∧
      (k ∉ keys w) ∧ keys w' = {[k]} ∪ keys w ∧
      ∃ w'', run_cleaner c w' = Done w'' ∧ same_resources w w''
  | Err _ => cl = None ∧
      (handles w' = handles w ↔
       ∃ err, (NewTpmConnection env (TPMDevice settings) w).1 = Err err)
  end.
Proof. apply NewTPMTlsConfig_spec. Qed.

End tpm_tls.

(** ** The TLS configurations *)

Section tls.
Variable env : tpm_env.
(** [CertPool.AppendCertsFromPEM], [tls.LoadX509KeyPair] (the chain) and the
    identifiers of [tls.CipherSuites]. *)
Variable parse_ca : string → bool.
Variable key_pair : string → string → result (list string).
Variable supportedCipherSuites : list Z.

Definition NewCAPool (caFile : string) : result string :=
  match env_read env caFile with
  | Err err => Err (Wrap err "failed to load CA")
  | Ok caCert =>
      if parse_ca caCert then Ok caCert
      else Err (Errorf ("failed to parse CA " +:+ caFile))
  end.

Definition plain_config (caCertPool : string) (certs : list (list string)) : tls_Config :=
  MkTls false caCertPool certs VersionTLS12 VersionTLS13 supportedCipherSuites [].

Definition NewFSTlsConfig (caCertPool certFile keyFile : string) : result tls_Config :=
  match key_pair certFile keyFile with
  | Err err => Err (Wrap err "failed to load X509 key pair")
  | Ok cert => Ok (plain_config caCertPool [cert])
  end.

Definition NewLocalTLSConfig (settings : LocalConnectionSettings) : result tls_Config :=
  match NewCAPool (LocalCACert settings) with
  | Err err => Err err
  | Ok caCertPool =>
      if (0 <? slen (LocalCert settings)) || (0 <? slen (LocalKey settings))
      then NewFSTlsConfig caCertPool (LocalCert settings) (LocalKey settings)
      else Ok (plain_config caCertPool [])
  end.

Definition newHubTLSConfig0 (settings : TLSSettings) (w : world)
    : outcome (tls_result * world) :=
  match NewCAPool (CACert settings) with
  | Err err => Done (Err err, None, w)
  | Ok caCertPool =>
      if 0 <? slen (TPMDevice settings) then NewTPMTlsConfig env settings caCertPool w else
      if (0 <? slen (Cert settings)) || (0 <? slen (Key settings))
      then Done (NewFSTlsConfig caCertPool (Cert settings) (Key settings), Some noClean, w)
      else Done (Ok (plain_config caCertPool []), Some noClean, w)
  end.

Definition with_protos (cfg : tls_Config) (alpn : list string) : tls_Config :=
  MkTls (InsecureSkipVerify cfg) (RootCAs cfg) (Certificates cfg) (MinVersion cfg)
    (MaxVersion cfg) (CipherSuites cfg) alpn.

Definition NewHubTLSConfig (settings : TLSSettings) (w : world)
    : outcome (tls_result * world) :=
  '(r, clean, w) ← newHubTLSConfig0 settings w;
  match r with
  | Err err => Done (Err err, clean, w)
  | Ok cfg =>
      Done (Ok (match Alpn settings with [] => cfg | alpn => with_protos cfg alpn end),
            clean, w)
  end.

(** A configuration of the Hub always comes with a cleaner, and running it gives
    back what the configuration holds. *)
Lemma NewHubTLSConfig_cleaner settings w :
  world_ok w → fresh_keys env w →
  ∃ r cl w', NewHubTLSConfig settings w = Done (r, cl, w') ∧
  match r with
  | Ok _ => ∃ c w'', cl = Some c ∧ run_cleaner c w' = Done w'' ∧ same_resources w w''
  | Err _ => True
  end.
Proof.
  intros Hw Hk. unfold NewHubTLSConfig, newHubTLSConfig0.
  destruct (NewCAPool (CACert settings)) as [ca|]; [|by eexists _, _, _].
  assert (∀ r cl w', match r with
    | Ok _ => ∃ c w'', cl = Some c ∧ run_cleaner c w' = Done w'' ∧ same_resources w w''
    | Err _ => True
    end → ∃ r' cl' w'0,
      ('(r, clean, w) ← Done (r, cl, w');
       match r with
       | Err err => Done (Err err, clean, w)
       | Ok cfg =>
           Done (Ok (match Alpn settings with [] => cfg | alpn => with_protos cfg alpn end),
                 clean, w)
       end) = Done (r', cl', w'0) ∧
      match r' with
      | Ok _ => ∃ c w'', cl' = Some c ∧ run_cleaner c w'0 = Done w'' ∧ same_resources w w''
      | Err _ => True
      end) as Hprotos.
  { intros [cfg|err] cl w' H; cbn [mbind outcome_bind]; eexists _, _, _; (split; [done|]);
      [exact H|done]. }
  destruct (0 <? slen (TPMDevice settings)).
  - destruct (NewTPMTlsConfig_spec env settings ca w Hw Hk) as (r & cl & w' & -> & Hr).
    apply Hprotos. destruct r; [|done].
    destruct Hr as (c & h & k & -> & _ & _ & _ & _ & w'' & ? & ?). eauto.
  - destruct (_ || _); apply Hprotos; [destruct (NewFSTlsConfig _ _ _); [|done]|];
      by exists noClean, w.
Qed.
End tls.

(** ** config/connections.go *)

Definition with_config {TLS} (c : Configuration TLS) (clean noop ext : bool)
    (retry authRetries : Z) (mul : float64) (maxI minI : Z) (creds : Credentials)
    (will : string * string * Qos * bool) (tls : option TLS) : Configuration TLS :=
  let '(topic, msg, qos, retain) := will in
  MkConfiguration (URL c) clean noop (ConnectTimeout c) (KeepAliveTimeout c) retry ext
    authRetries mul maxI minI creds topic msg qos retain tls.

Definition no_will : string * string * Qos * bool := ("", "", QosAtMostOnce, false).

Section create.
Variable env : tpm_env.
Variable parse_ca : string → bool.
Variable key_pair : string → string → result (list string).
Variable supportedCipherSuites : list Z.
(** [url.ParseRequestURI], [url.Parse] and [os.Getenv]. *)
Variable request_uri : string → result url.
Variable parse : string → result url.
Variable Getenv : string → string.
(** [strconv.ParseFloat] with 32 bits. *)
Variable ParseFloat32 : string → option float64.
(** [x509.ParseCertificate] as far as ReplacePattern uses it. *)
Variable parse_subject : string → result (string * string).
Variable namespaced : string → bool.

#[local] Abbreviation hub_tls := (NewHubTLSConfig env parse_ca key_pair supportedCipherSuites).
#[local] Abbreviation local_tls := (NewLocalTLSConfig env parse_ca key_pair supportedCipherSuites).

Definition new_config (broker : string) : result (Configuration tls_Config) :=
  NewMQTTClientConfig (λ b, match request_uri b with
                            | Ok u => Ok (url_String u)
                            | Err e => Err e
                            end) broker.

Definition url_error (s : string) : option error :=
  match parse s with Ok _ => None | Err e => Some e end.

Definition localClientID : string :=
  let localID := Getenv "LOCAL_CLIENTID" in
  if 0 <? slen localID then localID else "connector".

Definition cloudClientID : string :=
  let cloudID := Getenv "CLOUD_CLIENTID" in
  if 0 <? slen cloudID then cloudID else "cloud".

(** A duration of seconds from the environment; the product wraps around. *)
Definition env_seconds (name : string) (otherwise : Z) : Z :=
  match ParseInt (Getenv name) with
  | Some n => wrap64 (n * Second)
  | None => otherwise
  end.

Definition hub_settings (s : HubConnectionSettings) (deviceID clientID : string)
    (useCertificate : bool) : HubConnectionSettings :=
  MkHub deviceID (hub_DeviceIDPattern s) (hub_TenantID s) (hub_PolicyID s) (hub_Address s)
    (hub_Password s) (hub_Username s) clientID (hub_AuthID s) (hub_Generic s)
    useCertificate (hub_AutoProvisioningEnabled s) (hub_TLS s).

(** The configuration of the Hub connection but for credentials and TLS. *)
Definition hub_config (c : Configuration tls_Config) (nopStore : bool) (creds : Credentials)
    (tls : option tls_Config) : Configuration tls_Config :=
  with_config c (CleanSession c) nopStore true 0
    (default 5 (ParseInt (Getenv "HUB_CONNECT_AUTH_ERR_RETRIES")))
    (default (Finite (2 # 1)) (ParseFloat32 (Getenv "HUB_CONNECT_MUL")))
    (env_seconds "HUB_CONNECT_MAX" (4 * Minute))
    (env_seconds "HUB_CONNECT_INIT" Minute) creds no_will tls.

Definition hub_credentials (s : HubConnectionSettings) : Credentials :=
  MkCredentials (NewHubUsername s) (hub_Password s).

(** A deferred call of a cleaner, which panics on nil. *)
Definition defer_cleaner (c : option Cleaner) (w : world) : outcome world :=
  c ← or_panic NilDereference c;
  run_cleaner c w.

(** The settings as they are left, the connection with its cleaner, and the
    world. *)
Definition hub_result : Type :=
  HubConnectionSettings * result (MQTTConnection tls_Config * option Cleaner) * world.

(** What comes of the credentials and the device of a secure connection, given
    its TLS configuration. *)
Definition secure_device (settings : HubConnectionSettings) (tlsConfig : tls_Config)
    : HubConnectionSettings * result Credentials :=
  match Certificates tlsConfig with
  | [] =>
      let settings := hub_settings settings (hub_DeviceID settings) (hub_ClientID settings) false in
      (settings, Ok (hub_credentials settings))
  | cert :: _ =>
      if 0 <? slen (hub_DeviceIDPattern settings) then
        match ReplacePattern parse_subject (hub_DeviceIDPattern settings) cert with
        | Err err =>
            (settings, Err (Wrap err ("unable to resolve device ID pattern '"
                                      +:+ hub_DeviceIDPattern settings +:+ "'")))
        | Ok resolved =>
            if namespaced resolved
            then (hub_settings settings resolved (hub_ClientID settings)
                    (hub_UseCertificate settings), Ok (MkCredentials "" ""))
            else (settings, Err (Errorf ("device ID '" +:+ resolved
                                         +:+ "' has invalid namespace ID")))
        end
      else (settings, Ok (MkCredentials "" ""))
  end.

(** The connection itself; without one the cleaner runs, if there is one. *)
Definition hub_connect (settings : HubConnectionSettings) (c : Configuration tls_Config)
    (uuid : string) (cleaner : option Cleaner) (w : world) : outcome hub_result :=
  match NewMQTTConnection url_error (Some c) (hub_ClientID settings) uuid with
  | Err err =>
      w ← match cleaner with Some c => run_cleaner c w | None => Done w end;
      Done (settings, Err err, w)
  | Ok conn => Done (settings, Ok (conn, cleaner), w)
  end.

(** [uuid] is watermill.NewShortUUID(). *)
Definition CreateHubConnection (settings : HubConnectionSettings) (nopStore : bool)
    (uuid : string) (w : world) : outcome hub_result :=
  match new_config (hub_Address settings) with
  | Err err => Done (settings, Err err, w)
  | Ok honoConfig =>
  match parse (URL honoConfig) with
  | Err err => Done (settings, Err err, w)
  | Ok u =>
      let settings :=
        if slen (hub_ClientID settings) =? 0
        then hub_settings settings (hub_DeviceID settings) uuid (hub_UseCertificate settings)
        else settings in
      if isConnectionSecure (url_Scheme u) then
        '(r, tlsCleaner, w) ← hub_tls (hub_TLS settings) w;
        match r with
        | Err err => Done (settings, Err err, w)
        | Ok tlsConfig =>
            match secure_device settings tlsConfig with
            | (settings, Err err) =>
                w ← defer_cleaner tlsCleaner w;
                Done (settings, Err err, w)
            | (settings, Ok creds) =>
                hub_connect settings (hub_config honoConfig nopStore creds (Some tlsConfig))
                  uuid tlsCleaner w
            end
        end
      else
        let settings :=
          hub_settings settings (hub_DeviceID settings) (hub_ClientID settings) false in
        hub_connect settings
          (hub_config honoConfig nopStore (hub_credentials settings) None) uuid None w
  end end.

(** ** The local connections *)

(** [json_string] quotes a string. *)
Variable json_string : string → string.

(** The TLS configuration of a local connection. *)
Definition SetupLocalTLS (settings : LocalConnectionSettings) : result (option tls_Config) :=
  match parse (LocalAddress settings) with
  | Err err => Err err
  | Ok u =>
      if isConnectionSecure (url_Scheme u) then
        match local_tls settings with
        | Err err => Err err
        | Ok tlsConfig => Ok (Some tlsConfig)
        end
      else Ok None
  end.

Definition local_credentials (settings : LocalConnectionSettings) : Credentials :=
  if 0 <? slen (LocalUsername settings)
  then MkCredentials (LocalUsername settings) (LocalPassword settings)
  else MkCredentials "" "".

Definition CreateLocalConnection (settings : LocalConnectionSettings) (uuid : string)
    : result (MQTTConnection tls_Config) :=
  mosquittoConfig ← new_config (LocalAddress settings);
  let status := marshal_status json_string (MkStatus false 0 StatusConnectionUnknown) in
  tls ← SetupLocalTLS settings;
  NewMQTTConnection url_error
    (Some (with_config mosquittoConfig true (NoOpStore mosquittoConfig)
      (ExternalReconnect mosquittoConfig) 0 (AuthErrRetries mosquittoConfig)
      (BackoffMultiplier mosquittoConfig) (5 * Second) (5 * Second)
      (local_credentials settings) (TopicConnectionStatus, status, QosAtLeastOnce, true) tls))
    localClientID uuid.

Definition CreateCloudConnection (settings : LocalConnectionSettings) (cleanSession : bool)
    (uuid : string) : result (MQTTConnection tls_Config) :=
  mosquittoConfig ← new_config (LocalAddress settings);
  tls ← SetupLocalTLS settings;
  NewMQTTConnection url_error
    (Some (with_config mosquittoConfig cleanSession (NoOpStore mosquittoConfig)
      (ExternalReconnect mosquittoConfig) (5 * Second) (AuthErrRetries mosquittoConfig)
      (BackoffMultiplier mosquittoConfig) (5 * Second) (5 * Second)
      (local_credentials settings) no_will tls))
    cloudClientID uuid.

(** ** Publishers and subscribers of the Hub *)

Inductive hono_publisher :=
  | PlainPub (p : publisher)
  | RateLimitedPub (p : publisher) (interval : Z).

Definition NewHonoSub : subscriber := NewBufferedSubscriber 256 false.

Definition NewHonoPub : outcome hono_publisher :=
  let honoPub := NewPublisher QosAtLeastOnce in
  match ParseInt (Getenv "MESSAGE_RATE") with
  | Some rate =>
      if rate <=? 0 then Done (PlainPub honoPub)
      else RateLimitedPub honoPub <$> NewRateLimiter_interval rate Second
  | None => Done (PlainPub honoPub)
  end.

Definition NewOnlineHonoPub : publisher :=
  let ackTimeout :=
    match ParseInt (Getenv "HUB_PUBLISH_ACK_TIMEOUT") with
    | Some t => if 0 <? t then wrap64 (t * Second) else 15 * Second
    | None => 15 * Second
    end in
  NewOnlinePublisher QosAtLeastOnce ackTimeout.

(** The rate limiter never divides by zero. *)
Lemma NewHonoPub_done : is_done NewHonoPub = true.
Proof.
  unfold NewHonoPub. destruct (ParseInt _) as [rate|]; [|done].
  destruct (rate <=? 0) eqn:E; [done|]. bools.
  unfold NewRateLimiter_interval. destruct (rate =? 0) eqn:E0; [bools; lia|done].
Qed.

(** ** No cleaner is lost and none is missing *)

Lemma secure_device_hub settings tlsConfig :
  hub_TLS (secure_device settings tlsConfig).1 = hub_TLS settings.
Proof. unfold secure_device. by repeat case_match. Qed.

Lemma hub_connect_cleans settings c uuid cleaner w0 w :
  match cleaner with
  | Some cl => ∃ w', run_cleaner cl w = Done w' ∧ same_resources w0 w'
  | None => same_resources w0 w
  end →
  ∃ r w', hub_connect settings c uuid cleaner w = Done (settings, r, w') ∧
  match r with
  | Ok (conn, cl) => cl = cleaner ∧ w' = w ∧ TLSConfig (config conn) = TLSConfig c ∧
      Creds (config conn) = Creds c ∧ AuthErrRetries (config conn) = AuthErrRetries c
  | Err _ => same_resources w0 w'
  end.
Proof.
  intros Hc. unfold hub_connect.
  destruct (NewMQTTConnection url_error (Some c) (hub_ClientID settings) uuid) as [conn|err] eqn:E.
  - eexists _, _. split; [done|]. split_and!; [done|done|..].
    all: unfold NewMQTTConnection, NewMQTTConnectionCredentialsProvider in E.
    all: destruct (Validate url_error c); [done|].
    all: destruct (slen (hub_ClientID settings) =? 0); by simplify_eq/=.
  - destruct cleaner as [cl|].
    + destruct Hc as (w' & Hrun & Hs). rewrite Hrun. by eexists _, _.
    + by eexists _, _.
Qed.

Lemma CreateHubConnection_spec settings nopStore uuid w :
  world_ok w → fresh_keys env w →
  ∃ settings' r w', CreateHubConnection settings nopStore uuid w = Done (settings', r, w') ∧
  match r with
  | Err err =>
      same_resources w w' ∨
      ∃ cl, hub_tls (hub_TLS settings) w = Done (Err err, cl, w')
  | Ok (conn, cleaner) =>
      (∃ cl w'', cleaner = Some cl ∧ hub_tls (hub_TLS settings) w
          = Done (match TLSConfig (config conn) with
                  | Some tls => Ok tls
                  | None => Err (Sentinel "none")
                  end, Some cl, w') ∧
        run_cleaner cl w' = Done w'' ∧ same_resources w w'') ∨
      (cleaner = None ∧ w' = w ∧ TLSConfig (config conn) = None ∧
       Creds (config conn) = hub_credentials settings')
  end.
Proof.
  intros Hw Hk. unfold CreateHubConnection.
  destruct (new_config (hub_Address settings)) as [c|err]; [|eexists _, _, _; split; [reflexivity|by left]].
  destruct (parse (URL c)) as [u|err]; [|eexists _, _, _; split; [reflexivity|by left]].
  set (s1 := if slen (hub_ClientID settings) =? 0 then _ else _).
  assert (hub_TLS s1 = hub_TLS settings) as Hs1 by (unfold s1; by case_match).
  clearbody s1. destruct (isConnectionSecure (url_Scheme u)).
  - rewrite Hs1.
    destruct (NewHubTLSConfig_cleaner env parse_ca key_pair supportedCipherSuites
      (hub_TLS settings) w Hw Hk) as (r & cl & w1 & -> & Hr).
    cbn [mbind outcome_bind]. destruct r as [tls|err].
    2:{ eexists _, _, _. split; [done|]. right. by exists cl. }
    destruct Hr as (cln & w2 & -> & Hrun & Hsame).
    destruct (secure_device s1 tls) as [s2 [creds|err]].
    + destruct (hub_connect_cleans s2 (hub_config c nopStore creds (Some tls)) uuid (Some cln) w w1)
        as (r & w' & -> & Hr); [by exists w2|].
      eexists _, _, _. split; [done|]. destruct r as [[conn cl]|]; [|by left].
      destruct Hr as (-> & -> & Htls & _ & _). left. exists cln, w2.
      rewrite Htls. by destruct c.
    + unfold defer_cleaner. cbn [or_panic mbind outcome_bind]. rewrite Hrun.
      eexists _, _, _. split; [done|]. by left.
  - destruct (hub_connect_cleans
      (hub_settings s1 (hub_DeviceID s1) (hub_ClientID s1) false)
      (hub_config c nopStore (hub_credentials
        (hub_settings s1 (hub_DeviceID s1) (hub_ClientID s1) false)) None) uuid None w w)
      as (r & w' & -> & Hr); [done|].
    eexists _, _, _. split; [done|]. destruct r as [[conn cl]|]; [|by left].
    destruct Hr as (-> & -> & Htls & Hcr & _). right. rewrite Htls, Hcr. by destruct c.
Qed.

(** C25.  The construction of the Hub connection never calls a nil cleaner.  When
    it fails, what the TLS configuration held has been given back, except that
    the failure is the one of the TLS configuration itself.  When it succeeds,
    the connection is returned with the cleaner that gives everything back, a
    secure connection has the TLS configuration that was made for it, and an
    insecure one has none and identifies itself with the user name. *)
Theorem CreateHubConnection_cleans settings nopStore uuid w :
  world_ok w → fresh_keys env w →
  ∃ settings' r w', CreateHubConnection settings nopStore uuid w = Done (settings', r, w') ∧
  match r with
  | Err err =>
      same_resources w w' ∨
      ∃ cl, hub_tls (hub_TLS settings) w = Done (Err err, cl, w')
  | Ok (conn, cleaner) =>
      (∃ cl w'', cleaner = Some cl ∧ hub_tls (hub_TLS settings) w
          = Done (match TLSConfig (config conn) with
                  | Some tls => Ok tls
                  | None => Err (Sentinel "none")
                  end, Some cl, w') ∧
        run_cleaner cl w' = Done w'' ∧ same_resources w w'') ∨
      (cleaner = None ∧ w' = w ∧ TLSConfig (config conn) = None ∧
       Creds (config conn) = hub_credentials settings')
  end.
Proof. apply CreateHubConnection_spec. Qed.
End create.

(** ** An example *)

Definition sample_tls : TLSSettings :=
  {| CACert := "ca.crt"; Cert := "device.crt"; Key := ""; Alpn := ["x-amzn-mqtt-ca"];
     TPMKey := "tpm.key"; TPMKeyPub := "tpm.pub"; TPMHandle := 1; TPMDevice := "/dev/tpm0" |}.

Definition sample_hub : HubConnectionSettings :=
  {| hub_DeviceID := "ns:dev"; hub_DeviceIDPattern := ""; hub_TenantID := "tenant";
     hub_PolicyID := ""; hub_Address := "mqtts://hub:8883"; hub_Password := "";
     hub_Username := ""; hub_ClientID := "id"; hub_AuthID := ""; hub_Generic := false;
     hub_UseCertificate := true; hub_AutoProvisioningEnabled := true;
     hub_TLS := sample_tls |}.

Definition sample_url (s : string) : result url := Ok (MkUrl s "mqtts" "hub").

Lemma sample_world_ok : world_ok sample_world ∧ fresh_keys sample_env sample_world.
Proof.
  split; [intros h Hh; by apply not_elem_of_empty in Hh|].
  intros ? ? ?. apply not_elem_of_empty.
Qed.

Lemma NewTPMTlsConfig_resources_witness :
  ∃ cfg c w' w'', NewTPMTlsConfig sample_env sample_tls "ca" sample_world
    = Done (Ok cfg, Some c, w') ∧ w' ≠ sample_world ∧
  run_cleaner c w' = Done w'' ∧ same_resources sample_world w''.
Proof.
  destruct (NewTPMTlsConfig_resources sample_env sample_tls "ca" sample_world
    (proj1 sample_world_ok) (proj2 sample_world_ok)) as (r & cl & w' & H & Hr).
  destruct r as [cfg|err]; [|vm_compute in H; discriminate H].
  destruct Hr as (c & h & k & -> & Hh & Hhs & _ & _ & w'' & Hrun & Hsame).
  exists cfg, c, w', w''. split; [exact H|]. split; [|by split].
  intros ->. apply Hh. rewrite Hhs. apply elem_of_union. left. by apply elem_of_singleton.
Defined.

Lemma CreateHubConnection_cleans_witness :
  ∃ settings' conn cleaner w' w'',
    CreateHubConnection sample_env (λ _, true) (λ _ _, Err (Sentinel "no file")) []
      sample_url sample_url (λ _, "") (λ _, None) (λ _, Err (Sentinel "none")) (λ _, true)
      sample_hub false "uuid" sample_world
    = Done (settings', Ok (conn, Some cleaner), w') ∧
    run_cleaner cleaner w' = Done w'' ∧ same_resources sample_world w''.
Proof.
  destruct (CreateHubConnection_cleans sample_env (λ _, true) (λ _ _, Err (Sentinel "no file")) []
    sample_url sample_url (λ _, "") (λ _, None) (λ _, Err (Sentinel "none")) (λ _, true)
    sample_hub false "uuid" sample_world (proj1 sample_world_ok) (proj2 sample_world_ok))
    as (s & r & w' & H & Hr).
  destruct r as [[conn cl]|err]; [|vm_compute in H; discriminate H].
  destruct Hr as [(c & w'' & -> & _ & Hrun & Hsame)|(-> & _)];
    [|vm_compute in H; discriminate H].
  exists s, conn, c, w', w''. split; [exact H|]. by split.
Defined.
