(* ===== verification/Forwarding.v ===== *)
(** * From the log of the local broker to the session at the Hub

    The service router hands the log of Mosquitto to the log handler, the handler
    keeps the subscription manager informed, the manager keeps the connection that
    the last launch has made subscribed, and the request bus of that launch
    subscribes beside it.  Here these parts of LogHandler, SubscriptionManager,
    Connection and Subscriber are put together the way eventloop.go and launcher.go
    do, so that what the local clients subscribe to is compared with the session
    that the Hub keeps. *)

From S2P Require Import Prelude GoStrings Util Message Commands Connection SubscriptionManager.
From S2P Require Import MessageLoop Subscriber LogHandler HubConnection.

Local Open Scope Z_scope.

Section forwarding.
Context {TLS : Type}.
Variable localID cloudID : string.
Implicit Types (c : MQTTConnection TLS) (b : bridge TLS) (h : LogHandler (bridge TLS)).

(** ** The composition *)

(** The request bus: its subscriber is the one of the Hub. *)
Definition serve b (uuid : string) (callback : nat) : outcome (bridge TLS) :=
  r ← Subscribe NewHonoSub (cloud b) (isOpen b) uuid callback TopicCommandRequest;
  match r with
  | Ok (c, _, _) => Done (with_conn b (mgr b) c)
  | Err _ => Done b
  end.

(** A launch: the manager is told to forward to its new connection, which finds a
    session at the Hub if [kept], the one of the connection before. *)
Definition forward_to b c (kept : bool) (order : list string) : outcome (bridge TLS) :=
  let b := MkBridge (mgr b) c false (if kept then session b else ∅) in
  r ← bridge_run b (OForwardTo order); Done r.1.

Inductive event :=
  | Logged (msg : message)                            (* a message of the log *)
  | Launched c (kept : bool) (order : list string)    (* a launch; not of a generic hub *)
  | Served (uuid : string) (callback : nat)           (* its request bus subscribes *)
  | Connected (order : list nat)
  | ConnectionLost.

Definition on_bridge h (r : outcome (bridge TLS)) : outcome (LogHandler (bridge TLS)) :=
  b ← r; Done (MkLogHandler (SubscriptionList h) b).

#[local] Existing Instance bridge_SubscriptionManager.

Definition forward_run h (e : event) : outcome (LogHandler (bridge TLS)) :=
  let b := Manager h in
  match e with
  | Logged msg => ProcessLogs (H:=bridge_SubscriptionManager TLS ∅) localID cloudID h msg
  | Launched c kept order => on_bridge h (forward_to b c kept order)
  | Served uuid callback => on_bridge h (serve b uuid callback)
  | Connected order => on_bridge h (r ← bridge_run b (OConnected order); Done r.1)
  | ConnectionLost => on_bridge h (r ← bridge_run b OConnectionLost; Done r.1)
  end.

Fixpoint forward_all h (es : list event) : outcome (LogHandler (bridge TLS)) :=
  match es with
  | [] => Done h
  | e :: es => h ← forward_run h e; forward_all h es
  end.

(** A launch makes its connection, and Go visits the entries of a map once each. *)
Definition valid_event h (e : event) : Prop :=
  match e with
  | Launched c _ order =>
      (∃ url_parse cfg id uuid, NewMQTTConnection url_parse cfg id uuid = Ok c) ∧
      valid_op (Manager h) (OForwardTo order)
  | Connected order => valid_op (Manager h) (OConnected order)
  | _ => True
  end.

Fixpoint valid_events h (es : list event) : Prop :=
  match es with
  | [] => True
  | e :: es => valid_event h e ∧
      match forward_run h e with Done h' => valid_events h' es | _ => True end
  end.

(** ** The specification *)

(** The listed subscriptions, the manager's ledger, whether the request bus has
    subscribed and whether the connection asks for a clean session. *)
Record service := MkService {
  sv_items : list SubscriptionItem;
  sv_ledger : ledger;
  sv_serving : bool;
  sv_clean : bool;
}.

Definition ledger_op (clean : bool) (l : ledger) (o : local_op) : ledger :=
  match o with
  | Count t => (spec_run clean l (OAdd t)).1
  | Discount t => (spec_run clean l (ORemove t)).1
  | Keep => l
  end.

(** A session that is kept still has the filter of the previous request bus. *)
Definition service_run (s : service) (e : event) : service :=
  let '(MkService items l serving clean) := s in
  match e with
  | Logged msg =>
      MkService (log_effect localID cloudID items msg)
        (ledger_op clean l (log_op localID cloudID items msg)) serving clean
  | Launched c kept _ =>
      MkService items
        (MkLedger (sp_topics l) true false
           (if kept then {[TopicCommandRequest]} ∪ sp_missed l else ∅))
        false (CleanSession (config c))
  | Served _ _ => MkService items l true clean
  | Connected order => MkService items (spec_run clean l (OConnected order)).1 serving clean
  | ConnectionLost => MkService items (spec_run clean l OConnectionLost).1 serving clean
  end.

(** ** The simulation *)

(** What the request bus keeps on the connection. *)
Definition served (serving : bool) (callback : nat) : gmap string subscriptioninfo :=
  if serving
  then {[TopicCommandRequest :=
           MkInfo [TopicCommandRequest] (Some callback) QosAtMostOnce false]}
  else ∅.

(** The filter of the request bus has a level "+", which no listed topic has. *)
Lemma served_free serving callback t :
  filterTopic t = false → foreign_free (served serving callback) t.
Proof.
  intros Ht. assert (t ≠ TopicCommandRequest) as Hne by (by intros ->).
  unfold served. destruct serving; [|by apply sample_allowed]. split.
  - by rewrite lookup_singleton_ne.
  - intros id sub [<- <-]%lookup_singleton_Some. cbn. by rewrite list_elem_of_singleton.
Qed.

Lemma filters_of_served serving callback f :
  filters_of (served serving callback) f ↔ serving = true ∧ f = TopicCommandRequest.
Proof.
  unfold filters_of, served. destruct serving; split.
  - intros (id & sub & [<- <-]%lookup_singleton_Some & Hf). by apply list_elem_of_singleton in Hf.
  - intros [_ ->]. eexists _, _. split; [apply lookup_singleton_eq|]. by left.
  - intros (id & sub & H & _). by rewrite lookup_empty in H.
  - by intros [? _].
Qed.

Record forward_inv h (s : service) : Prop := {
  fi_list : glist_wf (SubscriptionList h);
  fi_values : values (SubscriptionList h) = sv_items s;
  fi_items i : i ∈ sv_items s →
    it_TopicID i = NormalizeTopic (it_TopicReal i) ∧ filterTopic (it_TopicID i) = false;
  fi_topics : sp_topics (sv_ledger s) = topics_of (sv_items s);
  fi_clean : CleanSession (config (cloud (Manager h))) = sv_clean s;
  fi_bridge : ∃ callback A,
    bridge_inv (served (sv_serving s) callback) (Manager h) (sv_ledger s) A;
}.

Lemma discount_first_Discount P items t :
  discount_first P items = Discount t → ∃ i, i ∈ items ∧ t = it_TopicID i.
Proof.
  unfold discount_first. destruct (first_of_cases P items) as [(i & -> & Hi & _)|(-> & _)]; [|done].
  intros [= <-]. eauto.
Qed.

(** The topics a log message counts or discounts have no level "+". *)
Lemma log_op_plain items msg t :
  (∀ i, i ∈ items → filterTopic (it_TopicID i) = false) →
  log_op localID cloudID items msg = Count t ∨ log_op localID cloudID items msg = Discount t →
  filterTopic t = false.
Proof.
  intros Hi. unfold log_op. destruct (TopicFromCtx _ ≫= _) as [lm|]; [|by intros []].
  case_decide; [by intros []|].
  assert (∀ P, discount_first P items = Count t ∨ discount_first P items = Discount t →
    filterTopic t = false) as Hd.
  { intros P [Ho|Ho]; [unfold discount_first in Ho; by destruct (first_of P items)|].
    apply discount_first_Discount in Ho as (i & Hin & ->). by apply Hi. }
  destruct (lm_Type lm); cbv zeta; [|by apply Hd..].
  destruct (filterTopic (NormalizeTopic (lm_Text lm))) eqn:E; [by intros []|]. intros [[= <-]|?]; done.
Qed.

(** The manager performs what the ledger records. *)
Lemma performs_ledger F b l A o b' :
  bridge_inv F b l A → (∀ t, o = Count t ∨ o = Discount t → foreign_free F t) →
  performs (H:=bridge_SubscriptionManager TLS F) b o b' →
  ∃ A', bridge_inv F b' (ledger_op (CleanSession (config (cloud b))) l o) A' ∧
    config (cloud b') = config (cloud b).
Proof.
  intros Hb Hfree Hp. destruct o as [t|t|]; cbn [performs ledger_op] in *.
  - destruct Hp as [ok Hp]. change (bridge_add b t = Done (b', ok)) in Hp.
    destruct (run_OAdd F b l A t Hb) as (b1 & A1 & Hr & Hb1 & Hcfg); [by apply Hfree; left|].
    unfold bridge_add in Hp. rewrite Hr in Hp. cbn in Hp. injection Hp as <- _. by exists A1.
  - destruct Hp as [ok Hp]. change (bridge_remove b t = Done (b', ok)) in Hp.
    destruct (run_ORemove F b l A t Hb) as (b1 & A1 & Hr & Hb1 & Hcfg); [by apply Hfree; right|].
    unfold bridge_remove in Hp. rewrite Hr in Hp. cbn in Hp. injection Hp as <- _. by exists A1.
  - subst b'. by exists A.
Qed.

(** The step of an event simulates the specification. *)
Definition forwards h (s : service) (e : event) : Prop :=
  ∃ h', forward_run h e = Done h' ∧ forward_inv h' (service_run s e).

Lemma forward_Logged h s msg : forward_inv h s → forwards h s (Logged msg).
Proof.
  destruct s as [items l serving clean]. intros [Hl Hv Hi Ht Hc (cb & A & Hb)].
  cbn [sv_items sv_ledger sv_serving sv_clean] in *. set (F := served serving cb) in *.
  assert (∀ t, filterTopic t = false → foreign_free F t) as Hfree
    by (intros t; apply served_free).
  assert (handler_inv (H:=bridge_SubscriptionManager TLS F) h) as Hh.
  { split; [done|by rewrite Hv|]. exists l, A. by rewrite Hv. }
  destruct (ProcessLogs_spec (H:=bridge_SubscriptionManager TLS F) Hfree localID cloudID h msg Hh)
    as (h' & Hrun & [Hl' Hi' (l1 & A1 & Hb1 & Ht1)] & Hv' & Hperf).
  rewrite Hv in Hv', Hperf. rewrite Hv' in Hi', Ht1.
  assert (∀ t, log_op localID cloudID items msg = Count t ∨
    log_op localID cloudID items msg = Discount t → foreign_free F t) as Hop.
  { intros t Ho. eapply Hfree, log_op_plain; [|exact Ho]. intros i Hin. by apply Hi. }
  destruct (performs_ledger F _ l A _ _ Hb Hop Hperf) as (A' & Hb' & Hcfg).
  exists h'. split; [exact Hrun|]. rewrite Hc in Hb'.
  split; cbn [service_run sv_items sv_ledger sv_serving sv_clean];
    [done|done|done| |by rewrite Hcfg|by eauto].
  rewrite <-Ht1. eapply counts_inj; [apply Hb'|apply Hb1].
Qed.

Lemma forward_Launched h s c kept order :
  forward_inv h s → valid_event h (Launched c kept order) →
  forwards h s (Launched c kept order).
Proof.
  destruct s as [items [ts fwd up missed] serving clean].
  intros [Hl Hv Hi Ht Hc (cb & A & [Hconn Hup Hfwd Hcnt Hfree HA])] [(u & cfg & id & uu & Hnew) Ho].
  cbn [sv_items sv_ledger sv_serving sv_clean sp_topics sp_forwarded sp_open sp_missed] in *.
  destruct (NewMQTTConnection_fresh _ _ _ _ _ Hnew) as [Hwf Hact].
  set (missed' := if kept then {[TopicCommandRequest]} ∪ missed else ∅).
  set (s0 := if kept then session (Manager h) else ∅).
  pose proof (counts_keys (mgr (Manager h)) ts order Hcnt Ho) as Hkeys.
  assert (conn_inv c false s0 ∅ (s0 : gset string)) as Hc0.
  { split; [done|done|done|by right|done]. }
  destruct (conn_subscribe_each c false s0 ∅ s0 order Hc0) as (c' & Hsub & [Hcfg _] & Hc').
  { intros t _. split; [by left|]. intros k sub H. by rewrite lookup_empty in H. }
  set (A' := foldl _ _ _) in Hc'.
  assert (∀ id, A' !! id = expected ∅ ts true id) as HA'.
  { intros k. unfold A', expected. rewrite foldl_insert_lookup.
    apply decide_ext. rewrite Hkeys. tauto. }
  assert (∀ t, t ∈ ts → foreign_free ∅ t) as Hfree' by (intros; apply sample_allowed).
  eexists. split.
  { cbn [forward_run]. unfold on_bridge, forward_to. cbn [bridge_run]. unfold ForwardTo, copyTopics.
    cbn [cloud isOpen mgr]. rewrite Hsub. reflexivity. }
  split; cbn [service_run sv_items sv_ledger sv_serving sv_clean SubscriptionList Manager];
    [done..|by cbn; rewrite Hcfg|].
  exists 0%nat, A'. cbn [served].
  split; cbn [cloud isOpen session mgr with_conn sp_topics sp_forwarded sp_open sp_missed];
    [|done|done|done|done|done].
  destruct Hc' as [Hwf' Ha' Hlive Hstale Hcl]. split; [done|done|done| |done].
  intros f [Hf|Hf]%Hstale; [by left|]. subst s0 missed'. destruct kept; [|by right].
  apply (ci_stale _ _ _ _ _ Hconn) in Hf as [Hf|Hf]; [|right; set_solver].
  apply (filters_expected _ ts fwd A f HA Hfree) in Hf as [[_ Hf]|Hf].
  - left. apply (filters_expected ∅ ts true A' f HA' Hfree'). by left.
  - apply filters_of_served in Hf as [_ ->]. right. set_solver.
Qed.

Lemma forward_Served h s uuid callback : forward_inv h s → forwards h s (Served uuid callback).
Proof.
  destruct s as [items [ts fwd up missed] serving clean].
  intros [Hl Hv Hi Ht Hc (cb & A & [Hconn Hup Hfwd Hcnt Hfree HA])].
  cbn [sv_items sv_ledger sv_serving sv_clean sp_topics sp_forwarded sp_open sp_missed] in *.
  assert (TopicCommandRequest ∉ ts) as Hnot.
  { rewrite Ht. unfold topics_of. intros Hin.
    apply elem_of_list_to_set_disj, list_elem_of_fmap in Hin as (i & Heq & Hin).
    destruct (Hi i Hin) as [_ Hf]. by rewrite <-Heq in Hf. }
  destruct (conn_subscribe_one _ _ _ A missed uuid (Some callback) QosAtMostOnce
    TopicCommandRequest Hconn) as (c' & Hsub & [Hcfg _] & Hc').
  { intros sub. rewrite HA. unfold expected. rewrite decide_False by tauto. unfold served.
    destruct serving; [|by rewrite lookup_empty]. rewrite lookup_singleton_eq. by intros [= <-]. }
  eexists. split.
  { cbn [forward_run]. unfold on_bridge, serve, Subscribe. cbn [sub_closed NewHonoSub NewBufferedSubscriber].
    change (parseSubs TopicCommandRequest) with [TopicCommandRequest].
    change (slen TopicCommandRequest =? 0) with false. change (sub_qos NewHonoSub) with QosAtMostOnce.
    rewrite Hsub. reflexivity. }
  split; cbn [service_run sv_items sv_ledger sv_serving sv_clean SubscriptionList Manager];
    [done..|by cbn; rewrite Hcfg|].
  exists callback, (<[TopicCommandRequest :=
    MkInfo [TopicCommandRequest] (Some callback) QosAtMostOnce false]> A).
  split; cbn [cloud isOpen session mgr with_conn sp_topics sp_forwarded sp_open sp_missed];
    [done|done|done|done| |].
  - intros t Hin. apply served_free. rewrite Ht in Hin. unfold topics_of in Hin.
    apply elem_of_list_to_set_disj, list_elem_of_fmap in Hin as (i & -> & Hin). by apply Hi.
  - intros k. unfold expected, served. destruct (decide (k = TopicCommandRequest)) as [->|Hne].
    + rewrite lookup_insert_eq, decide_False by tauto. by rewrite lookup_singleton_eq.
    + rewrite lookup_insert_ne, lookup_singleton_ne, HA by done. unfold expected, served.
      case_decide; [done|]. destruct serving; [by rewrite lookup_singleton_ne|by rewrite lookup_empty].
Qed.

(** A connection that comes or goes is the manager's business alone. *)
Lemma forward_bridge h s e o :
  forward_run h e = on_bridge h (r ← bridge_run (Manager h) o; Done r.1) →
  service_run s e = MkService (sv_items s) (spec_run (sv_clean s) (sv_ledger s) o).1
    (sv_serving s) (sv_clean s) →
  sp_topics (spec_run (sv_clean s) (sv_ledger s) o).1 = sp_topics (sv_ledger s) →
  forward_inv h s →
  (∀ F A, bridge_inv F (Manager h) (sv_ledger s) A → simulates F (Manager h) (sv_ledger s) o) →
  forwards h s e.
Proof.
  intros Hrun Hserv Htop [Hl Hv Hi Ht Hc (cb & A & Hb)] Hsim.
  destruct (Hsim _ A Hb) as (b' & A' & Hr & Hb' & Hcfg).
  unfold forwards. rewrite Hrun, Hserv, Hr. cbn [mbind outcome_bind fst snd on_bridge].
  rewrite Hc in Hb'. eexists. split; [done|].
  split; cbn [sv_items sv_ledger sv_serving sv_clean SubscriptionList Manager];
    [done|done|done|by rewrite Htop|by rewrite Hcfg|by eauto].
Qed.

Lemma forward_simulates h s e : forward_inv h s → valid_event h e → forwards h s e.
Proof.
  intros Hinv Hval. destruct e as [msg|c kept order|uuid callback|order|].
  - by apply forward_Logged.
  - by apply forward_Launched.
  - by apply forward_Served.
  - apply (forward_bridge h s _ (OConnected order)); try done; [by destruct s| |].
    + by destruct s as [? [] ? ?].
    + intros F A HF. by eapply run_OConnected.
  - apply (forward_bridge h s _ OConnectionLost); try done; [by destruct s| |].
    + by destruct s as [? [] ? ?].
    + intros F A HF. by eapply run_OConnectionLost.
Qed.

Lemma forward_all_simulates h s es :
  forward_inv h s → valid_events h es →
  ∃ h', forward_all h es = Done h' ∧ forward_inv h' (foldl service_run s es).
Proof.
  revert h s. induction es as [|e es IH]; intros h s Hinv Hval; [by exists h|].
  destruct Hval as [He Hval].
  destruct (forward_simulates h s e Hinv He) as (h1 & Hrun & Hinv1).
  cbn [forward_all foldl]. rewrite Hrun in Hval |- *. by apply IH.
Qed.

(** The service router routes the log of the broker to a handler. *)
Definition CreateServiceRouter (manager : bridge TLS) : string * LogHandler (bridge TLS) :=
  CreateLogHandler manager.

(** It starts with an empty list and a new manager; nothing has been launched. *)
Definition service_start c : LogHandler (bridge TLS) :=
  (CreateServiceRouter (MkBridge NewSubscriptionManager c false ∅)).2.

Definition nothing_listed c : service :=
  MkService [] nothing_counted false (CleanSession (config c)).

Lemma service_start_inv c : conn_wf c → active c = ∅ → forward_inv (service_start c) (nothing_listed c).
Proof.
  intros Hwf Ha. split; cbn; try done; [by split; constructor|by intros i ?%not_elem_of_nil|].
  exists 0%nat, ∅. by apply bridge_inv_start.
Qed.

(** C3.  Whatever Mosquitto logs, however often the connector is launched and
    whenever the connection to the Hub comes and goes, nothing panics, the listed
    subscriptions are those of the log, and whenever the connection of a launch is
    open its session at the Hub has the filter of every listed subscription and of
    the request bus.  A filter beside these has been dropped by its last subscriber
    while the connection was down, or belonged to the request bus before; it can
    only be there if the session is persistent. *)
Theorem subscriptions_reach_hub c es :
  conn_wf c → active c = ∅ → valid_events (service_start c) es →
  ∃ h', forward_all (service_start c) es = Done h' ∧
    let s := foldl service_run (nothing_listed c) es in
    let hub := session (Manager h') in
    values (SubscriptionList h') = sv_items s ∧
    isOpen (Manager h') = sp_open (sv_ledger s) ∧
    (sp_open (sv_ledger s) = true → sp_forwarded (sv_ledger s) = true →
      (∀ i, i ∈ sv_items s → NormalizeTopic (it_TopicReal i) ∈ hub) ∧
      (sv_serving s = true → TopicCommandRequest ∈ hub) ∧
      (∀ f, f ∈ hub →
         (∃ i, i ∈ sv_items s ∧ f = NormalizeTopic (it_TopicReal i)) ∨
         (sv_serving s = true ∧ f = TopicCommandRequest) ∨ f ∈ sp_missed (sv_ledger s)) ∧
      (sv_clean s = true → sp_missed (sv_ledger s) = ∅)).
Proof.
  intros Hwf Ha Hval.
  destruct (forward_all_simulates _ _ es (service_start_inv c Hwf Ha) Hval) as (h' & Hrun & Hinv).
  exists h'. split; [done|]. cbv zeta. set (s := foldl service_run _ es) in *.
  destruct Hinv as [Hl Hv Hi Ht Hc (cb & A & Hb)]. split; [done|].
  pose proof (bi_open _ _ _ _ Hb) as Hup. split; [done|]. intros Hopen Hfwd. rewrite <-Hup in Hopen.
  pose proof (bridge_session _ _ _ A Hb Hopen) as Hses. rewrite Hc, Hfwd, Ht in Hses.
  assert (∀ f, f ∈ topics_of (sv_items s) ↔ ∃ i, i ∈ sv_items s ∧ f = NormalizeTopic (it_TopicReal i))
    as Hin.
  { intros f. unfold topics_of. rewrite elem_of_list_to_set_disj, list_elem_of_fmap.
    split; intros (i & H1 & H2); exists i; [|naive_solver].
    destruct (Hi i H2) as [<- _]. done. }
  split_and!.
  - intros i Hii. apply Hses. left. split; [done|]. apply Hin. eauto.
  - intros Hs. apply Hses. right. by apply filters_of_served.
  - intros f [[_ Hf]|[Hf|Hf]]%Hses; [left; by apply Hin| |by right; right].
    right. left. by apply filters_of_served in Hf.
  - intros Hclean. by apply (Hses "").
Qed.
End forwarding.

(** ** Examples *)

(** The connection of a launch: its session is persistent. *)
Definition sample_hub : MQTTConnection unit :=
  match NewMQTTConnection (λ _, None) (Some (sample_configuration false)) "id" "uuid" with
  | Ok c => c
  | Err _ => sample_connection false
  end.

(** Two devices subscribe, one before the launch and one after it; while the
    connection is down the first one leaves. *)
Definition sample_events : list event :=
  [Logged (sample_log TopicLogSubscribe "1628691769: mosq-x 0 c//ns:gw/q/#");
   Launched sample_hub false ["command//ns:gw/req/#"]; Served "u" 7; Connected [1%nat; 0%nat];
   Logged (sample_log TopicLogSubscribe "1628691770: mosq-y 0 command//ns:dev/req/#");
   ConnectionLost;
   Logged (sample_log TopicLogNoticeLevel "1628691771: Client mosq-x disconnected.");
   Connected [1%nat; 2%nat]].

Lemma sample_events_valid :
  valid_events "connector" "cloud" (service_start (sample_connection false)) sample_events.
Proof.
  split; [exact I|].
  assert (∃ h, forward_run "connector" "cloud" (service_start (sample_connection false))
    (Logged (sample_log TopicLogSubscribe "1628691769: mosq-x 0 c//ns:gw/q/#")) = Done h ∧
    valid_events "connector" "cloud" h (tail sample_events)) as (h & -> & H); [|exact H].
  eexists. split; [vm_compute; reflexivity|]. split.
  { split; [|vm_compute; reflexivity].
    exists (λ _, None), (Some (sample_configuration false)), "id", "uuid". reflexivity. }
  vm_compute. repeat split; reflexivity.
Qed.

(** The Hub has been told of the second device; the first one's filter is the one
    that was missed. *)
Lemma subscriptions_reach_hub_witness :
  ∃ h', forward_all "connector" "cloud" (service_start (sample_connection false)) sample_events
      = Done h' ∧
    "command//ns:dev/req/#" ∈ session (Manager h') ∧
    sp_missed (sv_ledger (foldl (service_run "connector" "cloud")
      (nothing_listed (sample_connection false)) sample_events)) = {["command//ns:gw/req/#"]}.
Proof.
  destruct (subscriptions_reach_hub "connector" "cloud" (sample_connection false) sample_events
    (proj1 (sample_connection_wf false)) (proj2 (sample_connection_wf false))
    sample_events_valid) as (h' & Hrun & _ & _ & Hhub).
  exists h'. split; [exact Hrun|]. split; [|vm_compute; reflexivity].
  destruct (Hhub ltac:(vm_compute; reflexivity) ltac:(vm_compute; reflexivity)) as [Hall _].
  apply (Hall (MkItem "mosq-y" 1628691770 "command//ns:dev/req/#" "command//ns:dev/req/#")).
  vm_compute. left.
Defined.
