(* ===== verification/Launcher.v ===== *)
(** * The launcher: Run of cmd/connector/launcher.go

    Run puts one connector together: settings, connections, buses.  Here it is a
    function over the operations it composes, and then with the connector's own
    operations; what it starts lives in a goroutine until Stop ends it, which is
    LauncherLife.v. *)

From S2P Require Import Prelude GoStrings Util Message Connection Service Reconnect.
From S2P Require Import Settings Provisioning TpmTls HubConnection.

(** ** Run *)

(** The routes added to the router, in order, with what they are made from. *)
Inductive route_bus :=
  | ParamsRoute (params : GwParams)
  | EventsRoute (tenantID deviceID : string) (generic : bool)
  | TelemetryRoute (tenantID deviceID : string) (generic : bool)
  | CommandsResRoute (tenantID deviceID : string) (generic : bool)
  | CommandsReqRoute (tenantID deviceID : string) (generic : bool).

Definition launch_routes (device tenant policy : string) (generic : bool) : list route_bus :=
  [ParamsRoute (NewGwParams device tenant policy);
   EventsRoute tenant device generic;
   TelemetryRoute tenant device generic;
   CommandsResRoute tenant device generic;
   CommandsReqRoute tenant device generic].

(** What a launch has put together when its router starts. *)
Record launch := MkLaunch {
  la_settings : Settings;
  la_cloud : MQTTConnection tls_Config;
  la_hono : MQTTConnection tls_Config;
  la_cleanup : option Cleaner;
  la_forwarded : bool;              (* the manager forwards to the Hub *)
  la_routes : list route_bus;
}.

Section launcher_run.
Context {R : Type}.
(** ApplySettings, the two constructors of connections, and SendStatus. *)
Variable apply : bool → Settings → outcome (Settings * list R * option error).
Variable create_cloud : LocalConnectionSettings → bool → result (MQTTConnection tls_Config).
Variable create_hub : HubConnectionSettings → bool → world → outcome hub_result.
Variable parse : string → result url.
Variable report : string → list R.

(** The answer of Run, the statuses it has published, and the world. *)
Definition Run (cleanSession : bool) (global : Settings) (w : world)
    : outcome (result launch * list R * world) :=
  '(settings, sent, err) ← apply cleanSession (DeepCopy global);
  match err with
  | Some err => Done (Err err, sent, w)
  | None =>
      let generic := AWS parse (set_Hub settings) || hub_Generic (set_Hub settings) in
      match create_cloud (LocalConnection settings) false with
      | Err err => Done (Err (Wrap err "cannot create mosquitto connection"), sent, w)
      | Ok cloudClient =>
          '(hub, r, w) ← create_hub (HubConnection settings) false w;
          match r with
          | Err err =>
              Done (Err (Wrap err "cannot create Hub connection"),
                    sent ++ report StatusConnectionError, w)
          | Ok (honoClient, cleanup) =>
              let settings := with_hub settings hub in
              let device := hub_DeviceID hub in
              let tenant := hub_TenantID hub in
              Done (Ok {| la_settings := settings;
                          la_cloud := cloudClient;
                          la_hono := honoClient;
                          la_cleanup := cleanup;
                          la_forwarded := negb generic;
                          la_routes := launch_routes device tenant (hub_PolicyID hub) generic
                       |}, sent, w)
          end
      end
  end.
End launcher_run.

(** ** Run with the connector's own operations *)

Section connector.
Context `{Gabs C} {R : Type}.
Variable range_order : gmap string C → list (string * C).
Variable stat : string → stat_answer.
Variable read : string → result string.
Variable namespaced : string → bool.
Variable report : string → list R.
Variable mergo_map : Settings → result Settings.
Variable env : tpm_env.
Variable parse_ca : string → bool.
Variable key_pair : string → string → result (list string).
Variable supportedCipherSuites : list Z.
Variable request_uri : string → result url.
Variable parse : string → result url.
Variable Getenv : string → string.
Variable ParseFloat32 : string → option float64.
Variable parse_subject : string → result (string * string).
(** Fresh identifiers, for the two connections. *)
Variable uuid : bool → string.

#[local] Abbreviation apply_settings :=
  (ApplySettings range_order stat read namespaced report mergo_map).

#[local] Abbreviation hub_tls :=
  (NewHubTLSConfig env parse_ca key_pair supportedCipherSuites).

Definition connector_Run : bool → Settings → world → outcome (result launch * list R * world) :=
  Run apply_settings
    (λ s clean, CreateCloudConnection env parse_ca key_pair supportedCipherSuites request_uri
       parse Getenv s clean (uuid false))
    (λ s nopStore w, CreateHubConnection env parse_ca key_pair supportedCipherSuites
       request_uri parse Getenv ParseFloat32 parse_subject namespaced s nopStore (uuid true) w)
    parse report.

(** What the routes were made from. *)
Definition route_identity (r : route_bus) : string * string :=
  match r with
  | ParamsRoute p => (TenantID p, DeviceID p)
  | EventsRoute t d _ | TelemetryRoute t d _ | CommandsResRoute t d _
  | CommandsReqRoute t d _ => (t, d)
  end.

(** The statuses of settings that were accepted. *)
Definition announced (cleanSession : bool) : list R :=
  if cleanSession then report StatusProvisioningUpdate else [].

(** C11.  A launch that is put together has settings that pass the validation,
    all its routes are made for one tenant and one device, the ones of these
    settings, it forwards the subscriptions exactly when the Hub is neither
    generic nor of AWS, and its cleaner gives back all it holds.  A launch that
    fails reports one status more than it announced, unless the failure is the
    one of the cloud connection; and it holds nothing unless the TLS
    configuration of the Hub failed.  The only panic is the one of the
    provisioning file. *)
Theorem connector_Run_answers cleanSession global w :
  world_ok w → fresh_keys env w →
  match connector_Run cleanSession global w with
  | Done (Ok l, sent, w') =>
      ∃ settings, apply_settings cleanSession global
          = Done (settings, announced cleanSession, None) ∧
        sent = announced cleanSession ∧
        ValidateDynamic namespaced settings = None ∧
        Forall (λ r, route_identity r = (hub_TenantID (set_Hub (la_settings l)),
          hub_DeviceID (set_Hub (la_settings l)))) (la_routes l) ∧
        la_forwarded l = negb (AWS parse (set_Hub settings) || hub_Generic (set_Hub settings)) ∧
        match la_cleanup l with
        | Some c => ∃ w'', run_cleaner c w' = Done w'' ∧ same_resources w w''
        | None => w' = w
        end
  | Done (Err err, sent, w') =>
      (same_resources w w' ∨ ∃ s err' cl, hub_tls s w = Done (Err err', cl, w')) ∧
      ((∃ s, apply_settings cleanSession global = Done (s, sent, Some err) ∧
          sent = report (if FileExists stat (Provisioning global)
                         then StatusProvisioningError else StatusProvisioningMissing)) ∨
       (sent = announced cleanSession ∧
          ∃ err', err = Wrap err' "cannot create mosquitto connection") ∨
       (sent = announced cleanSession ++ report StatusConnectionError ∧
          ∃ err', err = Wrap err' "cannot create Hub connection"))
  | Panicked p => apply_settings cleanSession global = Panicked p
  | NoFuel => False
  end.
Proof.
  intros Hw Hk. unfold connector_Run, Run, DeepCopy.
  pose proof (ApplySettings_spec range_order stat read namespaced report mergo_map
    cleanSession global) as Happly. cbv zeta in Happly.
  destruct (apply_settings cleanSession global) as [[[settings sent] [err|]]|p|];
    cbn [mbind outcome_bind]; [| |done|done].
  { destruct Happly as [Hsent _]. split; [by left|]. left. eauto. }
  destruct Happly as (Hvalid & Hsent & _). fold (announced cleanSession) in Hsent. subst sent.
  destruct (CreateCloudConnection _ _ _ _ _ _ _ _ _ _) as [cloudClient|err].
  2:{ split; [by left|]. right. left. eauto. }
  destruct (CreateHubConnection_spec env parse_ca key_pair supportedCipherSuites request_uri
    parse Getenv ParseFloat32 parse_subject namespaced (HubConnection settings) false (uuid true)
    w Hw Hk) as (hub & r & w' & -> & Hr).
  cbn [mbind outcome_bind]. destruct r as [[conn cleanup]|err].
  - exists settings. split_and!; try done.
    + by repeat constructor.
    + destruct Hr as [(cl & w'' & -> & _ & Hrun & Hs)|(-> & -> & _)]; cbn; eauto.
  - split; [destruct Hr as [?|[cl ?]]; [by left|right; by eauto]|]. right. right. eauto.
Qed.
End connector.

(** ** Example *)

Definition sample_settings : Settings := with_hub DefaultSettings sample_hub.

Definition sample_launch : outcome (result launch * list string * world) :=
  connector_Run (H:=sample_gabs) map_to_list (λ _, StatNotExist) (λ _, Err (Sentinel "none"))
    (λ _, true) (λ cause, [cause]) Ok sample_env (λ _, true) (λ _ _, Err (Sentinel "no file"))
    [] sample_url sample_url (λ _, "") (λ _, None) (λ _, Err (Sentinel "none"))
    (λ _, "uuid") true sample_settings sample_world.

Lemma connector_Run_answers_witness :
  ∃ l w', sample_launch = Done (Ok l, [StatusProvisioningUpdate], w') ∧
    Forall (λ r, route_identity r = ("tenant", "ns:dev")) (la_routes l) ∧
    la_forwarded l = true.
Proof.
  pose proof (connector_Run_answers (H:=sample_gabs) map_to_list (λ _, StatNotExist)
    (λ _, Err (Sentinel "none"))
    (λ _, true) (λ cause, [cause]) Ok sample_env (λ _, true) (λ _ _, Err (Sentinel "no file"))
    [] sample_url sample_url (λ _, "") (λ _, None) (λ _, Err (Sentinel "none"))
    (λ _, "uuid") true sample_settings sample_world (proj1 sample_world_ok)
    (proj2 sample_world_ok)) as Hrun.
  fold sample_launch in Hrun.
  destruct sample_launch as [[[[l|err] sent] w']|p|] eqn:E;
    try (vm_compute in E; discriminate E).
  destruct Hrun as (settings & _ & -> & _ & Hroutes & _).
  exists l, w'. split; [reflexivity|]. vm_compute in E. injection E as <- _.
  split; [exact Hroutes|reflexivity].
Defined.
