(* ===== verification/LauncherLife.v ===== *)
(** * The life of a launcher: the goroutine of cmd/connector/launcher.go

    What launcher.Run has put together (Launcher.v) lives in a goroutine, the
    plugin [shutdown] of the router, until it cannot connect or Stop ends it.  Its
    life is a step relation between this goroutine and its HonoConnect, the MQTT
    client of the Hub with the goroutines in which it notifies its listeners, and
    the caller of Stop.  The Hub connects, is lost and comes back at any time; the
    notifications of it are goroutines of their own, which take the listeners of
    the connection when they come to it and then call them one by one, among them
    the handler that connects and disconnects the cloud client.  The other side of
    a connection, its stop group, is in StopGroup.v; here a Disconnect of the Hub
    waits for the goroutines that are in the group. *)

From S2P Require Import Prelude GoStrings Message Connection Service Reconnect.
From S2P Require Import TpmTls HubConnection.

(** ** The Hub client and its listeners *)

(** The four connection listeners, by identity. *)
Definition statusHandler : listener := 0%nat.
Definition reconnectHandler : listener := 1%nat.
Definition connHandler : listener := 2%nat.
Definition errorsHandler : listener := 3%nat.

(** What the listeners are called for. *)
Inductive cause := AfterConnect | AfterLoss | AfterRefusal.

(** The goroutines of the Hub client: where each stands. *)
Inductive note :=
  | ConnectedStart                               (* onConnected is to begin *)
  | ConnectedIn                                  (* in the stop group, subscribing *)
  | Lost                                         (* onConnectionLost is to begin *)
  | Calling (why : cause) (rest : list listener) (* the listeners left to call *)
  | Retrying                                     (* externalReconnect: between attempts *)
  | Dialing.                                     (* externalReconnect: in an attempt *)

#[export] Instance cause_eq_dec : EqDecision cause.
Proof. solve_decision. Defined.

#[export] Instance note_eq_dec : EqDecision note.
Proof. solve_decision. Defined.

(** Those Disconnect waits for, and those of externalReconnect. *)
Definition in_group (n : note) : bool :=
  match n with
  | ConnectedIn | Calling AfterConnect _ | Calling AfterRefusal _ | Retrying | Dialing => true
  | _ => false
  end.

Definition reconnects (n : note) : bool :=
  match n with Calling AfterRefusal _ | Retrying | Dialing => true | _ => false end.

(** A goroutine that is yet to tell connHandler that there is a connection. *)
Definition connecting (n : note) : bool :=
  match n with Calling AfterConnect ls => bool_decide (connHandler ∈ ls) | _ => false end.

Record net := MkNet {
  cloud : MQTTConnection tls_Config;
  hono : MQTTConnection tls_Config;
  hono_up : bool;                     (* the client is connected to the Hub *)
  pending : bool;                     (* HonoConnect's attempt has no answer yet *)
  inflight : list note;
}.

Definition set_clients (n : net) (c h : MQTTConnection tls_Config) : net :=
  MkNet c h (hono_up n) (pending n) (inflight n).

Definition set_up (n : net) (up : bool) : net :=
  MkNet (cloud n) (hono n) up (pending n) (inflight n).

Definition set_inflight (n : net) (l : list note) : net :=
  MkNet (cloud n) (hono n) (hono_up n) (pending n) l.

Definition has_connection (why : cause) : bool :=
  match why with AfterConnect => true | _ => false end.

(** connHandler, a CloudConnectionHandler, follows the Hub; the other listeners only
    publish.  It does not look at the error. *)
Definition call_listener (why : cause) (l : listener) (n : net) : net :=
  if decide (l = connHandler) then
    match CloudConnectionHandler_Connected (has_connection why) None with
    | CloudConnect => set_clients n (Connect (cloud n)) (hono n)
    | CloudDisconnect => set_clients n (Disconnect (cloud n) true).1 (hono n)
    end
  else n.

(** One step of a goroutine: what becomes of it, and of the clients.  The connection
    of the Hub has the option ExternalReconnect.  How many
    refusals externalReconnect puts up with is Reconnect.v's; here it may go on or
    give up after each. *)
Inductive note_step (n : net) : note → list note → net → Prop :=
  | nt_join : note_step n ConnectedStart [ConnectedIn] n
  | nt_connected : note_step n ConnectedIn [Calling AfterConnect (listenersRef (hono n))] n
  | nt_lost : note_step n Lost [Calling AfterLoss (listenersRef (hono n))] n
  | nt_call why l ls :
      note_step n (Calling why (l :: ls)) [Calling why ls] (call_listener why l n)
  | nt_connected_end : note_step n (Calling AfterConnect []) [] n
  (* [reconnecting] is taken by one goroutine at a time *)
  | nt_lost_end :
      note_step n (Calling AfterLoss [])
        (if existsb reconnects (inflight n) then [] else [Retrying]) n
  | nt_stop : running (hono n) = false → note_step n Retrying [] n
  | nt_dial : running (hono n) = true → note_step n Retrying [Dialing] n
  | nt_reconnected : note_step n Dialing [ConnectedStart] (set_up n true)
  | nt_failed err : auth_error err = false → note_step n Dialing [Retrying] n
  | nt_refused err : auth_error err = true →
      note_step n Dialing [Calling AfterRefusal (listenersRef (hono n))] n
  | nt_refused_again : note_step n (Calling AfterRefusal []) [Retrying] n
  | nt_gave_up : note_step n (Calling AfterRefusal []) [] n.

(** The answer to HonoConnect's attempt; onConnected is called in a goroutine. *)
Definition answer_clients (r : option error) (n : net) : net :=
  match r with
  | Some _ => MkNet (cloud n) (hono n) (hono_up n) false (inflight n)
  | None => MkNet (cloud n) (hono n) true false (inflight n ++ [ConnectedStart])
  end.

Definition lose_hub (n : net) : net :=
  MkNet (cloud n) (hono n) false (pending n) (inflight n ++ [Lost]).

(** ** The goroutine of the launcher *)

Inductive client := CloudClient | HonoClient.

(** What the goroutine does on its way out.  Disconnect of the Hub client unsets
    [running] and then, when its stop group is empty, closes the connection: this
    is [CloseHub]. *)
Inductive action :=
  | RemoveListener (c : client) (l : listener)
  | DisconnectClient (c : client)
  | CloseHub
  | StopRouter
  | SendClosedStatus
  | CloseCache
  | RunCleanup
  | SendDone.

#[export] Instance client_eq_dec : EqDecision client.
Proof. solve_decision. Defined.

#[export] Instance action_eq_dec : EqDecision action.
Proof. solve_decision. Defined.

(** Where the goroutine stands. *)
Inductive program_counter :=
  | WaitRunning                       (* <-r.Running() *)
  | Attempting (r : option (option error))   (* Connect: pending, or its answer *)
  | BackingOff                        (* waiting before the next attempt *)
  | Connected                         (* <-l.signals *)
  | Leaving (todo : list action).     (* the rest of the body and the deferred calls *)

Inductive stop_state := NotStopped | StopSent | StopReturned.

#[export] Instance stop_state_eq_dec : EqDecision stop_state.
Proof. solve_decision. Defined.

(** The last three fields are the history of the goroutine: what it has done,
    latest first, whether it was connected, and whether, when it disconnected the
    cloud client, a notification was yet to reach connHandler. *)
Record life := MkLife {
  pc : program_counter;
  retries : Z;                        (* authErrRetries *)
  signals : nat;                      (* buffered: capacity 2 *)
  dones : nat;                        (* buffered: capacity 2 *)
  stopper : stop_state;
  clients : net;
  log : list action;
  established : bool;
  raced : bool;
}.

Definition set_pc (s : life) (p : program_counter) : life :=
  MkLife p (retries s) (signals s) (dones s) (stopper s) (clients s) (log s) (established s)
    (raced s).

Definition set_net (s : life) (n : net) : life :=
  MkLife (pc s) (retries s) (signals s) (dones s) (stopper s) n (log s) (established s)
    (raced s).

Definition take_signal (s : life) : life :=
  MkLife (pc s) (retries s) (pred (signals s)) (dones s) (stopper s) (clients s) (log s)
    (established s) (raced s).

Section life.
Variable limit : Z.                   (* AuthErrRetries of the Hub connection *)
Variable cleanup : option Cleaner.

(** The listeners, in the order they are registered. *)
Definition add_listeners (n : net) : net :=
  set_clients n
    (AddConnectionListener (AddConnectionListener (cloud n) statusHandler) reconnectHandler)
    (AddConnectionListener (AddConnectionListener (hono n) connHandler) errorsHandler).

(** The deferred closure that ends the launcher. *)
Definition last_words : list action :=
  [SendClosedStatus; CloseCache]
  ++ match cleanup with Some _ => [RunCleanup] | None => [] end
  ++ [SendDone].

(** The deferred removals, the last one registered first. *)
Definition deferred_removals : list action :=
  [RemoveListener HonoClient errorsHandler; RemoveListener HonoClient connHandler;
   RemoveListener CloudClient reconnectHandler; RemoveListener CloudClient statusHandler].

(** HonoConnect returned an error. *)
Definition leave_failed : list action := [StopRouter] ++ deferred_removals ++ last_words.

(** A signal ended the connected launcher; the deferred Disconnect comes first. *)
Definition leave_connected : list action :=
  deferred_removals ++ [DisconnectClient CloudClient; StopRouter]
  ++ [DisconnectClient HonoClient; CloseHub] ++ deferred_removals ++ last_words.

(** The actions on the two clients; the others are recorded in the log. *)
Definition perform_net (a : action) (n : net) : net :=
  match a with
  | RemoveListener CloudClient l => set_clients n (RemoveConnectionListener (cloud n) l) (hono n)
  | RemoveListener HonoClient l => set_clients n (cloud n) (RemoveConnectionListener (hono n) l)
  | DisconnectClient CloudClient => set_clients n (Disconnect (cloud n) true).1 (hono n)
  | DisconnectClient HonoClient => set_clients n (cloud n) (Disconnect (hono n) (hono_up n)).1
  | CloseHub => set_up n false
  | _ => n
  end.

Definition perform (a : action) (s : life) : life :=
  MkLife (pc s) (retries s) (signals s)
    (dones s + if decide (a = SendDone) then 1 else 0)%nat (stopper s)
    (perform_net a (clients s)) (a :: log s) (established s)
    (raced s || bool_decide (a = DisconnectClient CloudClient)
                && existsb connecting (inflight (clients s))).

(** What an action has to wait for: room in the channel, or the stop group. *)
Definition ready (a : action) (s : life) : Prop :=
  match a with
  | SendDone => (dones s < 2)%nat
  | CloseHub => existsb in_group (inflight (clients s)) = false
  | _ => True
  end.

(** The goroutine calls Connect and waits for the answer. *)
Definition start_attempt (s : life) : life :=
  let n := clients s in
  set_net (set_pc s (Attempting None))
    (MkNet (cloud n) (Connect (hono n)) (hono_up n) true (inflight n)).

Definition answer (r : option error) (s : life) : life :=
  set_net (set_pc s (Attempting (Some r))) (answer_clients r (clients s)).

(** What HonoConnect makes of a failed attempt. *)
Definition after_error (err : error) (s : life) : life :=
  let '(_, retry) := StatusCause err in
  if retry then set_pc s BackingOff
  else if auth_error err then
    let r := (retries s + 1)%Z in
    if (r =? limit)%Z then set_pc s (Leaving leave_failed)
    else MkLife BackingOff r (signals s) (dones s) (stopper s) (clients s) (log s)
           (established s) (raced s)
  else set_pc s (Leaving leave_failed).

(** HonoConnect returned no error. *)
Definition establish (s : life) : life :=
  MkLife Connected (retries s) (signals s) (dones s) (stopper s) (clients s) (log s) true
    (raced s).

(** Whose step it is: of the goroutine of the launcher or of a Stop that waits for
    it, of a goroutine of the Hub client, or of what is around them: the router
    that runs, the Hub, the call of Stop. *)
Inductive kind := Own | Client | Environment.

#[local] Instance kind_eq_dec : EqDecision kind.
Proof. solve_decision. Defined.

Inductive life_step : kind → life → life → Prop :=
  | st_running s : pc s = WaitRunning →
      life_step Environment s (start_attempt (set_net s (add_listeners (clients s))))
  | st_answer s r : pc s = Attempting None → life_step Environment s (answer r s)
  (* the goroutine has left before the answer came *)
  | st_late s r todo : pc s = Leaving todo → pending (clients s) = true →
      life_step Environment s (set_net s (answer_clients r (clients s)))
  | st_lost s : hono_up (clients s) = true →
      life_step Environment s (set_net s (lose_hub (clients s)))
  | st_client s l1 nt l2 ns n :
      inflight (clients s) = l1 ++ nt :: l2 → note_step (clients s) nt ns n →
      life_step Client s (set_net s (set_inflight n (l1 ++ ns ++ l2)))
  | st_connected s : pc s = Attempting (Some None) → life_step Own s (establish s)
  | st_error s err : pc s = Attempting (Some (Some err)) → life_step Own s (after_error err s)
  (* the signal may be taken although the answer is there *)
  | st_cancel_attempt s r : pc s = Attempting r → (0 < signals s)%nat →
      life_step Own s (set_pc (take_signal s) (Leaving leave_failed))
  | st_cancel_wait s : pc s = BackingOff → (0 < signals s)%nat →
      life_step Own s (set_pc (take_signal s) (Leaving leave_failed))
  (* the intervals are positive, so a signal that is there when the wait begins, or
     comes during it, is received; NextBackOff answers Stop only with a bound on
     the elapsed time, which ConnectBackoff sets to zero: there is none *)
  | st_again s : pc s = BackingOff → signals s = 0%nat → life_step Own s (start_attempt s)
  | st_signal s : pc s = Connected → (0 < signals s)%nat →
      life_step Own s (set_pc (take_signal s) (Leaving leave_connected))
  | st_leave s a todo : pc s = Leaving (a :: todo) → ready a s →
      life_step Own s (set_pc (perform a s) (Leaving todo))
  | st_stop s : stopper s = NotStopped → (signals s < 2)%nat →
      life_step Environment s
        (MkLife (pc s) (retries s) (S (signals s)) (dones s) StopSent (clients s) (log s)
           (established s) (raced s))
  | st_stopped s : stopper s = StopSent → (0 < dones s)%nat →
      life_step Own s
        (MkLife (pc s) (retries s) (signals s) (pred (dones s)) StopReturned (clients s) (log s)
           (established s) (raced s)).

(** newLauncher makes the two channels, which are empty; the life begins when its
    router is about to run. *)
Definition newLauncher (c h : MQTTConnection tls_Config) : life :=
  MkLife WaitRunning 0 0 0 NotStopped (MkNet c h false false []) [] false false.

Section reachability.
Variables c h : MQTTConnection tls_Config.

#[local] Instance life_system : TransitionSystem life := {
  ts_init := λ s, s = newLauncher c h;
  ts_step := λ s s', ∃ k, life_step k s s';
}.

(** ** The order of the last actions *)

Lemma app_once {A} (x : A) l todo pre post :
  l ++ x :: todo = pre ++ x :: post → x ∉ pre → x ∉ post → l = pre.
Proof.
  revert pre. induction l as [|y l IH]; intros [|z pre] H Hpre Hpost; cbn in H; simplify_eq.
  - done.
  - destruct Hpre. by left.
  - destruct Hpost. apply elem_of_app. right. by left.
  - f_equal. apply IH; [done| |done]. intros Hin. apply Hpre. by right.
Qed.

(** In [full], [y] is not done before [x] is. *)
Lemma done_before {A} (x y : A) pre post l todo :
  l ++ todo = pre ++ y :: post → x ∈ pre → y ∉ pre → y ∈ l → x ∈ l.
Proof.
  intros H Hx Hy Hin. apply app_eq_inv in H as [(k & -> & _)|(k & -> & _)].
  - apply elem_of_app. by left.
  - destruct Hy. apply elem_of_app. by left.
Qed.

Definition leave (was : bool) : list action := if was then leave_connected else leave_failed.

Lemma elem_of_log (a : action) l : a ∈ rev l ↔ a ∈ l.
Proof. by rewrite !list_elem_of_In, <-in_rev. Qed.

Lemma leave_ends was : ∃ pre, leave was = pre ++ [SendDone] ∧ SendDone ∉ pre.
Proof.
  exists (removelast (leave was)).
  destruct was; unfold leave, leave_failed, leave_connected, deferred_removals, last_words;
    destruct cleanup; cbn; (split; [done|set_solver]).
Qed.

(** Only a connected launcher disconnects. *)
Lemma failed_keeps_clients a :
  a ∈ leave_failed → (∀ cl, a ≠ DisconnectClient cl) ∧ a ≠ CloseHub.
Proof.
  unfold leave_failed, deferred_removals, last_words. intros H.
  destruct cleanup; cbn [app] in H; repeat (apply elem_of_cons in H as [->|H]; [done|]);
    by apply not_elem_of_nil in H.
Qed.

(** connHandler is removed before the cloud client is disconnected, and the Hub
    client is told to stop before it is closed. *)
Lemma removed_before l todo :
  rev l ++ todo = leave_connected → DisconnectClient CloudClient ∈ l →
  RemoveListener HonoClient connHandler ∈ l.
Proof.
  intros H Hin. rewrite <-elem_of_log in Hin |- *. revert Hin.
  eapply done_before; [exact H| |]; unfold deferred_removals; set_solver.
Qed.

Lemma stopped_before l todo :
  rev l ++ todo = leave_connected → CloseHub ∈ l → DisconnectClient HonoClient ∈ l.
Proof.
  intros H Hin. rewrite <-elem_of_log in Hin |- *. revert Hin.
  eapply (done_before _ _ (deferred_removals ++ [DisconnectClient CloudClient; StopRouter;
    DisconnectClient HonoClient]) (deferred_removals ++ last_words)); [exact H| |];
    unfold deferred_removals; set_solver.
Qed.

(** ** The listeners *)

(** The listeners of a client beside those of the launcher are none of them. *)
Definition foreign (l : list listener) : Prop :=
  NoDup l ∧ ∀ x, x ∈ l → x ≠ statusHandler ∧ x ≠ reconnectHandler ∧
    x ≠ connHandler ∧ x ≠ errorsHandler.

Definition kept (cl : client) (done : list action) (l : list listener) : list listener :=
  filter (λ x, RemoveListener cl x ∉ done) l.

Hypothesis foreign_c : foreign (listenersRef c).
Hypothesis foreign_h : foreign (listenersRef h).

Lemma kept_nil cl l : kept cl [] l = l.
Proof.
  unfold kept. induction l as [|x l IH]; [done|].
  rewrite filter_cons_True by apply not_elem_of_nil. by f_equal.
Qed.

Lemma kept_cons cl a done_ l :
  kept cl (a :: done_) l =
  match a with
  | RemoveListener cl' x =>
      if decide (cl = cl') then filter (λ y, y ≠ x) (kept cl done_ l) else kept cl done_ l
  | _ => kept cl done_ l
  end.
Proof.
  unfold kept. induction l as [|x l IH]; [destruct a; try case_decide; done|].
  rewrite !filter_cons. destruct (decide (RemoveListener cl x ∉ done_)) as [Hin|Hin].
  - destruct a as [cl' y| | | | | | |]; try (rewrite decide_True by set_solver; by rewrite IH).
    destruct (decide (cl = cl')) as [<-|Hne].
    + rewrite filter_cons. destruct (decide (x = y)) as [->|Hxy].
      * rewrite !decide_False by set_solver. done.
      * rewrite !decide_True by set_solver. by rewrite IH.
    + rewrite decide_True by set_solver. by rewrite IH.
  - rewrite decide_False by set_solver. exact IH.
Qed.

Lemma kept_nodup cl done_ l : NoDup l → NoDup (kept cl done_ l).
Proof. apply NoDup_filter. Qed.

Lemma own_nodup (l : list listener) (x y : listener) :
  foreign l → x ≠ y → (x < 4)%nat → (y < 4)%nat → NoDup (l ++ [x; y]).
Proof.
  intros [Hnd Hf] Hxy Hx Hy. apply NoDup_app. split; [done|]. split.
  - intros z Hz. destruct (Hf z Hz) as (?&?&?&?).
    unfold statusHandler, reconnectHandler, connHandler, errorsHandler in *.
    set_unfold. lia.
  - apply NoDup_cons. split; [set_solver|apply NoDup_singleton].
Qed.

Lemma add_two (cn : MQTTConnection tls_Config) (x y : listener) :
  foreign (listenersRef cn) → x ≠ y → (x < 4)%nat → (y < 4)%nat →
  listenersRef (AddConnectionListener (AddConnectionListener cn x) y)
  = listenersRef cn ++ [x; y].
Proof.
  intros Hf Hxy Hx Hy. pose proof (own_nodup _ x y Hf Hxy Hx Hy) as Hnd.
  destruct Hf as [Hn Hf].
  assert ((x ∉ listenersRef cn) ∧ (y ∉ listenersRef cn)) as [Hnx Hny].
  { split; intros Hin; destruct (Hf _ Hin) as (?&?&?&?);
      unfold statusHandler, reconnectHandler, connHandler, errorsHandler in *; lia. }
  destruct (listener_run_spec cn (LAdd x) Hn) as [H1 Hn1]. cbn [listener_run listener_spec] in *.
  rewrite decide_False in H1, Hn1 by done.
  rewrite <-H1 in Hn1.
  destruct (listener_run_spec _ (LAdd y) Hn1) as [H2 _]. cbn [listener_run listener_spec] in H2.
  rewrite H2, decide_False, H1; [by rewrite <-app_assoc|].
  rewrite H1. set_solver.
Qed.

Lemma remove_one (cn : MQTTConnection tls_Config) (x : listener) :
  NoDup (listenersRef cn) →
  listenersRef (RemoveConnectionListener cn x) = filter (λ y, y ≠ x) (listenersRef cn).
Proof. intros Hn. exact (proj1 (listener_run_spec cn (LRemove x) Hn)). Qed.

Lemma remove_running (cn : MQTTConnection tls_Config) x : running (RemoveConnectionListener cn x) = running cn.
Proof. unfold RemoveConnectionListener. by destruct (list_find _ _) as [[? ?]|]. Qed.

Lemma disconnect_listeners (cn : MQTTConnection tls_Config) b : listenersRef (Disconnect cn b).1 = listenersRef cn.
Proof. unfold Disconnect. by destruct (running cn). Qed.

Lemma disconnect_running (cn : MQTTConnection tls_Config) b : running (Disconnect cn b).1 = false.
Proof. unfold Disconnect. by destruct (running cn) eqn:E. Qed.

Lemma kept_all cl done_ l x y :
  (∀ z, z ∈ l → RemoveListener cl z ∉ done_) →
  RemoveListener cl x ∈ done_ → RemoveListener cl y ∈ done_ → kept cl done_ (l ++ [x; y]) = l.
Proof.
  intros Hl Hx Hy. unfold kept. rewrite filter_app, !filter_cons_False by tauto.
  rewrite filter_nil, app_nil_r. fold (kept cl done_ l).
  induction l as [|z l IH]; [done|]. unfold kept. rewrite filter_cons_True by (apply Hl; by left).
  f_equal. apply IH. intros z' Hz'. apply Hl. by right.
Qed.

Lemma kept_removed cl x done_ l : RemoveListener cl x ∈ done_ → x ∉ kept cl done_ l.
Proof. intros H [Hx _]%list_elem_of_filter. by apply Hx. Qed.

(** ** Steps of the Hub client *)

(** What a goroutine of the Hub client leaves alone, and what it can bring about:
    only one that is to tell connHandler of a connection connects the cloud
    client, only an attempt connects the Hub, and one that takes the listeners
    finds connHandler only if it is one. *)
Lemma note_step_effect n nt ns n' :
  note_step n nt ns n' →
  listenersRef (cloud n') = listenersRef (cloud n) ∧ hono n' = hono n ∧
  pending n' = pending n ∧ inflight n' = inflight n ∧
  (running (cloud n') = true → running (cloud n) = true ∨ connecting nt = true) ∧
  (hono_up n' = true → hono_up n = true ∨ nt = Dialing) ∧
  (existsb connecting ns = true → connecting nt = true ∨ connHandler ∈ listenersRef (hono n)) ∧
  (Dialing ∈ ns → nt = Retrying ∧ running (hono n) = true).
Proof.
  assert (∀ nt', nt' ≠ Dialing → Dialing ∈ [nt'] → False) as Hone
    by (intros nt' Hne Hin%list_elem_of_singleton; by apply Hne).
  assert (Dialing ∈ [] → False) as Hnil by (by intros ?%not_elem_of_nil).
  destruct 1 as [| | |why l ls| | |Hr|Hr| |err He|err He| |].
  4:{ unfold call_listener. cbn [existsb connecting]. rewrite orb_false_r.
      split_and!; try (case_decide; [by destruct why|done]).
      - case_decide; [|done]. destruct why; [done|apply (disconnect_listeners _ true)..].
      - case_decide as Hl; [|by left]. destruct why; cbn [set_clients cloud has_connection CloudConnectionHandler_Connected];
          [|by rewrite (disconnect_running _ true)..].
        intros _. right. apply bool_decide_eq_true. subst. by left.
      - case_decide; [by destruct why; left|by left].
      - destruct why; [|done..]. intros H%bool_decide_eq_true. left.
        apply bool_decide_eq_true. by right.
      - intros Hin. by apply Hone in Hin. }
  5: destruct (existsb reconnects _).
  all: split_and!; try done; try (by left); try (by right); try (intros Hin; by apply Hone in Hin);
    try (intros Hin; by destruct (Hnil Hin)).
  all: cbn [existsb connecting]; rewrite ?orb_false_r.
  all: intros H; try (by left); right; by apply bool_decide_eq_true in H.
Qed.

(** ** The invariant *)

Record life_inv (s : life) : Prop := {
  li_cloud : listenersRef (cloud (clients s)) =
    match pc s with
    | WaitRunning => listenersRef c
    | _ => kept CloudClient (log s) (listenersRef c ++ [statusHandler; reconnectHandler])
    end;
  li_hono : listenersRef (hono (clients s)) =
    match pc s with
    | WaitRunning => listenersRef h
    | _ => kept HonoClient (log s) (listenersRef h ++ [connHandler; errorsHandler])
    end;
  li_log :
    match pc s with
    | Leaving todo => rev (log s) ++ todo = leave (established s)
    | Connected => established s = true ∧ log s = []
    | _ => established s = false ∧ log s = []
    end;
  li_dones : (dones s + match stopper s with StopReturned => 1 | _ => 0 end)%nat =
    (if bool_decide (SendDone ∈ log s) then 1 else 0)%nat;
  li_signals :
    match pc s with
    | Leaving _ => (signals s <= 1)%nat ∧ (stopper s = NotStopped → signals s = 0%nat)
    | _ => signals s = match stopper s with NotStopped => 0%nat | _ => 1%nat end
    end;
  li_pending : pending (clients s) = true →
    match pc s with
    | Attempting None => True
    | Leaving todo => established s = false
    | _ => False
    end;
  (* the cloud client after it has been disconnected *)
  li_cloud_gone : DisconnectClient CloudClient ∈ log s → raced s = false →
    running (cloud (clients s)) = false ∧
    existsb connecting (inflight (clients s)) = false;
  (* the Hub client after it has been told to stop, and after it has been closed *)
  li_hub_stopped : DisconnectClient HonoClient ∈ log s → running (hono (clients s)) = false;
  li_hub_closed : CloseHub ∈ log s →
    hono_up (clients s) = false ∧ Dialing ∉ inflight (clients s);
}.

(** What the goroutine has done tells how it leaves. *)
Lemma disconnected_log s a :
  life_inv s → a ∈ log s → (∃ cl, a = DisconnectClient cl) ∨ a = CloseHub →
  ∃ todo, pc s = Leaving todo ∧ established s = true ∧ rev (log s) ++ todo = leave_connected.
Proof.
  intros Hi Ha Hkind. pose proof (li_log s Hi) as Hl.
  assert (log s ≠ []) as Hne by (intros E; rewrite E in Ha; by apply not_elem_of_nil in Ha).
  destruct (pc s) as [|r| | |todo]; [by destruct Hl..|]. exists todo.
  destruct (established s); [by split_and!|]. cbn [leave] in Hl. exfalso.
  assert (a ∈ leave_failed) as [Hd Hc]%failed_keeps_clients
    by (rewrite <-Hl, elem_of_app, elem_of_log; by left).
  destruct Hkind as [[cl ->]| ->]; [by apply (Hd cl)|done].
Qed.

Lemma gone_unheard s :
  life_inv s → DisconnectClient CloudClient ∈ log s →
  connHandler ∉ listenersRef (hono (clients s)).
Proof.
  intros Hi Hin. destruct (disconnected_log s _ Hi Hin) as (todo & Hpc & _ & Hl); [by eauto|].
  rewrite (li_hono s Hi), Hpc. apply kept_removed. by apply (removed_before _ todo).
Qed.

Lemma closed_stopped s :
  life_inv s → CloseHub ∈ log s → running (hono (clients s)) = false.
Proof.
  intros Hi Hin. destruct (disconnected_log s _ Hi Hin) as (todo & Hpc & _ & Hl); [by eauto|].
  by apply (li_hub_stopped s Hi), (stopped_before _ todo).
Qed.

(** ** Every step keeps the invariant *)

(** A change of the clients that keeps the listeners and the flag of the Hub. *)
Lemma net_inv s n :
  life_inv s →
  listenersRef (cloud n) = listenersRef (cloud (clients s)) →
  hono n = hono (clients s) →
  (pending n = true → pending (clients s) = true) →
  (DisconnectClient CloudClient ∈ log s → raced s = false →
    running (cloud n) = false ∧ existsb connecting (inflight n) = false) →
  (CloseHub ∈ log s → hono_up n = false ∧ Dialing ∉ inflight n) →
  life_inv (set_net s n).
Proof.
  intros [Hc Hh Hl Hd Hs Hp _ Hst _] Hcl Hho Hpe Hgone Hclosed.
  split; cbn; rewrite ?Hcl, ?Hho; try done. intros H. by apply Hp, Hpe.
Qed.

(** The goroutine moves on before it leaves, or begins to leave. *)
Lemma move_inv s p r sig n e :
  life_inv s → pc s ≠ WaitRunning → (match pc s with Leaving _ => False | _ => True end) →
  p ≠ WaitRunning →
  listenersRef (cloud n) = listenersRef (cloud (clients s)) →
  listenersRef (hono n) = listenersRef (hono (clients s)) →
  (match p with Leaving todo => todo = leave e | Connected => e = true | _ => e = false end) →
  (pending n = true → p = Attempting None ∨ (∃ todo, p = Leaving todo) ∧ e = false) →
  sig = signals s ∨ sig = pred (signals s) ∧ (∃ todo, p = Leaving todo) →
  life_inv (MkLife p r sig (dones s) (stopper s) n (log s) e (raced s)).
Proof.
  intros [Hc Hh Hl Hd Hs _ _ _ _] Hpc Hnl Hp Hcl Hho Hlast Hpend Hsig.
  assert (log s = []) as Hlog by (destruct (pc s); tauto).
  assert (signals s = match stopper s with NotStopped => 0%nat | _ => 1%nat end) as Hs'
    by (by destruct (pc s)).
  split; cbn; rewrite ?Hlog in *; try done; try (by intros ?%not_elem_of_nil).
  - rewrite Hcl, Hc. by destruct (pc s), p.
  - rewrite Hho, Hh. by destruct (pc s), p.
  - by destruct p.
  - destruct Hsig as [->|[-> [todo ->]]]; [destruct p; try done|];
      rewrite Hs'; destruct (stopper s); split; by (lia || done).
  - by intros [->|[[todo ->] He]]%Hpend.
Qed.

(** The same where only the place, the retries and the signals change. *)
Lemma leave_inv s todo :
  life_inv s → pc s ≠ WaitRunning → (match pc s with Leaving _ => False | _ => True end) →
  todo = leave (established s) → (established s = true → pending (clients s) = false) →
  life_inv (set_pc (take_signal s) (Leaving todo)).
Proof.
  intros Hi Hpc Hnl Htodo Hpend. apply (move_inv s); try done; [|right; eauto].
  intros Hp. cbn in Hp |- *. right. split; [eauto|]. destruct (established s); [|done].
  by rewrite Hpend in Hp.
Qed.

Lemma after_error_inv s err :
  life_inv s → pc s = Attempting (Some (Some err)) → life_inv (after_error err s).
Proof.
  intros Hi Hpc. pose proof (li_log s Hi) as Hl. pose proof (li_pending s Hi) as Hp.
  rewrite Hpc in *. destruct Hl as [He _].
  unfold after_error. destruct (StatusCause err) as [cause retry].
  destruct retry; [|destruct (auth_error err); [destruct (_ =? _)%Z|]];
    apply (move_inv s); rewrite ?Hpc, ?He; try done; try (by left); by intros ?%Hp.
Qed.

Lemma start_attempt_inv s n :
  life_inv s → pc s = BackingOff ∨ pc s = WaitRunning →
  pending n = pending (clients s) → inflight n = inflight (clients s) →
  (pc s = BackingOff → n = clients s) → (pc s = WaitRunning → n = add_listeners (clients s)) →
  life_inv (start_attempt (set_net s n)).
Proof.
  intros Hi Hpc Hp Hn Hb Hw. destruct Hpc as [Hpc|Hpc].
  - rewrite (Hb Hpc). pose proof (li_log s Hi) as Hl. rewrite Hpc in Hl.
    apply (move_inv s); rewrite ?Hpc; try done; [by apply Hl|by left|by left].
  - rewrite (Hw Hpc). destruct Hi as [Hc Hh Hl Hd Hs _ _ _ _]. rewrite Hpc in *.
    destruct Hl as [He Hlog]. split; cbn; rewrite ?Hlog, ?kept_nil in *; try done;
      try by intros ?%not_elem_of_nil.
    + rewrite add_two by (by rewrite ?Hc || (unfold statusHandler, reconnectHandler; lia)).
      by rewrite Hc.
    + change (listenersRef (AddConnectionListener (AddConnectionListener (hono (clients s))
        connHandler) errorsHandler) = listenersRef h ++ [connHandler; errorsHandler]).
      rewrite add_two by (by rewrite ?Hh || (unfold connHandler, errorsHandler; lia)).
      by rewrite Hh.
Qed.

(** A step of a goroutine of the Hub client. *)
Lemma client_inv s l1 nt l2 ns n :
  life_inv s → inflight (clients s) = l1 ++ nt :: l2 → note_step (clients s) nt ns n →
  life_inv (set_net s (set_inflight n (l1 ++ ns ++ l2))).
Proof.
  intros Hi Hin Hstep.
  destruct (note_step_effect _ _ _ _ Hstep) as (Hcl & Hho & Hpe & _ & Hrun & Hup & Hconn & Hdial).
  apply net_inv; cbn; rewrite ?Hpe; try done.
  - intros Hlog Hrace. destruct (li_cloud_gone s Hi Hlog Hrace) as [Hgone Hnone].
    pose proof (gone_unheard s Hi Hlog) as Hunheard.
    rewrite Hin, existsb_app in Hnone. cbn [existsb] in Hnone.
    apply orb_false_iff in Hnone as [Hn1 [Hnt Hn2]%orb_false_iff]. split.
    + destruct (running (cloud n)); [|done]. destruct Hrun; congruence.
    + rewrite !existsb_app, Hn1, Hn2, orb_false_r. cbn [orb].
      destruct (existsb connecting ns); [|done]. destruct Hconn; congruence.
  - intros Hlog. destruct (li_hub_closed s Hi Hlog) as [Hdown Hnone].
    pose proof (closed_stopped s Hi Hlog) as Hstopped. rewrite Hin in Hnone. split.
    + destruct (hono_up n); [|done]. destruct Hup; [done|congruence|]. subst nt. set_solver.
    + rewrite !elem_of_app. intros [?|[?|?]]; [set_solver| |set_solver].
      destruct Hdial; congruence.
Qed.

(** An answer of the Hub after the goroutine has left, and the loss of the Hub. *)
Lemma late_inv s r todo :
  life_inv s → pc s = Leaving todo → pending (clients s) = true →
  life_inv (set_net s (answer_clients r (clients s))).
Proof.
  intros Hi Hpc Hpend. pose proof (li_pending s Hi Hpend) as He. rewrite Hpc in He.
  apply net_inv; [done|by destruct r..| |].
  - intros Hlog. destruct (disconnected_log s _ Hi Hlog) as (? & _ & ? & _); [eauto|congruence].
  - intros Hlog. destruct (disconnected_log s _ Hi Hlog) as (? & _ & ? & _); [eauto|congruence].
Qed.

Lemma lost_inv s : life_inv s → life_inv (set_net s (lose_hub (clients s))).
Proof.
  intros Hi. apply net_inv; cbn; try done.
  - intros Hlog Hrace. destruct (li_cloud_gone s Hi Hlog Hrace) as [Hgone Hnone].
    split; [done|]. rewrite existsb_app, Hnone. done.
  - intros Hlog. destruct (li_hub_closed s Hi Hlog) as [_ Hnone]. split; [done|]. set_solver.
Qed.

(** ** The actions of leaving *)

Lemma send_done_once log_ todo was :
  rev log_ ++ SendDone :: todo = leave was → (SendDone ∉ log_) ∧ todo = [].
Proof.
  intros H. destruct (leave_ends was) as (pre & Hpre & Hno). rewrite Hpre in H.
  assert ((SendDone ∉ pre) ∧ SendDone ∉ ([] : list action)) as [Hp Hn]
    by (split; [done|apply not_elem_of_nil]).
  pose proof (app_once _ _ _ _ _ H Hp Hn) as Hlog. rewrite Hlog in H.
  apply app_inv_head in H. injection H as ->. split; [|done]. by rewrite <-elem_of_log, Hlog.
Qed.

Lemma perform_inv s a todo :
  life_inv s → pc s = Leaving (a :: todo) → ready a s →
  life_inv (set_pc (perform a s) (Leaving todo)).
Proof.
  intros Hi Hpc Hready. pose proof Hi as [Hc Hh Hl Hd Hs Hpd Hgc Hst Hcl]. rewrite Hpc in *.
  pose proof (kept_nodup CloudClient (log s) _ (own_nodup _ statusHandler reconnectHandler
    foreign_c ltac:(done) ltac:(unfold statusHandler; lia) ltac:(unfold reconnectHandler; lia)))
    as Hndc. rewrite <-Hc in Hndc.
  pose proof (kept_nodup HonoClient (log s) _ (own_nodup _ connHandler errorsHandler
    foreign_h ltac:(done) ltac:(unfold connHandler; lia) ltac:(unfold errorsHandler; lia)))
    as Hndh. rewrite <-Hh in Hndh.
  assert (inflight (perform_net a (clients s)) = inflight (clients s) ∧
    pending (perform_net a (clients s)) = pending (clients s)) as [Hin Hpe]
    by (by destruct a as [[]|[]| | | | | |]).
  split; cbn [set_pc perform pc clients log stopper dones signals established raced];
    rewrite ?Hin, ?Hpe.
  - rewrite kept_cons, <-Hc. destruct a as [[] x|[]| | | | | |]; cbn; try done.
    + by apply remove_one.
    + apply (disconnect_listeners _ true).
  - rewrite kept_cons, <-Hh. destruct a as [[] x|[]| | | | | |]; cbn; try done.
    + by apply remove_one.
    + apply (disconnect_listeners _ (hono_up (clients s))).
  - cbn [rev]. by rewrite <-app_assoc.
  - destruct (decide (a = SendDone)) as [->|Hne].
    + destruct (send_done_once (log s) todo _ Hl) as [Hno _].
      rewrite bool_decide_eq_false_2 in Hd by done.
      rewrite bool_decide_eq_true_2 by set_solver. lia.
    + assert (bool_decide (SendDone ∈ a :: log s) = bool_decide (SendDone ∈ log s)) as ->
        by (apply bool_decide_ext; set_solver). lia.
  - done.
  - done.
  - intros Hlog [Hr1 Hr2]%orb_false_iff. destruct (decide (a = DisconnectClient CloudClient)) as [->|Hne].
    + rewrite bool_decide_eq_true_2 in Hr2 by done. split; [|exact Hr2].
      apply (disconnect_running _ true).
    + destruct (Hgc ltac:(set_solver) Hr1) as [Hrun Hno]. split; [|done].
      destruct a as [[] x|[]| | | | | |]; cbn; rewrite ?remove_running; done.
  - intros Hlog. destruct (decide (a = DisconnectClient HonoClient)) as [->|Hne].
    + apply (disconnect_running _ (hono_up (clients s))).
    + assert (running (hono (clients s)) = false) as Hrun by (apply Hst; set_solver).
      destruct a as [[] x|[]| | | | | |]; cbn; rewrite ?remove_running; done.
  - intros Hlog. destruct (decide (a = CloseHub)) as [->|Hne].
    + split; [done|]. intros Hdial. cbn [ready] in Hready.
      rewrite <-not_true_iff_false in Hready. destruct Hready. apply existsb_exists.
      exists Dialing. by rewrite <-list_elem_of_In.
    + destruct (Hcl ltac:(set_solver)) as [Hup Hno]. split; [|done].
      by destruct a as [[] x|[]| | | | | |].
Qed.

Lemma life_inv_step s s' : life_inv s → ts_step s s' → life_inv s'.
Proof.
  intros Hi [k Hstep]. pose proof (li_log s Hi) as Hl. pose proof (li_pending s Hi) as Hp.
  destruct Hstep as [s Hpc|s r Hpc|s r todo Hpc Hpend|s Hup|s l1 nt l2 ns n Hin Hn|s Hpc|s err Hpc
    |s r Hpc Hsig|s Hpc Hsig|s Hpc Hsig|s Hpc Hsig|s a todo Hpc Hready|s Hst Hsig|s Hst Hdn];
    try rewrite Hpc in *.
  - apply start_attempt_inv; rewrite ?Hpc; try done. by right.
  - apply (move_inv s); rewrite ?Hpc; try done; [by destruct r..|by apply Hl|by destruct r|by left].
  - by apply (late_inv _ _ todo).
  - by apply lost_inv.
  - by eapply client_inv.
  - apply (move_inv s); rewrite ?Hpc; try done. by left.
  - by apply after_error_inv.
  - apply leave_inv; rewrite ?Hpc; try done; destruct Hl as [-> _]; done.
  - apply leave_inv; rewrite ?Hpc; try done; destruct Hl as [-> _]; done.
  - replace s with (set_net s (clients s)) at 1 by (by destruct s).
    apply start_attempt_inv; rewrite ?Hpc; try done. by left.
  - apply leave_inv; rewrite ?Hpc; try done; destruct Hl as [-> _]; [done|].
    intros _. by destruct (pending (clients s)).
  - by apply perform_inv.
  - destruct Hi as [Hc Hh _ Hd Hs _ Hg1 Hg2 Hg3]. rewrite Hst in *. split; cbn; try done.
    destruct (pc s); try lia. destruct Hs as [_ Hs]. specialize (Hs eq_refl). split; [lia|done].
  - destruct Hi as [Hc Hh _ Hd Hs _ Hg1 Hg2 Hg3]. rewrite Hst in *. split; cbn; try done.
    + lia.
    + destruct (pc s); try done. destruct Hs. by split.
Qed.

Lemma life_inv_reachable s : reachable s → life_inv s.
Proof.
  apply invariant_reachable. split; [|exact life_inv_step].
  intros s0 ->. split; cbn; try done; by intros ?%not_elem_of_nil.
Qed.
(** ** The end of a launcher *)

Lemma done_is_last s todo :
  life_inv s → pc s = Leaving todo → SendDone ∈ log s → todo = [].
Proof.
  intros Hi Hpc Hin. pose proof (li_log s Hi) as Hl. rewrite Hpc in Hl.
  destruct (leave_ends (established s)) as (pre & Hpre & Hno). rewrite Hpre in Hl.
  apply app_eq_inv in Hl as [(k & Hk & Hend)|(k & Hk & Hend)].
  - destruct k as [|a [|b k]]; [|by injection Hend|by injection Hend].
    rewrite app_nil_r in Hk. destruct Hno. by rewrite <-Hk, elem_of_log.
  - destruct Hno. rewrite Hk, elem_of_app, elem_of_log. by left.
Qed.

Definition times (a : action) (l : list action) : nat := length (filter (λ b, b = a) l).

(** The log at the end: the last words, and before them the router was stopped. *)
Lemma log_at_end s :
  life_inv s → pc s = Leaving [] →
  ∃ before, log s = SendDone :: match cleanup with Some _ => [RunCleanup] | None => [] end
      ++ CloseCache :: SendClosedStatus :: before ∧
    times StopRouter before = 1%nat ∧
    Forall (λ a, a ∉ before) [SendClosedStatus; CloseCache; RunCleanup; SendDone].
Proof.
  intros Hi Hpc. pose proof (li_log s Hi) as Hl. rewrite Hpc, app_nil_r in Hl.
  exists (rev (if established s then deferred_removals ++ [DisconnectClient CloudClient;
      StopRouter; DisconnectClient HonoClient; CloseHub] ++ deferred_removals
    else StopRouter :: deferred_removals)).
  rewrite <-(rev_involutive (log s)), Hl.
  unfold leave, leave_failed, leave_connected, last_words, deferred_removals.
  destruct (established s), cleanup; (split; [reflexivity|]); (split; [reflexivity|]);
    repeat (apply Forall_cons; split; [apply (bool_decide_unpack _); vm_compute; exact I|]);
    apply Forall_nil_2.
Qed.

Lemma removed_at_end s :
  life_inv s → pc s = Leaving [] →
  listenersRef (cloud (clients s)) = listenersRef c ∧
  listenersRef (hono (clients s)) = listenersRef h.
Proof.
  intros Hi Hpc. pose proof Hi as [Hc Hh Hl _ _ _ _ _ _]. rewrite Hpc in *.
  rewrite app_nil_r in Hl.
  assert (∀ cl x, RemoveListener cl x ∈ log s ↔
    match cl with CloudClient => x = statusHandler ∨ x = reconnectHandler
                | HonoClient => x = connHandler ∨ x = errorsHandler end) as Hrem.
  { intros cl x. rewrite <-elem_of_log, Hl. unfold leave, leave_failed, leave_connected,
      deferred_removals, last_words. destruct (established s), cl, cleanup; cbn; set_solver. }
  split.
  - rewrite Hc. apply kept_all; try (apply Hrem; auto).
    intros z Hz Hin%Hrem. destruct foreign_c as [_ Hf]. destruct (Hf z Hz). tauto.
  - rewrite Hh. apply kept_all; try (apply Hrem; auto).
    intros z Hz Hin%Hrem. destruct foreign_h as [_ Hf]. destruct (Hf z Hz). tauto.
Qed.

(** C8.  However the launcher ends, cancelled, refused by the Hub or connected
    and stopped, and however the Hub connects, is lost and comes back meanwhile, it
    ends the same way: its four listeners are removed from the two clients and no
    other one is, its router is stopped once, and then the closed status is sent,
    the cache closed, the cleaner run if there is one, and done signalled, once and
    in this order.  A launcher that was connected has then disconnected the Hub: the
    client is neither wanted nor connected, and no reconnection is under way; and it
    has disconnected the cloud client for good, unless a notification that the Hub is
    there had taken the listeners and was yet to call connHandler when it did.  Stop
    returns only after all of this, and neither channel ever needs more room than
    it has. *)
Theorem launcher_teardown s :
  reachable s →
  (signals s <= 2)%nat ∧ (dones s <= 2)%nat ∧
  (stopper s = StopReturned → pc s = Leaving []) ∧
  (pc s = Leaving [] →
     listenersRef (cloud (clients s)) = listenersRef c ∧
     listenersRef (hono (clients s)) = listenersRef h ∧
     (∃ before, log s = SendDone :: match cleanup with Some _ => [RunCleanup] | None => [] end
          ++ CloseCache :: SendClosedStatus :: before ∧
        times StopRouter before = 1%nat ∧
        Forall (λ a, a ∉ before) [SendClosedStatus; CloseCache; RunCleanup; SendDone]) ∧
     (established s = true →
        running (hono (clients s)) = false ∧ hono_up (clients s) = false ∧
        (Dialing ∉ inflight (clients s)) ∧
        (raced s = false → running (cloud (clients s)) = false))).
Proof.
  intros Hi%life_inv_reachable. pose proof Hi as [_ _ Hl Hd Hs _ Hgc Hgh Hcl]. split_and!.
  - destruct (pc s), (stopper s); destruct_and?; lia.
  - destruct (stopper s), (bool_decide _); lia.
  - intros Hst. rewrite Hst in Hd. case_bool_decide as Hin; [|lia].
    destruct (pc s) as [|r| | |todo] eqn:E.
    1-4: destruct Hl as [_ Hl]; rewrite Hl in Hin; by apply not_elem_of_nil in Hin.
    by rewrite (done_is_last s todo Hi E Hin).
  - intros Hpc. destruct (removed_at_end s Hi Hpc) as [Hrc Hrh].
    split; [done|]. split; [done|]. split; [by apply log_at_end|]. intros He.
    rewrite Hpc, app_nil_r, He in Hl.
    assert (∀ a, a ∈ leave_connected → a ∈ log s) as Hlog
      by (intros a; by rewrite <-(elem_of_log a (log s)), Hl).
    unfold leave_connected in Hlog.
    destruct Hcl as [Hup Hdial]; [apply Hlog; set_solver|].
    split; [apply Hgh, Hlog; set_solver|]. split; [done|]. split; [done|].
    intros Hrace. apply Hgc; [apply Hlog; set_solver|done].
Qed.

(** ** Stop returns *)

(** The own steps that are left once Stop has been called. *)
Definition own_left (s : life) : nat :=
  match pc s with
  | WaitRunning | Attempting _ => 18
  | BackingOff | Connected => 17
  | Leaving todo => length todo
  end + match stopper s with StopReturned => 0 | _ => 1 end.

Lemma leave_short : (length leave_failed <= 16)%nat ∧ (length leave_connected <= 16)%nat.
Proof.
  unfold leave_failed, leave_connected, deferred_removals, last_words. destruct cleanup; cbn; lia.
Qed.

Definition cost (k : kind) : nat := match k with Own => 1 | _ => 0 end.

Definition stopping (s : life) : Prop := life_inv s ∧ stopper s ≠ NotStopped.

Lemma stopping_step k s s' : stopping s → life_step k s s' → stopping s'.
Proof.
  intros [Hi Hst] Hstep. split; [eapply life_inv_step; [done|by eexists]|].
  destruct Hstep as [| |s r| | | |s err| | | | | | |]; cbn; try done.
  unfold after_error. destruct (StatusCause err) as [cause retry].
  by destruct retry; [|destruct (auth_error err); [destruct (_ =? _)%Z|]].
Qed.

#[local] Opaque leave_failed leave_connected.

Lemma own_left_step k s s' :
  stopping s → life_step k s s' → (own_left s' + cost k <= own_left s)%nat.
Proof.
  intros [Hi Hns] Hstep. pose proof leave_short as [Hf Hc]. pose proof (li_signals s Hi) as Hsig.
  destruct Hstep as [s Hpc|s r Hpc|s r todo Hpc Hpend|s Hup|s l1 nt l2 ns n Hin Hn|s Hpc|s err Hpc
    |s r Hpc Hpos|s Hpc Hpos|s Hpc Hno|s Hpc Hpos|s a todo Hpc Hready|s Hst Hroom|s Hst Hdn];
    unfold own_left; cbn [cost]; try rewrite Hpc in *; try rewrite Hst in *;
    cbn [pc stopper set_pc set_net start_attempt answer establish take_signal perform length];
    rewrite ?Hpc; try lia.
  - unfold after_error. destruct (StatusCause err) as [cause retry].
    destruct retry; [|destruct (auth_error err); [destruct (_ =? _)%Z|]]; cbn; lia.
  - destruct (stopper s); [done|lia|lia].
Qed.

#[local] Transparent leave_failed leave_connected.

(** The goroutines of the Hub client that a Disconnect waits for: what they have
    left to do while the connection is not wanted and the listeners stay. *)
Definition note_left (n : nat) (nt : note) : nat :=
  match nt with
  | ConnectedStart => n + 3
  | ConnectedIn => n + 2
  | Lost => n + 3
  | Calling AfterConnect ls => length ls + 1
  | Calling _ ls => length ls + 2
  | Retrying => 1
  | Dialing => 2 * n + 8
  end.

Definition client_left (n : net) : nat :=
  sum_list_with (note_left (length (listenersRef (hono n)))) (inflight n)
  + if hono_up n then length (listenersRef (hono n)) + 4 else 0.

Lemma note_step_left n nt ns n' l1 l2 :
  inflight n = l1 ++ nt :: l2 → running (hono n) = false → note_step n nt ns n' →
  (client_left (set_inflight n' (l1 ++ ns ++ l2)) + 1 <= client_left n)%nat.
Proof.
  intros Hin Hrun Hstep.
  destruct (note_step_effect _ _ _ _ Hstep) as (_ & Hho & _).
  unfold client_left. rewrite Hin. cbn [set_inflight hono inflight hono_up]. rewrite Hho.
  rewrite !sum_list_with_app. cbn [sum_list_with].
  assert (∀ why l, hono_up (call_listener why l n) = hono_up n) as Hcall.
  { intros why l. unfold call_listener. case_decide; [by destruct why|done]. }
  destruct Hstep as [| | |why l ls| | |Hr|Hr| |err He|err He| |];
    rewrite ?Hcall; cbn [sum_list_with note_left length set_up hono_up]; try lia.
  - destruct why; cbn [length]; lia.
  - destruct (existsb reconnects (inflight n)); cbn [sum_list_with note_left length]; lia.
  - congruence.
Qed.

(** Disconnect of the Hub client waits. *)
Definition awaiting (s : life) : Prop := stopping s ∧ ∃ todo, pc s = Leaving (CloseHub :: todo).

Lemma awaiting_stopped s :
  awaiting s → established s = true ∧ running (hono (clients s)) = false.
Proof.
  intros [[Hi _] [todo Hpc]]. pose proof (li_log s Hi) as Hl. rewrite Hpc in Hl.
  destruct (established s).
  - split; [done|]. apply (li_hub_stopped s Hi).
    assert (rev (CloseHub :: log s) ++ todo = leave_connected) as Hl'
      by (cbn [rev]; by rewrite <-app_assoc).
    apply stopped_before in Hl'; [set_solver|by left].
  - exfalso. assert (CloseHub ∈ leave_failed) as [_ ?]%failed_keeps_clients; [|done].
    change leave_failed with (leave false). rewrite <-Hl. apply elem_of_app. right. by left.
Qed.

Lemma awaiting_step k s s' :
  k ≠ Own → awaiting s → life_step k s s' →
  awaiting s' ∧ (client_left (clients s') + 1 <= client_left (clients s))%nat.
Proof.
  intros Hk Hw Hstep. destruct (awaiting_stopped s Hw) as [He Hrun].
  destruct Hw as [Hs [todo Hpc]]. pose proof (stopping_step _ _ _ Hs Hstep) as Hs'.
  destruct Hs as [Hi Hns]. pose proof (li_pending s Hi) as Hp.
  destruct Hstep as [s Hpc'|s r Hpc'|s r todo' Hpc' Hpend|s Hup|s l1 nt l2 ns n Hin Hn|s Hpc'
    |s err Hpc'|s r Hpc' Hpos|s Hpc' Hpos|s Hpc' Hno|s Hpc' Hpos|s a todo' Hpc' Hready
    |s Hst Hroom|s Hst Hdn]; try congruence.
  - rewrite Hpc in Hp. specialize (Hp Hpend). congruence.
  - split; [split; [done|by exists todo]|]. unfold client_left. cbn. rewrite Hup.
    rewrite sum_list_with_app. cbn. lia.
  - split; [split; [done|by exists todo]|]. by apply (note_step_left _ nt).
Qed.
Lemma awaiting_bound ks s s' :
  awaiting s → labelled_run life_step ks s s' → Own ∉ ks →
  (length ks <= client_left (clients s))%nat.
Proof.
  intros Hw Hrun. induction Hrun as [s|k ks s1 s2 s3 Hstep Hrun IH]; intros Hks; [cbn; lia|].
  apply not_elem_of_cons in Hks as [Hk Hks].
  destruct (awaiting_step k s1 s2) as [Hw2 Hless]; [congruence|done..|].
  specialize (IH Hw2 Hks). cbn [length]. lia.
Qed.

(** A goroutine in the group of a connection that is not wanted goes on. *)
Lemma client_progress s :
  existsb in_group (inflight (clients s)) = true →
  ∃ s', life_step Client s s'.
Proof.
  intros (nt & Hin & Hgroup)%existsb_exists. rewrite <-list_elem_of_In in Hin.
  apply list_elem_of_split in Hin as (l1 & l2 & Hin).
  assert (∃ ns n, note_step (clients s) nt ns n) as (ns & n & Hn);
    [|eexists; by apply (st_client s l1 nt l2 ns n)].
  destruct nt as [| | |[] [|l ls]| |]; try done; eauto using note_step.
  destruct (running (hono (clients s))) eqn:E; eauto using note_step.
Qed.

(** Until Stop has returned its launcher goes on, unless it waits for the router or
    for the Hub client. *)
Lemma stop_progress s :
  life_inv s → stopper s = StopSent →
  pc s = WaitRunning ∨ (∃ s', life_step Own s s') ∨
  (∃ todo, pc s = Leaving (CloseHub :: todo)) ∧ ∃ s', life_step Client s s'.
Proof.
  intros Hi Hst. pose proof Hi as [_ _ Hl Hd Hs _ _ _ _]. rewrite Hst in *.
  destruct (pc s) as [|r| | |[|a todo]] eqn:Hpc; [by left|right; left..| |].
  - eexists. apply (st_cancel_attempt s r); [done|lia].
  - eexists. apply st_cancel_wait; [done|lia].
  - eexists. apply st_signal; [done|lia].
  - right. left. eexists. apply st_stopped; [done|].
    rewrite app_nil_r in Hl.
    assert (SendDone ∈ log s) as Hin.
    { rewrite <-elem_of_log, Hl. destruct (leave_ends (established s)) as (pre & -> & _).
      apply elem_of_app. right. by left. }
    rewrite bool_decide_eq_true_2 in Hd by done. lia.
  - destruct (existsb in_group (inflight (clients s))) eqn:E.
    + destruct (decide (a = CloseHub)) as [->|Hne].
      { right. right. split; [eauto|]. by apply client_progress. }
      right. left. eexists. apply (st_leave s a todo); [done|].
      destruct a; try done. cbn. destruct (bool_decide _); lia.
    + right. left. eexists. apply (st_leave s a todo); [done|].
      destruct a; try done. cbn. destruct (bool_decide _); lia.
Qed.

(** C15.  Once Stop has been called it returns.  In every run that goes on from
    there the goroutine of the launcher and Stop take at most 19 steps, new
    connection attempts among them, whatever the Hub and its client do.  And until
    Stop has returned one of them can take its next step without the help of the
    Hub, except in two places: the launcher waits for its router to run, or the
    Disconnect of the Hub client waits for goroutines of this client, one of which
    can take a step then, and all of which are through after a bounded number of
    steps, in which the launcher need not do anything. *)
Theorem Stop_returns s ks s' :
  reachable s → stopper s ≠ NotStopped → labelled_run life_step ks s s' →
  (sum_list_with cost ks <= 19)%nat ∧
  (stopper s' = StopReturned ∨ pc s' = WaitRunning ∨ (∃ s'', life_step Own s' s'') ∨
   (∃ todo, pc s' = Leaving (CloseHub :: todo)) ∧ (∃ s'', life_step Client s' s'') ∧
   ∃ bound : nat, ∀ ks' s'', labelled_run life_step ks' s' s'' → Own ∉ ks' →
     (length ks' <= bound)%nat).
Proof.
  intros Hi%life_inv_reachable Hst Hrun. assert (stopping s) as Hs by by split.
  assert (stopping s') as Hs'.
  { refine (labelled_run_preserved _ (λ _, True) stopping ks s s' _ _ Hrun Hs);
      [intros k s1 s2 _; apply stopping_step|by apply Forall_true]. }
  assert (own_left s <= 19)%nat as Hbound.
  { pose proof leave_short as [Hf Hc]. pose proof (li_log s Hi) as Hl. unfold own_left.
    destruct (pc s) as [| | | |todo]; try (destruct (stopper s); lia).
    apply (f_equal length) in Hl. rewrite length_app in Hl. unfold leave in Hl.
    destruct (established s), (stopper s); lia. }
  split.
  - pose proof (labelled_run_measure life_step (λ _, True) stopping own_left cost (λ _, 0%nat)
      ks s s' (λ k s1 s2 _, stopping_step k s1 s2)) as Hm.
    assert (∀ l : list kind, sum_list_with (λ _, 0%nat) l = 0%nat) as Hz by (by induction l).
    rewrite Hz in Hm. specialize (Hm ltac:(intros k s1 s2 _ H1 H2;
      pose proof (own_left_step k s1 s2 H1 H2); lia) ltac:(by apply Forall_true) Hrun Hs). lia.
  - destruct Hs' as [Hi' Hst']. destruct (stopper s') eqn:E; [done| |by left].
    destruct (stop_progress s' Hi' E) as [?|[?|[Hpc Hclient]]]; [auto..|].
    right. right. right. split; [done|]. split; [done|].
    exists (client_left (clients s')). intros ks' s'' Hrun' Hown.
    apply (awaiting_bound ks' s' s''); try done. split; [|done]. split; [done|by rewrite E].
Qed.
End reachability.
End life.

(** ** Examples *)

Definition sample_client : MQTTConnection tls_Config :=
  let cfg := MkConfiguration "mqtts://hub:8883" false false connectTimeout keepAliveTimeout 0
    true 5 (Finite (QArith_base.Qmake 2 1)) Minute Minute (MkCredentials "" "") "" "" QosAtMostOnce false None in
  MkConnection cfg "id" (initMQTTClient cfg "id" None) ∅ 0 ∅ None None false false [].

Lemma sample_client_foreign : foreign (listenersRef sample_client).
Proof.
  split; [apply NoDup_nil_2|]. intros x Hx. by apply not_elem_of_nil in Hx.
Qed.

#[local] Abbreviation sample_life := (life_system 5 None sample_client sample_client).

Lemma sample_step k (s s' : life) :
  life_step 5 None k s s' → ts_step (TransitionSystem:=sample_life) s s'.
Proof. intros Hs. by exists k. Qed.

(** Take one more step of a run: any, one of the only goroutine of the Hub client,
    some actions of leaving. *)
Ltac run_step step := eapply rtc_l; [eapply sample_step; step|].
Ltac run_note note :=
  run_step ltac:(eapply (st_client _ _ _ []); [reflexivity|eapply note; reflexivity]).
Tactic Notation "run_leave" int_or_var(n) :=
  do n (run_step ltac:(eapply st_leave; [reflexivity|vm_compute; first [exact I|reflexivity|lia]])).

(** A launcher that is stopped while its first connection attempt is answered:
    both cases of the select are ready, and the signal is taken.  Stop returns, and
    both clients are still connected. *)
Lemma cancelled_connect_leaks :
  ∃ s, reachable (H:=sample_life) s ∧ stopper s = StopReturned ∧
    hono_up (clients s) = true ∧ running (hono (clients s)) = true ∧
    running (cloud (clients s)) = true.
Proof.
  eexists. split.
  { eexists. split; [reflexivity|].
    run_step ltac:(apply st_running; reflexivity).
    run_step ltac:(apply (st_answer _ _ _ None); reflexivity).
    run_note nt_join. run_note nt_connected. run_note nt_call.
    run_step ltac:(apply st_stop; [reflexivity|cbn; lia]).
    run_step ltac:(eapply st_cancel_attempt; [reflexivity|cbn; lia]).
    run_leave 8.
    run_step ltac:(apply st_stopped; [reflexivity|vm_compute; lia]).
    apply rtc_refl. }
  vm_compute. split_and!; reflexivity.
Qed.

(** A connected launcher that is stopped while the notification that the Hub is
    there has taken the listeners: connHandler connects the cloud client after the
    launcher has disconnected it, and nobody disconnects it again.  Stop returns
    with the cloud client connected and the Hub client not. *)
Lemma late_notification_leaks :
  ∃ s, reachable (H:=sample_life) s ∧ stopper s = StopReturned ∧
    established s = true ∧ raced s = true ∧
    running (cloud (clients s)) = true ∧ running (hono (clients s)) = false ∧
    inflight (clients s) = [].
Proof.
  eexists. split.
  { eexists. split; [reflexivity|].
    run_step ltac:(apply st_running; reflexivity).
    run_step ltac:(apply (st_answer _ _ _ None); reflexivity).
    run_note nt_join. run_note nt_connected.
    run_step ltac:(apply st_connected; reflexivity).
    run_step ltac:(apply st_stop; [reflexivity|cbn; lia]).
    run_step ltac:(eapply st_signal; [reflexivity|cbn; lia]).
    run_leave 5.
    run_note nt_call. run_note nt_call. run_note nt_connected_end.
    run_leave 10.
    run_step ltac:(apply st_stopped; [reflexivity|vm_compute; lia]).
    apply rtc_refl. }
  vm_compute. split_and!; reflexivity.
Qed.

Lemma launcher_teardown_witness :
  ∃ s, reachable (H:=sample_life) s ∧ stopper s = StopReturned ∧ pc s = Leaving [] ∧
    listenersRef (cloud (clients s)) = [] ∧ listenersRef (hono (clients s)) = [] ∧
    hono_up (clients s) = false ∧ head (log s) = Some SendDone.
Proof.
  destruct late_notification_leaks as (s & Hr & Hst & He & _).
  destruct (launcher_teardown 5 None sample_client sample_client sample_client_foreign
    sample_client_foreign s Hr) as (_ & _ & Hret & Hend).
  destruct (Hend (Hret Hst)) as (Hc & Hh & (before & Hlog & _) & Hgone).
  destruct (Hgone He) as (_ & Hup & _).
  exists s. split; [exact Hr|]. split; [exact Hst|]. split; [exact (Hret Hst)|].
  split; [exact Hc|]. split; [exact Hh|]. split; [exact Hup|]. rewrite Hlog. reflexivity.
Defined.

(** Stop was called while the first attempt waits for its answer. *)
Definition stopped_early : life :=
  let s := start_attempt (set_net (newLauncher sample_client sample_client)
    (add_listeners (MkNet sample_client sample_client false false []))) in
  MkLife (pc s) (retries s) 1 0 StopSent (clients s) (log s) false false.

Lemma stopped_early_reachable : reachable (H:=sample_life) stopped_early.
Proof.
  eexists. split; [reflexivity|].
  run_step ltac:(apply st_running; reflexivity).
  run_step ltac:(apply st_stop; [reflexivity|cbn; lia]).
  apply rtc_refl.
Qed.

Lemma Stop_returns_witness :
  ∃ s'', life_step 5 None Own stopped_early s''.
Proof.
  destruct (Stop_returns 5 None sample_client sample_client sample_client_foreign
    sample_client_foreign stopped_early [] stopped_early stopped_early_reachable)
    as [_ [H|[H|[H|[[todo H] _]]]]].
  - discriminate.
  - apply run_nil.
  - discriminate H.
  - discriminate H.
  - exact H.
  - discriminate H.
Defined.
