(* ===== verification/Bridge.v ===== *)
(** * The bridge: the routes of a launch together

    launcher.go adds five routes to its router.  Each takes the messages that one
    of the two brokers delivers to its subscription and publishes what its handler
    answers to one of them.  Here the buses of routing/ are composed the way Run
    composes them, to state what holds of the routes together. *)

From S2P Require Import Prelude GoStrings Util ContainerHeap Cache Message Commands Events.
From S2P Require Import Service Publisher LogHandler Launcher.

Local Open Scope Z_scope.

#[export] Instance topic_form_eq_dec : EqDecision topic_form.
Proof. solve_decision. Defined.

(** The two brokers: Mosquitto, reached by the local and the cloud client, and the
    Hub. *)
Inductive broker := LocalBroker | HubBroker.

#[export] Instance broker_eq_dec : EqDecision broker.
Proof. solve_decision. Defined.

(** Whose subscriber and whose publisher Run hands to the bus. *)
Definition route_from (r : route_bus) : broker :=
  match r with CommandsReqRoute _ _ _ => HubBroker | _ => LocalBroker end.

Definition route_to (r : route_bus) : broker :=
  match r with
  | ParamsRoute _ | CommandsReqRoute _ _ _ => LocalBroker
  | EventsRoute _ _ _ | TelemetryRoute _ _ _ | CommandsResRoute _ _ _ => HubBroker
  end.

Section bridge.
Context `{RequestCache C}.
Variable unmarshal : string → result headers.
Variable SetBytes : string → string → Z → result string.
Variable json_string : string → string.
(** The three environment variables with prefixes of topics of the Hub. *)
Variable commands_prefix events_prefix telemetry_prefix : string.
Implicit Types (c : C) (msg : message) (r : route_bus).

(** The handler of a route, with the clock, a fresh identifier and the cache of
    the launch at hand. *)
Definition handler : Type :=
  C → Z → string → message → C * outcome (result (list message)).

Definition route r : bus handler :=
  match r with
  | ParamsRoute p =>
      let b := ParamsBus json_string p in
      Bus (bus_name b) (bus_subscribe b) (bus_publish b)
        (λ c now uuid msg, (c, Done (bus_handler b uuid msg)))
  | EventsRoute t d generic =>
      let b := EventsBus SetBytes 0 events_prefix t d generic in
      Bus (bus_name b) (bus_subscribe b) (bus_publish b)
        (λ c now uuid msg,
           (c, bus_handler (EventsBus SetBytes now events_prefix t d generic) msg))
  | TelemetryRoute t d generic =>
      let b := TelemetryBus telemetry_prefix t d generic in
      Bus (bus_name b) (bus_subscribe b) (bus_publish b)
        (λ c now uuid msg, (c, bus_handler b msg))
  | CommandsResRoute t d generic =>
      let b := CommandsResBus unmarshal commands_prefix t d generic in
      Bus (bus_name b) (bus_subscribe b) (bus_publish b)
        (λ c now uuid msg, bus_handler b c msg)
  | CommandsReqRoute t d generic =>
      let b := CommandsReqBus unmarshal t d generic in
      Bus (bus_name b) (bus_subscribe b) (bus_publish b)
        (λ c now uuid msg, bus_handler b c now msg)
  end.

(** The filters of a bus, as the subscriber sends them. *)
Definition subscribed (topics topic : string) : bool :=
  existsb (λ filter, filter_matches filter topic) (parseSubs topics).

(** The topics of what a route publishes for a message: the router hands the
    answers of the handler to the publisher of the route. *)
Definition route_topics r c (now : Z) (uuid : string) msg : list string :=
  match (bus_handler (route r) c now uuid msg).2 with
  | Done (Ok msgs) =>
      map (λ m, pc_topic (packet (NewPublisher QosAtLeastOnce) (bus_publish (route r)) m
                            (Payload m))) msgs
  | _ => []
  end.
End bridge.

(** ** Filters *)

(** A literal level of a filter is found in every topic it matches. *)
Lemma segments_match_level n s filter topic :
  s ≠ "+" → s ≠ "#" → filter !! n = Some s → segments_match filter topic = true →
  topic !! n = Some s.
Proof.
  intros Hp Hh. revert n topic.
  induction filter as [|f filter IH]; intros n topic Hn; [done|]. cbn [segments_match].
  destruct (decide (f = "#" ∧ filter = [])) as [[-> ->]|_].
  { destruct n; cbn in Hn; simplify_eq. }
  destruct topic as [|seg topic]; [done|].
  intros [Hlevel Hm]%andb_true_iff. destruct n as [|n]; cbn in Hn |- *; [|by apply IH].
  apply orb_true_iff in Hlevel as [E|E]; apply bool_decide_eq_true in E; congruence.
Qed.

(** A filter does not match a topic that differs in a literal level. *)
Lemma filter_mismatch n s filter topic :
  s ≠ "+" → s ≠ "#" → Split filter slash !! n = Some s →
  Split topic slash !! n ≠ Some s → filter_matches filter topic = false.
Proof.
  intros Hp Hh Hf Ht. unfold filter_matches. destruct (segments_match _ _) eqn:E; [|done].
  by eapply segments_match_level in E.
Qed.

(** ** Bytes *)

(** No wildcard in it: the text of a topic, not of a filter. *)
Definition wildcard_free (s : string) : Prop :=
  byte_free "+" s = true ∧ byte_free "#" s = true.

Lemma wildcard_free_app a b :
  wildcard_free (a +:+ b) ↔ wildcard_free a ∧ wildcard_free b.
Proof. unfold wildcard_free. rewrite !byte_free_app, !andb_true_iff. naive_solver. Qed.

Lemma byte_free_Split c s sep :
  byte_free c s = true → Forall (λ seg, byte_free c seg = true) (Split s sep).
Proof.
  induction s as [|b s IH]; cbn [Split byte_free]; intros Hc; [by repeat constructor|].
  bools. specialize (IH ltac:(assumption)).
  assert (negb (Ascii.eqb b c) = true) as Hb by (by apply negb_true_iff).
  destruct (Ascii.eqb b sep); [by constructor|]. pose proof (Split_nonempty s sep).
  destruct (Split s sep) as [|seg segs]; [done|]. inversion_clear IH.
  constructor; [|done]. cbn. by apply andb_true_iff.
Qed.

Lemma wildcard_free_Split s n : wildcard_free s → wildcard_free (nth n (Split s slash) "").
Proof.
  intros [Hp Hh]. apply (byte_free_Split _ _ slash) in Hp. apply (byte_free_Split _ _ slash) in Hh.
  destruct (nth_in_or_default n (Split s slash) "") as [Hin| ->]; [|done].
  rewrite !Forall_forall in *. apply list_elem_of_In in Hin. split; [by apply Hp|by apply Hh].
Qed.

Lemma wildcard_free_Join l : Forall wildcard_free l → wildcard_free (Join l "/").
Proof.
  induction 1 as [|s l Hs Hl IH]; [done|]. destruct l as [|s' l]; [done|].
  rewrite Join_cons by done. rewrite !wildcard_free_app. done.
Qed.

(** What a slice of a string is made of. *)
Lemma byte_free_slice c s lo hi t :
  byte_free c s = true → slice s lo hi = Done t → byte_free c t = true.
Proof.
  intros Hs. unfold slice. destruct (_ && _ && _); [|done]. intros [= <-].
  rewrite <-(take_drop_bytes (Z.to_nat lo) s), byte_free_app in Hs. bools.
  match goal with H : byte_free c (drop_bytes _ _) = true |- _ =>
    rewrite <-(take_drop_bytes (Z.to_nat (hi - lo)) (drop_bytes _ _)), byte_free_app in H end.
  bools. done.
Qed.

Lemma byte_free_strip c g d t :
  byte_free c d = true → stripGatewayID g d = Done (Ok t) → byte_free c t = true.
Proof.
  intros Hd. unfold stripGatewayID. destruct (HasPrefix d g); [|done].
  destruct (_ <=? _); [by intros [= <-]|]. unfold slice_from.
  destruct (slice d _ _) as [u| |] eqn:E; cbn; [|done..]. intros [= <-].
  by eapply byte_free_slice.
Qed.

(** ** What the routes publish *)

(** An id that is one literal level of the filters of a launch. *)
Definition plain_id (s : string) : Prop := plain_level s ∧ byte_free "," s = true.

Section topics.
Context `{RequestCache C}.
Variable unmarshal : string → result headers.
Variable SetBytes : string → string → Z → result string.
Variable json_string : string → string.
Variable commands_prefix events_prefix telemetry_prefix : string.
Implicit Types (c : C) (msg : message) (r : route_bus).

(** Events and telemetry: the completed topic, after the prefix. *)
Lemma event_topics h msg topic msgs m :
  TopicFromCtx (Context msg) = Some topic →
  HandleEvent h msg = Done (Ok msgs) → m ∈ msgs →
  ∃ kind levels, (kind = "event" ∨ kind = "telemetry") ∧
    TopicFromCtx (Context m) =
      Some ((if ev_generic h && (0 <? slen (ev_prefix h)) then ev_prefix h +:+ "/" else "")
            +:+ Join (kind :: levels) "/") ∧ levels ≠ [] ∧
    (wildcard_free topic → wildcard_free (ev_tenantID h) → wildcard_free (ev_deviceID h) →
     Forall wildcard_free levels).
Proof.
  intros Hctx. rewrite (HandleEvent_segments h msg topic Hctx).
  unfold complete_segments. cbv zeta.
  set (ten := default_segment _ _). set (dev := default_segment _ _).
  assert (wildcard_free topic → wildcard_free (ev_tenantID h) → wildcard_free ten) as Hten.
  { intros Ht Hd. subst ten. unfold default_segment. case_decide; [done|].
    by apply wildcard_free_Split. }
  assert (wildcard_free topic → wildcard_free (ev_deviceID h) → wildcard_free dev) as Hdev.
  { intros Ht Hd. subst dev. unfold default_segment. case_decide; [done|].
    by apply wildcard_free_Split. }
  assert (wildcard_free topic → Forall wildcard_free (drop 3 (Split topic slash))) as Hrest.
  { intros [Hp Hh]. apply Forall_drop. apply (byte_free_Split _ _ slash) in Hp, Hh.
    rewrite !Forall_forall in *. split; auto. }
  assert (message_kind (Split topic slash) = "event" ∨
    message_kind (Split topic slash) = "telemetry") as Hkind.
  { unfold message_kind. case_decide; auto. }
  destruct (ev_generic h); cbn [andb].
  - destruct (stripGatewayID (ev_deviceID h) dev) as [[id|e]| |] eqn:Estrip; cbn [mbind outcome_bind];
      [|done..].
    intros [= <-] ->%list_elem_of_singleton.
    exists (message_kind (Split topic slash)),
      (ten :: ev_deviceID h :: id :: drop 3 (Split topic slash)).
    split; [exact Hkind|]. split; [reflexivity|]. split; [done|]. intros Ht Ht1 Ht2. rewrite !Forall_cons.
    split; [by apply Hten|]. split; [done|]. split; [|by apply Hrest].
    destruct (Hdev Ht Ht2). split; by eapply byte_free_strip.
  - intros [= <-] ->%list_elem_of_singleton.
    exists (message_kind (Split topic slash)), (ten :: dev :: drop 3 (Split topic slash)).
    split; [exact Hkind|]. split; [reflexivity|]. split; [done|]. auto.
Qed.

Lemma parseSubs_single filter : byte_free "," filter = true → parseSubs filter = [filter].
Proof. apply Split_free. Qed.

(** Requests: both spellings of the local topic. *)
Lemma request_topics tenant device (generic : bool) c now msg topic c' msgs m :
  plain_id tenant → plain_id device →
  let b := CommandsReqBus (C:=C) unmarshal tenant device generic in
  subscribed (bus_subscribe b) topic = true →
  TopicFromCtx (Context msg) = Some topic →
  bus_handler b c now msg = (c', Done (Ok msgs)) → m ∈ msgs →
  ∃ id rest, byte_free slash id = true ∧
    topic = cloud_topic generic tenant device id "req" rest ∧
    (TopicFromCtx (Context m) = Some (local_topic Long (local_id generic device id) "req" rest) ∨
     TopicFromCtx (Context m) = Some (local_topic Short (local_id generic device id) "q" rest)).
Proof.
  intros [Ht Htc] [Hd Hdc] b Hsub Hctx. subst b. unfold subscribed in Hsub.
  rewrite parseSubs_single in Hsub.
  2:{ cbn [CommandsReqBus bus_subscribe]. destruct generic; [|done].
      rewrite !byte_free_app. by rewrite Htc, Hdc. }
  cbn [existsb] in Hsub. rewrite orb_false_r in Hsub.
  destruct (request_filter_topics _ _ _ _ _ Ht Hd Hsub) as (id & Hid & Hcase).
  destruct Ht as [Ht _], Hd as [Hd _].
  cbn [CommandsReqBus bus_handler]. unfold NewCommandRequestHandler, HandleRequest. rewrite Hctx.
  destruct (unmarshal (Payload msg)) as [command|e]; [|done].
  destruct (remember c now command) as [c1| |]; [|done..]. intros [= <- Hfwd] Hm.
  exists id. destruct Hcase as [[_ Htop]|[_ [rest Htop]]].
  - by rewrite (forward_request_cut tenant device generic id) in Hfwd.
  - destruct (forward_request_spec tenant device generic id rest msg topic)
      as (m1 & m2 & Hspec & H1 & H2 & _); [done..|].
    rewrite Hspec in Hfwd. simplify_eq. exists rest. split; [done|]. split; [done|].
    apply elem_of_cons in Hm as [->|Hm]; [by left|].
    apply list_elem_of_singleton in Hm as ->. by right.
Qed.

(** The topics that the subscription of the responses delivers. *)
Lemma response_filter_topics topic :
  subscribed TopicCommandResponse topic = true →
  ∃ f id, byte_free slash id = true ∧
    (topic = cmd_topic f id (response_type f) ∨
     ∃ rest, topic = local_topic f id (response_type f) rest).
Proof.
  intros Hsub.
  assert (∃ f, segments_match [match f with Long => "command" | Short => "c" end; ""; "+";
    response_type f; "#"] (Split topic slash) = true) as [f Hm].
  { apply orb_true_iff in Hsub as [Hsub|Hsub]; [by exists Long|].
    apply orb_true_iff in Hsub as [Hsub|Hsub]; [by exists Short|done]. }
  pose proof (Join_Split topic slash) as Htopic.
  pose proof (Split_segments_free topic slash) as Hfree.
  apply segments_match_plain in Hm as (? & Hs & Hm); [|by destruct f..]. rewrite Hs in *.
  apply segments_match_plain in Hm as (? & -> & Hm); [|done..].
  apply segments_match_plus in Hm as (id & ? & -> & Hm); [|done].
  apply segments_match_plain in Hm as (rest & -> & Hm); [|by destruct f..].
  exists f, id. split.
  { rewrite Forall_forall in Hfree. apply Hfree. do 2 right. by left. }
  destruct rest as [|seg rest]; [left|right; exists (Join (seg :: rest) "/")];
    rewrite <-Htopic; by destruct f.
Qed.

(** Responses: the topic of the Hub, after the prefix. *)
Lemma response_topics tenant device (generic : bool) c msg topic c' msgs m :
  let b := CommandsResBus (C:=C) unmarshal commands_prefix tenant device generic in
  subscribed (bus_subscribe b) topic = true →
  TopicFromCtx (Context msg) = Some topic →
  bus_handler b c msg = (c', Done (Ok msgs)) → m ∈ msgs →
  ∃ id rest, byte_free slash id = true ∧
    (wildcard_free topic → wildcard_free id ∧ wildcard_free rest) ∧
    TopicFromCtx (Context m) =
      Some ((if generic && (0 <? slen commands_prefix) then commands_prefix +:+ "/" else "")
            +:+ cloud_topic generic tenant device id "res" rest).
Proof.
  intros b Hsub Hctx. subst b. cbn [CommandsResBus bus_subscribe bus_handler] in *.
  unfold NewCommandResponseHandler, HandleResponse. rewrite Hctx.
  destruct (unmarshal (Payload msg)) as [command|e]; [|done].
  destruct (CorrelationID command) as [k| |]; [|done..].
  destruct (rc_remove c k) as [[c1 [|]]| |]; [|by intros [= <- <-] ?%not_elem_of_nil|done..].
  intros [= <- Hfwd] Hm.
  destruct (response_filter_topics topic Hsub) as (f & id & Hid & [Htop|[rest Htop]]).
  { unfold forward_response in Hfwd. rewrite Htop, ParseCmdTopic_cut in Hfwd; [done..|].
    by destruct f. }
  unfold forward_response in Hfwd. cbn [res_generic res_prefix res_tenantID res_deviceID] in Hfwd.
  rewrite Htop in Hfwd. unfold local_topic in Hfwd.
  rewrite (bind_done (response_type f, id, rest)) in Hfwd
    by (apply ParseCmdTopic_parts; [done|by destruct f]).
  assert (wildcard_free topic → wildcard_free id ∧ wildcard_free rest) as Hwild.
  { rewrite Htop. unfold local_topic, cmd_topic.
    change (String slash ?x) with ("/" +:+ x). rewrite !wildcard_free_app. tauto. }
  destruct generic; cbn [andb] in *.
  - destruct (stripGatewayID device id) as [[id'|e]| |] eqn:Estrip; cbn [mbind outcome_bind] in Hfwd;
      [|done..].
    injection Hfwd as <-. apply list_elem_of_singleton in Hm as ->.
    exists id', rest. split; [by eapply byte_free_strip|]. split.
    { intros Hw. destruct (Hwild Hw) as [[Hi1 Hi2] Hr]. split; [|done].
      split; by eapply byte_free_strip. }
    cbn [Context SetContext]. rewrite TopicFromCtx_set. unfold cloud_topic.
    rewrite !sapp_assoc. cbn. by rewrite ?sapp_assoc.
  - cbn [mbind outcome_bind] in Hfwd. injection Hfwd as <-.
    apply list_elem_of_singleton in Hm as ->. exists id, rest. split; [done|]. split; [done|].
    cbn [Context SetContext]. rewrite TopicFromCtx_set. unfold cloud_topic.
    done.
Qed.

(** The topics that the routes of a launch publish, by the broker they go to. *)
Inductive published (tenant device : string) (generic : bool) (topic : string)
    : broker → string → Prop :=
  | pub_params : published tenant device generic topic LocalBroker TopicGwParamsResponse
  | pub_request f id rest :
      byte_free slash id = true → topic = cloud_topic generic tenant device id "req" rest →
      published tenant device generic topic LocalBroker
        (local_topic f (local_id generic device id) (request_type f) rest)
  | pub_event prefix kind levels :
      prefix = events_prefix ∨ prefix = telemetry_prefix →
      kind = "event" ∨ kind = "telemetry" → levels ≠ [] →
      (wildcard_free topic → wildcard_free tenant → wildcard_free device →
       Forall wildcard_free levels) →
      published tenant device generic topic HubBroker
        ((if generic && (0 <? slen prefix) then prefix +:+ "/" else "")
         +:+ Join (kind :: levels) "/")
  | pub_response id rest :
      byte_free slash id = true →
      (wildcard_free topic → wildcard_free id ∧ wildcard_free rest) →
      published tenant device generic topic HubBroker
        ((if generic && (0 <? slen commands_prefix) then commands_prefix +:+ "/" else "")
         +:+ cloud_topic generic tenant device id "res" rest).

Lemma pc_topic_ctx p default m payload t :
  TopicFromCtx (Context m) = Some t → t ≠ "" → pc_topic (packet p default m payload) = t.
Proof. intros Ht Hne. unfold packet. cbn [pc_topic]. by rewrite Ht, slen_pos. Qed.

Lemma prefixed_nonempty a b : b ≠ "" → a +:+ b ≠ "".
Proof. by destruct a. Qed.

Lemma Join_nonempty s l : s ≠ "" → Join (s :: l) "/" ≠ "".
Proof. intros Hs. destruct l as [|s' l]; [done|]. rewrite Join_cons by done. by destruct s. Qed.

#[local] Abbreviation the_route :=
  (route unmarshal SetBytes json_string commands_prefix events_prefix telemetry_prefix).
#[local] Abbreviation the_topics :=
  (route_topics unmarshal SetBytes json_string commands_prefix events_prefix telemetry_prefix).

(** Every topic a route publishes is one of these. *)
Lemma route_topics_published tenant device policy (generic : bool) r c now uuid msg topic t :
  plain_id tenant → plain_id device → r ∈ launch_routes device tenant policy generic →
  subscribed (bus_subscribe (the_route r)) topic = true →
  TopicFromCtx (Context msg) = Some topic → t ∈ the_topics r c now uuid msg →
  published tenant device generic topic (route_to r) t.
Proof.
  intros Ht Hd Hr Hsub Hctx. unfold route_topics.
  destruct (bus_handler (the_route r) c now uuid msg) as [c' res] eqn:Hrun. cbn [snd].
  destruct res as [[msgs|e]| |]; try by intros ?%not_elem_of_nil.
  intros (m & -> & Hm)%list_elem_of_fmap.
  assert (∀ h, ev_tenantID h = tenant → ev_deviceID h = device → ev_generic h = generic →
    ev_prefix h = events_prefix ∨ ev_prefix h = telemetry_prefix →
    ∀ msg', Context msg' = Context msg → HandleEvent h msg' = Done (Ok msgs) →
    ∀ p, published tenant device generic topic HubBroker
      (pc_topic (packet p TopicEmpty m (Payload m)))) as Hevent.
  { intros h <- <- <- Hp msg' Hmsg Hh p. rewrite <-Hmsg in Hctx.
    destruct (event_topics h msg' topic msgs m Hctx Hh Hm)
      as (kind & levels & Hkind & Hm' & Hne & Hw).
    rewrite (pc_topic_ctx _ _ _ _ _ Hm') by
      (apply prefixed_nonempty, Join_nonempty; by destruct Hkind as [-> | ->]).
    by constructor. }
  unfold launch_routes in Hr. rewrite !elem_of_cons in Hr.
  destruct Hr as [->|[->|[->|[->|[->|Hnil]]]]]; [..|by apply not_elem_of_nil in Hnil];
    cbn [the_route route bus_handler bus_publish bus_subscribe route_to] in *.
  - cbn [ParamsBus bus_handler] in Hrun. injection Hrun as <- <-.
    apply list_elem_of_singleton in Hm as ->. apply pub_params.
  - injection Hrun as <- Hrun. unfold EventsBus in Hrun. cbn [bus_handler] in Hrun.
    destruct generic; [|by apply (Hevent (EventsHandler events_prefix tenant device false)
      eq_refl eq_refl eq_refl (or_introl eq_refl) msg eq_refl Hrun)].
    unfold AddTimestamp in Hrun. destruct (SetBytes _ _ _) as [payload|e]; [|done].
    by apply (Hevent (EventsHandler events_prefix tenant device true)
      eq_refl eq_refl eq_refl (or_introl eq_refl)
      (SetContext (NewMessage (UUID msg) payload) (Context msg)) eq_refl Hrun).
  - injection Hrun as <- Hrun.
    by apply (Hevent (EventsHandler telemetry_prefix tenant device generic)
      eq_refl eq_refl eq_refl (or_intror eq_refl) msg eq_refl Hrun).
  - destruct (response_topics tenant device generic c msg topic c' msgs m Hsub Hctx Hrun Hm)
      as (id & rest & Hid & Hw & Hm').
    rewrite (pc_topic_ctx _ _ _ _ _ Hm') by
      (apply prefixed_nonempty; by destruct generic). by constructor.
  - destruct (request_topics tenant device generic c now msg topic c' msgs m Ht Hd Hsub Hctx
      Hrun Hm) as (id & rest & Hid & Htop & [Hm'|Hm']);
      rewrite (pc_topic_ctx _ _ _ _ _ Hm') by done;
      [by apply (pub_request _ _ _ _ Long)|by apply (pub_request _ _ _ _ Short)].
Qed.

(** ** No echo *)

Lemma Split_local f id rest :
  byte_free slash id = true →
  Split (local_topic f id (request_type f) rest) slash =
  match f with Long => ["command"; ""; id; "req"] | Short => ["c"; ""; id; "q"] end
  ++ Split rest slash.
Proof.
  intros Hid. unfold local_topic, cmd_topic. change (String slash ?x) with ("/" +:+ x).
  destruct f; cbn [form_prefix request_type].
  - change ("c//" +:+ ?x) with ("c" +:+ "/" +:+ "" +:+ "/" +:+ x).
    by rewrite !Split_segment by done.
  - change ("command//" +:+ ?x) with ("command" +:+ "/" +:+ "" +:+ "/" +:+ x).
    by rewrite !Split_segment by done.
Qed.

Lemma Split_head a b : head (Split (a +:+ String slash b) slash) = head (Split a slash).
Proof.
  induction a as [|x a IH]; [done|]. cbn [String.append Split].
  destruct (Ascii.eqb x slash); [done|].
  pose proof (Split_nonempty (a +:+ String slash b) slash) as H1.
  pose proof (Split_nonempty a slash) as H2.
  destruct (Split (a +:+ String slash b) slash), (Split a slash); cbn in *; congruence.
Qed.

Lemma lookup_head {A} (l : list A) : l !! 0%nat = head l.
Proof. by destruct l. Qed.

(** A prefix of the topics of the Hub that keeps them out of the commands. *)
Definition prefix_ok (p : string) : Prop := head (Split p slash) ≠ Some "command".

(** What is published locally matches no filter of the connector there. *)
Lemma local_no_echo tenant device generic topic t filter :
  byte_free slash device = true →
  published tenant device generic topic LocalBroker t →
  filter ∈ topicLog :: concat (map parseSubs
    [TopicGwParamsRequest; TopicsEvent; TopicsTelemetry; TopicCommandResponse]) →
  filter_matches filter t = false.
Proof.
  intros Hd Hpub Hf.
  assert (∃ n s, Split filter slash !! n = Some s ∧ s ≠ "+" ∧ s ≠ "#" ∧
    Split t slash !! n ≠ Some s) as (n & s & Hn & Hp & Hh & Ht);
    [|by eapply filter_mismatch].
  cbn in Hf. rewrite !elem_of_cons in Hf. inversion Hpub; subst.
  - destruct Hf as [->|[->|[->|[->|[->|[->|[->|[->|Hf]]]]]]]]; try by apply not_elem_of_nil in Hf.
    all: first [by exists 0%nat; eexists|by exists 2%nat; eexists].
  - rewrite Split_local by (by apply local_id_free).
    destruct Hf as [->|[->|[->|[->|[->|[->|[->|[->|Hf]]]]]]]]; try by apply not_elem_of_nil in Hf.
    all: destruct f; first [by exists 0%nat; eexists|by exists 3%nat; eexists].
Qed.

Lemma Split_cloud tenant device (generic : bool) id kind rest :
  byte_free slash tenant = true → byte_free slash device = true → byte_free slash id = true →
  byte_free slash kind = true →
  Split (cloud_topic generic tenant device id kind rest) slash =
  (if generic then ["command"; tenant; device] else ["command"; ""])
  ++ id :: kind :: Split rest slash.
Proof.
  intros Ht Hd Hid Hk. unfold cloud_topic. destruct generic.
  - change ("command/" +:+ ?x) with ("command" +:+ "/" +:+ x).
    by rewrite !Split_segment by done.
  - change ("command//" +:+ ?x) with ("command" +:+ "/" +:+ "" +:+ "/" +:+ x).
    by rewrite !Split_segment by done.
Qed.

(** What is published to the Hub matches no filter about commands there: neither
    the one of the requests nor one that the manager forwards. *)
Lemma hub_no_echo tenant device (generic : bool) topic t filter :
  byte_free slash tenant = true → byte_free slash device = true →
  prefix_ok commands_prefix → prefix_ok events_prefix → prefix_ok telemetry_prefix →
  published tenant device generic topic HubBroker t →
  filter = bus_subscribe (CommandsReqBus (C:=C) unmarshal tenant device generic) ∨
    generic = false ∧ (∃ d, byte_free slash d = true ∧ filter = cmd_filter Long Long d) →
  filter_matches filter t = false.
Proof.
  intros Ht Hd Hc He Htel Hpub Hf.
  assert (∃ l, Split filter slash = (if generic then ["command"; tenant; device]
    else ["command"; ""]) ++ l :: ["req"; "#"]) as [l Hl].
  { destruct Hf as [->|[-> (d & Hfree & ->)]].
    - rewrite Split_request_filter by done. by exists "+".
    - exists d. unfold cmd_filter.
      change (form_prefix Long +:+ ?x) with ("command" +:+ "/" +:+ "" +:+ "/" +:+ x).
      change (form_request Long) with ("/" +:+ "req" +:+ "/" +:+ "#").
      by rewrite !Split_segment by done. }
  assert (∀ p b, prefix_ok p → generic && (0 <? slen p) = true →
    filter_matches filter ((p +:+ "/") +:+ b) = false) as Hprefix.
  { intros p b Hp [-> _]%andb_true_iff.
    apply (filter_mismatch 0 "command"); [done|done|by rewrite Hl|].
    rewrite sapp_assoc. change ("/" +:+ b) with (String slash b).
    by rewrite lookup_head, Split_head. }
  inversion Hpub as [| |prefix kind levels Hpre Hkind Hne Hw|id rest Hid Hw]; subst.
  - destruct (generic && (0 <? slen prefix)) eqn:Eg.
    { apply Hprefix; [by destruct Hpre as [-> | ->]|done]. }
    apply (filter_mismatch 0 "command"); [done|done|rewrite Hl; by destruct generic|].
    destruct levels as [|s levels]; [done|].
    rewrite Join_cons by done. change ("" +:+ ?x) with x.
    change ("/" +:+ ?x) with (String slash x).
    rewrite lookup_head, Split_head. by destruct Hkind as [-> | ->].
  - destruct (generic && (0 <? slen commands_prefix)) eqn:Eg; [by apply Hprefix|].
    change ("" +:+ ?x) with x.
    apply (filter_mismatch (if generic then 4 else 3) "req"); [done|done| |].
    + rewrite Hl. by destruct generic.
    + rewrite Split_cloud by done. by destruct generic.
Qed.

(** C26.  The bridge hears no message of its own: whatever the routes of a launch
    publish matches no subscription of a route at the same broker, nor the
    subscription to the log of Mosquitto, nor a command filter that the
    subscription manager forwards to the Hub, so that no message circulates.  The
    tenant and the device are each one literal level, and the configured
    prefixes do not start with the level "command". *)
Theorem bridge_no_echo tenant device policy (generic : bool) r c now uuid msg topic t :
  plain_id tenant → plain_id device →
  prefix_ok commands_prefix → prefix_ok events_prefix → prefix_ok telemetry_prefix →
  r ∈ launch_routes device tenant policy generic →
  subscribed (bus_subscribe (the_route r)) topic = true →
  TopicFromCtx (Context msg) = Some topic → t ∈ the_topics r c now uuid msg →
  (∀ r', r' ∈ launch_routes device tenant policy generic → route_from r' = route_to r →
     subscribed (bus_subscribe (the_route r')) t = false) ∧
  match route_to r with
  | LocalBroker => filter_matches topicLog t = false
  | HubBroker => generic = false → ∀ d, byte_free slash d = true →
      filter_matches (cmd_filter Long Long d) t = false
  end.
Proof.
  intros Ht Hd Hc He Htel Hr Hsub Hctx Hin.
  pose proof (route_topics_published _ _ _ _ _ _ _ _ _ _ _ Ht Hd Hr Hsub Hctx Hin) as Hpub.
  destruct Ht as [[Ht _] Htc], Hd as [[Hd _] Hdc]. split.
  - intros r' Hr' Hfrom. unfold subscribed.
    destruct (existsb _ _) eqn:E; [exfalso|done].
    apply existsb_exists in E as (f & Hf%list_elem_of_In & Hm).
    enough (filter_matches f t = false) by congruence. clear Hm.
    unfold launch_routes in Hr'. rewrite !elem_of_cons in Hr'.
    destruct (route_to r).
    + apply (local_no_echo tenant device generic topic t f Hd Hpub). right.
      apply list_elem_of_In, in_concat. exists (parseSubs (bus_subscribe (the_route r'))).
      split; [|by apply list_elem_of_In]. apply in_map, list_elem_of_In.
      destruct Hr' as [->|[->|[->|[->|[->|Hnil]]]]]; [..|by apply not_elem_of_nil in Hnil];
        try done; cbn; rewrite !elem_of_cons; tauto.
    + apply (hub_no_echo tenant device generic topic t f Ht Hd Hc He Htel Hpub). left.
      destruct Hr' as [->|[->|[->|[->|[->|Hnil]]]]]; [..|by apply not_elem_of_nil in Hnil];
        try done. cbn [the_route route bus_subscribe] in Hf.
      rewrite parseSubs_single in Hf; [by apply list_elem_of_singleton in Hf|].
      cbn [CommandsReqBus bus_subscribe]. destruct generic; [|done].
      rewrite !byte_free_app. by rewrite Htc, Hdc.
  - destruct (route_to r).
    + apply (local_no_echo tenant device generic topic t _ Hd Hpub). by left.
    + intros Hg d Hfree. apply (hub_no_echo tenant device generic topic t _ Ht Hd Hc He Htel Hpub).
      right. eauto.
Qed.

(** ** Well-formed topics *)

Lemma wildcard_free_cloud generic tenant device id kind rest :
  wildcard_free (cloud_topic generic tenant device id kind rest) →
  wildcard_free id ∧ wildcard_free rest.
Proof. unfold cloud_topic. destruct generic; rewrite !wildcard_free_app; tauto. Qed.

Lemma wildcard_free_prefix (b : bool) p t :
  wildcard_free p → wildcard_free t →
  wildcard_free ((if b then p +:+ "/" else "") +:+ t).
Proof. intros Hp Ht. destruct b; rewrite !wildcard_free_app; by split_and!. Qed.

(** C39.  The topics a launch publishes are well formed: as long as the tenant, the
    device, the prefixes and the topic of the received message hold no wildcard,
    which no broker delivers, every published topic has at least one byte and no
    wildcard, so that it is a topic name and no filter. *)
Theorem bridge_topics_wf tenant device policy (generic : bool) r c now uuid msg topic t :
  plain_id tenant → plain_id device →
  Forall wildcard_free [tenant; device; commands_prefix; events_prefix; telemetry_prefix; topic] →
  r ∈ launch_routes device tenant policy generic →
  subscribed (bus_subscribe (the_route r)) topic = true →
  TopicFromCtx (Context msg) = Some topic → t ∈ the_topics r c now uuid msg →
  t ≠ "" ∧ wildcard_free t.
Proof.
  intros Ht Hd Hw Hr Hsub Hctx Hin.
  pose proof (route_topics_published _ _ _ _ _ _ _ _ _ _ _ Ht Hd Hr Hsub Hctx Hin) as Hpub.
  rewrite !Forall_cons in Hw. destruct Hw as (Hwt & Hwd & Hwc & Hwe & Hwtel & Htopic & _).
  destruct Hpub as [|f id rest Hid ->|prefix kind levels Hpre Hkind Hne Hl|id rest Hid Hl].
  - done.
  - apply wildcard_free_cloud in Htopic as [Hi Hrest].
    split; [by destruct f|]. unfold local_topic, cmd_topic.
    change (String slash ?x) with ("/" +:+ x).
    assert (wildcard_free (local_id generic device id)) as Hlocal.
    { destruct generic; [|done]. unfold local_id, local_device. destruct (0 <? slen id); [|done].
      by rewrite !wildcard_free_app. }
    rewrite !wildcard_free_app. by destruct f.
  - specialize (Hl Htopic Hwt Hwd). split.
    { apply prefixed_nonempty, Join_nonempty. by destruct Hkind as [-> | ->]. }
    apply wildcard_free_prefix; [by destruct Hpre as [-> | ->]|].
    apply wildcard_free_Join. constructor; [by destruct Hkind as [-> | ->]|done].
  - destruct (Hl Htopic) as [Hi Hrest]. split.
    { apply prefixed_nonempty. by destruct generic. }
    apply wildcard_free_prefix; [done|]. unfold cloud_topic.
    destruct generic; rewrite !wildcard_free_app; by split_and!.
Qed.

(** ** Panics *)

Lemma HandleEvent_done h msg : is_done (HandleEvent h msg) = true.
Proof.
  destruct (TopicFromCtx (Context msg)) as [topic|] eqn:Hctx;
    [|unfold HandleEvent; by rewrite Hctx].
  rewrite (HandleEvent_segments h msg topic Hctx). unfold complete_segments. cbv zeta.
  destruct (ev_generic h); [|done].
  apply is_done_bind_intro; [|by intros [id|e]]. unfold stripGatewayID.
  destruct (HasPrefix _ _); [|done]. destruct (_ <=? _) eqn:E; [done|]. bools.
  apply is_done_bind_intro; [|done]. unfold slice_from. apply slice_done_iff. slen_lia.
Qed.

Lemma NewEventsHandler_done prefix tenant device generic msg :
  is_done (NewEventsHandler prefix tenant device generic msg) = true.
Proof. apply HandleEvent_done. Qed.

(** The response handler, on what its subscription delivers. *)
Lemma HandleResponse_defined prefix tenant device generic c msg topic command :
  rc_valid c → subscribed TopicCommandResponse topic = true →
  TopicFromCtx (Context msg) = Some topic → unmarshal (Payload msg) = Ok command →
  is_done (HandleResponse unmarshal (CmdResponseHandler prefix tenant device generic) c msg).2
    = true ↔
  ∃ k, CorrelationID command = Done k ∧
    (k ∈ rc_pending c → length (Split topic slash) ≠ 4%nat).
Proof.
  intros Hv Hsub Hctx Hdec. unfold HandleResponse. rewrite Hctx, Hdec.
  destruct (CorrelationID command) as [k| |]; [|by split; [|intros (? & ? & _)]..].
  transitivity (k ∈ rc_pending c → length (Split topic slash) ≠ 4%nat); [|naive_solver].
  destruct (rc_remove_law c k Hv) as (c' & -> & _).
  destruct (decide (k ∈ rc_pending c)) as [Hin|Hout].
  2:{ rewrite bool_decide_eq_false_2 by done. cbn. tauto. }
  rewrite bool_decide_eq_true_2 by done. cbn [snd].
  destruct (response_filter_topics topic Hsub) as (f & id & Hid & [->|[rest ->]]).
  - assert (length (Split (cmd_topic f id (response_type f)) slash) = 4%nat) as ->.
    { unfold cmd_topic. change (String slash ?x) with ("/" +:+ x). destruct f; cbn [form_prefix].
      - change ("c//" +:+ ?x) with ("c" +:+ "/" +:+ "" +:+ "/" +:+ x).
        by rewrite !Split_segment by done.
      - change ("command//" +:+ ?x) with ("command" +:+ "/" +:+ "" +:+ "/" +:+ x).
        by rewrite !Split_segment by done. }
    unfold forward_response. rewrite ParseCmdTopic_cut by (done || by destruct f).
    cbn. split; [done|]. intros Hne. by destruct Hne.
  - split; [|intros _].
    { intros _ _. unfold local_topic, cmd_topic. change (String slash ?x) with ("/" +:+ x).
      pose proof (Split_nonempty rest slash) as Hr.
      destruct f; cbn [form_prefix response_type].
      - change ("c//" +:+ ?x) with ("c" +:+ "/" +:+ "" +:+ "/" +:+ x).
        rewrite !Split_segment, Split_app by done. destruct (Split rest slash); [done|cbn; lia].
      - change ("command//" +:+ ?x) with ("command" +:+ "/" +:+ "" +:+ "/" +:+ x).
        rewrite !Split_segment, Split_app by done. destruct (Split rest slash); [done|cbn; lia]. }
    unfold forward_response, local_topic.
    rewrite (bind_done (response_type f, id, rest))
      by (apply ParseCmdTopic_parts; [done|by destruct f]).
    apply is_done_bind_intro; [|by intros [?|?]]. cbn [res_generic res_deviceID].
    destruct generic; [|done]. apply is_done_bind_intro; [|done].
    unfold stripGatewayID. destruct (HasPrefix _ _); [|done].
    destruct (_ <=? _) eqn:E; [done|]. bools.
    apply is_done_bind_intro; [|done]. unfold slice_from. apply slice_done_iff. slen_lia.
Qed.

(** A request whose headers are not [readable]. *)
Lemma not_readable (h : headers) :
  ¬ readable h ↔
  match CorrelationID h with
  | Done k => k ≠ "" ∧ match Timeout h with Done timeout => timeout = "s" | _ => True end
  | _ => True
  end.
Proof.
  unfold readable. destruct (CorrelationID h) as [k| |]; [|by split; [|intros _ (? & ? & _)]..].
  destruct (decide (k = "")) as [->|Hk]; [split; [|tauto]; intros Hn; destruct Hn; eauto|].
  destruct (Timeout h) as [timeout| |]; [|by split; [|intros _ (? & ? & [?|(? & ? & _)]); simplify_eq]..].
  destruct (decide (timeout = "s")) as [->|Ht].
  - split; [done|]. by intros _ (? & ? & [?|(? & ? & ?)]); simplify_eq.
  - split; [|tauto]. intros Hn. destruct Hn. eauto 8.
Qed.

(** C27.  Which delivered messages make a route of a launch panic: exactly those
    whose payload is an envelope and which are a request on a topic that stops at
    "req", a request whose correlation id cannot be read, or whose correlation id
    is not empty and whose timeout cannot be read or is "s", a response whose
    correlation id cannot be read, or a response to a known command on a topic that
    stops at its type.  The trailing "#" of both subscriptions lets these topics
    through; the accessors of the headers panic on null headers and on values that
    are no strings. *)
Theorem bridge_panics tenant device policy (generic : bool) r c now uuid msg topic :
  plain_id tenant → plain_id device → rc_valid c →
  r ∈ launch_routes device tenant policy generic →
  subscribed (bus_subscribe (the_route r)) topic = true →
  TopicFromCtx (Context msg) = Some topic →
  is_done (bus_handler (the_route r) c now uuid msg).2 = false ↔
  ∃ h, unmarshal (Payload msg) = Ok h ∧
    match r with
    | CommandsReqRoute _ _ _ =>
        length (Split topic slash) = (if generic then 5 else 4)%nat ∨
        match CorrelationID h with
        | Done k => k ≠ "" ∧ match Timeout h with Done timeout => timeout = "s" | _ => True end
        | _ => True
        end
    | CommandsResRoute _ _ _ =>
        match CorrelationID h with
        | Done k => length (Split topic slash) = 4%nat ∧ k ∈ rc_pending c
        | _ => True
        end
    | _ => False
    end.
Proof.
  intros [Ht Htc] [Hd Hdc] Hv Hr Hsub Hctx.
  unfold launch_routes in Hr. rewrite !elem_of_cons in Hr.
  destruct Hr as [->|[->|[->|[->|[->|Hnil]]]]]; [..|by apply not_elem_of_nil in Hnil];
    cbn [the_route route bus_handler bus_subscribe snd] in *.
  - by split; [|intros (? & _ & ?)].
  - unfold EventsBus. cbn [bus_handler]. transitivity False; [|naive_solver].
    destruct generic; [unfold AddTimestamp; destruct (SetBytes _ _ _); [|done]|];
      by rewrite NewEventsHandler_done.
  - unfold TelemetryBus. cbn [bus_handler]. rewrite NewEventsHandler_done. naive_solver.
  - change (bus_handler _ c msg) with
      (HandleResponse unmarshal (CmdResponseHandler commands_prefix tenant device generic) c msg).
    rewrite <-not_true_iff_false. destruct (unmarshal (Payload msg)) as [h|e] eqn:Hdec.
    2:{ unfold HandleResponse. rewrite Hctx, Hdec. cbn. naive_solver. }
    rewrite (HandleResponse_defined commands_prefix tenant device generic c msg topic h)
      by done.
    transitivity (match CorrelationID h with
      | Done k => length (Split topic slash) = 4%nat ∧ k ∈ rc_pending c | _ => True end);
      [|naive_solver].
    destruct (CorrelationID h) as [k| |]; [|by split; [|intros _ (? & ? & _)]..].
    destruct (decide (length (Split topic slash) = 4%nat)), (decide (k ∈ rc_pending c));
      naive_solver.
  - unfold subscribed in Hsub. rewrite parseSubs_single in Hsub.
    2:{ cbn [CommandsReqBus bus_subscribe]. destruct generic; [|done].
        rewrite !byte_free_app. by rewrite Htc, Hdc. }
    cbn [existsb] in Hsub. rewrite orb_false_r in Hsub.
    rewrite <-not_true_iff_false. destruct (unmarshal (Payload msg)) as [h|e] eqn:Hdec.
    2:{ cbn [CommandsReqBus bus_handler]. unfold NewCommandRequestHandler, HandleRequest.
        rewrite Hctx, Hdec. cbn. naive_solver. }
    rewrite (HandleRequest_defined unmarshal tenant device generic topic c now msg h) by done.
    assert ((if generic then 5 else 4) <= length (Split topic slash))%nat as Hlen.
    { destruct (request_filter_topics _ _ _ _ _ Ht Hd Hsub) as (id & _ & [[-> _]|[? _]]); lia. }
    set (n := (if generic then 5 else 4)%nat) in *. clearbody n.
    setoid_rewrite <-not_readable.
    transitivity (length (Split topic slash) = n ∨ ¬ readable h); [|naive_solver].
    destruct (decide (length (Split topic slash) = n)) as [Heq|Hne]; [split; [by left|lia]|].
    split; [|tauto]. intros Hn. right. intros Hread. destruct Hn. split; [lia|done].
Qed.

(** ** Each message once *)

(** The filters of the connector at a broker, each with its route. *)
Definition broker_filters (b : broker) (routes : list route_bus) : list (route_bus * string) :=
  concat (map (λ r, if decide (route_from r = b)
                    then (λ f, (r, f)) <$> parseSubs (bus_subscribe (the_route r)) else []) routes).

(** At most one filter matches if their first levels are different literals. *)
Lemma one_filter_matches {A} (filters : list (A * string)) topic :
  NoDup ((λ f, head (Split f.2 slash)) <$> filters) →
  Forall (λ f, head (Split f.2 slash) ≠ Some "+" ∧ head (Split f.2 slash) ≠ Some "#") filters →
  (length (filter (λ f, filter_matches f.2 topic = true) filters) <= 1)%nat.
Proof.
  intros Hnd Hplain.
  assert (∀ f, f ∈ filters → filter_matches f.2 topic = true →
    head (Split f.2 slash) = head (Split topic slash)) as Hhead.
  { intros f Hf Hm. rewrite Forall_forall in Hplain. destruct (Hplain f Hf) as [Hp Hh].
    destruct (head (Split f.2 slash)) as [s|] eqn:E.
    - symmetry. rewrite <-lookup_head in E |- *.
      apply (segments_match_level 0 s (Split f.2 slash)); [congruence..|done].
    - by destruct (Split f.2 slash) eqn:E'; [apply Split_nonempty in E'|]. }
  clear Hplain. induction filters as [|f filters IH]; [cbn; lia|].
  cbn [fmap list_fmap] in Hnd. apply NoDup_cons in Hnd as [Hf Hnd].
  destruct (decide (filter_matches f.2 topic = true)) as [Hm|Hm].
  - rewrite filter_cons_True by done. cbn [length].
    destruct (filter _ filters) as [|g gs] eqn:E; [cbn; lia|].
    assert (g ∈ filter (λ f, filter_matches f.2 topic = true) filters) as Hg by (rewrite E; by left).
    apply list_elem_of_filter in Hg as [Hgm Hg]. destruct Hf.
    rewrite (Hhead f), <-(Hhead g); [|by right|done|by left|done].
    by apply (list_elem_of_fmap_2 (λ f, head (Split f.2 slash))).
  - rewrite filter_cons_False by done. apply IH; [done|]. intros g Hg. apply Hhead. by right.
Qed.

(** C14.  Every message that a broker delivers is handled once: no topic matches two
    of the filters that the routes of a launch subscribe to at a broker. *)
Theorem bridge_handles_once tenant device policy (generic : bool) b topic :
  plain_id tenant → plain_id device →
  (length (filter (λ f, filter_matches f.2 topic = true)
     (broker_filters b (launch_routes device tenant policy generic))) <= 1)%nat.
Proof.
  intros [[Ht _] Htc] [[Hd _] Hdc]. destruct b.
  - apply one_filter_matches.
    + apply (bool_decide_unpack _). vm_compute. exact I.
    + apply (bool_decide_unpack _). vm_compute. exact I.
  - assert (broker_filters HubBroker (launch_routes device tenant policy generic) =
      [(CommandsReqRoute tenant device generic,
        bus_subscribe (CommandsReqBus (C:=C) unmarshal tenant device generic))]) as ->.
    { change (broker_filters HubBroker (launch_routes device tenant policy generic)) with
        (((λ f, (CommandsReqRoute tenant device generic, f)) <$> parseSubs (bus_subscribe
          (CommandsReqBus (C:=C) unmarshal tenant device generic))) ++ []).
      rewrite parseSubs_single; [done|].
      cbn [CommandsReqBus bus_subscribe]. destruct generic; [|done].
      rewrite !byte_free_app. by rewrite Htc, Hdc. }
    etransitivity; [apply length_filter|done].
Qed.

(** ** From the cloud to the device *)

Lemma Split_cmd_filter p q d :
  byte_free slash d = true →
  Split (cmd_filter p q d) slash =
  [match p with Long => "command" | Short => "c" end; ""; d; request_type q; "#"].
Proof.
  intros Hd. unfold cmd_filter.
  assert (∀ x, form_prefix p +:+ x =
    match p with Long => "command" | Short => "c" end +:+ "/" +:+ "" +:+ "/" +:+ x) as Hpre
    by (by destruct p).
  assert (form_request q = "/" +:+ request_type q +:+ "/" +:+ "#") as -> by (by destruct q).
  rewrite Hpre, !Split_segment by (by destruct p, q). done.
Qed.

Lemma segments_match_cons s l l' x :
  l ≠ [] → segments_match (s :: l) (x :: l') =
  (bool_decide (s = "+") || bool_decide (s = x)) && segments_match l l'.
Proof. intros Hne. cbn [segments_match]. by rewrite decide_False by naive_solver. Qed.

(** A device's filter in one spelling matches the requests to it in this spelling. *)
Lemma cmd_filter_matches p q d f l rest :
  plain_level d → byte_free slash l = true →
  filter_matches (cmd_filter p q d) (local_topic f l (request_type f) rest)
  = bool_decide (p = f ∧ q = f ∧ d = l).
Proof.
  intros (Hd & Hp & _) Hl. unfold filter_matches.
  rewrite Split_cmd_filter, Split_local by done.
  assert (∀ a b e, segments_match [a; ""; d; b; "#"] ([a; ""; l; e] ++ Split rest slash) =
    (bool_decide (d = l) && (bool_decide (b = "+") || bool_decide (b = e)))) as Hall.
  { intros a b e. cbn [app]. rewrite !segments_match_cons by done. rewrite (bool_decide_eq_false_2 (d = "+")) by done.
    rewrite (bool_decide_eq_true_2 (a = a)), orb_true_r by done. cbn [orb andb].
    change (segments_match ["#"] ?x) with true. by rewrite andb_true_r. }
  assert (bool_decide (p = f ∧ q = f ∧ d = l) =
    bool_decide (p = f) && (bool_decide (q = f) && bool_decide (d = l))) as ->
    by (by rewrite !bool_decide_and).
  destruct p, f; [|reflexivity|reflexivity|]; rewrite Hall; destruct q;
    by destruct (bool_decide (d = l)).
Qed.

(** C2.  A command of the cloud reaches the device it is for and no other, once: the
    request route takes it, and of the two topics it publishes a device that
    subscribes to its commands in one of the two spellings gets exactly one if the
    command is for it and none otherwise.  A filter that mixes the spellings gets
    nothing. *)
Theorem bridge_delivers_command tenant device (generic : bool) id rest c now uuid msg h topic :
  plain_id tenant → plain_id device → byte_free slash id = true → rc_valid c →
  topic = cloud_topic generic tenant device id "req" rest →
  TopicFromCtx (Context msg) = Some topic → unmarshal (Payload msg) = Ok h →
  readable h →
  let r := CommandsReqRoute tenant device generic in
  subscribed (bus_subscribe (the_route r)) topic = true ∧
  ∀ p q d, plain_level d →
    length (filter (λ t, filter_matches (cmd_filter p q d) t = true) (the_topics r c now uuid msg))
    = if decide (p = q ∧ d = local_id generic device id) then 1%nat else 0%nat.
Proof.
  intros [Ht Htc] [Hd Hdc] Hid Hv Htopic Hctx Hdec Hok r. destruct Ht as [Ht _], Hd as [Hd _].
  split.
  - subst r topic. cbn [the_route route bus_subscribe]. unfold subscribed.
    rewrite parseSubs_single.
    2:{ cbn [CommandsReqBus bus_subscribe]. destruct generic; [|done].
        rewrite !byte_free_app. by rewrite Htc, Hdc. }
    cbn [existsb]. rewrite orb_false_r. unfold filter_matches.
    rewrite Split_request_filter, Split_cloud by done.
    assert (∀ s, bool_decide (s = "+") || bool_decide (s = s) = true) as Hrefl.
    { intros s. by rewrite (bool_decide_eq_true_2 (s = s)), orb_true_r by done. }
    destruct generic; cbn [app]; rewrite !segments_match_cons, !Hrefl by done; reflexivity.
  - intros p q d Hpd.
    destruct (forward_request_spec tenant device generic id rest msg topic) as
      (m1 & m2 & Hfwd & H1 & H2 & _); [done..|].
    assert (the_topics r c now uuid msg =
      [local_topic Long (local_id generic device id) "req" rest;
       local_topic Short (local_id generic device id) "q" rest]) as ->.
    { unfold route_topics. subst r. cbn [route bus_handler bus_publish CommandsReqBus].
      unfold NewCommandRequestHandler, HandleRequest. rewrite Hctx, Hdec.
      destruct (remember_done unmarshal c now h Hv Hok) as (c' & k & _ & -> & _). cbn [snd]. rewrite Hfwd. cbn [map].
      by rewrite (pc_topic_ctx _ _ _ _ _ H1), (pc_topic_ctx _ _ _ _ _ H2). }
    assert (byte_free slash (local_id generic device id) = true) as Hl
      by (by apply local_id_free).
    pose proof (cmd_filter_matches p q d Long _ rest Hpd Hl) as HL.
    pose proof (cmd_filter_matches p q d Short _ rest Hpd Hl) as HS.
    cbn [request_type] in HL, HS. rewrite !filter_cons, filter_nil.
    rewrite HL, HS. destruct p, q, (decide (d = local_id generic device id)) as [->|Hne];
      repeat case_decide; bools; naive_solver.
Qed.
End topics.

(** ** Examples *)

Definition sample_response : message :=
  SetContext (NewMessage "1" "id-7") (SetTopicToCtx Background "c//ns:gw:dev/s/id-7/200").

(** A cache that knows the command of the response. *)
Definition sample_cache : Cache bool :=
  match rc_put (RequestCache:=Cache_RequestCache) NewTTLCache "id-7" Second 0 with
  | Done c => c
  | _ => NewTTLCache
  end.

Definition sample_topics : list string :=
  route_topics sample_envelope (λ payload _ _, Ok payload) (λ s, s) "" "" ""
    (CommandsResRoute "tenant" "ns:gw" true) sample_cache 0 "2" sample_response.

Lemma sample_topics_eq : sample_topics = ["command/tenant/ns:gw/dev/res/id-7/200"].
Proof. vm_compute. reflexivity. Qed.

Lemma bridge_no_echo_witness :
  "command/tenant/ns:gw/dev/res/id-7/200" ∈ sample_topics ∧
  filter_matches "command/tenant/ns:gw/+/req/#" "command/tenant/ns:gw/dev/res/id-7/200" = false.
Proof.
  assert ("command/tenant/ns:gw/dev/res/id-7/200" ∈ sample_topics) as Hin.
  { rewrite sample_topics_eq. by left. }
  split; [exact Hin|].
  destruct (bridge_no_echo sample_envelope (λ payload _ _, Ok payload) (λ s, s) "" "" ""
    "tenant" "ns:gw" "" true (CommandsResRoute "tenant" "ns:gw" true) sample_cache 0 "2"
    sample_response "c//ns:gw:dev/s/id-7/200" _ ltac:(by split_and!) ltac:(by split_and!)
    ltac:(done) ltac:(done) ltac:(done) ltac:(do 3 right; by left) eq_refl eq_refl Hin) as [H _].
  assert (CommandsReqRoute "tenant" "ns:gw" true ∈ launch_routes "ns:gw" "tenant" "" true) as Hr
    by (do 4 right; by left).
  specialize (H _ Hr eq_refl). apply orb_false_iff in H as [H _]. exact H.
Defined.

Lemma bridge_topics_wf_witness :
  Forall wildcard_free sample_topics.
Proof.
  apply Forall_forall. intros t Hin.
  apply (bridge_topics_wf sample_envelope (λ payload _ _, Ok payload) (λ s, s) "" "" ""
    "tenant" "ns:gw" "" true (CommandsResRoute "tenant" "ns:gw" true) sample_cache 0 "2"
    sample_response "c//ns:gw:dev/s/id-7/200" t).
  - by split_and!.
  - by split_and!.
  - repeat (apply Forall_cons_2; [done|]). apply Forall_nil_2.
  - do 3 right. by left.
  - reflexivity.
  - reflexivity.
  - exact Hin.
Defined.

Definition cut_request : message :=
  SetContext (NewMessage "1" "id-7") (SetTopicToCtx Background "command/tenant/ns:gw/dev/req").

Lemma bridge_panics_witness :
  is_done (HandleRequest sample_envelope (CmdRequestHandler "tenant" "ns:gw" true)
    (NewTTLCache (V:=bool)) 0 cut_request).2 = false.
Proof.
  apply (proj2 (bridge_panics (H:=Cache_RequestCache) sample_envelope
    (λ payload _ _, Ok payload) (λ s, s) "" "" "" "tenant" "ns:gw" "" true
    (CommandsReqRoute "tenant" "ns:gw" true) (NewTTLCache (V:=bool)) 0 "2" cut_request
    "command/tenant/ns:gw/dev/req" ltac:(by split_and!)
    ltac:(by split_and!) NewTTLCache_wf ltac:(do 4 right; by left) eq_refl eq_refl)).
  eexists. split; [reflexivity|]. left. reflexivity.
Defined.

Lemma bridge_handles_once_witness :
  (length (filter (λ f, filter_matches f.2 "command//ns:gw:dev/res/id-7/200" = true)
     (broker_filters sample_envelope (λ payload _ _, Ok payload) (λ s, s) "" "" ""
        LocalBroker (launch_routes "ns:gw" "tenant" "" true))) <= 1)%nat.
Proof.
  apply (bridge_handles_once sample_envelope (λ payload _ _, Ok payload) (λ s, s) "" "" ""
    "tenant" "ns:gw" "" true LocalBroker); by split_and!.
Defined.

Lemma bridge_delivers_command_witness :
  length (filter (λ t, filter_matches (cmd_filter Short Short "ns:gw:dev") t = true)
    (route_topics sample_envelope (λ payload _ _, Ok payload) (λ s, s) "" "" ""
       (CommandsReqRoute "tenant" "ns:gw" true) (NewTTLCache (V:=bool)) 0 "2" sample_command))
  = 1%nat.
Proof.
  exact (proj2 (bridge_delivers_command (H:=Cache_RequestCache) sample_envelope
    (λ payload _ _, Ok payload) (λ s, s) "" "" "" "tenant" "ns:gw" true "dev" "id-7/toggle"
    (NewTTLCache (V:=bool)) 0 "2" sample_command (Headers (Done "id-7") (Done "10"))
    "command/tenant/ns:gw/dev/req/id-7/toggle" ltac:(by split_and!) ltac:(by split_and!)
    eq_refl NewTTLCache_wf eq_refl eq_refl eq_refl
    ltac:(exists "id-7"; split; [reflexivity|right; by exists "10"]))
    Short Short "ns:gw:dev" ltac:(by split_and!)).
Defined.
