(* ===== verification/Flags.v ===== *)
(** * The command line: flags/flags.go and the flag values

    The flags of the connector on top of Go's [flag.FlagSet], the values of its
    own (URL, string list, log level), and Copy, which collects the flags that
    were set under the names of the settings' fields.  [url.ParseRequestURI] is
    an argument: whether it accepts a string. *)

From stdpp Require Import sorting.
From S2P Require Import Prelude GoStrings Util Strconv Logger Settings.

Local Open Scope Z_scope.

(** ** strings.Fields *)

(** The bytes of the white space a string starts with, as UTF-8: none, or one
    character. *)
Definition space_width (s : string) : nat :=
  match s with
  | String a s1 =>
      let x := code a in
      if ((9 <=? x) && (x <=? 13)) || (x =? 32) then 1%nat else
      match s1 with
      | String b s2 =>
          let y := code b in
          if (x =? 194) && ((y =? 133) || (y =? 160)) then 2%nat else
          match s2 with
          | String c _ =>
              let z := code c in
              if ((x =? 225) && (y =? 154) && (z =? 128))
                 || ((x =? 226) && (y =? 128)
                     && (((128 <=? z) && (z <=? 138)) || (z =? 168) || (z =? 169) || (z =? 175)))
                 || ((x =? 226) && (y =? 129) && (z =? 159))
                 || ((x =? 227) && (y =? 128) && (z =? 128))
              then 3%nat else 0%nat
          | "" => 0%nat
          end
      | "" => 0%nat
      end
  | "" => 0%nat
  end.

(** [word] is the field read so far, [skip] the bytes of a space still to pass. *)
Fixpoint fields_from (word : string) (skip : nat) (s : string) : list string :=
  let flush := if slen word =? 0 then [] else [word] in
  match s with
  | "" => flush
  | String c s' =>
      match skip with
      | S n => fields_from word n s'
      | O =>
          match space_width s with
          | S n => flush ++ fields_from "" n s'
          | O => fields_from (word +:+ String c "") 0 s'
          end
      end
  end.

Definition Fields (s : string) : list string := fields_from "" 0 s.

(** ** Flag values *)

Record URLV := MkURLV { url_setter : string; url_provided : bool; url_value : string }.
Record StringSliceV := MkStringSliceV { ss_value : option (list string); ss_provided : bool }.
Record LogLevelV := MkLogLevelV { ll_setter : Log.LogLevel; ll_provided : bool; ll_value : Log.LogLevel }.

(** The value of a flag; the first four are package flag's own. *)
Inductive flag_value :=
  | FString (s : string)
  | FInt (n : Z)
  | FBool (b : bool)
  | FUint64 (n : Z)
  | FURL (v : URLV)
  | FStrings (v : StringSliceV)
  | FLevel (v : LogLevelV).

(** What Get returns. *)
Inductive getter_value :=
  | GString (s : string)
  | GInt (n : Z)
  | GBool (b : bool)
  | GUint64 (n : Z)
  | GStrings (l : list string)
  | GLevel (l : Log.LogLevel).

Definition NewURLV (setter defaultVal : string) : URLV := MkURLV setter false defaultVal.
Definition NewStringSliceV (setter : list string) : StringSliceV := MkStringSliceV (Some setter) false.
Definition NewLogLevelV (setter defaultVal : Log.LogLevel) : LogLevelV :=
  MkLogLevelV setter false defaultVal.

Definition StringSliceV_String (f : StringSliceV) : string :=
  match ss_value f with None => "" | Some l => Join l " " end.

Definition StringSliceV_Get (f : StringSliceV) : list string := default [] (ss_value f).

Definition StringSliceV_Set (value : string) (f : StringSliceV) : result StringSliceV :=
  if slen value =? 0 then Err (Sentinel "value cannot be empty")
  else Ok (MkStringSliceV (Some (Fields value)) true).

Definition LogLevelV_Set (value : string) (f : LogLevelV) : LogLevelV :=
  let level := Log.ParseLogLevel value in
  MkLogLevelV level true level.

Definition LogLevelV_String (f : LogLevelV) : string := Log.String (ll_value f).

Definition URLV_Provided (f : URLV) : bool := url_provided f.
Definition URLV_String (f : URLV) : string := url_value f.
Definition URLV_Get (f : URLV) : string := url_value f.
Definition StringSliceV_Provided (f : StringSliceV) : bool := ss_provided f.
Definition LogLevelV_Provided (f : LogLevelV) : bool := ll_provided f.
Definition LogLevelV_Get (f : LogLevelV) : Log.LogLevel := ll_value f.

Definition URLV_Set (valid_uri : string → bool) (value : string) (f : URLV) : result URLV :=
  if valid_uri value then Ok (MkURLV value true value) else Err (Sentinel "invalid URL").

(** ** Package flag *)

Definition ParseBool (s : string) : option bool :=
  if bool_decide (s ∈ ["1"; "t"; "T"; "true"; "TRUE"; "True"]) then Some true else
  if bool_decide (s ∈ ["0"; "f"; "F"; "false"; "FALSE"; "False"]) then Some false else None.

(** Set of a value. *)
Definition flag_Set (valid_uri : string → bool) (value : string) (v : flag_value)
    : result flag_value :=
  match v with
  | FString _ => Ok (FString value)
  | FInt _ =>
      match ParseInt value with Some n => Ok (FInt n) | None => Err (Sentinel "parse error") end
  | FBool _ =>
      match ParseBool value with Some b => Ok (FBool b) | None => Err (Sentinel "parse error") end
  | FUint64 _ =>
      match ParseUint0 value with
      | Some n => Ok (FUint64 n)
      | None => Err (Sentinel "parse error")
      end
  | FURL f => f ← URLV_Set valid_uri value f; Ok (FURL f)
  | FStrings f => f ← StringSliceV_Set value f; Ok (FStrings f)
  | FLevel f => Ok (FLevel (LogLevelV_Set value f))
  end.

Definition flag_Get (v : flag_value) : getter_value :=
  match v with
  | FString s => GString s
  | FInt n => GInt n
  | FBool b => GBool b
  | FUint64 n => GUint64 n
  | FURL f => GString (URLV_Get f)
  | FStrings f => GStrings (StringSliceV_Get f)
  | FLevel f => GLevel (LogLevelV_Get f)
  end.

(** The flags that are defined, and those that have been set. *)
Record FlagSet := MkFlagSet { formal : gmap string flag_value; actual : gset string }.

Definition is_bool (v : flag_value) : bool := match v with FBool _ => true | _ => false end.

(** Set of a defined flag. *)
Definition set_flag valid_uri (f : FlagSet) (name value : string) (v : flag_value)
    : result FlagSet :=
  match flag_Set valid_uri value v with
  | Err _ => Err (Errorf ("invalid value " +:+ value +:+ " for flag -" +:+ name))
  | Ok v => Ok (MkFlagSet (<[name := v]> (formal f)) ({[name]} ∪ actual f))
  end.

(** The argument without its one or two dashes; [None] when it is no flag. *)
Inductive arg_form := NotFlag | Terminator | Flag (text : string).

Definition arg_form_of (s : string) : arg_form :=
  match s with
  | String "-" (String c r) =>
      if Ascii.eqb c "-" then if slen r =? 0 then Terminator else Flag r
      else Flag (String c r)
  | _ => NotFlag
  end.

(** Name and value of [name=value]; the sign cannot come first. *)
Definition split_flag (text : string) : string * option string :=
  match text with
  | "" => ("", None)
  | String c r =>
      let i := IndexByte r "=" in
      if 0 <=? i then
        (String c (take_bytes (Z.to_nat i) r), Some (drop_bytes (Z.to_nat (i + 1)) r))
      else (text, None)
  end.

Definition ErrHelp : error := Sentinel "flag: help requested".

(** FlagSet.Parse with ContinueOnError: the flag set and the arguments left, or
    the error. *)
Fixpoint Parse_flags valid_uri (f : FlagSet) (args : list string)
    : result (FlagSet * list string) :=
  match args with
  | [] => Ok (f, [])
  | s :: rest =>
      match arg_form_of s with
      | NotFlag => Ok (f, args)
      | Terminator => Ok (f, rest)
      | Flag text =>
          if HasPrefix text "-" || HasPrefix text "=" || (slen text =? 0)
          then Err (Errorf ("bad flag syntax: " +:+ s)) else
          let '(name, value) := split_flag text in
          match formal f !! name with
          | None =>
              if bool_decide (name ∈ ["help"; "h"]) then Err ErrHelp
              else Err (Errorf ("flag provided but not defined: -" +:+ name))
          | Some v =>
              if is_bool v then
                match set_flag valid_uri f name (default "true" value) v with
                | Err err => Err err
                | Ok f => Parse_flags valid_uri f rest
                end
              else
                match value, rest with
                | Some value, _ =>
                    match set_flag valid_uri f name value v with
                    | Err err => Err err
                    | Ok f => Parse_flags valid_uri f rest
                    end
                | None, value :: rest' =>
                    match set_flag valid_uri f name value v with
                    | Err err => Err err
                    | Ok f => Parse_flags valid_uri f rest'
                    end
                | None, [] => Err (Errorf ("flag needs an argument: -" +:+ name))
                end
          end
      end
  end.

(** ** The flags of the connector *)

Definition flagCACert : string := "caCert".
Definition ErrParse : error := Sentinel "cannot parse flags".

(** Each function defines its flags in turn; [settings] gives what the setters
    point to before the command line is parsed. *)
Definition AddLog (settings def : Log.LogSettings) : list (string * flag_value) :=
  [("logLevel", FLevel (NewLogLevelV (Log.LogLevelOf settings) (Log.LogLevelOf def)));
   ("logFileSize", FInt (Log.LogFileSize def));
   ("logFileCount", FInt (Log.LogFileCount def));
   ("logFileMaxAge", FInt (Log.LogFileMaxAge def));
   ("logFile", FString (Log.LogFile def))].

Definition AddTLS (settings def : TLSSettings) : list (string * flag_value) :=
  [("alpn", FStrings (NewStringSliceV (Alpn settings)));
   (flagCACert, FString (CACert def));
   ("cert", FString (Cert def));
   ("key", FString (Key def));
   ("tpmKey", FString (TPMKey def));
   ("tpmKeyPub", FString (TPMKeyPub def));
   ("tpmDevice", FString (TPMDevice def));
   ("tpmHandle", FUint64 (TPMHandle def))].

Definition AddHub (settings def : HubConnectionSettings) : list (string * flag_value) :=
  [("address", FURL (NewURLV (hub_Address settings) (hub_Address def)));
   ("deviceIdPattern", FString (hub_DeviceIDPattern def));
   ("deviceId", FString (hub_DeviceID def));
   ("tenantId", FString (hub_TenantID def));
   ("policyId", FString (hub_PolicyID def));
   ("authId", FString (hub_AuthID def));
   ("password", FString (hub_Password def));
   ("username", FString (hub_Username def));
   ("clientId", FString (hub_ClientID def));
   ("generic", FBool (hub_Generic def))]
  ++ AddTLS (hub_TLS settings) (hub_TLS def).

Definition AddLocalBroker (settings def : LocalConnectionSettings) : list (string * flag_value) :=
  [("localAddress", FURL (NewURLV (LocalAddress settings) (LocalAddress def)));
   ("localUsername", FString (LocalUsername def));
   ("localPassword", FString (LocalPassword def));
   ("localCACert", FString (LocalCACert def));
   ("localCert", FString (LocalCert def));
   ("localKey", FString (LocalKey def))].

Definition Add (settings : Settings) : list (string * flag_value) :=
  let def := DefaultSettings in
  AddLog (set_Log settings) (set_Log def)
  ++ AddHub (set_Hub settings) (set_Hub def)
  ++ AddLocalBroker (set_Local settings) (set_Local def)
  ++ [("provisioningFile", FString (ProvisioningFile def))].

Definition AddGlobal : list (string * flag_value) := [("configFile", FString "")].

(** The warning about a configuration file that was named and is no file, as the
    logger exports it; [quote] is the verb %q and [add] the Add of the logger's
    fields. *)
Definition ConfigCheck (add : Log.LogFields → Log.LogFields → Log.LogFields)
    (stat : string → stat_answer) (quote : string → string)
    (logger : Log.loggerExt) (configFile : string) : list (Log.LogLevel * string) :=
  if (0 <? slen configFile) && negb (FileExists stat configFile) then
    Log.Warnf add logger
      ("Provided configuration file " +:+ quote configFile +:+ " does not exist")
  else [].

(** Parse adds the version flag; the second component of a success tells whether
    the version was asked for, which ends the process. *)
Definition Parse valid_uri (defined : list (string * flag_value)) (args : list string)
    : result (FlagSet * bool) :=
  let f := MkFlagSet (list_to_map (defined ++ [("version", FBool false)])) ∅ in
  '(f, _) ← Parse_flags valid_uri f args;
  Ok (f, match formal f !! "version" with Some (FBool b) => b | _ => false end).

(** The name of the settings field a flag stands for. *)
Definition copy_name (name : string) : string :=
  if String.eqb name flagCACert then "CACert"
  else ReplaceAll (ReplaceAll name "Id" "ID") "tpm" "TPM".

(** The visit of one flag. *)
Definition copy_flag (formal : gmap string flag_value) (m : gmap string getter_value)
    (name : string) : gmap string getter_value :=
  match formal !! name with
  | Some v => <[copy_name name := flag_Get v]> m
  | None => m
  end.

(** The flags that were set, visited in lexicographical order. *)
Definition Copy (f : FlagSet) : gmap string getter_value :=
  foldl (copy_flag (formal f)) ∅ (merge_sort str_le (elements (actual f))).

(** The flags of the connector command, before parsing. *)
Definition zero_settings : Settings :=
  MkSettings (Log.MkLogSettings "" 0 0 0 0)
    (MkHub "" "" "" "" "" "" "" "" "" false false false
       (MkTLSSettings "" "" "" [] "" "" 0 ""))
    (MkLocal "" "" "" "" "" "") "".

Definition connector_flags : list (string * flag_value) :=
  Add zero_settings ++ AddGlobal ++ [("version", FBool false)].

(** ** The names *)

(** The exported fields of Settings and of the structs embedded in it. *)
Definition settings_fields : list string :=
  ["LogFile"; "LogLevel"; "LogFileSize"; "LogFileCount"; "LogFileMaxAge";
   "DeviceID"; "DeviceIDPattern"; "TenantID"; "PolicyID"; "Address"; "Password"; "Username";
   "ClientID"; "AuthID"; "Generic"; "UseCertificate"; "AutoProvisioningEnabled";
   "CACert"; "Cert"; "Key"; "Alpn"; "TPMKey"; "TPMKeyPub"; "TPMHandle"; "TPMDevice";
   "LocalAddress"; "LocalUsername"; "LocalPassword"; "LocalCACert"; "LocalCert"; "LocalKey";
   "ProvisioningFile"].

(** The field a key of the map is merged into: its first letter in upper case. *)
Definition field_name (key : string) : string :=
  match key with
  | "" => ""
  | String c s => String (Log.upper_byte c) s
  end.

Definition flag_names : list string := connector_flags.*1.

Lemma flag_names_nodup : NoDup flag_names.
Proof. apply (bool_decide_unpack _). vm_compute. exact I. Qed.

(** Different flags stand for different fields. *)
Lemma copy_names_nodup : NoDup (copy_name <$> flag_names).
Proof. apply (bool_decide_unpack _). vm_compute. exact I. Qed.

(** A name the parser takes apart from its value again. *)
Definition flag_name_ok (n : string) : bool :=
  byte_free "=" n && negb (HasPrefix n "-") && (0 <? slen n).

Lemma flag_names_ok : Forall (λ n, flag_name_ok n = true) flag_names.
Proof. apply (bool_decide_unpack _). vm_compute. exact I. Qed.

(** Every flag of the settings is merged into a field. *)
Lemma flag_fields :
  Forall (λ n, field_name (copy_name n) ∈ settings_fields) (Add zero_settings).*1.
Proof. apply (bool_decide_unpack _). vm_compute. exact I. Qed.

Lemma copy_name_inj n n' :
  n ∈ flag_names → n' ∈ flag_names → copy_name n = copy_name n' → n = n'.
Proof.
  intros [i Hi]%list_elem_of_lookup [j Hj]%list_elem_of_lookup Heq.
  assert (i = j) as ->; [|congruence].
  eapply NoDup_lookup; [apply copy_names_nodup| |];
    rewrite list_lookup_fmap, ?Hi, ?Hj; cbn; [done|by rewrite Heq].
Qed.

(** ** The command line *)

Section command_line.
Variable valid_uri : string → bool.

(** What Set makes of a value depends on the kind of the flag alone. *)
Lemma flag_Set_again t v v' t' :
  flag_Set valid_uri t v = Ok v' →
  is_bool v' = is_bool v ∧ flag_Set valid_uri t' v' = flag_Set valid_uri t' v.
Proof.
  destruct v as [s|n|b|n|u|l|lv]; cbn; intros H.
  - by simplify_eq.
  - by destruct (ParseInt t); simplify_eq.
  - by destruct (ParseBool t); simplify_eq.
  - by destruct (ParseUint0 t); simplify_eq.
  - unfold URLV_Set in *. by destruct (valid_uri t); cbn in H; simplify_eq.
  - unfold StringSliceV_Set in *. by destruct (slen t =? 0); cbn in H; simplify_eq.
  - by simplify_eq.
Qed.

Definition defined_flags : gmap string flag_value := list_to_map connector_flags.

Lemma defined_flags_name n : is_Some (defined_flags !! n) → n ∈ flag_names.
Proof.
  intros [v Hv]. apply elem_of_list_to_map_2 in Hv. unfold flag_names.
  apply list_elem_of_fmap. by exists (n, v).
Qed.

(** An argument that sets a flag. *)
Definition render (a : string * string) : string := "-" +:+ a.1 +:+ "=" +:+ a.2.

(** A flag that is defined, with a text its kind accepts. *)
Definition settable (a : string * string) : Prop :=
  ∃ v v', defined_flags !! a.1 = Some v ∧ flag_Set valid_uri a.2 v = Ok v'.

(** The last text given for every flag. *)
Definition assigned (l : list (string * string)) : gmap string string :=
  foldl (λ m a, <[a.1 := a.2]> m) ∅ l.

(** The state of the flag set after the arguments [l]. *)
Record parsed (l : list (string * string)) (f : FlagSet) : Prop := {
  ps_actual : actual f = dom (assigned l);
  ps_formal n : match defined_flags !! n with
    | None => formal f !! n = None
    | Some v => ∃ v', formal f !! n = Some v' ∧ is_bool v' = is_bool v ∧
        (∀ t, flag_Set valid_uri t v' = flag_Set valid_uri t v) ∧
        match assigned l !! n with
        | Some t => flag_Set valid_uri t v = Ok v'
        | None => v' = v
        end
    end;
}.

Lemma parsed_nil : parsed [] (MkFlagSet defined_flags ∅).
Proof.
  split; [symmetry; exact (dom_empty_L (D:=gset string))|]. intros n. destruct (defined_flags !! n) as [v|] eqn:E; [|done].
  exists v. by rewrite (lookup_empty n : assigned [] !! n = None).
Qed.

Lemma assigned_snoc l a : assigned (l ++ [a]) = <[a.1 := a.2]> (assigned l).
Proof. unfold assigned. by rewrite foldl_app. Qed.

Lemma parsed_set l f a v v' :
  parsed l f → defined_flags !! a.1 = Some v → flag_Set valid_uri a.2 v = Ok v' →
  ∃ w f', formal f !! a.1 = Some w ∧ is_bool w = is_bool v ∧
    set_flag valid_uri f a.1 a.2 w = Ok f' ∧ parsed (l ++ [a]) f'.
Proof.
  intros [Ha Hf] Hv Hset. pose proof (Hf a.1) as Hw. rewrite Hv in Hw.
  destruct Hw as (w & Hw & Hb & Hagain & _). exists w.
  exists (MkFlagSet (<[a.1 := v']> (formal f)) ({[a.1]} ∪ actual f)).
  split_and!; [done|done|unfold set_flag; by rewrite Hagain, Hset|].
  destruct (flag_Set_again _ _ _ a.2 Hset) as [Hb' _].
  split; cbn [formal actual].
  - by rewrite Ha, assigned_snoc, dom_insert_L.
  - intros n. rewrite assigned_snoc. destruct (decide (n = a.1)) as [->|Hne].
    + rewrite Hv, !lookup_insert_eq. exists v'. split_and!; [done|done| |done].
      intros t. by apply (flag_Set_again a.2).
    + rewrite !lookup_insert_ne by done. apply Hf.
Qed.

Lemma render_form n t :
  flag_name_ok n = true →
  arg_form_of (render (n, t)) = Flag (n +:+ "=" +:+ t) ∧
  HasPrefix (n +:+ "=" +:+ t) "-" || HasPrefix (n +:+ "=" +:+ t) "="
    || (slen (n +:+ "=" +:+ t) =? 0) = false ∧
  split_flag (n +:+ "=" +:+ t) = (n, Some t).
Proof.
  unfold flag_name_ok. intros H. bools. destruct n as [|c n]; [done|].
  match goal with H : byte_free _ _ = true |- _ => rename H into Hfree end.
  match goal with H : HasPrefix _ _ = false |- _ => rename H into Hpre end.
  cbn [byte_free] in Hfree. apply andb_true_iff in Hfree as [Hc Hfree].
  apply negb_true_iff in Hc.
  assert (Ascii.eqb c "-" = false) as Hd.
  { destruct (Ascii.eqb_spec c "-") as [->|]; [discriminate Hpre|done]. }
  assert (Ascii.eqb "-" c = false ∧ Ascii.eqb "=" c = false) as [Hd' Hc']
    by (rewrite !(Ascii.eqb_sym _ c); done).
  split; [|split].
  - unfold render, arg_form_of. cbn. by rewrite Hd.
  - unfold HasPrefix. cbn [String.append strip_prefix]. rewrite Hd', Hc'. cbn [orb].
    apply Z.eqb_neq. rewrite slen_cons. 
    change (n +:+ String "=" t) with (n +:+ "=" +:+ t).
    pose proof (slen_nonneg (n +:+ "=" +:+ t)). lia.
  - unfold split_flag. cbn [String.append].
    rewrite (IndexByte_first "=" n t) by done. cbv zeta.
    rewrite (proj2 (Z.leb_le 0 (slen n))) by apply slen_nonneg.
    assert (Z.to_nat (slen n) = String.length n) as -> by (unfold slen; lia).
    assert (Z.to_nat (slen n + 1) = String.length (n +:+ "=")) as ->
      by (rewrite slength_app; unfold slen; cbn; lia).
    rewrite (take_bytes_app n). f_equal. f_equal. 
    change (n +:+ String "=" t) with (n +:+ ("=" +:+ t)). rewrite <-(sapp_assoc n).
    apply drop_bytes_app.
Qed.

Lemma Parse_flags_rendered l1 l2 f :
  parsed l1 f → Forall settable l2 →
  ∃ f', Parse_flags valid_uri f (render <$> l2) = Ok (f', []) ∧ parsed (l1 ++ l2) f'.
Proof.
  intros Hf Hall. revert l1 f Hf. induction Hall as [|a l2 (v & v' & Hv & Hset) Hall IH];
    intros l1 f Hf.
  { exists f. by rewrite app_nil_r. }
  destruct (parsed_set _ _ _ _ _ Hf Hv Hset) as (w & f1 & Hw & Hb & Hset1 & Hf1).
  destruct (IH _ _ Hf1) as (f' & Hparse & Hf'). rewrite <-app_assoc in Hf'.
  exists f'. split; [|exact Hf'].
  assert (flag_name_ok a.1 = true) as Hok.
  { apply (proj1 (Forall_forall _ _) flag_names_ok), defined_flags_name. by exists v. }
  destruct a as [n t]. cbn [fst snd] in *.
  destruct (render_form n t Hok) as (Hform & Hbad & Hsplit).
  rewrite fmap_cons. cbn [Parse_flags]. rewrite Hform, Hbad, Hsplit, Hw. cbn [default from_option id].
  destruct (is_bool w); rewrite Hset1; exact Hparse.
Qed.

(** ** Copy *)

Lemma Copy_fold_lookup (fm : gmap string flag_value) ns key g :
  (∀ n, n ∈ ns → n ∈ flag_names) →
  foldl (copy_flag fm) ∅ ns !! key = Some g ↔
  ∃ n v, n ∈ ns ∧ fm !! n = Some v ∧ key = copy_name n ∧ g = flag_Get v.
Proof.
  induction ns as [|n ns IH] using rev_ind; intros Hns.
  { cbn. rewrite lookup_empty. set_solver. }
  rewrite foldl_app. cbn [foldl]. unfold copy_flag at 1.
  assert (∀ n', n' ∈ ns → n' ∈ flag_names) as Hns' by set_solver.
  specialize (IH Hns'). destruct (fm !! n) as [v|] eqn:E.
  - destruct (decide (key = copy_name n)) as [->|Hne].
    + rewrite lookup_insert_eq. split.
      * intros [= <-]. exists n, v. set_solver.
      * intros (n' & v' & Hin & Hv' & Heq & ->).
        assert (n' = n) as -> by (symmetry; apply copy_name_inj; [set_solver..|done]).
        congruence.
    + rewrite lookup_insert_ne by done. rewrite IH. split.
      * intros (n' & v' & ? & ? & ? & ?). exists n', v'. set_solver.
      * intros (n' & v' & [Hin|Hin%list_elem_of_singleton]%elem_of_app & Hv' & Heq & ->).
        -- exists n', v'. done.
        -- congruence.
  - rewrite IH. split.
    + intros (n' & v' & ? & ? & ? & ?). exists n', v'. set_solver.
    + intros (n' & v' & [Hin|Hin%list_elem_of_singleton]%elem_of_app & Hv' & Heq & ->).
      * exists n', v'. done.
      * congruence.
Qed.

Lemma parsed_names l f : parsed l f → Forall settable l →
  ∀ n, n ∈ dom (assigned l) → n ∈ flag_names.
Proof.
  intros _ Hall. assert (∀ n t, assigned l !! n = Some t → ∃ a, a ∈ l ∧ a.1 = n) as Hin.
  { clear. induction l as [|a l IH] using rev_ind; intros n t Hn;
      [change (assigned []) with (∅ : gmap string string) in Hn; by rewrite lookup_empty in Hn|].
    rewrite assigned_snoc in Hn. destruct (decide (a.1 = n)) as [<-|Hne].
    - exists a. set_solver.
    - rewrite lookup_insert_ne in Hn by done. destruct (IH _ _ Hn) as (a' & ? & ?).
      exists a'. set_solver. }
  intros n [t Ht]%elem_of_dom. destruct (Hin _ _ Ht) as (a & Ha & <-).
  rewrite Forall_forall in Hall. destruct (Hall a Ha) as (v & v' & Hv & _).
  apply defined_flags_name. by exists v.
Qed.

(** C23.  What is written on the command line arrives in the settings: any list of
    defined flags with texts their kinds accept is parsed without a rest, and
    Copy gives exactly these flags, each with the value of its last text, under
    the name of the field of the settings it stands for; defaults are never
    copied. *)
Theorem command_line_round_trip l :
  Forall settable l →
  ∃ f, Parse_flags valid_uri (MkFlagSet defined_flags ∅) (render <$> l) = Ok (f, []) ∧
  (∀ key g, Copy f !! key = Some g ↔
    ∃ n t v v', assigned l !! n = Some t ∧ key = copy_name n ∧
      defined_flags !! n = Some v ∧ flag_Set valid_uri t v = Ok v' ∧ g = flag_Get v') ∧
  (∀ n, n ∈ (Add zero_settings).*1 → field_name (copy_name n) ∈ settings_fields).
Proof.
  intros Hall. destruct (Parse_flags_rendered [] l _ parsed_nil Hall) as (f & Hparse & Hf).
  cbn [app] in Hf. exists f. split; [done|].
  split; [|intros n Hn; exact (proj1 (Forall_forall _ _) flag_fields n Hn)].
  intros key g. pose proof (parsed_names _ _ Hf Hall) as Hnames. destruct Hf as [Ha Hf].
  assert (∀ n, n ∈ merge_sort str_le (elements (actual f)) ↔ n ∈ dom (assigned l)) as Hsort.
  { intros n. by rewrite merge_sort_Permutation, elem_of_elements, Ha. }
  unfold Copy. rewrite Copy_fold_lookup by (intros n Hn; by apply Hnames, Hsort).
  split.
  - intros (n & v & Hin & Hv & -> & ->). apply Hsort, elem_of_dom in Hin as [t Ht].
    specialize (Hf n). destruct (defined_flags !! n) as [v0|] eqn:E; [|congruence].
    destruct Hf as (v' & Hv' & _ & _ & Hset). rewrite Ht in Hset.
    exists n, t, v0, v'. split_and!; congruence.
  - intros (n & t & v & v' & Ht & -> & Hv & Hset & ->). exists n, v'.
    specialize (Hf n). rewrite Hv in Hf. destruct Hf as (w & Hw & _ & _ & Hsetw).
    rewrite Ht in Hsetw. split_and!; [|congruence|done|done].
    apply Hsort, elem_of_dom. by exists t.
Qed.
End command_line.

Lemma command_line_round_trip_witness :
  ∃ f, Parse_flags (λ _, true) (MkFlagSet defined_flags ∅)
      ["-deviceId=ns:dev"; "-generic=true"; "-deviceId=ns:other"] = Ok (f, []) ∧
    Copy f !! "deviceID" = Some (GString "ns:other") ∧
    Copy f !! "generic" = Some (GBool true).
Proof.
  destruct (command_line_round_trip (λ _, true)
    [("deviceId", "ns:dev"); ("generic", "true"); ("deviceId", "ns:other")])
    as (f & Hp & Hcopy & _).
  - repeat constructor; eexists _, _; (split; [vm_compute; reflexivity|reflexivity]).
  - exists f. split; [exact Hp|]. split; apply Hcopy.
    + exists "deviceId", "ns:other", (FString ""), (FString "ns:other").
      split_and!; vm_compute; reflexivity.
    + exists "generic", "true", (FBool false), (FBool true).
      split_and!; vm_compute; reflexivity.
Defined.
