(* ===== verification/Main.v ===== *)
(** * The command: cmd/connector/main.go, and connector/trace.go

    What the command makes of its arguments before the application runs, and the
    tracing of messages in the router. *)

From S2P Require Import Prelude GoStrings Util Message Settings Flags.

Local Open Scope Z_scope.

(** ** connector/trace.go *)

Section trace.
Context {A : Type}.
(** [json.Compact] and the handler that is wrapped. *)
Variable compact : string → result string.
Variable h : message → result A.

(** The logged text, if any, and the answer; the handler is not called when a
    traced payload is no JSON. *)
Definition NewTrace (prefixes : list string) (msg : message) : option string * result A :=
  if slen (Payload msg) =? 0 then (None, h msg) else
  match TopicFromCtx (Context msg) with
  | Some msgTopic =>
      if existsb (HasPrefix msgTopic) prefixes then
        match compact (Payload msg) with
        | Err err => (None, Err err)
        | Ok text => (Some text, h msg)
        end
      else (None, h msg)
  | None => (None, h msg)
  end.

(** Tracing changes what a handler answers only for a payload that is no JSON. *)
Lemma NewTrace_transparent prefixes msg text :
  compact (Payload msg) = Ok text → (NewTrace prefixes msg).2 = h msg.
Proof. intros H. unfold NewTrace. rewrite H. by repeat case_match. Qed.
End trace.

(** SetupTracing: the prefixes of TRACE_TOPIC_PREFIX, if it is set. *)
Definition SetupTracing (tracingPrefixes : string) : option (list string) :=
  if 0 <? slen tracingPrefixes then Some (Split tracingPrefixes ",") else None.

(** ** cmd/connector/main.go *)

Section run.
Variable valid_uri : string → bool.
Variable stat : string → stat_answer.
Variable read : string → result string.
Variable unmarshal : string → Settings → Settings * option error.
(** [mergo.Map] of the copied flags into the settings. *)
Variable mergo_map : gmap string getter_value → Settings → result Settings.
Variable request_uri : string → result url.
(** app.Run; [None] while it runs. *)
Variable app_run : Settings → gmap string getter_value → option (option error).

(** How the command ends: by the exit of the version flag, or with an answer. *)
Inductive run_end := VersionExit | Running | Returned (err : option error).

Definition run (args : list string) : run_end :=
  match Parse valid_uri (Add zero_settings ++ AddGlobal) args with
  | Err err => Returned (Some (if errors_is err ErrHelp then err else ErrParse))
  | Ok (_, true) => VersionExit
  | Ok (f, false) =>
      let configFile :=
        match formal f !! "configFile" with Some (FString s) => s | _ => "" end in
      match ReadConfig stat read unmarshal configFile (StructPtr DefaultSettings) with
      | (_, Some err) => Returned (Some (Wrap err "cannot parse config"))
      | (StructPtr settings, None) =>
          let cli := Copy f in
          match mergo_map cli settings with
          | Err err => Returned (Some (Wrap err "cannot process settings"))
          | Ok settings =>
              match ValidateStatic request_uri stat settings with
              | Some err => Returned (Some (Wrap err "settings validation error"))
              | None =>
                  match app_run settings cli with
                  | None => Running
                  | Some err => Returned err
                  end
              end
          end
      | (_, None) => Returned None
      end
  end.

(** The exit code of the process. *)
Definition main (args : list string) : option Z :=
  match run args with
  | VersionExit => Some 0
  | Running => None
  | Returned None => Some 0
  | Returned (Some err) =>
      if errors_is err ErrHelp then Some 0
      else if errors_is err ErrParse then Some 2 else Some 1
  end.

(** Arguments that cannot be parsed end with code 2, a request for help with 0,
    and neither reads the configuration. *)
Lemma main_parse_error args err :
  Parse valid_uri (Add zero_settings ++ AddGlobal) args = Err err →
  main args = Some (if errors_is err ErrHelp then 0 else 2).
Proof.
  intros H. unfold main, run. rewrite H. destruct (errors_is err ErrHelp) eqn:E; [by rewrite E|].
  done.
Qed.
End run.
